(** * zulip-client: the synchronization subsystem, embedded and verified

    A shallow embedding of the TypeScript sources

    - [src/api/types.ts]         the shapes of the remote API,
    - [src/api/client.ts]        [ZulipClient]: [request], [register],
                                 [getTopicMessages],
    - [src/storage/schema.ts], [src/storage/database.ts]
                                 the SQLite store,
    - [src/config/credentials.ts],
    - [src/cli/sync.ts], [src/cli/unread.ts], [src/index.ts]
                                 the commands,

    followed by the properties of the synchronization pass.

    Conventions of the embedding.

    - JavaScript numbers that hold identifiers, counts and time stamps are
      integers of [Z].
    - The program is written in a state-and-exception monad [M] over a
      [World]: the store, the clock, the log of HTTP requests, the log of
      exported files, and the two sources of failure the program is exposed
      to (a script of transport failures and a countdown to a failing store
      statement).  A thrown exception keeps the effects made before it,
      except inside [transaction], which restores the store.
    - The remote service and the credentials file are the environment
      [Env]; they do not change during a run.
    - Console output is not modelled. *)

From Stdlib Require Import ZArith List Ascii String Bool Lia Arith DecimalString Sorted FinFun.
From Stdlib Require Import Permutation.
From Stdlib Require OrderedTypeEx.
Import ListNotations.

Local Open Scope string_scope.
Local Open Scope list_scope.
Local Open Scope Z_scope.

Set Implicit Arguments.

(* ===================================================================== *)
(** ** API types ([src/api/types.ts]) *)
(* ===================================================================== *)

(** [ZulipMessage]: the fields the program reads. *)
Record ZulipMessage := {
  zm_id : Z;                      (* id *)
  zm_sender_email : string;       (* sender_email *)
  zm_sender_full_name : string;   (* sender_full_name *)
  zm_content : string;            (* content *)
  zm_timestamp : Z;               (* timestamp *)
  zm_subject : string             (* subject *)
}.

(** [result: 'success' | 'error'] *)
Inductive ApiResult := success | error.

Record GetMessagesResponse := {
  gm_result : ApiResult;
  gm_msg : string;
  gm_messages : list ZulipMessage;
  gm_found_newest : bool
}.

Record UnreadStreamInfo := {
  us_stream_id : Z;
  us_topic : string;
  us_unread_message_ids : list Z
}.

(** [UnreadMsgs]: [streams] is the only field the store is fed from; [pms],
    [huddles], [mentions] and [count] are only printed. *)
Record UnreadMsgs := {
  um_streams : list UnreadStreamInfo
}.

Record StreamInfo := {
  si_stream_id : Z;
  si_name : string
}.

Record RegisterResponse := {
  rr_result : ApiResult;
  rr_msg : string;
  rr_unread_msgs : option UnreadMsgs;        (* unread_msgs? *)
  rr_subscriptions : option (list StreamInfo) (* subscriptions? *)
}.

Inductive NarrowOperator := op_stream | op_topic | op_sender | op_search | op_is | op_channel.

Record NarrowFilter := {
  operator : NarrowOperator;
  operand : string
}.

(** The [anchor] of [getTopicMessages]: ['oldest' | number]. *)
Inductive Anchor := oldest | anchorId (n : Z).

(* ===================================================================== *)
(** ** The transport: what [fetch] can be asked and can answer *)
(* ===================================================================== *)

Inductive Request :=
| POST_register
| GET_messages (narrow : list NarrowFilter) (anchor : Anchor) (num_before num_after : Z).

(** The parsed body of a response ([response.json()]). *)
Inductive Json :=
| RegisterJson (r : RegisterResponse)
| MessagesJson (r : GetMessagesResponse).

Record HttpResponse := {
  status : Z;
  text : string;
  json : Json
}.

(** [response.ok]: the status is in the range 200-299. *)
Definition response_ok (r : HttpResponse) : bool :=
  (200 <=? status r) && (status r <=? 299).

(** How a call of [fetch] can fail on the way: the promise rejects (no
    connection), or an error response comes back in place of the service's
    answer (a 5xx of a proxy, a 429 of the rate limiter, ...). *)
Inductive Fault :=
| Rejected
| ErrorReply (status : Z) (text : string).

(** The body of an error response: [result] is ['error'], [msg] the reason. *)
Definition error_json (r : Request) (reason : string) : Json :=
  match r with
  | POST_register =>
      RegisterJson {| rr_result := error; rr_msg := reason;
                      rr_unread_msgs := None; rr_subscriptions := None |}
  | GET_messages _ _ _ _ =>
      MessagesJson {| gm_result := error; gm_msg := reason;
                      gm_messages := []; gm_found_newest := false |}
  end.

(** A remote service answers every request; it has no state of its own. *)
Definition Server := Request -> HttpResponse.

(* ===================================================================== *)
(** ** Credentials ([src/config/credentials.ts]) *)
(* ===================================================================== *)

Record SiteCredentials := {
  email : string;
  api_key : string;
  site : string          (* the base URL *)
}.

Record CredentialsFile := {
  default : string;
  sites : list (string * SiteCredentials)   (* Record<string, SiteCredentials>, in key order *)
}.

(** The environment of a run: the credentials file (absent when the file does
    not exist) and, for every base URL, the service that answers there. *)
Record Env := {
  credentialsFile : option CredentialsFile;
  internet : string -> Server
}.

(* ===================================================================== *)
(** ** The store ([src/storage/schema.ts]) *)
(* ===================================================================== *)

Record SiteRow := {
  site_id : Z;
  site_name : string;
  site_url : string;
  site_last_sync : option Z
}.

Record StreamRow := {
  stream_row_id : Z;        (* streams.id *)
  stream_site_id : Z;       (* streams.site_id *)
  stream_zulip_id : Z;      (* streams.stream_id *)
  stream_name : string
}.

Record TopicRow := {
  topic_row_id : Z;         (* topics.id *)
  topic_stream_id : Z;      (* topics.stream_id, a streams.id *)
  topic_name : string;
  last_message_id : option Z
}.

(** A row of [messages]; it is also the [StoredMessage] of the export
    helpers. [raw_json] holds the message it was made from. *)
Record StoredMessage := {
  sm_id : Z;                (* messages.id *)
  sm_topic_id : Z;
  sm_message_id : Z;
  sm_sender_name : string;
  sm_sender_email : string;
  sm_content : string;
  sm_content_text : string;
  sm_timestamp : Z;
  sm_raw_json : ZulipMessage
}.

(** A row of [unread_messages]. Its [id] column is never read. *)
Record UnreadRow := {
  ur_site_id : Z;
  ur_message_id : Z;
  ur_stream_id : Z;
  ur_stream_name : string;
  ur_topic_name : string
}.

Record DB := {
  tbl_sites : list SiteRow;
  tbl_streams : list StreamRow;
  tbl_topics : list TopicRow;
  tbl_messages : list StoredMessage;
  tbl_unread : list UnreadRow
}.

Definition emptyDB : DB :=
  {| tbl_sites := []; tbl_streams := []; tbl_topics := [];
     tbl_messages := []; tbl_unread := [] |}.

Definition set_sites (x : list SiteRow) (d : DB) : DB :=
  {| tbl_sites := x; tbl_streams := tbl_streams d; tbl_topics := tbl_topics d;
     tbl_messages := tbl_messages d; tbl_unread := tbl_unread d |}.
Definition set_streams (x : list StreamRow) (d : DB) : DB :=
  {| tbl_sites := tbl_sites d; tbl_streams := x; tbl_topics := tbl_topics d;
     tbl_messages := tbl_messages d; tbl_unread := tbl_unread d |}.
Definition set_topics (x : list TopicRow) (d : DB) : DB :=
  {| tbl_sites := tbl_sites d; tbl_streams := tbl_streams d; tbl_topics := x;
     tbl_messages := tbl_messages d; tbl_unread := tbl_unread d |}.
Definition set_messages (x : list StoredMessage) (d : DB) : DB :=
  {| tbl_sites := tbl_sites d; tbl_streams := tbl_streams d; tbl_topics := tbl_topics d;
     tbl_messages := x; tbl_unread := tbl_unread d |}.
Definition set_unread (x : list UnreadRow) (d : DB) : DB :=
  {| tbl_sites := tbl_sites d; tbl_streams := tbl_streams d; tbl_topics := tbl_topics d;
     tbl_messages := tbl_messages d; tbl_unread := x |}.

(** [INTEGER PRIMARY KEY AUTOINCREMENT]: the next row id is one more than the
    largest in the table (rows of these tables are never deleted). *)
Definition next_id {R : Type} (key : R -> Z) (rows : list R) : Z :=
  1 + fold_right (fun r acc => Z.max (key r) acc) 0 rows.

(* ===================================================================== *)
(** ** Exported files ([src/storage/json-export.ts]) *)
(* ===================================================================== *)

(** What [exportTopicToJson] writes, up to its layout: the file is named
    after the first three fields. *)
Record TopicExportJson := {
  ex_site : string;
  ex_stream : string;
  ex_topic : string;
  ex_messages : list StoredMessage;
  ex_unreadMessageIds : list Z;
  ex_exportedAt : Z
}.

(** [sanitizeFilename], for names made of ASCII characters (outside ASCII,
    JavaScript knows more white space and more capital letters than the
    functions below). *)

(** A character of the first class of [sanitizeFilename]: less-than,
    greater-than, colon, double quote, slash, backslash, bar, question mark,
    asterisk. *)
Definition is_special (c : Ascii.ascii) : bool :=
  existsb (Ascii.eqb c) ["<"; ">"; ":"; "034"; "/"; "092"; "|"; "?"; "*"]%char.

(** A character of the class [\s]: tab, line feed, vertical tab, form feed,
    carriage return, space. *)
Definition is_space (c : Ascii.ascii) : bool :=
  existsb (Ascii.eqb c) ["009"; "010"; "011"; "012"; "013"; " "]%char.

Definition is_hyphen (c : Ascii.ascii) : bool := Ascii.eqb c "-"%char.

(** [replace] with a class and the flag [g]: every character of the class
    becomes a hyphen. *)
Fixpoint replace_each (p : Ascii.ascii -> bool) (s : string) : string :=
  match s with
  | EmptyString => EmptyString
  | String c rest => String (if p c then "-"%char else c) (replace_each p rest)
  end.

(** [replace] with a repeated class and the flag [g]: every maximal run of
    characters of the class becomes one hyphen; [in_run] tells that the
    character before was of the class. *)
Fixpoint replace_runs (p : Ascii.ascii -> bool) (in_run : bool) (s : string) : string :=
  match s with
  | EmptyString => EmptyString
  | String c rest =>
      if p c
      then if in_run then replace_runs p true rest
           else String "-"%char (replace_runs p true rest)
      else String c (replace_runs p false rest)
  end.

(** [toLowerCase] on an ASCII character: the letters A-Z become a-z. *)
Definition lower (c : Ascii.ascii) : Ascii.ascii :=
  let n := Ascii.nat_of_ascii c in
  if ((65 <=? n) && (n <=? 90))%nat then Ascii.ascii_of_nat (n + 32) else c.

Fixpoint toLowerCase (s : string) : string :=
  match s with
  | EmptyString => EmptyString
  | String c rest => String (lower c) (toLowerCase rest)
  end.

Definition sanitizeFilename (name : string) : string :=
  toLowerCase
    (replace_runs is_hyphen false
       (replace_runs is_space false
          (replace_each is_special name))).

(** The name is made of ASCII characters. *)
Definition ascii_name (s : string) : Prop :=
  forallb (fun c => (Ascii.nat_of_ascii c <? 128)%nat) (list_ascii_of_string s) = true.

(** Two hyphens in a row; [prev] tells that the character before was a
    hyphen. *)
Fixpoint hyphen_pairs (prev : bool) (s : string) : bool :=
  match s with
  | EmptyString => false
  | String c rest => (prev && is_hyphen c) || hyphen_pairs (is_hyphen c) rest
  end.

(** A name that [sanitizeFilename] has nothing to do on: no character of the
    two classes, no capital letter, no two hyphens in a row. *)
Definition clean_name (s : string) : Prop :=
  forallb (fun c => negb (is_special c) && negb (is_space c) && Ascii.eqb (lower c) c)
          (list_ascii_of_string s) = true /\
  hyphen_pairs false s = false.

(* ===================================================================== *)
(** ** The world and the monad *)
(* ===================================================================== *)

Inductive Err :=
| FetchFailed                              (* fetch() rejected *)
| ApiError (status : Z) (text : string)    (* "Zulip API error <status>: <text>" *)
| RegisterFailed (msg : string)            (* "Register failed: <msg>" *)
| GetMessagesFailed (msg : string)         (* "Get messages failed: <msg>" *)
| CredentialsNotFound                      (* "Credentials file not found at ..." *)
| SiteNotFound (site : string)             (* "Site '<site>' not found. ..." *)
| SqliteError                              (* a statement of the store threw *)
| OutOfFuel.                               (* the bound on loop iterations was reached: not an outcome of the program *)

Inductive Result (A : Type) :=
| Ok (a : A)
| Throw (e : Err).
Arguments Ok {A} a.
Arguments Throw {A} e.

Record World := {
  db : DB;
  clock : Z;                            (* the time [new Date()] reads next *)
  sent : list (string * Request);       (* requests issued so far, with the base URL, oldest first *)
  exported : list TopicExportJson;      (* files written so far, oldest first *)
  net : list (option Fault);            (* for the coming calls of fetch, in order: [Some f] makes
                                           the call fail with [f], [None] lets it reach the service;
                                           past the end of the script every call reaches the service *)
  fuse : option nat                     (* [Some k]: k more statements of the store run, the next
                                           one throws; [None]: no statement throws *)
}.

Definition set_db (x : DB) (w : World) : World :=
  {| db := x; clock := clock w; sent := sent w; exported := exported w; net := net w; fuse := fuse w |}.
Definition set_clock (x : Z) (w : World) : World :=
  {| db := db w; clock := x; sent := sent w; exported := exported w; net := net w; fuse := fuse w |}.
Definition set_sent (x : list (string * Request)) (w : World) : World :=
  {| db := db w; clock := clock w; sent := x; exported := exported w; net := net w; fuse := fuse w |}.
Definition set_exported (x : list TopicExportJson) (w : World) : World :=
  {| db := db w; clock := clock w; sent := sent w; exported := x; net := net w; fuse := fuse w |}.
Definition set_net (x : list (option Fault)) (w : World) : World :=
  {| db := db w; clock := clock w; sent := sent w; exported := exported w; net := x; fuse := fuse w |}.
Definition set_fuse (x : option nat) (w : World) : World :=
  {| db := db w; clock := clock w; sent := sent w; exported := exported w; net := net w; fuse := x |}.

Definition M (A : Type) : Type := World -> Result A * World.

Definition ret {A} (a : A) : M A := fun w => (Ok a, w).

Definition throw {A} (e : Err) : M A := fun w => (Throw e, w).

Definition bind {A B} (m : M A) (f : A -> M B) : M B :=
  fun w =>
    match m w with
    | (Ok a, w') => f a w'
    | (Throw e, w') => (Throw e, w')
    end.

Declare Scope m_scope.
Delimit Scope m_scope with m.
Notation "x <- c1 ;; c2" := (bind c1 (fun x => c2))
  (at level 61, c1 at next level, right associativity) : m_scope.
Notation "c1 ;; c2" := (bind c1 (fun _ => c2))
  (at level 61, right associativity) : m_scope.
Local Open Scope m_scope.

(** [for (const x of xs) { acc = body(acc, x) }] *)
Fixpoint forOf {X A} (xs : list X) (body : A -> X -> M A) (acc : A) : M A :=
  match xs with
  | [] => ret acc
  | x :: rest => acc' <- body acc x ;; forOf rest body acc'
  end.

(** [new Date()]: reads the clock, which moves on. *)
Definition now : M Z :=
  fun w => (Ok (clock w), set_clock (clock w + 1) w).

(** Every statement run against the store first passes the fuse. *)
Definition tick : M unit :=
  fun w =>
    match fuse w with
    | Some O => (Throw SqliteError, set_fuse None w)
    | Some (S k) => (Ok tt, set_fuse (Some k) w)
    | None => (Ok tt, w)
    end.

(** [db.prepare(sql).get(...)] / [.all(...)]: a statement that reads. *)
Definition query {A} (q : DB -> A) : M A :=
  tick ;; fun w => (Ok (q (db w)), w).

(** [db.prepare(sql).run(...)]: a statement that writes; it yields what the
    caller reads off the result ([lastInsertRowid], [changes]).  A statement
    that violates a constraint throws and leaves the store as it was. *)
Definition run {A} (u : DB -> Result (A * DB)) : M A :=
  tick ;; fun w =>
    match u (db w) with
    | Ok (a, d) => (Ok a, set_db d w)
    | Throw e => (Throw e, w)
    end.

(** [db.transaction(f)(...)]: when [f] throws, the store is rolled back to
    what it was when the transaction began, and the exception goes on. *)
Definition transaction {A} (m : M A) : M A :=
  fun w =>
    match m w with
    | (Ok a, w') => (Ok a, w')
    | (Throw e, w') => (Throw e, set_db (db w) w')
    end.

(* ===================================================================== *)
(** ** Small helpers for JavaScript idioms *)
(* ===================================================================== *)

(** [a || b] on an optional string: [undefined] and the empty string are
    falsy. *)
Definition str_or (a : option string) (b : string) : string :=
  match a with
  | Some s => if String.eqb s "" then b else s
  | None => b
  end.

(** [a || undefined] on [number | null]: [null] and [0] are falsy. *)
Definition num_or_undefined (a : option Z) : option Z :=
  match a with
  | Some n => if n =? 0 then None else Some n
  | None => None
  end.

(** [String(n)] for an integer. *)
Definition string_of_Z (n : Z) : string :=
  DecimalString.NilZero.string_of_int (Z.to_int n).

(** [Math.max(...xs)] for a non-empty array (the callers check). *)
Definition Math_max (xs : list Z) : Z :=
  match xs with
  | [] => 0
  | x :: rest => fold_left Z.max rest x
  end.

(** [Map<number, string>]: [set] puts the binding in front, [get] takes the
    first binding of the key, so that the last [set] of a key wins. *)
Definition NumMap := list (Z * string).

Definition map_set (k : Z) (v : string) (m : NumMap) : NumMap := (k, v) :: m.

Definition map_get (k : Z) (m : NumMap) : option string :=
  match find (fun kv => fst kv =? k) m with
  | Some kv => Some (snd kv)
  | None => None
  end.

Section Model.

(** [convert] of the package html-to-text, with the options the program
    passes. *)
Variable convert : string -> string.

(* ===================================================================== *)
(** ** Store operations ([src/storage/database.ts]) *)
(* ===================================================================== *)

(** [SELECT id FROM sites WHERE name = ?] *)
Definition select_site (name : string) (d : DB) : option SiteRow :=
  find (fun r => String.eqb (site_name r) name) (tbl_sites d).

(** [INSERT INTO sites (name, url) VALUES (?, ?)]; the caller has just seen
    that no row has this name. *)
Definition insert_site (name url : string) (d : DB) : Result (Z * DB) :=
  let i := next_id site_id (tbl_sites d) in
  Ok (i, set_sites (tbl_sites d ++
        [{| site_id := i; site_name := name; site_url := url; site_last_sync := None |}]) d).

Definition getOrCreateSite (name url : string) : M Z :=
  existing <- query (select_site name) ;;
  match existing with
  | Some r => ret (site_id r)
  | None => run (insert_site name url)
  end.

(** [UPDATE sites SET last_sync = ? WHERE id = ?] *)
Definition update_site_last_sync (t siteId : Z) (d : DB) : Result (unit * DB) :=
  Ok (tt, set_sites (map (fun r =>
        if site_id r =? siteId
        then {| site_id := site_id r; site_name := site_name r; site_url := site_url r;
                site_last_sync := Some t |}
        else r) (tbl_sites d)) d).

Definition updateSiteLastSync (siteId : Z) : M unit :=
  t <- now ;;
  run (update_site_last_sync t siteId).

(** [SELECT id FROM streams WHERE site_id = ? AND stream_id = ?] *)
Definition select_stream (siteId streamId : Z) (d : DB) : option StreamRow :=
  find (fun r => (stream_site_id r =? siteId) && (stream_zulip_id r =? streamId)) (tbl_streams d).

(** [UPDATE streams SET name = ? WHERE id = ?] *)
Definition update_stream_name (name : string) (rowId : Z) (d : DB) : Result (unit * DB) :=
  Ok (tt, set_streams (map (fun r =>
        if stream_row_id r =? rowId
        then {| stream_row_id := stream_row_id r; stream_site_id := stream_site_id r;
                stream_zulip_id := stream_zulip_id r; stream_name := name |}
        else r) (tbl_streams d)) d).

(** [INSERT INTO streams (site_id, stream_id, name) VALUES (?, ?, ?)] *)
Definition insert_stream (siteId streamId : Z) (name : string) (d : DB) : Result (Z * DB) :=
  let i := next_id stream_row_id (tbl_streams d) in
  Ok (i, set_streams (tbl_streams d ++
        [{| stream_row_id := i; stream_site_id := siteId; stream_zulip_id := streamId;
            stream_name := name |}]) d).

Definition getOrCreateStream (siteId streamId : Z) (name : string) : M Z :=
  existing <- query (select_stream siteId streamId) ;;
  match existing with
  | Some r =>
      (* Update name if changed *)
      run (update_stream_name name (stream_row_id r)) ;;
      ret (stream_row_id r)
  | None => run (insert_stream siteId streamId name)
  end.

(** [SELECT id FROM topics WHERE stream_id = ? AND name = ?] *)
Definition select_topic (streamId : Z) (name : string) (d : DB) : option TopicRow :=
  find (fun r => (topic_stream_id r =? streamId) && String.eqb (topic_name r) name) (tbl_topics d).

(** [INSERT INTO topics (stream_id, name) VALUES (?, ?)] *)
Definition insert_topic (streamId : Z) (name : string) (d : DB) : Result (Z * DB) :=
  let i := next_id topic_row_id (tbl_topics d) in
  Ok (i, set_topics (tbl_topics d ++
        [{| topic_row_id := i; topic_stream_id := streamId; topic_name := name;
            last_message_id := None |}]) d).

Definition getOrCreateTopic (streamId : Z) (name : string) : M Z :=
  existing <- query (select_topic streamId name) ;;
  match existing with
  | Some r => ret (topic_row_id r)
  | None => run (insert_topic streamId name)
  end.

(** [SELECT last_message_id FROM topics WHERE id = ?], then
    [result?.last_message_id ?? null]. *)
Definition select_last_message_id (topicId : Z) (d : DB) : option Z :=
  match find (fun r => topic_row_id r =? topicId) (tbl_topics d) with
  | Some r => last_message_id r
  | None => None
  end.

Definition getTopicLastMessageId (topicId : Z) : M (option Z) :=
  query (select_last_message_id topicId).

(** [UPDATE topics SET last_message_id = ? WHERE id = ?] *)
Definition update_last_message_id (messageId topicId : Z) (d : DB) : Result (unit * DB) :=
  Ok (tt, set_topics (map (fun r =>
        if topic_row_id r =? topicId
        then {| topic_row_id := topic_row_id r; topic_stream_id := topic_stream_id r;
                topic_name := topic_name r; last_message_id := Some messageId |}
        else r) (tbl_topics d)) d).

Definition updateTopicLastMessageId (topicId messageId : Z) : M unit :=
  run (update_last_message_id messageId topicId).

(** Is there a row of [messages] with this [(topic_id, message_id)]? *)
Definition has_message (topicId messageId : Z) (rows : list StoredMessage) : bool :=
  existsb (fun r => (sm_topic_id r =? topicId) && (sm_message_id r =? messageId)) rows.

(** [INSERT OR IGNORE INTO messages (...) VALUES (...)] under
    [UNIQUE(topic_id, message_id)]; the result is [changes]. *)
Definition insert_or_ignore_message (topicId : Z) (msg : ZulipMessage) (contentText : string)
    (d : DB) : Result (Z * DB) :=
  if has_message topicId (zm_id msg) (tbl_messages d)
  then Ok (0, d)
  else Ok (1, set_messages (tbl_messages d ++
        [{| sm_id := next_id sm_id (tbl_messages d);
            sm_topic_id := topicId;
            sm_message_id := zm_id msg;
            sm_sender_name := zm_sender_full_name msg;
            sm_sender_email := zm_sender_email msg;
            sm_content := zm_content msg;
            sm_content_text := contentText;
            sm_timestamp := zm_timestamp msg;
            sm_raw_json := msg |}]) d).

(** The body of [insertMany]: [inserted] is the counter of the enclosing
    function. *)
Definition insertMany_body (topicId : Z) (inserted : Z) (msg : ZulipMessage) : M Z :=
  let contentText := convert (zm_content msg) in
  changes <- run (insert_or_ignore_message topicId msg contentText) ;;
  if 0 <? changes then ret (inserted + 1) else ret inserted.

Definition insertMessages (topicId : Z) (messages : list ZulipMessage) : M Z :=
  transaction (forOf messages (insertMany_body topicId) 0).

(** [DELETE FROM unread_messages WHERE site_id = ?] *)
Definition delete_unread (siteId : Z) (d : DB) : Result (unit * DB) :=
  Ok (tt, set_unread (filter (fun r => negb (ur_site_id r =? siteId)) (tbl_unread d)) d).

Definition clearUnreadMessages (siteId : Z) : M unit :=
  run (delete_unread siteId).

(** [INSERT INTO unread_messages (...) VALUES (...)] under
    [UNIQUE(site_id, message_id)]: a second row with the same pair is a
    constraint violation. *)
Definition insert_unread (siteId msgId streamId : Z) (streamName topic : string) (d : DB)
    : Result (unit * DB) :=
  if existsb (fun r => (ur_site_id r =? siteId) && (ur_message_id r =? msgId)) (tbl_unread d)
  then Throw SqliteError
  else Ok (tt, set_unread (tbl_unread d ++
        [{| ur_site_id := siteId; ur_message_id := msgId; ur_stream_id := streamId;
            ur_stream_name := streamName; ur_topic_name := topic |}]) d).

(** [streamMap.get(item.streamId) || `stream_${item.streamId}`] *)
Definition stream_name_of (streamMap : NumMap) (streamId : Z) : string :=
  str_or (map_get streamId streamMap) ("stream_" ++ string_of_Z streamId)%string.

Definition insertUnreadMessages (siteId : Z) (unreads : list UnreadStreamInfo)
    (streamMap : NumMap) : M unit :=
  transaction
    (forOf unreads (fun _ item =>
       let streamName := stream_name_of streamMap (us_stream_id item) in
       forOf (us_unread_message_ids item) (fun _ msgId =>
         run (insert_unread siteId msgId (us_stream_id item) streamName (us_topic item))) tt) tt).

(** [SELECT COUNT( * ) as count FROM unread_messages WHERE site_id = ?] *)
Definition getTotalUnreadCount (siteId : Z) : M Z :=
  query (fun d => Z.of_nat (List.length (filter (fun r => ur_site_id r =? siteId) (tbl_unread d)))).

Record UnreadTopic := {
  streamId : Z;
  streamName : string;
  topicName : string;
  messageIds : list Z
}.

(** One more row for [GROUP BY stream_id, stream_name, topic_name]: it joins
    its group, or opens a new group after the others. *)
Fixpoint add_to_group (r : UnreadRow) (gs : list UnreadTopic) : list UnreadTopic :=
  match gs with
  | [] => [{| streamId := ur_stream_id r; streamName := ur_stream_name r;
              topicName := ur_topic_name r; messageIds := [ur_message_id r] |}]
  | g :: rest =>
      if (streamId g =? ur_stream_id r) && String.eqb (streamName g) (ur_stream_name r)
         && String.eqb (topicName g) (ur_topic_name r)
      then {| streamId := streamId g; streamName := streamName g; topicName := topicName g;
              messageIds := messageIds g ++ [ur_message_id r] |} :: rest
      else g :: add_to_group r rest
  end.

(** [SELECT stream_id, stream_name, topic_name, GROUP_CONCAT(message_id)
     FROM unread_messages WHERE site_id = ? GROUP BY stream_id, stream_name,
     topic_name].  The statement fixes no order of the groups; here they come
     in the order of their first rows. *)
Definition select_unread_topics (siteId : Z) (d : DB) : list UnreadTopic :=
  fold_left (fun gs r => add_to_group r gs)
            (filter (fun r => ur_site_id r =? siteId) (tbl_unread d)) [].

Definition getUnreadTopics (siteId : Z) : M (list UnreadTopic) :=
  query (select_unread_topics siteId).

(** [ORDER BY m.timestamp ASC], by insertion. *)
Fixpoint insert_by_timestamp (m : StoredMessage) (l : list StoredMessage) : list StoredMessage :=
  match l with
  | [] => [m]
  | x :: rest => if sm_timestamp m <? sm_timestamp x then m :: x :: rest
                 else x :: insert_by_timestamp m rest
  end.

(** [SELECT m.* FROM messages m JOIN topics t ON m.topic_id = t.id
     JOIN streams s ON t.stream_id = s.id
     WHERE s.site_id = ? AND s.name = ? AND t.name = ? ORDER BY m.timestamp ASC] *)
Definition select_topic_messages (siteId : Z) (streamName topicName : string) (d : DB)
    : list StoredMessage :=
  let joined :=
    flat_map (fun m =>
      flat_map (fun t =>
        flat_map (fun s =>
          if (sm_topic_id m =? topic_row_id t) && (topic_stream_id t =? stream_row_id s)
             && (stream_site_id s =? siteId) && String.eqb (stream_name s) streamName
             && String.eqb (topic_name t) topicName
          then [m] else [])
        (tbl_streams d))
      (tbl_topics d))
    (tbl_messages d) in
  fold_left (fun acc m => insert_by_timestamp m acc) joined [].

(** The store's [getTopicMessages] (the client has a method of the same
    name). *)
Definition db_getTopicMessages (siteId : Z) (streamName topicName : string) : M (list StoredMessage) :=
  query (select_topic_messages siteId streamName topicName).

(** [getSiteId]: [SELECT id FROM sites WHERE name = ?], then [result?.id]. *)
Definition getSiteId (siteName : string) : M (option Z) :=
  query (fun d => match select_site siteName d with
                  | Some r => Some (site_id r)
                  | None => None
                  end).


(** A row of [getAllStreams]: [{ name, streamId }]. *)
Record StreamEntry := {
  se_name : string;
  se_streamId : Z
}.

(** [SELECT name, stream_id as streamId FROM streams WHERE site_id = ?] *)
Definition select_all_streams (siteId : Z) (d : DB) : list StreamEntry :=
  map (fun r => {| se_name := stream_name r; se_streamId := stream_zulip_id r |})
      (filter (fun r => stream_site_id r =? siteId) (tbl_streams d)).

Definition getAllStreams (siteId : Z) : M (list StreamEntry) :=
  query (select_all_streams siteId).

(** A row of [getTopicsForStream]: [{ name, id }]. *)
Record TopicEntry := {
  te_name : string;
  te_id : Z
}.

(** [SELECT name, id FROM topics WHERE stream_id = ?] *)
Definition select_topics_for_stream (streamDbId : Z) (d : DB) : list TopicEntry :=
  map (fun r => {| te_name := topic_name r; te_id := topic_row_id r |})
      (filter (fun r => topic_stream_id r =? streamDbId) (tbl_topics d)).

Definition getTopicsForStream (streamDbId : Z) : M (list TopicEntry) :=
  query (select_topics_for_stream streamDbId).

(** [exportTopicToJson]: one more file. *)
Definition exportTopicToJson (siteName streamName topicName : string)
    (messages : list StoredMessage) (unreadMessageIds : list Z) : M unit :=
  t <- now ;;
  fun w => (Ok tt, set_exported (exported w ++
     [{| ex_site := siteName; ex_stream := streamName; ex_topic := topicName;
         ex_messages := messages; ex_unreadMessageIds := unreadMessageIds;
         ex_exportedAt := t |}]) w).

Record SummaryTopic := {
  st_topicName : string;
  st_count : Z
}.

Record UnreadSummary := {
  sum_streamName : string;
  sum_streamId : Z;
  sum_topics : list SummaryTopic;
  sum_totalCount : Z
}.

(** [ORDER BY stream_name, topic_name] on the grouped rows. *)
Definition summary_before (a b : UnreadTopic) : bool :=
  match String.compare (streamName a) (streamName b) with
  | Lt => true
  | Eq => match String.compare (topicName a) (topicName b) with Lt => true | _ => false end
  | Gt => false
  end.

Fixpoint insert_by_name (g : UnreadTopic) (l : list UnreadTopic) : list UnreadTopic :=
  match l with
  | [] => [g]
  | x :: rest => if summary_before g x then g :: x :: rest else x :: insert_by_name g rest
  end.

(** [summaryMap]: a row joins the entry of its stream name, or opens one. *)
Fixpoint add_to_summary (g : UnreadTopic) (l : list UnreadSummary) : list UnreadSummary :=
  let count := Z.of_nat (List.length (messageIds g)) in
  match l with
  | [] => [{| sum_streamName := streamName g; sum_streamId := streamId g;
              sum_topics := [{| st_topicName := topicName g; st_count := count |}];
              sum_totalCount := 0 + count |}]
  | s :: rest =>
      if String.eqb (sum_streamName s) (streamName g)
      then {| sum_streamName := sum_streamName s; sum_streamId := sum_streamId s;
              sum_topics := sum_topics s ++ [{| st_topicName := topicName g; st_count := count |}];
              sum_totalCount := sum_totalCount s + count |} :: rest
      else s :: add_to_summary g rest
  end.

(** [SELECT stream_name, stream_id, topic_name, COUNT( * ) as count
     FROM unread_messages WHERE site_id = ?
     GROUP BY stream_name, stream_id, topic_name ORDER BY stream_name, topic_name] *)
Definition select_unread_summary_rows (siteId : Z) (d : DB) : list UnreadTopic :=
  fold_left (fun acc g => insert_by_name g acc) (select_unread_topics siteId d) [].

Definition getUnreadSummary (siteId : Z) : M (list UnreadSummary) :=
  rows <- query (select_unread_summary_rows siteId) ;;
  ret (fold_left (fun acc g => add_to_summary g acc) rows []).

(* ===================================================================== *)
(** ** Credentials ([src/config/credentials.ts]) *)
(* ===================================================================== *)

Variable E : Env.

Definition loadCredentials : M CredentialsFile :=
  match credentialsFile E with
  | Some c => ret c
  | None => throw CredentialsNotFound
  end.

(** [credentials.sites[site]] *)
Definition lookup_site (name : string) (c : CredentialsFile) : option SiteCredentials :=
  match find (fun kv => String.eqb (fst kv) name) (sites c) with
  | Some kv => Some (snd kv)
  | None => None
  end.

Definition getSiteCredentials (siteName : option string) : M SiteCredentials :=
  credentials <- loadCredentials ;;
  let site := str_or siteName (default credentials) in
  match lookup_site site credentials with
  | None => throw (SiteNotFound site)
  | Some c => ret c
  end.

Definition getDefaultSite : M string :=
  c <- loadCredentials ;; ret (default c).

Definition listSites : M (list string) :=
  c <- loadCredentials ;; ret (map fst (sites c)).

(* ===================================================================== *)
(** ** The client ([src/api/client.ts]) *)
(* ===================================================================== *)

Record ZulipClient := {
  credentials : SiteCredentials;
  siteName : string
}.

(** [new ZulipClient(siteName)] *)
Definition new_ZulipClient (name : option string) : M ZulipClient :=
  c <- getSiteCredentials name ;;
  ret {| credentials := c; siteName := str_or name "leanprover" |}.

Definition siteUrl (client : ZulipClient) : string := site (credentials client).

(** [fetch(url, options)]: the request is sent; the next entry of the
    transport script, if there is one, decides what comes back. *)
Definition fetch (url : string) (r : Request) : M HttpResponse :=
  fun w =>
    let w1 := set_sent (sent w ++ [(url, r)]) w in
    match net w1 with
    | Some Rejected :: rest => (Throw FetchFailed, set_net rest w1)
    | Some (ErrorReply st tx) :: rest =>
        (Ok {| status := st; text := tx; json := error_json r tx |}, set_net rest w1)
    | None :: rest => (Ok (internet E url r), set_net rest w1)
    | [] => (Ok (internet E url r), w1)
    end.

(** [request<T>(method, endpoint, params)] *)
Definition request (client : ZulipClient) (r : Request) : M Json :=
  response <- fetch (site (credentials client)) r ;;
  if negb (response_ok response)
  then throw (ApiError (status response) (text response))
  else ret (json response).

(** [register()].  A body that is not a register response has no [result]
    equal to ['success']. *)
Definition register (client : ZulipClient) : M (UnreadMsgs * list StreamInfo) :=
  data <- request client POST_register ;;
  match data with
  | RegisterJson response =>
      match rr_result response with
      | success =>
          ret (match rr_unread_msgs response with Some u => u | None => {| um_streams := [] |} end,
               match rr_subscriptions response with Some s => s | None => [] end)
      | error => throw (RegisterFailed (rr_msg response))
      end
  | MessagesJson _ => throw (RegisterFailed "")
  end.

Definition batchSize : Z := 1000.

(** The first [anchor] of [getTopicMessages]:
    [options.afterMessageId ? options.afterMessageId + 1 : 'oldest']. *)
Definition first_anchor (afterMessageId : option Z) : Anchor :=
  match afterMessageId with
  | Some n => if n =? 0 then oldest else anchorId (n + 1)
  | None => oldest
  end.

(** [newMessages[newMessages.length - 1].id] *)
Definition last_id (l : list ZulipMessage) : Z := last (map zm_id l) 0.

(** The [while (true)] loop of [getTopicMessages]; [fuel] bounds the number
    of requests. *)
Fixpoint getTopicMessages_loop (fuel : nat) (client : ZulipClient) (narrow : list NarrowFilter)
    (anchor : Anchor) (allMessages : list ZulipMessage) : M (list ZulipMessage) :=
  match fuel with
  | O => throw OutOfFuel
  | S fuel' =>
      data <- request client (GET_messages narrow anchor 0 batchSize) ;;
      match data with
      | RegisterJson _ => throw (GetMessagesFailed "")
      | MessagesJson response =>
          match gm_result response with
          | error => throw (GetMessagesFailed (gm_msg response))
          | success =>
              (* Filter out the anchor message if we used a specific ID *)
              let newMessages :=
                match anchor with
                | anchorId a => filter (fun m => a <? zm_id m) (gm_messages response)
                | oldest => gm_messages response
                end in
              if Z.of_nat (List.length newMessages) =? 0 then ret allMessages
              else
                let allMessages' := allMessages ++ newMessages in
                if gm_found_newest response || (Z.of_nat (List.length newMessages) <? batchSize)
                then ret allMessages'
                else getTopicMessages_loop fuel' client narrow
                       (anchorId (last_id newMessages)) allMessages'
          end
      end
  end.

Definition getTopicMessages (fuel : nat) (client : ZulipClient) (streamName topicName : string)
    (afterMessageId : option Z) : M (list ZulipMessage) :=
  let narrow := [ {| operator := op_stream; operand := streamName |};
                  {| operator := op_topic; operand := topicName |} ] in
  getTopicMessages_loop fuel client narrow (first_anchor afterMessageId) [].

(* ===================================================================== *)
(** ** The sync command ([src/cli/sync.ts]) *)
(* ===================================================================== *)

(** [streamMap]: stream ID to name. *)
Definition build_streamMap (subscriptions : list StreamInfo) : NumMap :=
  fold_left (fun m sub => map_set (si_stream_id sub) (si_name sub) m) subscriptions [].

(** The block of [syncSite] that stores a non-empty batch and moves the
    watermark (lines 94-99). *)
Definition storeBatch (topicDbId : Z) (messages : list ZulipMessage) : M Z :=
  (* Insert messages into database *)
  inserted <- insertMessages topicDbId messages ;;
  (* Update last message ID *)
  let maxMessageId := Math_max (map zm_id messages) in
  updateTopicLastMessageId topicDbId maxMessageId ;;
  ret inserted.

(** The body of the loop over [unreadTopics] in [syncSite]. *)
Definition syncTopic (fuel : nat) (client : ZulipClient) (name : string) (siteId : Z)
    (totalNewMessages : Z) (topic : UnreadTopic) : M Z :=
  (* Get or create stream and topic in database *)
  streamDbId <- getOrCreateStream siteId (streamId topic) (streamName topic) ;;
  topicDbId <- getOrCreateTopic streamDbId (topicName topic) ;;
  (* Get the last message ID we have for incremental sync *)
  lastMessageId <- getTopicLastMessageId topicDbId ;;
  (* Fetch messages from Zulip *)
  messages <- getTopicMessages fuel client (streamName topic) (topicName topic)
                (num_or_undefined lastMessageId) ;;
  if 0 <? Z.of_nat (List.length messages) then
    inserted <- storeBatch topicDbId messages ;;
    (* Export to JSON *)
    allStoredMessages <- db_getTopicMessages siteId (streamName topic) (topicName topic) ;;
    exportTopicToJson name (streamName topic) (topicName topic) allStoredMessages
      (messageIds topic) ;;
    ret (totalNewMessages + inserted)
  else ret totalNewMessages.

(** The opening of [syncSite] (lines 37-55), which is also the opening of
    [showUnreadForSite] (lines 29-46): the current unread state is fetched
    and replaces the stored one.  It yields [client] and [siteId]. *)
Definition refreshUnread (name : string) : M (ZulipClient * Z) :=
  client <- new_ZulipClient (Some name) ;;
  (* Get current unread state *)
  reg <- register client ;;
  let unreadMsgs := fst reg in
  let subscriptions := snd reg in
  (* Build stream ID to name map *)
  let streamMap := build_streamMap subscriptions in
  (* Store site and unread state in database *)
  siteId <- getOrCreateSite name (siteUrl client) ;;
  (* Update unread messages in database *)
  clearUnreadMessages siteId ;;
  insertUnreadMessages siteId (um_streams unreadMsgs) streamMap ;;
  ret (client, siteId).

(** [syncSite]; the result is [totalNewMessages], the count it prints. *)
Definition syncSite (fuel : nat) (name : string) : M Z :=
  cs <- refreshUnread name ;;
  let client := fst cs in
  let siteId := snd cs in
  (* Get unique topics with unread messages *)
  unreadTopics <- getUnreadTopics siteId ;;
  if Z.of_nat (List.length unreadTopics) =? 0 then
    updateSiteLastSync siteId ;;
    ret 0
  else
    totalNewMessages <- forOf unreadTopics (syncTopic fuel client name siteId) 0 ;;
    updateSiteLastSync siteId ;;
    ret totalNewMessages.

(** [SyncOptions]; [verbose] only adds console output. *)
Record SyncOptions := {
  opt_site : option string;   (* site? *)
  opt_all : bool              (* all? *)
}.

(** [options.all ? listSites() : [options.site || getDefaultSite()]] *)
Definition requested_sites (site : option string) (all : bool) : M (list string) :=
  if all then listSites
  else match site with
       | Some s => if String.eqb s "" then d <- getDefaultSite ;; ret [d] else ret [s]
       | None => d <- getDefaultSite ;; ret [d]
       end.

Definition syncCommand (fuel : nat) (options : SyncOptions) : M unit :=
  sites <- requested_sites (opt_site options) (opt_all options) ;;
  forOf sites (fun _ siteName => syncSite fuel siteName ;; ret tt) tt.

(* ===================================================================== *)
(** ** The unread command ([src/cli/unread.ts]) *)
(* ===================================================================== *)

(** [showUnreadForSite]; the result is what it prints: the total and the
    summary. *)
Definition showUnreadForSite (name : string) : M (Z * list UnreadSummary) :=
  cs <- refreshUnread name ;;
  let siteId := snd cs in
  (* Display summary *)
  totalCount <- getTotalUnreadCount siteId ;;
  summary <- getUnreadSummary siteId ;;
  ret (totalCount, summary).

(** [unreadCommand]; [UnreadOptions] has the two fields of [SyncOptions]. *)
Definition unreadCommand (options : SyncOptions) : M unit :=
  sites <- requested_sites (opt_site options) (opt_all options) ;;
  forOf sites (fun _ siteName => showUnreadForSite siteName ;; ret tt) tt.

(* ===================================================================== *)
(** ** The entry point ([src/index.ts]) *)
(* ===================================================================== *)

(** An action of the program: [try { await command(options) } catch {
    process.exit(1) }]; the result is the exit status. *)
Definition action (command : M unit) : World -> Z * World :=
  fun w =>
    match command w with
    | (Ok _, w') => (0, w')
    | (Throw _, w') => (1, w')
    end.

End Model.

Arguments Ok {A} a.
Arguments Throw {A} e.

(* ===================================================================== *)
(** ** A reference remote service *)
(* ===================================================================== *)

(** The remote service is not part of the program.  For the properties that
    depend on what it answers, this is the service of the Zulip API as the
    program uses it ([GET /messages] with [num_before = 0]): the messages of
    a conversation in increasing identifier order; a page holds the anchor
    message, if the conversation has it, and the first [num_after] messages
    after the anchor; [found_newest] tells that fewer than [num_after]
    messages were left to return.  The anchor ['oldest'] is before every
    message. *)

Record Conversation := {
  conv_stream : string;
  conv_topic : string;
  conv_messages : list ZulipMessage
}.

Record Remote := {
  remote_register : RegisterResponse;
  remote_conversations : list Conversation
}.

Definition operator_eqb (a b : NarrowOperator) : bool :=
  match a, b with
  | op_stream, op_stream | op_topic, op_topic | op_sender, op_sender
  | op_search, op_search | op_is, op_is | op_channel, op_channel => true
  | _, _ => false
  end.

Definition narrow_operand (op : NarrowOperator) (narrow : list NarrowFilter) : option string :=
  match find (fun f => operator_eqb (operator f) op) narrow with
  | Some f => Some (operand f)
  | None => None
  end.

Definition find_conversation (stream topic : string) (cs : list Conversation) : list ZulipMessage :=
  match find (fun c => String.eqb (conv_stream c) stream && String.eqb (conv_topic c) topic) cs with
  | Some c => conv_messages c
  | None => []
  end.

Definition narrowed (R : Remote) (narrow : list NarrowFilter) : list ZulipMessage :=
  match narrow_operand op_stream narrow, narrow_operand op_topic narrow with
  | Some s, Some t => find_conversation s t (remote_conversations R)
  | _, _ => []
  end.

Definition page (L : list ZulipMessage) (anchor : Anchor) (num_after : Z) : GetMessagesResponse :=
  let n := Z.to_nat num_after in
  match anchor with
  | oldest =>
      let rows := firstn n L in
      {| gm_result := success; gm_msg := ""; gm_messages := rows;
         gm_found_newest := (List.length rows <? n)%nat |}
  | anchorId a =>
      let after := firstn n (filter (fun m => a <? zm_id m) L) in
      {| gm_result := success; gm_msg := "";
         gm_messages := filter (fun m => zm_id m =? a) L ++ after;
         gm_found_newest := (List.length after <? n)%nat |}
  end.

Definition zulipServer (R : Remote) : Server :=
  fun req =>
    match req with
    | POST_register =>
        {| status := 200; text := ""; json := RegisterJson (remote_register R) |}
    | GET_messages narrow anchor _ num_after =>
        {| status := 200; text := ""; json := MessagesJson (page (narrowed R narrow) anchor num_after) |}
    end.

(** A world with an empty store and nothing scheduled to fail. *)
Definition initialWorld : World :=
  {| db := emptyDB; clock := 0; sent := []; exported := []; net := []; fuse := None |}.

(** Messages with the identifiers [ids], in this order. *)
Definition message (i : Z) : ZulipMessage :=
  {| zm_id := i; zm_sender_email := ""; zm_sender_full_name := ""; zm_content := "";
     zm_timestamp := i; zm_subject := "" |}.

(** The identifiers [a+1, ..., a+n]. *)
Fixpoint ids_after (a : Z) (n : nat) : list Z :=
  match n with
  | O => []
  | S k => (a + 1) :: ids_after (a + 1) k
  end.

(* ===================================================================== *)
(** ** Vocabulary of the properties *)
(* ===================================================================== *)

Definition is_ok {A} (r : Result A) : bool :=
  match r with Ok _ => true | Throw _ => false end.

(** Nothing is scheduled to fail: no statement of the store throws and every
    request reaches the service. *)
Definition calm (w : World) : Prop := fuse w = None /\ net w = [].

(** The watermark of a conversation, as [getTopicLastMessageId] reads it. *)
Definition watermark (d : DB) (topicId : Z) : option Z := select_last_message_id topicId d.

(** The remote identifiers stored for a conversation. *)
Definition stored_ids (d : DB) (topicId : Z) : list Z :=
  map sm_message_id (filter (fun r => sm_topic_id r =? topicId) (tbl_messages d)).

Definition max_stored (d : DB) (topicId : Z) : option Z :=
  match stored_ids d topicId with
  | [] => None
  | l => Some (Math_max l)
  end.

(** Watermark soundness: the watermark is the largest stored identifier, or
    none when nothing is stored. *)
Definition watermark_sound (d : DB) : Prop :=
  forall topicId, watermark d topicId = max_stored d topicId.

(** The watermark is never beyond what is persisted: when set, it is the
    identifier of a stored message of the conversation. *)
Definition watermark_backed (d : DB) : Prop :=
  forall topicId x, watermark d topicId = Some x -> In x (stored_ids d topicId).

Definition wm_le (a b : option Z) : Prop :=
  match a, b with
  | None, _ => True
  | Some x, Some y => x <= y
  | Some _, None => False
  end.

(** No watermark moves back from [d] to [d']. *)
Definition watermarks_grow (d d' : DB) : Prop :=
  forall topicId, wm_le (watermark d topicId) (watermark d' topicId).

Definition positive_ids (d : DB) : Prop :=
  Forall (fun r => 0 < sm_message_id r) (tbl_messages d).

(** The services hand out positive message identifiers. *)
Definition server_positive (E : Env) : Prop :=
  forall url req r, json (internet E url req) = MessagesJson r ->
    Forall (fun m => 0 < zm_id m) (gm_messages r).

(** What a pass keeps of the store it started from, [d0], at every point
    where it can end by an exception: the watermarks are backed by stored
    messages, the stored identifiers are positive, and no watermark has
    moved back. *)
Definition pass_inv_x (d0 d : DB) : Prop :=
  watermark_backed d /\ positive_ids d /\ watermarks_grow d0 d.

(** What a pass keeps between two conversations: the above, and the
    watermarks are sound if they were at the start. *)
Definition pass_inv (d0 d : DB) : Prop :=
  pass_inv_x d0 d /\ (watermark_sound d0 -> watermark_sound d).

(** What is known of a fetched batch: positive identifiers, all of them
    above the successor of the watermark the fetch started from. *)
Definition batch_ok (lastMessageId : option Z) (batch : list ZulipMessage) : Prop :=
  Forall (fun m => 0 < zm_id m) batch /\
  (forall x, num_or_undefined lastMessageId = Some x -> Forall (fun m => x + 1 < zm_id m) batch).

(** [UNIQUE(topic_id, message_id)] *)
Definition message_key (r : StoredMessage) : Z * Z := (sm_topic_id r, sm_message_id r).

Definition unique_messages (d : DB) : Prop := NoDup (map message_key (tbl_messages d)).

(** Every message of the batch is in the store, under this conversation. *)
Definition batch_stored (d : DB) (topicId : Z) (batch : list ZulipMessage) : Prop :=
  forall m, In m batch -> In (zm_id m) (stored_ids d topicId).

(** The primary keys of [streams] and [topics]. *)
Definition wf_keys (d : DB) : Prop :=
  NoDup (map topic_row_id (tbl_topics d)) /\ NoDup (map stream_row_id (tbl_streams d)).

(** The messages of a remote conversation: positive identifiers, strictly
    increasing. *)
Definition increasing (l : list ZulipMessage) : Prop :=
  StronglySorted Z.lt (map zm_id l) /\ Forall (fun m => 0 < zm_id m) l.

Definition well_formed_remote (R : Remote) : Prop :=
  forall c, In c (remote_conversations R) -> increasing (conv_messages c).

(** What an incremental fetch is to return: the messages after the
    watermark, all of them when there is none. *)
Definition newer (after : option Z) (l : list ZulipMessage) : list ZulipMessage :=
  match after with
  | Some x => filter (fun m => x <? zm_id m) l
  | None => l
  end.

(** The stores that passes of the two commands lead to, from the empty
    store, whatever the services answer and whatever fails on the way. *)
Inductive reachable (convert : string -> string) : DB -> Prop :=
| reach_empty : reachable convert emptyDB
| reach_sync (E : Env) (fuel : nat) (name : string) (w : World) :
    reachable convert (db w) ->
    reachable convert (db (snd (syncSite convert E fuel name w)))
| reach_unread (E : Env) (name : string) (w : World) :
    reachable convert (db w) ->
    reachable convert (db (snd (showUnreadForSite E name w))).

(** The store after the row of one message was inserted, or ignored. *)
Definition insert_row (convert : string -> string) (topicId : Z) (d : DB) (msg : ZulipMessage) : DB :=
  match insert_or_ignore_message topicId msg (convert (zm_content msg)) d with
  | Ok (_, d') => d'
  | Throw _ => d
  end.

(** The store after a whole batch was inserted. *)
Definition insert_all (convert : string -> string) (topicId : Z) (batch : list ZulipMessage) (d : DB) : DB :=
  fold_left (insert_row convert topicId) batch d.

(** The number of rows of [messages] added from [d] to [d']. *)
Definition added (d d' : DB) : Z :=
  Z.of_nat (List.length (tbl_messages d')) - Z.of_nat (List.length (tbl_messages d)).

(** The rows added to [messages] from [d0] to [d] are [n]. *)
Definition counted (d0 : DB) (n : Z) (d : DB) : Prop := added d0 d = n.

(** The conversation has a row in [topics]. *)
Definition has_topic (d : DB) (topicId : Z) : Prop := In topicId (map topic_row_id (tbl_topics d)).

(** [INSERT INTO unread_messages], row after row, on the table [u]: the
    table that results, or nothing when a row violates
    [UNIQUE(site_id, message_id)]. *)
Definition insert_unread_rows (rows : list UnreadRow) (u : list UnreadRow) : option (list UnreadRow) :=
  fold_left (fun acc r =>
    match acc with
    | Some t =>
        if existsb (fun r' => (ur_site_id r' =? ur_site_id r) && (ur_message_id r' =? ur_message_id r)) t
        then None else Some (t ++ [r])
    | None => None
    end) rows (Some u).

(** [UNIQUE(site_id, message_id)] *)
Definition unread_key (r : UnreadRow) : Z * Z := (ur_site_id r, ur_message_id r).

(** From [d0] to [d], the messages, the conversations with their
    watermarks and the streams are the same, and so is every row of [sites]
    (its last-sync time included); rows of sites that were never synced may
    have been added. *)
Definition store_kept (d0 d : DB) : Prop :=
  tbl_messages d = tbl_messages d0 /\
  tbl_topics d = tbl_topics d0 /\
  tbl_streams d = tbl_streams d0 /\
  exists extra, tbl_sites d = tbl_sites d0 ++ extra /\
                Forall (fun r => site_last_sync r = None) extra.

(** The sum of a list of numbers. *)
Definition sumZ (l : list Z) : Z := fold_right Z.add 0 l.

(** The columns that [getUnreadTopics] and [getUnreadSummary] group by. *)
Definition group_key (g : UnreadTopic) : Z * string * string :=
  (streamId g, streamName g, topicName g).

Definition row_group_key (r : UnreadRow) : Z * string * string :=
  (ur_stream_id r, ur_stream_name r, ur_topic_name r).

(** The order of strings that [ORDER BY] follows (byte by byte, a prefix
    first). *)
Definition str_lt (a b : string) : Prop := String.compare a b = Lt.

Definition str_le (a b : string) : Prop := String.compare a b <> Gt.

(** The key that the rows of [getUnreadSummary] are ordered by, and its
    order: by stream name, then by conversation name. *)
Definition key_le (a b : UnreadTopic) : Prop := summary_before b a = false.

(** Every entry of [acc] has a conversation, and each of its conversations
    comes, in the order of the rows, no later than the row [g]. *)
Definition bounded (g : UnreadTopic) (acc : list UnreadSummary) : Prop :=
  forall s, In s acc ->
    sum_topics s <> [] /\
    Forall (fun t => str_lt (sum_streamName s) (streamName g) \/
                     (sum_streamName s = streamName g /\
                      str_le (st_topicName t) (topicName g))) (sum_topics s).

(** The conversations of every entry are in the order of their names. *)
Definition topics_sorted (acc : list UnreadSummary) : Prop :=
  Forall (fun s => StronglySorted str_le (map st_topicName (sum_topics s))) acc.

(** What [getUnreadSummary] returns for the store [d]. *)
Definition unread_summary (siteId : Z) (d : DB) : list UnreadSummary :=
  fold_left (fun acc g => add_to_summary g acc) (select_unread_summary_rows siteId d) [].

(** The number of unread messages of a group. *)
Definition group_count (g : UnreadTopic) : Z := Z.of_nat (List.length (messageIds g)).

(** The row [m] of [messages] belongs to the conversation named
    [streamName] / [topicName] of the site: the join of [getTopicMessages]
    finds a row of [topics] and a row of [streams] for it. *)
Definition in_conversation (siteId : Z) (streamName topicName : string) (d : DB)
    (m : StoredMessage) : bool :=
  existsb (fun t =>
    existsb (fun s =>
      (sm_topic_id m =? topic_row_id t) && (topic_stream_id t =? stream_row_id s)
      && (stream_site_id s =? siteId) && String.eqb (stream_name s) streamName
      && String.eqb (topic_name t) topicName)
    (tbl_streams d))
  (tbl_topics d).

(** The order of [ORDER BY m.timestamp ASC]. *)
Definition by_timestamp (a b : StoredMessage) : Prop := sm_timestamp a <= sm_timestamp b.

(** The unread rows of a site. *)
Definition unread_of (siteId : Z) (d : DB) : list UnreadRow :=
  filter (fun r => ur_site_id r =? siteId) (tbl_unread d).

(** The conversation [topicId] belongs to the site [siteId]: its row of
    [topics] points to a row of [streams] of that site. *)
Definition owns (d : DB) (siteId topicId : Z) : Prop :=
  exists t s, In t (tbl_topics d) /\ topic_row_id t = topicId /\
              In s (tbl_streams d) /\ stream_row_id s = topic_stream_id t /\
              stream_site_id s = siteId.

(** From [d0] to [d], what belongs to the sites other than [siteId] is as it
    was: their unread rows; the messages, the watermark and the row of each of
    their conversations; their rows of [sites] and [streams].  And every
    conversation still belongs to the site it belonged to. *)
Definition others_kept (siteId : Z) (d0 d : DB) : Prop :=
  filter (fun r => negb (ur_site_id r =? siteId)) (tbl_unread d)
  = filter (fun r => negb (ur_site_id r =? siteId)) (tbl_unread d0) /\
  (forall site topicId, owns d0 site topicId -> owns d site topicId) /\
  (forall other topicId, owns d0 other topicId -> other <> siteId ->
     filter (fun r => sm_topic_id r =? topicId) (tbl_messages d)
     = filter (fun r => sm_topic_id r =? topicId) (tbl_messages d0) /\
     watermark d topicId = watermark d0 topicId /\
     (forall t, In t (tbl_topics d0) -> topic_row_id t = topicId -> In t (tbl_topics d))) /\
  (forall r, In r (tbl_sites d0) -> site_id r <> siteId -> In r (tbl_sites d)) /\
  (forall r, In r (tbl_streams d0) -> stream_site_id r <> siteId -> In r (tbl_streams d)).

(** What a pass over the site [siteId] keeps of the store [d0] it started
    from: distinct primary keys, and the data of the other sites. *)
Definition site_inv (siteId : Z) (d0 d : DB) : Prop :=
  wf_keys d /\ others_kept siteId d0 d.

(** From [d0] to [d] every row of [sites] is as it was, its last-sync time
    included; rows with no last-sync time may have been added. *)
Definition sites_kept (d0 d : DB) : Prop :=
  exists extra, tbl_sites d = tbl_sites d0 ++ extra /\
                Forall (fun r => site_last_sync r = None) extra.

(** The store after the statement [u], when it does not throw. *)
Definition after {A} (u : DB -> Result (A * DB)) (d : DB) : DB :=
  match u d with
  | Ok (_, d') => d'
  | Throw _ => d
  end.

(** What [getOrCreateStream] returns and the store it leaves, when no
    statement fails. *)
Definition with_stream (siteId streamId : Z) (name : string) (d : DB) : Z * DB :=
  match select_stream siteId streamId d with
  | Some r => (stream_row_id r, after (update_stream_name name (stream_row_id r)) d)
  | None => (next_id stream_row_id (tbl_streams d), after (insert_stream siteId streamId name) d)
  end.

(** What [getOrCreateTopic] returns and the store it leaves, when no
    statement fails. *)
Definition with_topic (streamDbId : Z) (name : string) (d : DB) : Z * DB :=
  match select_topic streamDbId name d with
  | Some r => (topic_row_id r, d)
  | None => (next_id topic_row_id (tbl_topics d), after (insert_topic streamDbId name) d)
  end.

(** What [getTopicMessages] gets from the reference service for the
    conversation with the messages [l]: the messages after its first
    anchor. *)
Definition rest_from (anchor : Anchor) (l : list ZulipMessage) : list ZulipMessage :=
  match anchor with
  | oldest => l
  | anchorId a => filter (fun m => a <? zm_id m) l
  end.

Definition fetched (afterMessageId : option Z) (l : list ZulipMessage) : list ZulipMessage :=
  rest_from (first_anchor afterMessageId) l.

(** The store after a fetched batch was stored and the watermark moved,
    when no statement fails. *)
Definition stored_batch (convert : string -> string) (topicId : Z) (batch : list ZulipMessage)
    (d : DB) : DB :=
  after (update_last_message_id (Math_max (map zm_id batch)) topicId)
        (insert_all convert topicId batch d).

(** The store after the body of the loop of [syncSite] ran for one planned
    conversation, against the reference service of [R], when nothing
    fails. *)
Definition synced_topic (convert : string -> string) (R : Remote) (siteId : Z) (topic : UnreadTopic)
    (d : DB) : DB :=
  let d1 := snd (with_stream siteId (streamId topic) (streamName topic) d) in
  let streamDbId := fst (with_stream siteId (streamId topic) (streamName topic) d) in
  let d2 := snd (with_topic streamDbId (topicName topic) d1) in
  let topicDbId := fst (with_topic streamDbId (topicName topic) d1) in
  let batch := fetched (num_or_undefined (watermark d2 topicDbId))
                 (find_conversation (streamName topic) (topicName topic) (remote_conversations R)) in
  match batch with
  | [] => d2
  | _ => stored_batch convert topicDbId batch d2
  end.

(** A planned conversation is settled in a store: it has its stream row and
    its conversation row, and a fetch from its watermark brings nothing. *)
Definition settled (R : Remote) (siteId : Z) (topic : UnreadTopic) (d : DB) : Prop :=
  exists srow trow,
    select_stream siteId (streamId topic) d = Some srow /\
    select_topic (stream_row_id srow) (topicName topic) d = Some trow /\
    fetched (num_or_undefined (watermark d (topic_row_id trow)))
      (find_conversation (streamName topic) (topicName topic) (remote_conversations R)) = [].

(** The stream name of a planned conversation is the one the stream map
    gives to its stream. *)
Definition named (streamMap : NumMap) (topic : UnreadTopic) : Prop :=
  streamName topic = stream_name_of streamMap (streamId topic).

(** Every base URL is served by the reference service of a well-formed
    remote. *)
Definition reference_env (E : Env) (remote : string -> Remote) : Prop :=
  forall url, internet E url = zulipServer (remote url) /\ well_formed_remote (remote url).




(** The rows of [unread_messages] that a register response stands for. *)
Definition unread_rows (siteId : Z) (unreads : list UnreadStreamInfo) (streamMap : NumMap)
    : list UnreadRow :=
  flat_map (fun item =>
    map (fun msgId =>
      {| ur_site_id := siteId; ur_message_id := msgId; ur_stream_id := us_stream_id item;
         ur_stream_name := stream_name_of streamMap (us_stream_id item);
         ur_topic_name := us_topic item |}) (us_unread_message_ids item)) unreads.

(** The store with the site row of [name], made if it was missing, and the
    identifier of that row. *)
Definition with_site (name url : string) (d : DB) : Z * DB :=
  match select_site name d with
  | Some r => (site_id r, d)
  | None => (next_id site_id (tbl_sites d),
             set_sites (tbl_sites d ++
               [{| site_id := next_id site_id (tbl_sites d); site_name := name;
                   site_url := url; site_last_sync := None |}]) d)
  end.

(** The store after the opening of a pass replaced the unread rows of the
    site by those of the register response, when no statement fails;
    nothing when a row of the response violates the constraint. *)
Definition refreshed (name url : string) (reg : UnreadMsgs * list StreamInfo) (d : DB) : option DB :=
  let siteId := fst (with_site name url d) in
  let d1 := snd (with_site name url d) in
  match insert_unread_rows
          (unread_rows siteId (um_streams (fst reg)) (build_streamMap (snd reg)))
          (filter (fun r => negb (ur_site_id r =? siteId)) (tbl_unread d1)) with
  | Some u => Some (set_unread u d1)
  | None => None
  end.

(* ===================================================================== *)
(** ** Scenarios *)
(* ===================================================================== *)

Definition plain (s : string) : string := s.

Definition creds (name url : string) : string * SiteCredentials :=
  (name, {| email := "me@example.org"; api_key := "secret"; site := url |}).

Definition twoSites : CredentialsFile :=
  {| default := "alpha";
     sites := [creds "alpha" "https://alpha.example"; creds "beta" "https://beta.example"] |}.

Definition registered (unreads : list UnreadStreamInfo) (subs : list StreamInfo) : RegisterResponse :=
  {| rr_result := success; rr_msg := "";
     rr_unread_msgs := Some {| um_streams := unreads |};
     rr_subscriptions := Some subs |}.

Definition general : StreamInfo := {| si_stream_id := 7; si_name := "general" |}.

Definition unread_in (topic : string) (ids : list Z) : UnreadStreamInfo :=
  {| us_stream_id := 7; us_topic := topic; us_unread_message_ids := ids |}.

Definition conversation (topic : string) (ids : list Z) : Conversation :=
  {| conv_stream := "general"; conv_topic := topic; conv_messages := map message ids |}.

(** One conversation, general/welcome, with the messages 1..n, the last one
    unread. *)
Definition welcomeRemote (n : nat) : Remote :=
  {| remote_register := registered [unread_in "welcome" [Z.of_nat n]] [general];
     remote_conversations := [conversation "welcome" (ids_after 0 n)] |}.

Definition welcomeEnv (n : nat) : Env :=
  {| credentialsFile := Some twoSites; internet := fun _ => zulipServer (welcomeRemote n) |}.

Definition alphaClient : ZulipClient :=
  {| credentials := snd (creds "alpha" "https://alpha.example"); siteName := "alpha" |}.

(** Two conversations with unread messages, general/gone first. *)
Definition twoTopicsRemote : Remote :=
  {| remote_register := registered [unread_in "gone" [1]; unread_in "welcome" [12]] [general];
     remote_conversations := [conversation "gone" [1]; conversation "welcome" [10; 11; 12]] |}.

(** A service where the conversation general/gone has vanished: asking for
    its messages is answered by 404. *)
Definition vanishedServer : Server :=
  fun req =>
    match req with
    | GET_messages narrow _ _ _ =>
        match narrow_operand op_topic narrow with
        | Some "gone" => {| status := 404; text := "Not Found"; json := error_json req "Not Found" |}
        | _ => zulipServer twoTopicsRemote req
        end
    | POST_register => zulipServer twoTopicsRemote req
    end.

Definition vanishedEnv : Env :=
  {| credentialsFile := Some twoSites; internet := fun _ => vanishedServer |}.

(** A service that refuses the credentials. *)
Definition unauthorizedServer : Server :=
  fun req => {| status := 401; text := "Unauthorized"; json := error_json req "Unauthorized" |}.

(** alpha refuses the credentials; beta has five messages to sync. *)
Definition alphaRefusesEnv : Env :=
  {| credentialsFile := Some twoSites;
     internet := fun url => if String.eqb url "https://alpha.example" then unauthorizedServer
                            else zulipServer (welcomeRemote 5) |}.

Definition allSites : SyncOptions := {| opt_site := None; opt_all := true |}.


(** A store with one conversation and nothing else. *)
Definition oneTopicDB : DB :=
  set_topics [{| topic_row_id := 1; topic_stream_id := 1; topic_name := "welcome";
                 last_message_id := None |}] emptyDB.

(** The world after a first pass over alpha, five messages stored. *)
Definition afterFirstSync : World :=
  snd (syncSite plain (welcomeEnv 5) 3 "alpha" initialWorld).

(** The remote state changes after the first pass: the messages 1..3 were
    read elsewhere, 4 and 5 are still unread. *)
Definition laterEnv : Env :=
  {| credentialsFile := Some twoSites;
     internet := fun _ => zulipServer
       {| remote_register := registered [unread_in "welcome" [4; 5]] [general];
          remote_conversations := [conversation "welcome" (ids_after 0 5)] |} |}.

(** The conversation general/welcome as a pass over alpha plans it, and the
    world after the opening of that pass. *)
Definition welcomeTopic : UnreadTopic :=
  {| streamId := 7; streamName := "general"; topicName := "welcome"; messageIds := [5] |}.

Definition afterOpening : World :=
  snd (refreshUnread (welcomeEnv 5) "alpha" initialWorld).

(** A service whose register response lists the message 5 twice, under
    two conversations. *)
Definition duplicateEnv : Env :=
  {| credentialsFile := Some twoSites;
     internet := fun _ => zulipServer
       {| remote_register := registered [unread_in "welcome" [5]; unread_in "other" [5]] [general];
          remote_conversations := [conversation "welcome" (ids_after 0 5)] |} |}.

(** A store with unread rows of the site 1 in two streams, recorded in
    the order zeta/b, alpha/c, zeta/a, alpha/c. *)
Definition unreadRow (msgId streamId : Z) (stream topic : string) : UnreadRow :=
  {| ur_site_id := 1; ur_message_id := msgId; ur_stream_id := streamId;
     ur_stream_name := stream; ur_topic_name := topic |}.

Definition twoStreamsUnread : World :=
  set_db (set_unread [unreadRow 11 9 "zeta" "b"; unreadRow 12 3 "alpha" "c";
                      unreadRow 13 9 "zeta" "a"; unreadRow 14 3 "alpha" "c"] emptyDB)
         initialWorld.

(** An empty store where [k] statements run and the next one throws. *)
Definition fused (k : nat) : World := set_fuse (Some k) initialWorld.

(* ===================================================================== *)
(** ** A program logic for the store *)
(* ===================================================================== *)

(** [dhoare P m Q X]: run from a store that satisfies [P], the computation
    [m] ends with a result [a] in a store that satisfies [Q a], or throws in
    a store that satisfies [X]. *)
Definition dhoare {A} (P : DB -> Prop) (m : M A) (Q : A -> DB -> Prop) (X : DB -> Prop) : Prop :=
  forall w, P (db w) ->
    match m w with
    | (Ok a, w') => Q a (db w')
    | (Throw _, w') => X (db w')
    end.

(** The statement [u] keeps the property [I] of the store. *)
Definition stmt_keeps {A} (I : DB -> Prop) (u : DB -> Result (A * DB)) : Prop :=
  forall d a d', I d -> u d = Ok (a, d') -> I d'.

(** [m] runs no statement of the store: the store and the fuse are as
    before. *)
Definition dbpure {A} (m : M A) : Prop :=
  forall w, db (snd (m w)) = db w /\ fuse (snd (m w)) = fuse w.

(** Every result of [m] satisfies [phi]. *)
Definition returns {A} (m : M A) (phi : A -> Prop) : Prop :=
  forall w a w', m w = (Ok a, w') -> phi a.

(** Whatever [m] does, the world it leaves is related by [R] to the world it
    started from. *)
Definition makes {A} (R : World -> World -> Prop) (m : M A) : Prop :=
  forall w, R w (snd (m w)).

(** From [w] to [w'] time has not gone back. *)
Definition later (w w' : World) : Prop := clock w <= clock w'.

(** From [w] to [w'] requests were only added to the log, each to a base URL
    that satisfies [allowed]. *)
Definition sent_only_to (allowed : string -> Prop) (w w' : World) : Prop :=
  exists l, sent w' = sent w ++ l /\ Forall (fun p => allowed (fst p)) l.

(** The base URL that the credentials file gives for the site [name]
    ([siteName || credentials.default], then [credentials.sites[site].site]). *)
Definition url_of_site (E : Env) (name : string) (url : string) : Prop :=
  exists c k, credentialsFile E = Some c /\
              lookup_site (str_or (Some name) (default c)) c = Some k /\
              url = site k.

(* ===================================================================== *)
(** ** The export command ([src/cli/export.ts]) *)
(* ===================================================================== *)

(** [ExportOptions], as the command line hands them over: [format] is any
    string. *)
Record ExportOptions := {
  eo_site : option string;
  eo_stream : option string;
  eo_topic : option string;
  eo_format : option string
}.

(** An optional string in a condition: [undefined] and the empty string
    count as false. *)
Definition truthy (a : option string) : option string :=
  match a with
  | Some s => if String.eqb s "" then None else Some s
  | None => None
  end.

(** How a run of the command ends: it returns, it throws, it reads a
    property of [undefined], or it ends the process. *)
Inductive Outcome (A : Type) :=
| Done (a : A)
| Raised (e : Err)
| TypeError
| Exited (code : Z).
Arguments Done {A} a.
Arguments Raised {A} e.
Arguments TypeError {A}.
Arguments Exited {A} code.

(** The world of the export command: the world of the other commands, and
    the Markdown files written so far, oldest first.  A Markdown file is
    recorded by what it is made from, which is what a JSON file holds. *)
Record ExportWorld := {
  world : World;
  markdown : list TopicExportJson
}.

Definition MX (A : Type) : Type := ExportWorld -> Outcome A * ExportWorld.

Definition xret {A} (a : A) : MX A := fun x => (Done a, x).

Definition xbind {A B} (m : MX A) (f : A -> MX B) : MX B :=
  fun x =>
    match m x with
    | (Done a, x') => f a x'
    | (Raised e, x') => (Raised e, x')
    | (TypeError, x') => (TypeError, x')
    | (Exited code, x') => (Exited code, x')
    end.

(** [process.exit(code)] *)
Definition process_exit {A} (code : Z) : MX A := fun x => (Exited code, x).

Definition type_error {A} : MX A := fun x => (TypeError, x).

(** A computation of the other commands, run here. *)
Definition lift {A} (m : M A) : MX A :=
  fun x =>
    match m (world x) with
    | (Ok a, w') => (Done a, {| world := w'; markdown := markdown x |})
    | (Throw e, w') => (Raised e, {| world := w'; markdown := markdown x |})
    end.

Declare Scope x_scope.
Delimit Scope x_scope with x.
Notation "x <- c1 ;; c2" := (xbind c1 (fun x => c2))
  (at level 61, c1 at next level, right associativity) : x_scope.
Notation "c1 ;; c2" := (xbind c1 (fun _ => c2))
  (at level 61, right associativity) : x_scope.

Fixpoint xforOf {X A} (xs : list X) (body : A -> X -> MX A) (acc : A) : MX A :=
  match xs with
  | [] => xret acc
  | x :: rest => xbind (body acc x) (fun acc' => xforOf rest body acc')
  end.

(** [exportTopicToMarkdown] ([src/storage/json-export.ts]): one more file;
    the time is read once, for the line [Exported:]. *)
Definition exportTopicToMarkdown (siteName streamName topicName : string)
    (messages : list StoredMessage) (unreadMessageIds : list Z) : MX unit :=
  xbind (lift now) (fun t =>
  fun x => (Done tt, {| world := world x;
                        markdown := markdown x ++
     [{| ex_site := siteName; ex_stream := streamName; ex_topic := topicName;
         ex_messages := messages; ex_unreadMessageIds := unreadMessageIds;
         ex_exportedAt := t |}] |})).

(** [Map<string, number[]>]: the entries, in insertion order. *)
Fixpoint Map_set (key : string) (v : list Z) (m : list (string * list Z)) : list (string * list Z) :=
  match m with
  | [] => [(key, v)]
  | (k, v') :: rest =>
      if String.eqb k key then (k, v) :: rest else (k, v') :: Map_set key v rest
  end.

Definition Map_get (key : string) (m : list (string * list Z)) : option (list Z) :=
  match find (fun kv => String.eqb (fst kv) key) m with
  | Some kv => Some (snd kv)
  | None => None
  end.

(** The key of a conversation in [unreadByTopic]: the name of the stream, a
    colon, the name of the conversation. *)
Definition topic_key (streamName topicName : string) : string :=
  streamName ++ ":" ++ topicName.

(** [unreadByTopic], as the loop over [unreadTopics] fills it. *)
Definition unread_by_topic (unreadTopics : list UnreadTopic) : list (string * list Z) :=
  fold_left (fun m t => Map_set (topic_key (streamName t) (topicName t)) (messageIds t) m)
            unreadTopics [].

(** [unreadByTopic.get(key) || []] *)
Definition unread_ids_for (streamName topicName : string) (unreadByTopic : list (string * list Z))
    : list Z :=
  match Map_get (topic_key streamName topicName) unreadByTopic with
  | Some ids => ids
  | None => []
  end.

(** [SELECT id, name FROM streams WHERE site_id = ? AND name = ?], the first
    row. *)
Definition select_stream_by_name (siteId : Z) (name : string) (d : DB) : option StreamRow :=
  find (fun r => (stream_site_id r =? siteId) && String.eqb (stream_name r) name) (tbl_streams d).

Section ExportCommand.

Variable E : Env.

Local Open Scope x_scope.

Definition exportSingleTopic (siteName : string) (siteId : Z) (streamName topicName : string)
    (format : string) (unreadByTopic : list (string * list Z)) : MX unit :=
  messages <- lift (db_getTopicMessages siteId streamName topicName) ;;
  if Z.of_nat (List.length messages) =? 0 then xret tt
  else
    let unreadIds := unread_ids_for streamName topicName unreadByTopic in
    if String.eqb format "markdown"
    then exportTopicToMarkdown siteName streamName topicName messages unreadIds
    else lift (exportTopicToJson siteName streamName topicName messages unreadIds).

Definition exportCommand (options : ExportOptions) : MX unit :=
  siteName <- match truthy (eo_site options) with
              | Some s => xret s
              | None => lift (getDefaultSite E)
              end ;;
  let format := str_or (eo_format options) "json" in
  siteId <- lift (getSiteId siteName) ;;
  match siteId with
  | None => process_exit 1
  | Some siteId =>
  if siteId =? 0 then process_exit 1 else
  (* Get unread message IDs for this site *)
  unreadTopics <- lift (getUnreadTopics siteId) ;;
  let unreadByTopic := unread_by_topic unreadTopics in
  (* Determine what to export *)
  match truthy (eo_stream options), truthy (eo_topic options) with
  | Some stream, Some topic =>
      (* Export single topic *)
      exportSingleTopic siteName siteId stream topic format unreadByTopic
  | Some stream, None =>
      (* Export all topics in a stream *)
      row <- lift (query (select_stream_by_name siteId stream)) ;;
      match row with
      | None => _ <- lift (getAllStreams siteId) ;; process_exit 1
      | Some r =>
          topics <- lift (getTopicsForStream (stream_row_id r)) ;;
          xforOf topics (fun _ topic =>
            exportSingleTopic siteName siteId stream (te_name topic) format unreadByTopic) tt
      end
  | None, _ =>
      (* Export everything *)
      streams <- lift (getAllStreams siteId) ;;
      if Z.of_nat (List.length streams) =? 0 then process_exit 1 else
      _ <- xforOf streams (fun totalTopics stream =>
             streamDbId <- lift (query (select_stream siteId (se_streamId stream))) ;;
             match streamDbId with
             | None => type_error
             | Some r =>
                 topics <- lift (getTopicsForStream (stream_row_id r)) ;;
                 _ <- xforOf topics (fun _ topic =>
                        exportSingleTopic siteName siteId (se_name stream) (te_name topic)
                                          format unreadByTopic) tt ;;
                 xret (totalTopics + Z.of_nat (List.length topics))
             end) 0 ;;
      xret tt
  end
  end.

(** The action of [export] in [src/index.ts]: the two checks of the options,
    then the command; an exception ends the process with status 1.  The
    result is the exit status. *)
Definition export_action (options : ExportOptions) : ExportWorld -> Z * ExportWorld :=
  fun x =>
    let checked : MX unit :=
      _ <- match truthy (eo_topic options), truthy (eo_stream options) with
           | Some _, None => process_exit 1
           | _, _ => xret tt
           end ;;
      _ <- match truthy (eo_format options) with
           | Some f => if String.eqb f "json" || String.eqb f "markdown"
                       then xret tt else process_exit 1
           | None => xret tt
           end ;;
      exportCommand options in
    match checked x with
    | (Done _, x') => (0, x')
    | (Raised _, x') => (1, x')
    | (TypeError, x') => (1, x')
    | (Exited code, x') => (code, x')
    end.

Local Close Scope x_scope.

End ExportCommand.

(** ** Vocabulary of the export *)

(** The files written from [x] to [x'], JSON first. *)
Definition new_files (x x' : ExportWorld) : list TopicExportJson :=
  skipn (List.length (exported (world x))) (exported (world x'))
  ++ skipn (List.length (markdown x)) (markdown x').

(** The site that the options ask for: [options.site || getDefaultSite()]. *)
Definition export_site (E : Env) (options : ExportOptions) : option string :=
  match truthy (eo_site options) with
  | Some s => Some s
  | None => match credentialsFile E with
            | Some c => Some (default c)
            | None => None
            end
  end.

(** A name without a colon. *)
Definition no_colon (s : string) : Prop :=
  forallb (fun c => negb (Ascii.eqb c ":"%char)) (list_ascii_of_string s) = true.

(** The unread rows of a site name their streams without a colon, and a
    name goes with one stream identifier. *)
Definition plain_stream_names (siteId : Z) (d : DB) : Prop :=
  (forall r, In r (tbl_unread d) -> ur_site_id r = siteId -> no_colon (ur_stream_name r)) /\
  (forall r1 r2, In r1 (tbl_unread d) -> In r2 (tbl_unread d) ->
     ur_site_id r1 = siteId -> ur_site_id r2 = siteId ->
     ur_stream_name r1 = ur_stream_name r2 -> ur_stream_id r1 = ur_stream_id r2).



(** The world of the export after a first pass over alpha, and the options
    of an export of everything. *)
Definition readyToExport : ExportWorld := {| world := afterFirstSync; markdown := [] |}.

Definition everything (format : string) : ExportOptions :=
  {| eo_site := None; eo_stream := None; eo_topic := None; eo_format := Some format |}.

(** From [x] to [x'] the store and the log of requests are the same, and
    files were only added: JSON files that satisfy [P false], Markdown files
    that satisfy [P true]. *)
Definition wrote (P : bool -> TopicExportJson -> Prop) (x x' : ExportWorld) : Prop :=
  db (world x') = db (world x) /\ sent (world x') = sent (world x) /\
  (exists l, exported (world x') = exported (world x) ++ l /\ Forall (P false) l) /\
  (exists l, markdown x' = markdown x ++ l /\ Forall (P true) l).

(** [safe d0 P m phi]: run on the store [d0], whatever fails, [m] leaves
    the store as it is and writes only files that satisfy [P]; what it
    returns satisfies [phi]. *)
Definition safe {A} (d0 : DB) (P : bool -> TopicExportJson -> Prop) (m : MX A)
    (phi : A -> Prop) : Prop :=
  forall x, db (world x) = d0 ->
    wrote P x (snd (m x)) /\ forall a, fst (m x) = Done a -> phi a.

(** The file [f] is a snapshot of a conversation of the store [d0], as the
    options ask for it: it is of the requested site, which has a row in
    [sites]; it is in the requested stream and conversation, if the options
    name them; its messages are the stored messages of its conversation, and
    there are some; its unread identifiers are those that [unreadByTopic]
    holds for its key; [md] tells whether the options ask for Markdown. *)
Definition snapshot (E : Env) (options : ExportOptions) (d0 : DB) (md : bool)
    (f : TopicExportJson) : Prop :=
  md = String.eqb (str_or (eo_format options) "json") "markdown" /\
  export_site E options = Some (ex_site f) /\
  (forall s, truthy (eo_stream options) = Some s -> ex_stream f = s) /\
  (forall s t, truthy (eo_stream options) = Some s -> truthy (eo_topic options) = Some t ->
     ex_topic f = t) /\
  exists r, select_site (ex_site f) d0 = Some r /\ site_id r <> 0 /\
    ex_messages f = select_topic_messages (site_id r) (ex_stream f) (ex_topic f) d0 /\
    ex_messages f <> [] /\
    ex_unreadMessageIds f
    = unread_ids_for (ex_stream f) (ex_topic f)
        (unread_by_topic (select_unread_topics (site_id r) d0)).



(* ===================================================================== *)
(** * Properties *)
(* ===================================================================== *)

(** ** The monad *)

Lemma bind_ok {A B} (m : M A) (f : A -> M B) w a w' :
  m w = (Ok a, w') -> bind m f w = f a w'.
Proof. intros H; unfold bind; rewrite H; reflexivity. Qed.

Lemma bind_throw {A B} (m : M A) (f : A -> M B) w e w' :
  m w = (Throw e, w') -> bind m f w = (Throw e, w').
Proof. intros H; unfold bind; rewrite H; reflexivity. Qed.

Lemma bind_inv_ok {A B} (m : M A) (f : A -> M B) w b w'' :
  bind m f w = (Ok b, w'') -> exists a w', m w = (Ok a, w') /\ f a w' = (Ok b, w'').
Proof.
  unfold bind; destruct (m w) as [[a|e] w'] eqn:Hm; intros H.
  - exists a, w'; auto.
  - discriminate.
Qed.

Lemma tick_calm w : fuse w = None -> tick w = (Ok tt, w).
Proof. intros H; unfold tick; rewrite H; reflexivity. Qed.

Lemma query_calm {A} (q : DB -> A) w : fuse w = None -> query q w = (Ok (q (db w)), w).
Proof. intros H; unfold query; rewrite (bind_ok _ _ _ (tick_calm _ H)); reflexivity. Qed.

Lemma run_calm {A} (u : DB -> Result (A * DB)) w a d :
  fuse w = None -> u (db w) = Ok (a, d) -> run u w = (Ok a, set_db d w).
Proof.
  intros H Hu; unfold run; rewrite (bind_ok _ _ _ (tick_calm _ H)), Hu; reflexivity.
Qed.

Lemma tick_db w : db (snd (tick w)) = db w.
Proof. unfold tick; destruct (fuse w) as [[|k]|]; reflexivity. Qed.

(** What a statement comes to: it throws and the store is as before, or it
    runs. *)
Lemma run_cases {A} (u : DB -> Result (A * DB)) w :
  (exists e w', run u w = (Throw e, w') /\ db w' = db w) \/
  (exists a d w', run u w = (Ok a, w') /\ u (db w) = Ok (a, d) /\ db w' = d).
Proof.
  unfold run, bind, tick.
  destruct (fuse w) as [[|k]|]; cbn.
  - left; eexists _, _; split; reflexivity.
  - destruct (u (db w)) as [[a d]|e] eqn:Hu.
    + right; eexists _, _, _; repeat split; reflexivity.
    + left; eexists _, _; split; reflexivity.
  - destruct (u (db w)) as [[a d]|e] eqn:Hu.
    + right; eexists _, _, _; repeat split; reflexivity.
    + left; eexists _, _; split; reflexivity.
Qed.

Lemma query_cases {A} (q : DB -> A) w :
  (exists e w', query q w = (Throw e, w') /\ db w' = db w) \/
  (exists w', query q w = (Ok (q (db w)), w') /\ db w' = db w).
Proof.
  unfold query, bind, tick.
  destruct (fuse w) as [[|k]|]; cbn.
  - left; eexists _, _; split; reflexivity.
  - right; eexists; split; reflexivity.
  - right; eexists; split; reflexivity.
Qed.

(** ** Rules of the program logic *)

Lemma dh_ret {A} (P : DB -> Prop) (a : A) (Q : A -> DB -> Prop) X :
  (forall d, P d -> Q a d) -> dhoare P (ret a) Q X.
Proof. intros H w Hw; cbn; auto. Qed.

Lemma dh_throw {A} (P : DB -> Prop) e (Q : A -> DB -> Prop) (X : DB -> Prop) :
  (forall d, P d -> X d) -> dhoare P (throw e) Q X.
Proof. intros H w Hw; cbn; auto. Qed.

Lemma dh_bind {A B} (P : DB -> Prop) (m : M A) (f : A -> M B) Q1 Q X :
  dhoare P m Q1 X -> (forall a, dhoare (Q1 a) (f a) Q X) -> dhoare P (bind m f) Q X.
Proof.
  intros Hm Hf w Hw. specialize (Hm w Hw). unfold bind.
  destruct (m w) as [[a|e] w']; auto.
  apply Hf; assumption.
Qed.

Lemma dh_conseq {A} (P P' : DB -> Prop) (m : M A) (Q Q' : A -> DB -> Prop) (X X' : DB -> Prop) :
  dhoare P' m Q' X' ->
  (forall d, P d -> P' d) -> (forall a d, Q' a d -> Q a d) -> (forall d, X' d -> X d) ->
  dhoare P m Q X.
Proof.
  intros H HP HQ HX w Hw. specialize (H w (HP _ Hw)).
  destruct (m w) as [[a|e] w']; auto.
Qed.

Lemma dh_query {A} (P : DB -> Prop) (q : DB -> A) :
  dhoare P (query q) (fun a d => P d /\ a = q d) P.
Proof.
  intros w Hw. destruct (query_cases q w) as [(e & w' & -> & Hd)|(w' & -> & Hd)];
    rewrite Hd; auto.
Qed.

Lemma dh_run {A} (P : DB -> Prop) (u : DB -> Result (A * DB)) (Q : A -> DB -> Prop) :
  (forall d a d', P d -> u d = Ok (a, d') -> Q a d') -> dhoare P (run u) Q P.
Proof.
  intros H w Hw.
  destruct (run_cases u w) as [(e & w' & -> & Hd)|(a & d & w' & -> & Hu & Hd)].
  - rewrite Hd; assumption.
  - rewrite Hd; eapply H; eassumption.
Qed.

Lemma dh_transaction {A} (P : DB -> Prop) (m : M A) (Q : A -> DB -> Prop) :
  dhoare P m Q (fun _ => True) -> dhoare P (transaction m) Q P.
Proof.
  intros H w Hw. specialize (H w Hw). unfold transaction.
  destruct (m w) as [[a|e] w']; auto.
Qed.

Lemma dh_forOf {X0 A} (I : A -> DB -> Prop) (X : DB -> Prop) (xs : list X0)
    (body : A -> X0 -> M A) :
  (forall acc x, In x xs -> dhoare (I acc) (body acc x) I X) ->
  forall acc, dhoare (I acc) (forOf xs body acc) I X.
Proof.
  induction xs as [|x rest IH]; intros Hb acc.
  - apply dh_ret; auto.
  - cbn [forOf]. eapply dh_bind.
    + apply Hb; left; reflexivity.
    + intros a. apply IH. intros; apply Hb; right; assumption.
Qed.

Lemma dh_dbpure {A} (P : DB -> Prop) (m : M A) (phi : A -> Prop) :
  dbpure m -> returns m phi -> dhoare P m (fun a d => P d /\ phi a) P.
Proof.
  intros Hp Hr w Hw. destruct (Hp w) as [Hd _]. specialize (Hr w).
  destruct (m w) as [[a|e] w']; cbn in Hd; rewrite Hd; eauto.
Qed.

Lemma dh_pre_fact {A} (P : DB -> Prop) (F : Prop) (m : M A) (Q : A -> DB -> Prop) (X : DB -> Prop) :
  (F -> dhoare P m Q X) -> dhoare (fun d => P d /\ F) m Q X.
Proof. intros H w [Hp Hf]. exact (H Hf w Hp). Qed.

(** ** Computations that leave the store alone *)

Lemma dbpure_ret {A} (a : A) : dbpure (ret a).
Proof. intros w; split; reflexivity. Qed.

Lemma dbpure_throw {A} e : dbpure (@throw A e).
Proof. intros w; split; reflexivity. Qed.

Lemma dbpure_bind {A B} (m : M A) (f : A -> M B) :
  dbpure m -> (forall a, dbpure (f a)) -> dbpure (bind m f).
Proof.
  intros Hm Hf w. unfold bind. destruct (Hm w) as [Hd Hu].
  destruct (m w) as [[a|e] w']; cbn in *; auto.
  destruct (Hf a w') as [Hd' Hu']. split; congruence.
Qed.

Lemma dbpure_now : dbpure now.
Proof. intros w; split; reflexivity. Qed.

Lemma dbpure_fetch E url r : dbpure (fetch E url r).
Proof.
  intros w; unfold fetch; cbn.
  destruct (net w) as [|[[|st tx]|] rest]; split; reflexivity.
Qed.

Lemma dbpure_request E client r : dbpure (request E client r).
Proof.
  unfold request. apply dbpure_bind; [apply dbpure_fetch|].
  intros resp. destruct (negb (response_ok resp)); [apply dbpure_throw | apply dbpure_ret].
Qed.

Lemma dbpure_register E client : dbpure (register E client).
Proof.
  unfold register. apply dbpure_bind; [apply dbpure_request|].
  intros [r|r]; [|apply dbpure_throw].
  destruct (rr_result r); [apply dbpure_ret | apply dbpure_throw].
Qed.

Lemma dbpure_getTopicMessages_loop E fuel client narrow :
  forall anchor acc, dbpure (getTopicMessages_loop E fuel client narrow anchor acc).
Proof.
  induction fuel as [|fuel IH]; intros anchor acc; cbn [getTopicMessages_loop].
  - apply dbpure_throw.
  - apply dbpure_bind; [apply dbpure_request|].
    intros [r|r]; [apply dbpure_throw|].
    destruct (gm_result r); [|apply dbpure_throw].
    cbv zeta.
    destruct (_ =? 0); [apply dbpure_ret|].
    destruct (_ || _); [apply dbpure_ret | apply IH].
Qed.

Lemma dbpure_getTopicMessages E fuel client s t after :
  dbpure (getTopicMessages E fuel client s t after).
Proof. apply dbpure_getTopicMessages_loop. Qed.

Lemma dbpure_loadCredentials E : dbpure (loadCredentials E).
Proof. unfold loadCredentials; destruct (credentialsFile E); [apply dbpure_ret | apply dbpure_throw]. Qed.

Lemma dbpure_new_ZulipClient E name : dbpure (new_ZulipClient E name).
Proof.
  unfold new_ZulipClient, getSiteCredentials.
  apply dbpure_bind; [|intros; apply dbpure_ret].
  apply dbpure_bind; [apply dbpure_loadCredentials|].
  intros c. destruct (lookup_site _ c); [apply dbpure_ret | apply dbpure_throw].
Qed.

Lemma dbpure_exportTopicToJson a b c l u : dbpure (exportTopicToJson a b c l u).
Proof.
  unfold exportTopicToJson. apply dbpure_bind; [apply dbpure_now|].
  intros t w; split; reflexivity.
Qed.

Lemma returns_any {A} (m : M A) : returns m (fun _ => True).
Proof. intros w a w' _; exact I. Qed.

(* ===================================================================== *)
(** ** Pagination: the scenario of 1500 messages *)
(* ===================================================================== *)

(** C7.  A conversation has the 1500 remote messages 1..1500 and the page
    size is 1000.  A sync that starts from an empty store (no watermark)
    sends, after the register call, exactly two requests for messages (one
    anchored at 'oldest', one at 1000), stores the 1500 messages and leaves
    the watermark of the conversation at 1500.  The bound on the number of
    requests plays no part once it is at least two. *)
Theorem sync_1500_in_two_pages :
  forall fuel,
    let r := syncSite plain (welcomeEnv 1500) (S (S fuel)) "alpha" initialWorld in
    let narrow := [ {| operator := op_stream; operand := "general" |};
                    {| operator := op_topic; operand := "welcome" |} ] in
    batchSize = 1000 /\
    fst r = Ok 1500 /\
    map snd (sent (snd r)) =
      [POST_register; GET_messages narrow oldest 0 1000; GET_messages narrow (anchorId 1000) 0 1000] /\
    stored_ids (db (snd r)) 1 = ids_after 0 1500 /\
    List.length (tbl_messages (db (snd r))) = 1500%nat /\
    map topic_name (tbl_topics (db (snd r))) = ["welcome"] /\
    watermark (db (snd r)) 1 = Some 1500.
Proof.
  intros fuel. vm_compute. repeat split; reflexivity.
Qed.

(* ===================================================================== *)
(** ** The incremental fetch and the message after the watermark *)
(* ===================================================================== *)

Lemma last_id_In (l : list ZulipMessage) :
  l <> [] -> exists m, In m l /\ last_id l = zm_id m.
Proof.
  unfold last_id. induction l as [|x l IH]; intros H; [congruence|].
  destruct l as [|y l'].
  - exists x; cbn; auto.
  - destruct IH as (m & Hm & E); [discriminate|].
    exists m; split; [right; assumption|]. exact E.
Qed.

(** Whatever the service answers, no message that [getTopicMessages] hands
    back has an identifier at or below its anchor. *)
Lemma getTopicMessages_loop_above E fuel client narrow :
  forall a acc, returns (getTopicMessages_loop E fuel client narrow (anchorId a) acc)
    (fun l => forall b, b <= a -> Forall (fun m => b < zm_id m) acc -> Forall (fun m => b < zm_id m) l).
Proof.
  induction fuel as [|fuel IH]; intros a acc w l w' H; cbn [getTopicMessages_loop] in H.
  - discriminate.
  - apply bind_inv_ok in H. destruct H as ([r|r] & w1 & _ & H); [discriminate|].
    destruct (gm_result r); [|discriminate].
    cbv zeta in H.
    set (new := filter (fun m => a <? zm_id m) (gm_messages r)) in *.
    assert (Hnew : Forall (fun m => a < zm_id m) new).
    { apply Forall_forall. intros m Hm. apply filter_In in Hm. destruct Hm as [_ Hm].
      apply Z.ltb_lt; assumption. }
    destruct (Z.of_nat (List.length new) =? 0) eqn:Hlen.
    + injection H as <- _. auto.
    + destruct (gm_found_newest r || (Z.of_nat (List.length new) <? batchSize)).
      * injection H as <- _. intros b Hb Hacc. apply Forall_app; split; auto.
        eapply Forall_impl; [|exact Hnew]. cbn; intros; lia.
      * intros b Hb Hacc.
        assert (Hlast : a < last_id new).
        { destruct (@last_id_In new) as (m & Hm & ->).
          - intros E0; rewrite E0 in Hlen; discriminate.
          - rewrite Forall_forall in Hnew; auto. }
        eapply IH; [exact H| |].
        -- lia.
        -- apply Forall_app; split; auto.
           eapply Forall_impl; [|exact Hnew]. cbn; intros; lia.
Qed.

(** An incremental fetch after the watermark [x] never hands back a message
    at or below [x + 1]: nothing at or below the watermark comes back, and
    neither does the message [x + 1]. *)
Lemma getTopicMessages_above E fuel client s t x :
  x <> 0 ->
  returns (getTopicMessages E fuel client s t (Some x)) (Forall (fun m => x + 1 < zm_id m)).
Proof.
  intros Hx w l w' H. unfold getTopicMessages, first_anchor in H.
  apply Z.eqb_neq in Hx. rewrite Hx in H.
  eapply getTopicMessages_loop_above in H. apply H; [lia | constructor].
Qed.

(** C1, at the failing input.  The conversation has the remote messages
    1..7 and the stored watermark is 5.  The messages after the watermark
    are 6 and 7; the incremental fetch hands back 7 alone: it asks for the
    page anchored at 6 and then drops the anchor message from the page. *)
Theorem incremental_fetch_omits_successor :
  forall fuel,
    let r := getTopicMessages (welcomeEnv 7) (S fuel) alphaClient "general" "welcome" (Some 5)
               initialWorld in
    newer (Some 5) (map message (ids_after 0 7)) = [message 6; message 7] /\
    fst r = Ok [message 7] /\
    map snd (sent (snd r)) =
      [GET_messages [ {| operator := op_stream; operand := "general" |};
                      {| operator := op_topic; operand := "welcome" |} ] (anchorId 6) 0 1000].
Proof.
  intros fuel. vm_compute. repeat split; reflexivity.
Qed.

(* ===================================================================== *)
(** ** Failures of the transport *)
(* ===================================================================== *)






(* ===================================================================== *)
(** ** Loops without a handler *)
(* ===================================================================== *)

Lemma forOf_app {X A} (pre post : list X) (body : A -> X -> M A) acc w :
  forOf (pre ++ post) body acc w =
  match forOf pre body acc w with
  | (Ok a, w1) => forOf post body a w1
  | (Throw e, w1) => (Throw e, w1)
  end.
Proof.
  revert acc w. induction pre as [|x pre IH]; intros acc w; cbn [forOf app].
  - reflexivity.
  - unfold bind. destruct (body acc x w) as [[a|e] w1]; [apply IH | reflexivity].
Qed.

(** The iteration that throws ends the loop: the iterations after it do not
    run. *)
Lemma forOf_abort {X A} (pre post : list X) (x : X) (body : A -> X -> M A) acc w a w1 e w2 :
  forOf pre body acc w = (Ok a, w1) ->
  body a x w1 = (Throw e, w2) ->
  forOf (pre ++ x :: post) body acc w = (Throw e, w2).
Proof.
  intros Hpre Hx. rewrite forOf_app, Hpre. cbn [forOf].
  apply bind_throw; assumption.
Qed.

Lemma requested_sites_world E site all w : snd (requested_sites E site all w) = w.
Proof.
  unfold requested_sites, listSites, getDefaultSite, loadCredentials, bind.
  destruct all; [destruct (credentialsFile E); reflexivity|].
  destruct site as [s|]; [destruct (String.eqb s "")|];
    try reflexivity; destruct (credentialsFile E); reflexivity.
Qed.

Section Isolation.

Variable convert : string -> string.
Variable E : Env.
Variable fuel : nat.

(** C5, as amended.  The loop of [syncSite] over the planned conversations
    has no handler.  When fetching or storing one planned conversation
    throws, after the conversations planned before it were synced, the
    pass ends there with that exception: the world is the one the failing
    conversation left, so that the conversations planned after it are not
    fetched in this pass and the site's last-sync time is not written. *)
Theorem topic_failure_aborts_pass :
  forall name w client siteId w0 w0' pre t post n w1 e w2,
    refreshUnread E name w = (Ok (client, siteId), w0) ->
    getUnreadTopics siteId w0 = (Ok (pre ++ t :: post), w0') ->
    forOf pre (syncTopic convert E fuel client name siteId) 0 w0' = (Ok n, w1) ->
    syncTopic convert E fuel client name siteId n t w1 = (Throw e, w2) ->
    syncSite convert E fuel name w = (Throw e, w2).
Proof.
  intros name w client siteId w0 w0' pre t post n w1 e w2 Hr Hu Hpre Ht.
  unfold syncSite.
  rewrite (bind_ok _ _ _ Hr). cbn [fst snd].
  rewrite (bind_ok _ _ _ Hu).
  assert (Hlen : (Z.of_nat (List.length (pre ++ t :: post)) =? 0) = false).
  { apply Z.eqb_neq. rewrite length_app. cbn [List.length]. lia. }
  rewrite Hlen.
  apply bind_throw. eapply forOf_abort; eassumption.
Qed.

(** C6, as amended.  The loop of [syncCommand] over the requested sites has
    no handler.  When the pass of one site throws (a refused credential
    included), after the sites before it were synced, the command ends
    there with that exception: the world is the one the failing pass left,
    so that the sites after it are not attempted; the program reports the
    failure by its exit status 1. *)
Theorem site_failure_aborts_command :
  forall options w pre s post w1 e w2,
    fst (requested_sites E (opt_site options) (opt_all options) w) = Ok (pre ++ s :: post) ->
    forOf pre (fun _ siteName => (syncSite convert E fuel siteName ;; ret tt)) tt w = (Ok tt, w1) ->
    syncSite convert E fuel s w1 = (Throw e, w2) ->
    syncCommand convert E fuel options w = (Throw e, w2) /\
    action (syncCommand convert E fuel options) w = (1, w2).
Proof.
  intros options w pre s post w1 e w2 Hs Hpre Hsite.
  assert (Hcmd : syncCommand convert E fuel options w = (Throw e, w2)).
  { unfold syncCommand.
    assert (Hreq : requested_sites E (opt_site options) (opt_all options) w
                   = (Ok (pre ++ s :: post), w)).
    { pose proof (requested_sites_world E (opt_site options) (opt_all options) w) as Hw.
      destruct (requested_sites E (opt_site options) (opt_all options) w) as [r w'].
      cbn in Hs, Hw. subst. reflexivity. }
    rewrite (bind_ok _ _ _ Hreq).
    eapply forOf_abort; [eassumption|].
    apply bind_throw; assumption. }
  split; [assumption|].
  unfold action. rewrite Hcmd. reflexivity.
Qed.

End Isolation.

(** C5, the counterexample.  Two conversations are planned, general/gone
    and general/welcome; the service answers 404 for the first (it has
    vanished) and would hand out the three messages of the second.  The
    pass throws at the first conversation: no request is made for
    general/welcome and none of its messages is stored. *)
Lemma vanished_topic_blocks_the_rest :
  let r := syncSite plain vanishedEnv 3 "alpha" initialWorld in
  fst (getTopicMessages vanishedEnv 3 alphaClient "general" "welcome" None initialWorld)
    = Ok (map message [10; 11; 12]) /\
  fst r = Throw (ApiError 404 "Not Found") /\
  map snd (sent (snd r)) =
    [POST_register;
     GET_messages [ {| operator := op_stream; operand := "general" |};
                    {| operator := op_topic; operand := "gone" |} ] oldest 0 1000] /\
  map topicName (select_unread_topics 1 (db (snd r))) = ["gone"; "welcome"] /\
  tbl_messages (db (snd r)) = [] /\
  map site_last_sync (tbl_sites (db (snd r))) = [None].
Proof. vm_compute. repeat split; reflexivity. Qed.

Lemma topic_failure_aborts_pass_witness :
  syncSite plain vanishedEnv 3 "alpha" initialWorld
  = (Throw (ApiError 404 "Not Found"), snd (syncSite plain vanishedEnv 3 "alpha" initialWorld)).
Proof.
  eapply (@topic_failure_aborts_pass plain vanishedEnv 3 "alpha" initialWorld _ _ _ _ [] _ _).
  - vm_compute; reflexivity.
  - vm_compute; reflexivity.
  - vm_compute; reflexivity.
  - vm_compute; reflexivity.
Defined.

(** C6, the counterexample.  The sync is requested over all sites, alpha
    and beta.  alpha refuses the credentials (401); beta would sync five
    messages.  The command throws at alpha: beta is never contacted and
    nothing of it is stored. *)
Lemma later_sites_not_attempted :
  let r := action (syncCommand plain alphaRefusesEnv 3 allSites) initialWorld in
  fst (requested_sites alphaRefusesEnv (opt_site allSites) (opt_all allSites) initialWorld)
    = Ok ["alpha"; "beta"] /\
  fst (syncSite plain alphaRefusesEnv 3 "beta" initialWorld) = Ok 5 /\
  fst r = 1 /\
  sent (snd r) = [("https://alpha.example", POST_register)] /\
  db (snd r) = emptyDB.
Proof. vm_compute. repeat split; reflexivity. Qed.

Lemma site_failure_aborts_command_witness :
  action (syncCommand plain alphaRefusesEnv 3 allSites) initialWorld
  = (1, snd (syncSite plain alphaRefusesEnv 3 "alpha" initialWorld)).
Proof.
  eapply (@site_failure_aborts_command plain alphaRefusesEnv 3 allSites initialWorld
            [] "alpha" ["beta"]).
  - vm_compute; reflexivity.
  - vm_compute; reflexivity.
  - vm_compute; reflexivity.
Defined.

(* ===================================================================== *)
(** ** The store: inserting a batch and moving the watermark *)
(* ===================================================================== *)

Section Store.

Variable convert : string -> string.

Lemma has_message_stored rows tid x :
  has_message tid x rows = true <->
  In x (map sm_message_id (filter (fun r => sm_topic_id r =? tid) rows)).
Proof.
  unfold has_message. rewrite existsb_exists, in_map_iff. split.
  - intros (r & Hr & Hb). apply andb_true_iff in Hb. destruct Hb as [Ht Hm].
    exists r. split; [apply Z.eqb_eq; assumption|].
    apply filter_In; split; assumption.
  - intros (r & Hm & Hr). apply filter_In in Hr. destruct Hr as [Hr Ht].
    exists r. split; [assumption|]. rewrite Ht. cbn. apply Z.eqb_eq; assumption.
Qed.

Lemma has_message_key rows tid x :
  has_message tid x rows = true <-> In (tid, x) (map message_key rows).
Proof.
  unfold has_message. rewrite existsb_exists, in_map_iff. split.
  - intros (r & Hr & Hb). apply andb_true_iff in Hb. destruct Hb as [Ht Hm].
    apply Z.eqb_eq in Ht, Hm. exists r. unfold message_key. split; [congruence | assumption].
  - intros (r & Hk & Hr). unfold message_key in Hk. injection Hk as Ht Hm.
    exists r. split; [assumption|]. apply andb_true_iff; split; apply Z.eqb_eq; assumption.
Qed.

(** What one insertion does to the store. *)
Lemma insert_row_cases tid d msg :
  (has_message tid (zm_id msg) (tbl_messages d) = true /\ insert_row convert tid d msg = d) \/
  (has_message tid (zm_id msg) (tbl_messages d) = false /\
   exists r, sm_topic_id r = tid /\ sm_message_id r = zm_id msg /\
             insert_row convert tid d msg = set_messages (tbl_messages d ++ [r]) d).
Proof.
  unfold insert_row, insert_or_ignore_message.
  destruct (has_message tid (zm_id msg) (tbl_messages d)); [left; auto|].
  right. split; [reflexivity|]. eexists. refine (conj _ (conj _ eq_refl)); reflexivity.
Qed.

Lemma insert_row_tables tid d msg :
  tbl_sites (insert_row convert tid d msg) = tbl_sites d /\
  tbl_streams (insert_row convert tid d msg) = tbl_streams d /\
  tbl_topics (insert_row convert tid d msg) = tbl_topics d /\
  tbl_unread (insert_row convert tid d msg) = tbl_unread d.
Proof.
  destruct (insert_row_cases tid d msg) as [[_ ->]|[_ (r & _ & _ & ->)]]; repeat split.
Qed.

Lemma insert_all_tables tid batch : forall d,
  tbl_sites (insert_all convert tid batch d) = tbl_sites d /\
  tbl_streams (insert_all convert tid batch d) = tbl_streams d /\
  tbl_topics (insert_all convert tid batch d) = tbl_topics d /\
  tbl_unread (insert_all convert tid batch d) = tbl_unread d.
Proof.
  unfold insert_all. induction batch as [|m batch IH]; intros d; cbn [fold_left].
  - repeat split.
  - destruct (IH (insert_row convert tid d m)) as (H1 & H2 & H3 & H4).
    destruct (insert_row_tables tid d m) as (G1 & G2 & G3 & G4).
    repeat split; congruence.
Qed.

Lemma stored_ids_app d rows tid :
  stored_ids (set_messages (tbl_messages d ++ rows) d) tid =
  stored_ids d tid ++ map sm_message_id (filter (fun r => sm_topic_id r =? tid) rows).
Proof. unfold stored_ids. cbn. rewrite filter_app, map_app. reflexivity. Qed.

Lemma insert_row_stored tid d msg tid' x :
  In x (stored_ids (insert_row convert tid d msg) tid') <->
  In x (stored_ids d tid') \/ (tid' = tid /\ x = zm_id msg).
Proof.
  destruct (insert_row_cases tid d msg) as [[Hh ->]|[Hh (r & Ht & Hm & ->)]].
  - split; [auto|]. intros [H|[-> ->]]; [assumption|].
    apply has_message_stored; assumption.
  - rewrite stored_ids_app, in_app_iff. cbn [filter].
    destruct (sm_topic_id r =? tid') eqn:Eb.
    + apply Z.eqb_eq in Eb. cbn. rewrite Hm. split.
      * intros [H|[H|[]]]; [auto|]. right; split; congruence.
      * intros [H|[_ ->]]; auto.
    + apply Z.eqb_neq in Eb. cbn. split.
      * intros [H|[]]; auto.
      * intros [H|[-> _]]; [auto | congruence].
Qed.

Lemma insert_all_stored tid batch : forall d tid' x,
  In x (stored_ids (insert_all convert tid batch d) tid') <->
  In x (stored_ids d tid') \/ (tid' = tid /\ In x (map zm_id batch)).
Proof.
  unfold insert_all. induction batch as [|m batch IH]; intros d tid' x; cbn [fold_left map In].
  - tauto.
  - rewrite IH, insert_row_stored. intuition congruence.
Qed.

Lemma insert_all_batch_stored tid batch d : batch_stored (insert_all convert tid batch d) tid batch.
Proof.
  intros m Hm. apply insert_all_stored. right. split; [reflexivity|].
  apply in_map; assumption.
Qed.

(** A batch all of whose messages are present changes nothing. *)
Lemma insert_all_present tid batch : forall d,
  (forall m, In m batch -> has_message tid (zm_id m) (tbl_messages d) = true) ->
  insert_all convert tid batch d = d.
Proof.
  unfold insert_all. induction batch as [|m batch IH]; intros d H; cbn [fold_left].
  - reflexivity.
  - destruct (insert_row_cases tid d m) as [[_ E]|[Hh _]].
    + rewrite E. apply IH. intros; apply H; right; assumption.
    + rewrite H in Hh; [discriminate | left; reflexivity].
Qed.

Lemma added_insert_row tid d msg :
  added d (insert_row convert tid d msg) =
  if has_message tid (zm_id msg) (tbl_messages d) then 0 else 1.
Proof.
  unfold added.
  destruct (insert_row_cases tid d msg) as [[Hh ->]|[Hh (r & _ & _ & ->)]]; rewrite Hh.
  - lia.
  - cbn. rewrite length_app. cbn. lia.
Qed.

Lemma insertMany_body_cases tid acc msg w :
  (exists e w', insertMany_body convert tid acc msg w = (Throw e, w')) \/
  (exists w', insertMany_body convert tid acc msg w
              = (Ok (acc + added (db w) (insert_row convert tid (db w) msg)), w') /\
              db w' = insert_row convert tid (db w) msg /\
              (fuse w = None -> fuse w' = None) /\ net w' = net w).
Proof.
  unfold insertMany_body, bind.
  destruct (run_cases (insert_or_ignore_message tid msg (convert (zm_content msg))) w)
    as [(e & w' & -> & _)|(a & d & w' & Hrun & Hu & Hd)].
  - left; eauto.
  - right. rewrite Hrun. exists w'.
    assert (Hf : (fuse w = None -> fuse w' = None) /\ net w' = net w).
    { unfold run, bind, tick in Hrun.
      destruct (fuse w) as [[|k]|] eqn:Ef; [discriminate| |]; cbn [db set_fuse] in Hrun;
        rewrite Hu in Hrun; injection Hrun as <-;
        (split; [intros Hx; first [discriminate Hx | exact Ef] | reflexivity]). }
    rewrite added_insert_row. unfold insert_row. rewrite Hu.
    unfold insert_or_ignore_message in Hu.
    destruct (has_message tid (zm_id msg) (tbl_messages (db w)));
      injection Hu as <- <-; cbn; (split; [unfold ret; f_equal; f_equal; lia | split; [assumption | exact Hf]]).
Qed.

Lemma added_trans d1 d2 d3 : added d1 d2 + added d2 d3 = added d1 d3.
Proof. unfold added; lia. Qed.

Lemma insertMany_cases tid batch : forall acc w,
  (exists e w', forOf batch (insertMany_body convert tid) acc w = (Throw e, w')) \/
  (exists w', forOf batch (insertMany_body convert tid) acc w
              = (Ok (acc + added (db w) (insert_all convert tid batch (db w))), w') /\
              db w' = insert_all convert tid batch (db w) /\
              (fuse w = None -> fuse w' = None) /\ net w' = net w).
Proof.
  induction batch as [|m batch IH]; intros acc w; cbn [forOf].
  - right. exists w. unfold insert_all, added; cbn. repeat split; auto.
    unfold ret; f_equal; f_equal; lia.
  - destruct (insertMany_body_cases tid acc m w) as [(e & w1 & H1)|(w1 & H1 & Hd1 & Hf1 & Hn1)].
    + left. exists e, w1. apply bind_throw; assumption.
    + rewrite (bind_ok _ _ _ H1).
      destruct (IH (acc + added (db w) (insert_row convert tid (db w) m)) w1)
        as [(e & w2 & H2)|(w2 & H2 & Hd2 & Hf2 & Hn2)].
      * left; eauto.
      * right. exists w2. rewrite H2, Hd2, Hd1. repeat split; auto; try congruence.
        f_equal. unfold insert_all at 2. cbn [fold_left]. fold (insert_all convert tid batch).
        rewrite <- Z.add_assoc, added_trans. reflexivity.
Qed.

(** [insertMessages] is all or nothing: it throws and the store is as it
    was, or the whole batch is in. *)
Lemma insertMessages_cases tid batch w :
  (exists e w', insertMessages convert tid batch w = (Throw e, w') /\ db w' = db w) \/
  (exists w', insertMessages convert tid batch w
              = (Ok (added (db w) (insert_all convert tid batch (db w))), w') /\
              db w' = insert_all convert tid batch (db w) /\
              (fuse w = None -> fuse w' = None) /\ net w' = net w).
Proof.
  unfold insertMessages, transaction.
  destruct (insertMany_cases tid batch 0 w) as [(e & w1 & H1)|(w1 & H1 & Hd1 & Hf)].
  - left. rewrite H1. eexists _, _. split; reflexivity.
  - right. rewrite H1. exists w1. repeat split; tauto.
Qed.

Lemma watermark_update_same x tid d :
  has_topic d tid ->
  forall a d', update_last_message_id x tid d = Ok (a, d') -> watermark d' tid = Some x.
Proof.
  intros Hrow a d' H. injection H as _ <-.
  unfold watermark, select_last_message_id, has_topic in *. cbn.
  induction (tbl_topics d) as [|r rows IH]; [contradiction|].
  cbn [map find]. destruct (topic_row_id r =? tid) eqn:Er.
  - cbn. rewrite Er. reflexivity.
  - rewrite Er. apply IH. destruct Hrow as [H|H]; [|assumption].
    apply Z.eqb_neq in Er. congruence.
Qed.

Lemma watermark_update_other x tid d tid' :
  tid' <> tid ->
  forall a d', update_last_message_id x tid d = Ok (a, d') -> watermark d' tid' = watermark d tid'.
Proof.
  intros Hne a d' H. injection H as _ <-.
  unfold watermark, select_last_message_id. cbn.
  induction (tbl_topics d) as [|r rows IH]; [reflexivity|].
  cbn [map find]. destruct (topic_row_id r =? tid) eqn:Er.
  - cbn [topic_row_id]. apply Z.eqb_eq in Er.
    assert (Hn : (topic_row_id r =? tid') = false) by (apply Z.eqb_neq; congruence).
    rewrite Hn. exact IH.
  - destruct (topic_row_id r =? tid'); [reflexivity | exact IH].
Qed.

Lemma update_last_message_id_tables x tid d a d' :
  update_last_message_id x tid d = Ok (a, d') ->
  tbl_sites d' = tbl_sites d /\ tbl_streams d' = tbl_streams d /\
  tbl_messages d' = tbl_messages d /\ tbl_unread d' = tbl_unread d.
Proof. intros H; injection H as _ <-. repeat split. Qed.

(** C2, as amended.  [insertMessages] is atomic per batch: it stores every
    message of the batch, or it throws and the store is as it was.  The
    watermark is moved by a statement of its own, outside that transaction
    and after it.  So storing a non-empty batch for a conversation ends in
    one of three ways: (1) it returns, every message of the batch is stored
    and the watermark is the largest identifier of the batch; (2) it throws
    and the store is unchanged; (3) it throws between the two steps: every
    message of the batch is stored and the watermark is unchanged.  The
    watermark is never moved unless the whole batch is stored. *)
Theorem storeBatch_outcomes :
  forall tid batch w,
    has_topic (db w) tid -> batch <> [] ->
    match storeBatch convert tid batch w with
    | (Ok n, w') =>
        batch_stored (db w') tid batch /\
        watermark (db w') tid = Some (Math_max (map zm_id batch)) /\
        n = added (db w) (db w')
    | (Throw _, w') =>
        db w' = db w \/
        (db w' = insert_all convert tid batch (db w) /\
         batch_stored (db w') tid batch /\ tbl_topics (db w') = tbl_topics (db w))
    end.
Proof.
  intros tid batch w Hrow Hne. unfold storeBatch.
  destruct (insertMessages_cases tid batch w) as [(e & w1 & H1 & Hd1)|(w1 & H1 & Hd1 & _)].
  - rewrite (bind_throw _ _ _ H1). left; assumption.
  - rewrite (bind_ok _ _ _ H1). unfold updateTopicLastMessageId.
    destruct (run_cases (update_last_message_id (Math_max (map zm_id batch)) tid) w1)
      as [(e & w2 & H2 & Hd2)|(a & d & w2 & H2 & Hu & Hd2)].
    + rewrite (bind_throw _ _ _ H2). right. rewrite Hd2, Hd1.
      split; [reflexivity|]. split; [apply insert_all_batch_stored|].
      apply insert_all_tables.
    + rewrite (bind_ok _ _ _ H2). cbn. rewrite Hd2.
      destruct (update_last_message_id_tables Hu) as (_ & _ & Hm & _).
      repeat split.
      * intros m Hin. unfold stored_ids. rewrite Hm. rewrite Hd1.
        apply insert_all_batch_stored; assumption.
      * eapply watermark_update_same; [|exact Hu].
        unfold has_topic. rewrite Hd1.
        destruct (insert_all_tables tid batch (db w)) as (_ & _ & -> & _). assumption.
      * unfold added. rewrite Hm, Hd1. reflexivity.
Qed.

End Store.

(** C2, the counterexample.  A store with one conversation and no message;
    the batch is the single message 1; the second statement from now, the
    one that moves the watermark, throws.  The message is stored and the
    watermark is not moved: the insertion and the watermark are separated. *)
Lemma batch_stored_watermark_not_moved :
  let r := storeBatch plain 1 [message 1] (set_db oneTopicDB (fused 1)) in
  fst r = Throw SqliteError /\
  stored_ids (db (snd r)) 1 = [1] /\
  watermark (db (snd r)) 1 = None.
Proof. vm_compute. repeat split; reflexivity. Qed.

Lemma storeBatch_outcomes_witness :
  batch_stored (db (snd (storeBatch plain 1 [message 1] (set_db oneTopicDB initialWorld)))) 1 [message 1] /\
  watermark (db (snd (storeBatch plain 1 [message 1] (set_db oneTopicDB initialWorld)))) 1 = Some 1.
Proof.
  assert (H1 : has_topic (db (set_db oneTopicDB initialWorld)) 1) by (left; reflexivity).
  assert (H2 : [message 1] <> []) by discriminate.
  pose proof (@storeBatch_outcomes plain 1 [message 1] (set_db oneTopicDB initialWorld) H1 H2) as H.
  destruct (storeBatch plain 1 [message 1] (set_db oneTopicDB initialWorld)) as [[n|e] w'] eqn:E.
  - destruct H as (Hs & Hw & _). split; assumption.
  - vm_compute in E. discriminate.
Defined.

(* ===================================================================== *)
(** ** Properties that every statement keeps *)
(* ===================================================================== *)

Section Keeps.

Variable I : DB -> Prop.

Lemma dh_run_keeps {A} (u : DB -> Result (A * DB)) :
  stmt_keeps I u -> dhoare I (run u) (fun _ => I) I.
Proof. intros H. apply dh_run. intros d a d' Hd Hu. eapply H; eassumption. Qed.

Lemma dh_query_keeps {A} (q : DB -> A) : dhoare I (query q) (fun _ => I) I.
Proof. eapply dh_conseq; [apply (dh_query I q) | auto | intros a d [H _]; exact H | auto]. Qed.

Lemma dh_dbpure_keeps {A} (m : M A) : dbpure m -> dhoare I m (fun _ => I) I.
Proof.
  intros H. eapply dh_conseq; [apply (dh_dbpure I H (@returns_any _ m)) | auto | intros a d [Hd _]; exact Hd | auto].
Qed.

Lemma getOrCreateSite_keeps name url :
  stmt_keeps I (insert_site name url) ->
  dhoare I (getOrCreateSite name url) (fun _ => I) I.
Proof.
  intros H. unfold getOrCreateSite. eapply dh_bind; [apply dh_query_keeps|].
  intros [r|]; [apply dh_ret; auto | apply dh_run_keeps; assumption].
Qed.

Lemma updateSiteLastSync_keeps siteId :
  (forall t, stmt_keeps I (update_site_last_sync t siteId)) ->
  dhoare I (updateSiteLastSync siteId) (fun _ => I) I.
Proof.
  intros H. unfold updateSiteLastSync.
  eapply dh_bind; [apply dh_dbpure_keeps, dbpure_now|].
  intros t. apply dh_run_keeps, H.
Qed.

Lemma getOrCreateStream_keeps siteId sid name :
  (forall rowId, stmt_keeps I (update_stream_name name rowId)) ->
  stmt_keeps I (insert_stream siteId sid name) ->
  dhoare I (getOrCreateStream siteId sid name) (fun _ => I) I.
Proof.
  intros Hu Hi. unfold getOrCreateStream. eapply dh_bind; [apply dh_query_keeps|].
  intros [r|]; [|apply dh_run_keeps; assumption].
  eapply dh_bind; [apply dh_run_keeps, Hu|]. intros ?. apply dh_ret; auto.
Qed.

(** The conversation that [getOrCreateTopic] returns has a row. *)
Lemma getOrCreateTopic_keeps streamDbId name :
  stmt_keeps I (insert_topic streamDbId name) ->
  dhoare I (getOrCreateTopic streamDbId name) (fun tid d => I d /\ has_topic d tid) I.
Proof.
  intros Hi. unfold getOrCreateTopic. eapply dh_bind; [apply (dh_query I)|].
  intros [r|].
  - apply dh_ret. intros d [Hd Hr]. split; [assumption|].
    symmetry in Hr. apply find_some in Hr. apply in_map. tauto.
  - eapply dh_conseq with (P' := I) (Q' := fun tid d => I d /\ has_topic d tid) (X' := I);
      [apply dh_run | intros d [Hd _]; exact Hd | auto | auto].
    intros d a d' Hd Hu. split; [eapply Hi; eassumption|].
    injection Hu as <- <-. unfold has_topic; cbn. rewrite map_app, in_app_iff.
    right; left; reflexivity.
Qed.

Lemma clearUnreadMessages_keeps siteId :
  stmt_keeps I (delete_unread siteId) ->
  dhoare I (clearUnreadMessages siteId) (fun _ => I) I.
Proof. intros H. apply dh_run_keeps, H. Qed.

Lemma insertUnreadMessages_keeps siteId unreads streamMap :
  (forall msgId sid sname topic, stmt_keeps I (insert_unread siteId msgId sid sname topic)) ->
  dhoare I (insertUnreadMessages siteId unreads streamMap) (fun _ => I) I.
Proof.
  intros H. unfold insertUnreadMessages. apply dh_transaction.
  eapply dh_conseq; [apply (@dh_forOf _ _ (fun _ => I) (fun _ => True)) | auto | auto | auto].
  intros [] item _.
  eapply dh_conseq; [apply (@dh_forOf _ _ (fun _ => I) (fun _ => True)) | auto | auto | auto].
  intros [] msgId _.
  eapply dh_conseq; [apply dh_run_keeps, H | auto | auto | auto].
Qed.

Lemma refreshUnread_keeps E name :
  (forall url, stmt_keeps I (insert_site name url)) ->
  (forall siteId, stmt_keeps I (delete_unread siteId)) ->
  (forall siteId msgId sid sname topic, stmt_keeps I (insert_unread siteId msgId sid sname topic)) ->
  dhoare I (refreshUnread E name) (fun _ => I) I.
Proof.
  intros H1 H2 H3. unfold refreshUnread.
  eapply dh_bind; [apply dh_dbpure_keeps, dbpure_new_ZulipClient|]. intros client.
  eapply dh_bind; [apply dh_dbpure_keeps, dbpure_register|]. intros reg. cbv zeta.
  eapply dh_bind; [apply getOrCreateSite_keeps, H1|]. intros siteId.
  eapply dh_bind; [apply clearUnreadMessages_keeps, H2|]. intros ?.
  eapply dh_bind; [apply insertUnreadMessages_keeps, H3|]. intros ?.
  apply dh_ret; auto.
Qed.

Lemma insert_all_keeps convert tid batch :
  (forall d msg, I d -> I (insert_row convert tid d msg)) ->
  forall d, I d -> I (insert_all convert tid batch d).
Proof.
  intros H. unfold insert_all. induction batch as [|m batch IH]; intros d Hd; cbn [fold_left].
  - assumption.
  - apply IH, H, Hd.
Qed.

Lemma insertMessages_keeps convert tid batch :
  (forall d msg, I d -> I (insert_row convert tid d msg)) ->
  dhoare I (insertMessages convert tid batch) (fun _ => I) I.
Proof.
  intros H w Hw.
  destruct (insertMessages_cases convert tid batch w) as [(e & w1 & -> & Hd)|(w1 & -> & Hd & _)];
    rewrite Hd; [assumption|]. apply insert_all_keeps; assumption.
Qed.

Lemma storeBatch_keeps convert tid batch :
  (forall d msg, I d -> I (insert_row convert tid d msg)) ->
  (forall x, stmt_keeps I (update_last_message_id x tid)) ->
  dhoare I (storeBatch convert tid batch) (fun _ => I) I.
Proof.
  intros H1 H2. unfold storeBatch.
  eapply dh_bind; [apply insertMessages_keeps, H1|]. intros inserted. cbv zeta.
  eapply dh_bind; [apply dh_run_keeps, H2|]. intros ?. apply dh_ret; auto.
Qed.

Lemma syncTopic_keeps convert E fuel client name siteId total topic :
  (forall s rowId, stmt_keeps I (update_stream_name s rowId)) ->
  (forall siteId sid s, stmt_keeps I (insert_stream siteId sid s)) ->
  (forall sid s, stmt_keeps I (insert_topic sid s)) ->
  (forall tid d msg, I d -> I (insert_row convert tid d msg)) ->
  (forall x tid, stmt_keeps I (update_last_message_id x tid)) ->
  dhoare I (syncTopic convert E fuel client name siteId total topic) (fun _ => I) I.
Proof.
  intros H1 H2 H3 H4 H5. unfold syncTopic.
  eapply dh_bind; [apply getOrCreateStream_keeps; [apply H1 | apply H2]|]. intros streamDbId.
  eapply dh_bind; [eapply dh_conseq; [apply getOrCreateTopic_keeps, H3 | auto | | auto]|].
  { intros a d [Hd _]; exact Hd. }
  intros topicDbId.
  eapply dh_bind; [apply dh_query_keeps|]. intros lastMessageId.
  eapply dh_bind; [apply dh_dbpure_keeps, dbpure_getTopicMessages|]. intros messages.
  destruct (0 <? Z.of_nat (List.length messages)); [|apply dh_ret; auto].
  eapply dh_bind; [apply storeBatch_keeps; [apply H4 | intros; apply H5]|]. intros inserted.
  eapply dh_bind; [apply dh_query_keeps|]. intros stored.
  eapply dh_bind; [apply dh_dbpure_keeps, dbpure_exportTopicToJson|]. intros ?.
  apply dh_ret; auto.
Qed.

(** A property kept by every statement of the program is kept by a pass of
    [syncSite], however the pass ends. *)
Lemma syncSite_keeps convert E fuel name :
  (forall url, stmt_keeps I (insert_site name url)) ->
  (forall siteId, stmt_keeps I (delete_unread siteId)) ->
  (forall siteId msgId sid sname topic, stmt_keeps I (insert_unread siteId msgId sid sname topic)) ->
  (forall t siteId, stmt_keeps I (update_site_last_sync t siteId)) ->
  (forall s rowId, stmt_keeps I (update_stream_name s rowId)) ->
  (forall siteId sid s, stmt_keeps I (insert_stream siteId sid s)) ->
  (forall sid s, stmt_keeps I (insert_topic sid s)) ->
  (forall tid d msg, I d -> I (insert_row convert tid d msg)) ->
  (forall x tid, stmt_keeps I (update_last_message_id x tid)) ->
  dhoare I (syncSite convert E fuel name) (fun _ => I) I.
Proof.
  intros H1 H2 H3 H4 H5 H6 H7 H8 H9. unfold syncSite.
  eapply dh_bind; [apply refreshUnread_keeps; assumption|]. intros cs. cbv zeta.
  eapply dh_bind; [apply dh_query_keeps|]. intros unreadTopics.
  destruct (Z.of_nat (List.length unreadTopics) =? 0).
  - eapply dh_bind; [apply updateSiteLastSync_keeps; intros; apply H4|]. intros ?.
    apply dh_ret; auto.
  - eapply dh_bind.
    + apply (@dh_forOf _ _ (fun _ => I) I). intros acc x _. apply syncTopic_keeps; assumption.
    + intros total. eapply dh_bind; [apply updateSiteLastSync_keeps; intros; apply H4|].
      intros ?. apply dh_ret; auto.
Qed.

Lemma showUnreadForSite_keeps E name :
  (forall url, stmt_keeps I (insert_site name url)) ->
  (forall siteId, stmt_keeps I (delete_unread siteId)) ->
  (forall siteId msgId sid sname topic, stmt_keeps I (insert_unread siteId msgId sid sname topic)) ->
  dhoare I (showUnreadForSite E name) (fun _ => I) I.
Proof.
  intros H1 H2 H3. unfold showUnreadForSite.
  eapply dh_bind; [apply refreshUnread_keeps; assumption|]. intros cs. cbv zeta.
  eapply dh_bind; [apply dh_query_keeps|]. intros total.
  eapply dh_bind with (Q1 := fun _ => I); [|intros; apply dh_ret; auto].
  unfold getUnreadSummary.
  eapply dh_bind; [apply dh_query_keeps|]. intros rows. apply dh_ret; auto.
Qed.

End Keeps.

(* ===================================================================== *)
(** ** No duplication *)
(* ===================================================================== *)

(** The statements other than the insertion of a message do not touch the
    table of messages. *)
Ltac inv_stmt H :=
  unfold insert_site, delete_unread, insert_unread, update_site_last_sync, update_stream_name,
    insert_stream, insert_topic, update_last_message_id in H;
  try match type of H with
      | (if ?c then _ else _) = _ => destruct c eqn:?; [discriminate|]
      end;
  inversion H; subst; clear H.

Lemma keeps_of_messages (I : DB -> Prop) :
  (forall d d', tbl_messages d' = tbl_messages d -> I d -> I d') ->
  (forall name url, stmt_keeps I (insert_site name url)) /\
  (forall siteId, stmt_keeps I (delete_unread siteId)) /\
  (forall siteId msgId sid sname topic, stmt_keeps I (insert_unread siteId msgId sid sname topic)) /\
  (forall t siteId, stmt_keeps I (update_site_last_sync t siteId)) /\
  (forall s rowId, stmt_keeps I (update_stream_name s rowId)) /\
  (forall siteId sid s, stmt_keeps I (insert_stream siteId sid s)) /\
  (forall sid s, stmt_keeps I (insert_topic sid s)) /\
  (forall x tid, stmt_keeps I (update_last_message_id x tid)).
Proof.
  intros H. repeat split; intros; intros d a d' Hd Hu; inv_stmt Hu;
    (eapply H; [|exact Hd]); reflexivity.
Qed.

Lemma insert_row_unique convert tid d msg :
  unique_messages d -> unique_messages (insert_row convert tid d msg).
Proof.
  intros Hd.
  destruct (insert_row_cases convert tid d msg) as [[_ ->]|[Hh (r & Ht & Hm & ->)]]; [assumption|].
  unfold unique_messages in *. cbn. rewrite map_app. cbn.
  apply NoDup_app; [assumption | repeat constructor; intros [] |].
  intros k Hk [<-|[]].
  assert (Hin : has_message tid (zm_id msg) (tbl_messages d) = true).
  { apply has_message_key. unfold message_key at 1 in Hk. rewrite Ht, Hm in Hk. exact Hk. }
  congruence.
Qed.

Lemma unique_messages_reachable convert d : reachable convert d -> unique_messages d.
Proof.
  assert (Hm : forall d d', tbl_messages d' = tbl_messages d ->
                            unique_messages d -> unique_messages d').
  { unfold unique_messages. intros ? ? ->. auto. }
  destruct (keeps_of_messages _ Hm) as (H1 & H2 & H3 & H4 & H5 & H6 & H7 & H8).
  induction 1 as [|E fuel name w _ IH|E name w _ IH].
  - constructor.
  - pose proof (@syncSite_keeps unique_messages convert E fuel name
                  (H1 name) H2 H3 H4 H5 H6 H7
                  (fun tid d msg => @insert_row_unique convert tid d msg) H8 w IH) as H.
    destruct (syncSite convert E fuel name w) as [[a|e] w']; exact H.
  - pose proof (@showUnreadForSite_keeps unique_messages E name (H1 name) H2 H3 w IH) as H.
    destruct (showUnreadForSite E name w) as [[a|e] w']; exact H.
Qed.

Lemma set_db_same w : set_db (db w) w = w.
Proof. destruct w; reflexivity. Qed.

Lemma set_db_set_db d d' w : set_db d (set_db d' w) = set_db d w.
Proof. reflexivity. Qed.

(** When no statement fails, the insertion of a batch returns. *)
Lemma insertMany_body_calm convert tid acc msg w :
  fuse w = None ->
  insertMany_body convert tid acc msg w
  = (Ok (acc + added (db w) (insert_row convert tid (db w) msg)),
     set_db (insert_row convert tid (db w) msg) w).
Proof.
  intros Hf.
  destruct (insertMany_body_cases convert tid acc msg w) as [(e & w1 & H1)|(w1 & H1 & Hd & _)].
  - exfalso. unfold insertMany_body, bind, run, bind in H1. rewrite (tick_calm _ Hf) in H1.
    unfold insert_or_ignore_message in H1.
    destruct (has_message tid (zm_id msg) (tbl_messages (db w)));
      cbn in H1; discriminate.
  - rewrite H1. f_equal.
    unfold insertMany_body, bind, run, bind in H1. rewrite (tick_calm _ Hf) in H1.
    unfold insert_row.
    destruct (insert_or_ignore_message tid msg (convert (zm_content msg)) (db w)) as [[a d]|e];
      [|discriminate].
    destruct (0 <? a); injection H1 as _ <-; reflexivity.
Qed.

Lemma insertMany_calm convert tid batch : forall acc w,
  fuse w = None ->
  forOf batch (insertMany_body convert tid) acc w
  = (Ok (acc + added (db w) (insert_all convert tid batch (db w))),
     set_db (insert_all convert tid batch (db w)) w).
Proof.
  induction batch as [|m batch IH]; intros acc w Hf; cbn [forOf].
  - unfold insert_all, added, ret; cbn. rewrite set_db_same. f_equal. f_equal. lia.
  - rewrite (bind_ok _ _ _ (insertMany_body_calm convert tid acc m w Hf)).
    rewrite IH by exact Hf. cbn [db set_db]. unfold insert_all; cbn [fold_left].
    f_equal. f_equal. rewrite <- Z.add_assoc, added_trans. reflexivity.
Qed.

Lemma insertMessages_calm convert tid batch w :
  fuse w = None ->
  insertMessages convert tid batch w
  = (Ok (added (db w) (insert_all convert tid batch (db w))),
     set_db (insert_all convert tid batch (db w)) w).
Proof.
  intros Hf. unfold insertMessages, transaction.
  rewrite insertMany_calm by exact Hf. reflexivity.
Qed.

(** C9.  In every store that passes of the commands lead to from the empty
    store (whatever the services answer, whatever fails on the way, overlap
    between fetched pages included), no two rows of [messages] have the
    same conversation and remote identifier.  Inserting a batch returns the
    number of rows it added; when every message of the batch is already
    present, the store is unchanged and the count is 0 (and, when no
    statement fails, the insertion does return). *)
Theorem no_duplicate_messages :
  forall convert,
    (forall d, reachable convert d -> unique_messages d) /\
    (forall tid batch w n w',
        insertMessages convert tid batch w = (Ok n, w') -> n = added (db w) (db w')) /\
    (forall tid batch w,
        (forall m, In m batch -> has_message tid (zm_id m) (tbl_messages (db w)) = true) ->
        db (snd (insertMessages convert tid batch w)) = db w /\
        (forall n, fst (insertMessages convert tid batch w) = Ok n -> n = 0) /\
        (fuse w = None -> insertMessages convert tid batch w = (Ok 0, w))).
Proof.
  intros convert. split; [apply unique_messages_reachable|]. split.
  - intros tid batch w n w' H.
    destruct (insertMessages_cases convert tid batch w) as [(e & w1 & H1 & Hd)|(w1 & H1 & Hd & _)];
      rewrite H1 in H; [discriminate|].
    injection H as <- <-. rewrite Hd. reflexivity.
  - intros tid batch w Hall.
    pose proof (@insert_all_present convert tid batch (db w) Hall) as Hsame.
    assert (Hz : added (db w) (db w) = 0) by (unfold added; lia).
    repeat split.
    + destruct (insertMessages_cases convert tid batch w) as [(e & w1 & H1 & Hd)|(w1 & H1 & Hd & _)];
        rewrite H1; cbn [snd]; congruence.
    + destruct (insertMessages_cases convert tid batch w) as [(e & w1 & H1 & Hd)|(w1 & H1 & Hd & _)];
        rewrite H1; cbn [fst]; [discriminate|]. rewrite Hsame, Hz. congruence.
    + intros Hf. rewrite insertMessages_calm by exact Hf.
      rewrite Hsame, Hz, set_db_same. reflexivity.
Qed.

Lemma no_duplicate_messages_witness :
  unique_messages (db afterFirstSync) /\
  insertMessages plain 1 (map message [4; 5]) afterFirstSync = (Ok 0, afterFirstSync).
Proof.
  destruct (no_duplicate_messages plain) as (H1 & _ & H3). split.
  - apply H1. unfold afterFirstSync. apply reach_sync. apply reach_empty.
  - apply H3; [|reflexivity].
    intros m [<-|[<-|[]]]; reflexivity.
Defined.

(* ===================================================================== *)
(** ** The store when no statement fails *)
(* ===================================================================== *)

Lemma getOrCreateSite_calm name url w :
  fuse w = None ->
  getOrCreateSite name url w
  = (Ok (fst (with_site name url (db w))), set_db (snd (with_site name url (db w))) w).
Proof.
  intros Hf. unfold getOrCreateSite, with_site.
  rewrite (bind_ok _ _ _ (query_calm _ w Hf)).
  destruct (select_site name (db w)) as [r|].
  - cbn. rewrite set_db_same. reflexivity.
  - erewrite run_calm; [reflexivity | exact Hf | reflexivity].
Qed.

Lemma clearUnreadMessages_calm siteId w :
  fuse w = None ->
  clearUnreadMessages siteId w
  = (Ok tt, set_db (set_unread (filter (fun r => negb (ur_site_id r =? siteId))
                                       (tbl_unread (db w))) (db w)) w).
Proof.
  intros Hf. unfold clearUnreadMessages.
  erewrite run_calm; [reflexivity | exact Hf | reflexivity].
Qed.

Lemma insert_unread_rows_none rows :
  fold_left (fun acc r =>
    match acc with
    | Some t =>
        if existsb (fun r' => (ur_site_id r' =? ur_site_id r) && (ur_message_id r' =? ur_message_id r)) t
        then None else Some (t ++ [r])
    | None => None
    end) rows None = None.
Proof. induction rows as [|r rows IH]; [reflexivity | exact IH]. Qed.

Lemma insert_unread_rows_app r1 r2 u :
  insert_unread_rows (r1 ++ r2) u =
  match insert_unread_rows r1 u with
  | Some t => insert_unread_rows r2 t
  | None => None
  end.
Proof.
  unfold insert_unread_rows. rewrite fold_left_app.
  destruct (fold_left _ r1 (Some u)); [reflexivity | apply insert_unread_rows_none].
Qed.

Lemma run_insert_unread_calm siteId msgId sid sname topic w :
  fuse w = None ->
  run (insert_unread siteId msgId sid sname topic) w =
  if existsb (fun r => (ur_site_id r =? siteId) && (ur_message_id r =? msgId)) (tbl_unread (db w))
  then (Throw SqliteError, w)
  else (Ok tt, set_db (set_unread (tbl_unread (db w) ++
          [{| ur_site_id := siteId; ur_message_id := msgId; ur_stream_id := sid;
              ur_stream_name := sname; ur_topic_name := topic |}]) (db w)) w).
Proof.
  intros Hf. unfold run, bind. rewrite (tick_calm _ Hf). unfold insert_unread.
  destruct (existsb _ _); reflexivity.
Qed.

Lemma set_unread_same w : set_db (set_unread (tbl_unread (db w)) (db w)) w = w.
Proof. destruct w as [d c s x n f]; destruct d; reflexivity. Qed.

(** The inner loop of [insertUnreadMessages]: the unread messages of one
    item. *)
Lemma insertUnread_item_calm siteId sid sname topic ids : forall w,
  fuse w = None ->
  match insert_unread_rows
          (map (fun msgId => {| ur_site_id := siteId; ur_message_id := msgId;
                                ur_stream_id := sid; ur_stream_name := sname;
                                ur_topic_name := topic |}) ids) (tbl_unread (db w)) with
  | Some t =>
      forOf ids (fun _ msgId => run (insert_unread siteId msgId sid sname topic)) tt w
      = (Ok tt, set_db (set_unread t (db w)) w)
  | None =>
      exists t, forOf ids (fun _ msgId => run (insert_unread siteId msgId sid sname topic)) tt w
                = (Throw SqliteError, set_db (set_unread t (db w)) w)
  end.
Proof.
  induction ids as [|i ids IH]; intros w Hf; cbn [map forOf].
  - cbn. rewrite set_unread_same. reflexivity.
  - unfold insert_unread_rows. cbn [fold_left ur_site_id ur_message_id].
    unfold bind. rewrite (run_insert_unread_calm siteId i sid sname topic w Hf).
    destruct (existsb _ (tbl_unread (db w))).
    + rewrite insert_unread_rows_none. exists (tbl_unread (db w)).
      rewrite set_unread_same. reflexivity.
    + match goal with
      | |- context [set_db (set_unread ?u (db w)) w] =>
          specialize (IH (set_db (set_unread u (db w)) w) Hf)
      end.
      cbn [db set_db tbl_unread set_unread] in IH.
      unfold insert_unread_rows in IH.
      destruct (fold_left _ _ (Some _)); exact IH.
Qed.

Lemma insertUnread_items_calm siteId streamMap unreads : forall w,
  fuse w = None ->
  match insert_unread_rows (unread_rows siteId unreads streamMap) (tbl_unread (db w)) with
  | Some t =>
      forOf unreads (fun _ item =>
        forOf (us_unread_message_ids item) (fun _ msgId =>
          run (insert_unread siteId msgId (us_stream_id item)
                 (stream_name_of streamMap (us_stream_id item)) (us_topic item))) tt) tt w
      = (Ok tt, set_db (set_unread t (db w)) w)
  | None =>
      exists t,
      forOf unreads (fun _ item =>
        forOf (us_unread_message_ids item) (fun _ msgId =>
          run (insert_unread siteId msgId (us_stream_id item)
                 (stream_name_of streamMap (us_stream_id item)) (us_topic item))) tt) tt w
      = (Throw SqliteError, set_db (set_unread t (db w)) w)
  end.
Proof.
  induction unreads as [|item unreads IH]; intros w Hf; cbn [unread_rows flat_map forOf].
  - cbn. rewrite set_unread_same. reflexivity.
  - rewrite insert_unread_rows_app.
    pose proof (insertUnread_item_calm siteId (us_stream_id item)
                  (stream_name_of streamMap (us_stream_id item)) (us_topic item)
                  (us_unread_message_ids item) w Hf) as Hitem.
    destruct (insert_unread_rows _ (tbl_unread (db w))) as [t|].
    + rewrite (bind_ok _ _ _ Hitem).
      specialize (IH (set_db (set_unread t (db w)) w) Hf).
      cbn [db set_db tbl_unread set_unread] in IH.
      fold (unread_rows siteId unreads streamMap).
      destruct (insert_unread_rows (unread_rows siteId unreads streamMap) t); exact IH.
    + destruct Hitem as [t Hitem]. exists t. apply bind_throw; assumption.
Qed.

(** [insertUnreadMessages] when no statement fails: the rows of the
    response are all added, or one of them violates the constraint and the
    store is as before. *)
Lemma insertUnreadMessages_calm siteId unreads streamMap w :
  fuse w = None ->
  insertUnreadMessages siteId unreads streamMap w =
  match insert_unread_rows (unread_rows siteId unreads streamMap) (tbl_unread (db w)) with
  | Some t => (Ok tt, set_db (set_unread t (db w)) w)
  | None => (Throw SqliteError, w)
  end.
Proof.
  intros Hf. unfold insertUnreadMessages, transaction.
  pose proof (insertUnread_items_calm siteId streamMap unreads w Hf) as H.
  destruct (insert_unread_rows _ _) as [t|].
  - rewrite H. reflexivity.
  - destruct H as [t H]. rewrite H. f_equal. destruct w; reflexivity.
Qed.

(* ===================================================================== *)
(** ** The unread command writes to the store *)
(* ===================================================================== *)

Lemma insert_unread_rows_fresh rows : forall u,
  NoDup (map unread_key rows) ->
  (forall r' r, In r' u -> In r rows -> unread_key r' <> unread_key r) ->
  insert_unread_rows rows u = Some (u ++ rows).
Proof.
  unfold insert_unread_rows.
  induction rows as [|r rows IH]; intros u Hnd Hfresh; cbn [fold_left].
  - rewrite app_nil_r. reflexivity.
  - assert (Hex : existsb (fun r' => (ur_site_id r' =? ur_site_id r)
                                     && (ur_message_id r' =? ur_message_id r)) u = false).
    { apply not_true_is_false. intros Hex. apply existsb_exists in Hex.
      destruct Hex as (r' & Hin & Hb). apply andb_true_iff in Hb. destruct Hb as [H1 H2].
      apply Z.eqb_eq in H1, H2. apply (Hfresh r' r Hin); [left; reflexivity|].
      unfold unread_key. congruence. }
    rewrite Hex. inversion Hnd as [|k ks Hk Hks]; subst.
    rewrite IH; [rewrite <- app_assoc; reflexivity | assumption |].
    intros r' r'' Hin' Hin''. apply in_app_iff in Hin'. destruct Hin' as [Hin'|[<-|[]]].
    + apply Hfresh; [assumption | right; assumption].
    + intros Heq. apply Hk. rewrite Heq. apply in_map; assumption.
Qed.

Lemma unread_rows_ids siteId unreads streamMap :
  map ur_message_id (unread_rows siteId unreads streamMap)
  = flat_map us_unread_message_ids unreads.
Proof.
  induction unreads as [|item unreads IH]; cbn [unread_rows flat_map]; [reflexivity|].
  rewrite map_app. fold (unread_rows siteId unreads streamMap). rewrite IH. f_equal.
  rewrite map_map. cbn. apply map_id.
Qed.

Lemma unread_rows_site siteId unreads streamMap r :
  In r (unread_rows siteId unreads streamMap) -> ur_site_id r = siteId.
Proof.
  unfold unread_rows. rewrite in_flat_map. intros (item & _ & Hr).
  apply in_map_iff in Hr. destruct Hr as (i & <- & _). reflexivity.
Qed.

Lemma unread_rows_keys siteId unreads streamMap :
  map unread_key (unread_rows siteId unreads streamMap)
  = map (fun i => (siteId, i)) (flat_map us_unread_message_ids unreads).
Proof.
  rewrite <- (unread_rows_ids siteId unreads streamMap), map_map.
  apply map_ext_in. intros r Hr. unfold unread_key.
  rewrite (unread_rows_site _ _ _ _ Hr). reflexivity.
Qed.

(** After the unread rows of the site are deleted, the rows of a response
    with distinct message identifiers are all inserted. *)
Lemma insert_after_clear siteId unreads streamMap u :
  NoDup (flat_map us_unread_message_ids unreads) ->
  insert_unread_rows (unread_rows siteId unreads streamMap)
    (filter (fun r => negb (ur_site_id r =? siteId)) u)
  = Some (filter (fun r => negb (ur_site_id r =? siteId)) u
          ++ unread_rows siteId unreads streamMap).
Proof.
  intros Hnd. apply insert_unread_rows_fresh.
  - rewrite unread_rows_keys. apply Injective_map_NoDup; [|assumption].
    intros x y H; congruence.
  - intros r' r Hr' Hr Heq. apply filter_In in Hr'. destruct Hr' as [_ Hs].
    apply unread_rows_site in Hr. unfold unread_key in Heq.
    apply negb_true_iff, Z.eqb_neq in Hs. congruence.
Qed.

Lemma with_site_tables name url d :
  tbl_messages (snd (with_site name url d)) = tbl_messages d /\
  tbl_topics (snd (with_site name url d)) = tbl_topics d /\
  tbl_streams (snd (with_site name url d)) = tbl_streams d /\
  tbl_unread (snd (with_site name url d)) = tbl_unread d.
Proof. unfold with_site. destruct (select_site name d); repeat split. Qed.

Lemma filter_none {A} (f : A -> bool) (l : list A) :
  (forall x, In x l -> f x = false) -> filter f l = [].
Proof.
  induction l as [|x l IH]; intros H; cbn [filter]; [reflexivity|].
  rewrite (H x) by (left; reflexivity). apply IH. intros; apply H; right; assumption.
Qed.

Lemma filter_all {A} (f : A -> bool) (l : list A) :
  (forall x, In x l -> f x = true) -> filter f l = l.
Proof.
  induction l as [|x l IH]; intros H; cbn [filter]; [reflexivity|].
  rewrite (H x) by (left; reflexivity). f_equal. apply IH. intros; apply H; right; assumption.
Qed.

Lemma find_app_none {A} (f : A -> bool) (l l' : list A) :
  find f l = None -> find f (l ++ l') = find f l'.
Proof.
  induction l as [|x l IH]; cbn [find app]; [reflexivity|].
  destruct (f x); [discriminate | exact IH].
Qed.

Lemma find_app_some {A} (f : A -> bool) (l l' : list A) x :
  find f l = Some x -> find f (l ++ l') = Some x.
Proof.
  induction l as [|y l IH]; cbn [find app]; [discriminate|].
  destruct (f y); [auto | exact IH].
Qed.

(** The site has its row in the store [with_site] makes. *)
Lemma with_site_selected name url d :
  exists r, select_site name (snd (with_site name url d)) = Some r /\
            site_id r = fst (with_site name url d).
Proof.
  unfold with_site. destruct (select_site name d) as [r|] eqn:Hs.
  - exists r. cbn. auto.
  - cbn [fst snd]. unfold select_site in *. cbn [tbl_sites set_sites].
    rewrite (find_app_none _ _ _ Hs). cbn. rewrite String.eqb_refl.
    eexists; split; reflexivity.
Qed.

Lemma store_kept_refl d : store_kept d d.
Proof.
  repeat split. exists []. rewrite app_nil_r. split; [reflexivity | constructor].
Qed.

Lemma store_kept_stmts d0 :
  (forall name url, stmt_keeps (store_kept d0) (insert_site name url)) /\
  (forall siteId, stmt_keeps (store_kept d0) (delete_unread siteId)) /\
  (forall siteId msgId sid sname topic,
      stmt_keeps (store_kept d0) (insert_unread siteId msgId sid sname topic)).
Proof.
  split; [|split]; unfold stmt_keeps; intros until d'; intros (H1 & H2 & H3 & extra & H4 & H5) Hu;
    inv_stmt Hu;
    cbn; (split; [|split; [|split]]); auto; try (exists extra; split; assumption).
  eexists (extra ++ [_]). rewrite H4, <- app_assoc. split; [reflexivity|].
  apply Forall_app; split; [assumption|]. repeat constructor.
Qed.

(** C10.  The unread command writes to the store.  However a run of
    [showUnreadForSite] ends, it leaves the messages, the conversations
    with their watermarks, the streams and every existing row of [sites]
    (its last-sync time included) as they were.  When the register call
    answers, with distinct message identifiers, and no statement of the
    store fails, the run returns; the site has its row, made if it was
    missing; the unread rows of the site are exactly those of the fresh
    response, whatever was recorded for the site before, and the unread
    rows of the other sites are as they were. *)
Theorem unread_command_writes_store :
  forall E name w,
    store_kept (db w) (db (snd (showUnreadForSite E name w))) /\
    (forall client w0 unreadMsgs subs w1,
        new_ZulipClient E (Some name) w = (Ok client, w0) ->
        register E client w0 = (Ok (unreadMsgs, subs), w1) ->
        fuse w = None ->
        NoDup (flat_map us_unread_message_ids (um_streams unreadMsgs)) ->
        let siteId := fst (with_site name (siteUrl client) (db w)) in
        let d1 := snd (with_site name (siteUrl client) (db w)) in
        let d' := db (snd (showUnreadForSite E name w)) in
        is_ok (fst (showUnreadForSite E name w)) = true /\
        d' = set_unread (filter (fun r => negb (ur_site_id r =? siteId)) (tbl_unread (db w))
                         ++ unread_rows siteId (um_streams unreadMsgs) (build_streamMap subs)) d1 /\
        (exists r, select_site name d' = Some r /\ site_id r = siteId) /\
        filter (fun r => ur_site_id r =? siteId) (tbl_unread d')
          = unread_rows siteId (um_streams unreadMsgs) (build_streamMap subs)).
Proof.
  intros E name w. split.
  - destruct (store_kept_stmts (db w)) as (H1 & H2 & H3).
    pose proof (@showUnreadForSite_keeps (store_kept (db w)) E name (H1 name) H2 H3 w
                  (store_kept_refl (db w))) as H.
    destruct (showUnreadForSite E name w) as [[a|e] w']; exact H.
  - intros client w0 unreadMsgs subs w1 Hclient Hreg Hf Hnd siteId d1 d'.
    assert (Hw0 : db w0 = db w /\ fuse w0 = fuse w).
    { pose proof (dbpure_new_ZulipClient E (Some name) w) as H. rewrite Hclient in H. exact H. }
    assert (Hw1 : db w1 = db w /\ fuse w1 = None).
    { pose proof (dbpure_register E client w0) as H. rewrite Hreg in H. cbn [snd] in H.
      destruct H, Hw0. split; congruence. }
    destruct Hw1 as [Hd1 Hf1].
    assert (Hrun : exists out,
      showUnreadForSite E name w =
      (Ok out, set_db (set_unread (filter (fun r => negb (ur_site_id r =? siteId)) (tbl_unread (db w))
                         ++ unread_rows siteId (um_streams unreadMsgs) (build_streamMap subs)) d1) w1)).
    { unfold showUnreadForSite, refreshUnread.
      unfold bind at 1. unfold bind at 1. rewrite Hclient.
      unfold bind at 1. rewrite Hreg. cbn [fst snd].
      unfold bind at 1. rewrite (getOrCreateSite_calm name (siteUrl client) w1 Hf1).
      rewrite Hd1. fold siteId d1.
      unfold bind at 1. rewrite clearUnreadMessages_calm by exact Hf1.
      unfold bind at 1. rewrite insertUnreadMessages_calm by exact Hf1.
      cbn [db set_db tbl_unread set_unread].
      destruct (with_site_tables name (siteUrl client) (db w)) as (_ & _ & _ & Hu).
      fold d1 in Hu. rewrite Hu.
      rewrite (insert_after_clear siteId _ (build_streamMap subs) (tbl_unread (db w)) Hnd).
      cbn [ret fst snd].
      unfold getTotalUnreadCount, getUnreadSummary.
      unfold bind at 1. rewrite query_calm by exact Hf1.
      unfold bind at 1. unfold bind at 1. rewrite query_calm by exact Hf1.
      cbn [ret]. eexists. reflexivity. }
    destruct Hrun as [out Hrun]. subst d'. rewrite Hrun. cbn [fst snd is_ok db set_db].
    split; [reflexivity|]. split; [reflexivity|]. split.
    + destruct (with_site_selected name (siteUrl client) (db w)) as (r & Hr & Hid).
      exists r. split; [|exact Hid]. exact Hr.
    + cbn [tbl_unread set_unread]. rewrite filter_app.
      rewrite filter_none, filter_all; [reflexivity | |].
      * intros r Hr. apply unread_rows_site in Hr. apply Z.eqb_eq; assumption.
      * intros r Hr. apply filter_In in Hr. destruct Hr as [_ Hr].
        apply negb_true_iff in Hr. exact Hr.
Qed.

Lemma unread_command_writes_store_witness :
  tbl_unread (db (snd (showUnreadForSite laterEnv "alpha" afterFirstSync)))
  = unread_rows 1 [unread_in "welcome" [4; 5]] (build_streamMap [general]).
Proof.
  destruct (unread_command_writes_store laterEnv "alpha" afterFirstSync) as [_ H].
  edestruct (H alphaClient) as (_ & Hd & _).
  - vm_compute; reflexivity.
  - vm_compute; reflexivity.
  - reflexivity.
  - vm_compute. repeat constructor; cbn; intuition discriminate.
  - rewrite Hd. reflexivity.
Defined.

(* ===================================================================== *)
(** ** Watermark soundness *)
(* ===================================================================== *)

Unset Implicit Arguments.

Lemma fold_max_spec rest : forall x,
  (fold_left Z.max rest x = x \/ In (fold_left Z.max rest x) rest) /\
  x <= fold_left Z.max rest x /\
  Forall (fun y => y <= fold_left Z.max rest x) rest.
Proof.
  induction rest as [|y rest IH]; intros x; cbn [fold_left].
  - repeat split; [left; reflexivity | lia | constructor].
  - destruct (IH (Z.max x y)) as (Hin & Hle & Hall). repeat split.
    + destruct Hin as [Hin|Hin]; [|right; right; assumption].
      rewrite Hin. destruct (Z.max_spec x y) as [[_ ->]|[_ ->]]; [right; left|left]; reflexivity.
    + lia.
    + constructor; [lia | assumption].
Qed.

Lemma Math_max_In l : l <> [] -> In (Math_max l) l.
Proof.
  destruct l as [|x rest]; [congruence|]. intros _. cbn [Math_max].
  destruct (fold_max_spec rest x) as ([H|H] & _ & _); [left; auto | right; assumption].
Qed.

Lemma Math_max_ge l x : In x l -> x <= Math_max l.
Proof.
  destruct l as [|y rest]; [contradiction|]. cbn [Math_max].
  destruct (fold_max_spec rest y) as (_ & Hle & Hall).
  intros [<-|Hin]; [assumption|]. rewrite Forall_forall in Hall. auto.
Qed.

Lemma Math_max_unique l m : In m l -> (forall x, In x l -> x <= m) -> Math_max l = m.
Proof.
  intros Hin Hle.
  assert (Hne : l <> []) by (intros ->; contradiction).
  pose proof (Math_max_In l Hne) as H1. pose proof (Math_max_ge l m Hin) as H2.
  specialize (Hle _ H1). lia.
Qed.

Lemma wm_le_refl a : wm_le a a.
Proof. destruct a; cbn; [lia | exact I]. Qed.

Lemma wm_le_trans a b c : wm_le a b -> wm_le b c -> wm_le a c.
Proof. destruct a, b, c; cbn; try lia; tauto. Qed.

(** Sound watermarks are backed. *)
Lemma sound_backed d : watermark_sound d -> watermark_backed d.
Proof.
  intros H tid x Hx. rewrite H in Hx. unfold max_stored in Hx.
  destruct (stored_ids d tid) as [|y l] eqn:El; [discriminate|].
  injection Hx as <-. apply (Math_max_In (y :: l)). discriminate.
Qed.

(** The invariants of a pass only look at the watermarks and the messages. *)
Lemma pass_inv_x_ext d0 d d' :
  (forall tid, watermark d' tid = watermark d tid) -> tbl_messages d' = tbl_messages d ->
  pass_inv_x d0 d -> pass_inv_x d0 d'.
Proof.
  intros Hw Hm (Hb & Hp & Hg). repeat split.
  - intros tid x Hx. rewrite Hw in Hx. unfold stored_ids. rewrite Hm. apply Hb; assumption.
  - unfold positive_ids. rewrite Hm. assumption.
  - intros tid. rewrite Hw. apply Hg.
Qed.

Lemma pass_inv_ext d0 d d' :
  (forall tid, watermark d' tid = watermark d tid) -> tbl_messages d' = tbl_messages d ->
  pass_inv d0 d -> pass_inv d0 d'.
Proof.
  intros Hw Hm (Hx & Hs). split; [eapply pass_inv_x_ext; eassumption|].
  intros H0 tid. rewrite Hw. unfold max_stored, stored_ids. rewrite Hm. apply (Hs H0).
Qed.

Lemma next_id_fresh {R} (key : R -> Z) rows r : In r rows -> key r < next_id key rows.
Proof.
  unfold next_id. induction rows as [|x rows IH]; [contradiction|].
  cbn [fold_right]. intros [<-|H]; [lia|]. specialize (IH H). lia.
Qed.

(** A new conversation changes no watermark: it has none. *)
Lemma watermark_insert_topic sid name d a d' tid :
  insert_topic sid name d = Ok (a, d') -> watermark d' tid = watermark d tid.
Proof.
  intros H. injection H as _ <-. unfold watermark, select_last_message_id. cbn [tbl_topics set_topics].
  destruct (find (fun r => topic_row_id r =? tid) (tbl_topics d)) as [r|] eqn:Hf.
  - rewrite (find_app_some _ _ _ Hf). reflexivity.
  - rewrite (find_app_none _ _ _ Hf). cbn. destruct (_ =? tid); reflexivity.
Qed.

Lemma pass_inv_stmts d0 :
  (forall name url, stmt_keeps (pass_inv d0) (insert_site name url)) /\
  (forall siteId, stmt_keeps (pass_inv d0) (delete_unread siteId)) /\
  (forall siteId msgId sid sname topic,
      stmt_keeps (pass_inv d0) (insert_unread siteId msgId sid sname topic)) /\
  (forall t siteId, stmt_keeps (pass_inv d0) (update_site_last_sync t siteId)) /\
  (forall s rowId, stmt_keeps (pass_inv d0) (update_stream_name s rowId)) /\
  (forall siteId sid s, stmt_keeps (pass_inv d0) (insert_stream siteId sid s)) /\
  (forall sid s, stmt_keeps (pass_inv d0) (insert_topic sid s)).
Proof.
  repeat match goal with |- _ /\ _ => split end;
    unfold stmt_keeps; intros until d'; intros Hd Hu.
  7: { eapply pass_inv_ext; [| |exact Hd].
       - intros tid. eapply watermark_insert_topic; exact Hu.
       - injection Hu as _ <-. reflexivity. }
  all: inv_stmt Hu; (eapply pass_inv_ext; [| |exact Hd]); reflexivity.
Qed.

(** What [request] hands back is the body the service sent, or the body of
    an error response. *)
Lemma request_json E client r :
  returns (request E client r)
    (fun j => j = json (internet E (site (credentials client)) r) \/ exists tx, j = error_json r tx).
Proof.
  intros w j w' H. unfold request in H. apply bind_inv_ok in H.
  destruct H as (resp & w1 & Hfetch & H).
  destruct (negb (response_ok resp)); [discriminate|]. injection H as <- _.
  unfold fetch in Hfetch. cbn in Hfetch.
  destruct (net w) as [|[[|st tx]|] rest]; try discriminate; injection Hfetch as <- _;
    [left; reflexivity | right; exists tx; reflexivity | left; reflexivity].
Qed.

Lemma getTopicMessages_loop_positive E fuel client narrow :
  server_positive E ->
  forall anchor acc, returns (getTopicMessages_loop E fuel client narrow anchor acc)
    (fun l => Forall (fun m => 0 < zm_id m) acc -> Forall (fun m => 0 < zm_id m) l).
Proof.
  intros Hpos. induction fuel as [|fuel IH]; intros anchor acc w l w' H;
    cbn [getTopicMessages_loop] in H.
  - discriminate.
  - apply bind_inv_ok in H. destruct H as ([r|r] & w1 & Hreq & H); [discriminate|].
    destruct (gm_result r) eqn:Hres; [|discriminate].
    assert (Hr : Forall (fun m => 0 < zm_id m) (gm_messages r)).
    { apply request_json in Hreq. destruct Hreq as [Hj|[tx Hj]].
      - eapply Hpos. symmetry; exact Hj.
      - cbn in Hj. injection Hj as ->. cbn in Hres. discriminate. }
    cbv zeta in H.
    set (new := match anchor with
                | oldest => gm_messages r
                | anchorId a => filter (fun m => a <? zm_id m) (gm_messages r)
                end) in *.
    assert (Hnew : Forall (fun m => 0 < zm_id m) new).
    { subst new. destruct anchor; [assumption|].
      apply Forall_forall. intros m Hm. apply filter_In in Hm.
      rewrite Forall_forall in Hr. apply Hr. tauto. }
    destruct (Z.of_nat (List.length new) =? 0).
    + injection H as <- _. auto.
    + destruct (gm_found_newest r || (Z.of_nat (List.length new) <? batchSize)).
      * injection H as <- _. intros Hacc. apply Forall_app; split; assumption.
      * intros Hacc. eapply IH; [exact H|]. apply Forall_app; split; assumption.
Qed.

(** What the pass knows of the batch it fetched. *)
Lemma getTopicMessages_batch_ok E fuel client s t lastMessageId :
  server_positive E ->
  returns (getTopicMessages E fuel client s t (num_or_undefined lastMessageId))
    (batch_ok lastMessageId).
Proof.
  intros Hpos w l w' H. split.
  - eapply getTopicMessages_loop_positive in H; [apply H; constructor | assumption].
  - intros x Hx. rewrite Hx in H.
    eapply getTopicMessages_above; [|exact H].
    unfold num_or_undefined in Hx. destruct lastMessageId as [n|]; [|discriminate].
    destruct (n =? 0) eqn:En; [discriminate|]. injection Hx as <-. apply Z.eqb_neq; assumption.
Qed.

Section Soundness.

Variable convert : string -> string.

Lemma insert_all_watermark tid batch d tid' :
  watermark (insert_all convert tid batch d) tid' = watermark d tid'.
Proof.
  unfold watermark, select_last_message_id.
  destruct (insert_all_tables convert tid batch d) as (_ & _ & -> & _). reflexivity.
Qed.

Lemma insert_row_positive tid d msg :
  0 < zm_id msg -> positive_ids d -> positive_ids (insert_row convert tid d msg).
Proof.
  intros Hm Hd.
  destruct (insert_row_cases convert tid d msg) as [[_ ->]|[_ (r & _ & Hr & ->)]]; [assumption|].
  unfold positive_ids in *. cbn. apply Forall_app. split; [assumption|].
  constructor; [lia | constructor].
Qed.

Lemma insert_all_positive tid batch : forall d,
  Forall (fun m => 0 < zm_id m) batch -> positive_ids d ->
  positive_ids (insert_all convert tid batch d).
Proof.
  unfold insert_all. induction batch as [|m batch IH]; intros d Hb Hd; cbn [fold_left].
  - assumption.
  - inversion Hb; subst. apply IH; [assumption|]. apply insert_row_positive; assumption.
Qed.

Lemma insert_row_stored_other tid d msg tid' :
  tid' <> tid -> stored_ids (insert_row convert tid d msg) tid' = stored_ids d tid'.
Proof.
  intros Hne.
  destruct (insert_row_cases convert tid d msg) as [[_ ->]|[_ (r & Ht & _ & ->)]]; [reflexivity|].
  rewrite stored_ids_app. cbn [filter].
  assert (Hb : (sm_topic_id r =? tid') = false) by (apply Z.eqb_neq; congruence).
  rewrite Hb. cbn. apply app_nil_r.
Qed.

Lemma insert_all_stored_other tid batch tid' : forall d,
  tid' <> tid -> stored_ids (insert_all convert tid batch d) tid' = stored_ids d tid'.
Proof.
  unfold insert_all. induction batch as [|m batch IH]; intros d Hne; cbn [fold_left].
  - reflexivity.
  - rewrite IH by assumption. apply insert_row_stored_other; assumption.
Qed.

(** The largest identifier of a fetched batch is not below the watermark
    the fetch started from. *)
Lemma batch_max_above lastMessageId batch :
  batch <> [] -> batch_ok lastMessageId batch ->
  In (Math_max (map zm_id batch)) (map zm_id batch) /\
  0 < Math_max (map zm_id batch) /\
  wm_le lastMessageId (Some (Math_max (map zm_id batch))).
Proof.
  intros Hne [Hpos Habove].
  assert (Hin : In (Math_max (map zm_id batch)) (map zm_id batch)).
  { apply Math_max_In. destruct batch; [congruence | discriminate]. }
  split; [assumption|].
  apply in_map_iff in Hin. destruct Hin as (m & Hm & Hin).
  rewrite Forall_forall in Hpos. pose proof (Hpos m Hin) as Hp.
  split; [lia|].
  destruct lastMessageId as [x|]; [|exact I]. cbn.
  destruct (x =? 0) eqn:Ex.
  - apply Z.eqb_eq in Ex. lia.
  - specialize (Habove x). cbn in Habove. rewrite Ex in Habove.
    specialize (Habove eq_refl). rewrite Forall_forall in Habove.
    specialize (Habove m Hin). lia.
Qed.

(** After the batch is inserted, and before the watermark is moved. *)
Lemma after_insert d0 d tid batch :
  batch_ok (watermark d tid) batch ->
  pass_inv_x d0 d -> pass_inv_x d0 (insert_all convert tid batch d).
Proof.
  intros [Hpos _] (Hb & Hp & Hg). repeat split.
  - intros tid' x Hx. rewrite insert_all_watermark in Hx.
    apply insert_all_stored. left. apply Hb; assumption.
  - apply insert_all_positive; assumption.
  - intros tid'. rewrite insert_all_watermark. apply Hg.
Qed.

(** After the watermark is moved to the largest identifier of the batch. *)
Lemma after_update d0 d tid batch a d2 :
  batch <> [] -> batch_ok (watermark d tid) batch ->
  pass_inv d0 d -> has_topic d tid ->
  update_last_message_id (Math_max (map zm_id batch)) tid (insert_all convert tid batch d)
    = Ok (a, d2) ->
  pass_inv d0 d2.
Proof.
  intros Hne Hok [Hx Hs] Hrow Hu.
  destruct (batch_max_above _ _ Hne Hok) as (Hin & Hmpos & Hle).
  pose proof (after_insert d0 d tid batch Hok Hx) as (Hb1 & Hp1 & Hg1).
  set (d1 := insert_all convert tid batch d) in *.
  assert (Hrow1 : has_topic d1 tid).
  { unfold has_topic, d1. destruct (insert_all_tables convert tid batch d) as (_ & _ & -> & _).
    assumption. }
  assert (Hsame : watermark d2 tid = Some (Math_max (map zm_id batch))).
  { eapply watermark_update_same; eassumption. }
  assert (Hother : forall tid', tid' <> tid -> watermark d2 tid' = watermark d tid').
  { intros tid' Hn. erewrite watermark_update_other; [|exact Hn|exact Hu].
    apply insert_all_watermark. }
  assert (Hmsg : tbl_messages d2 = tbl_messages d1).
  { eapply update_last_message_id_tables; exact Hu. }
  assert (Hst : forall tid', stored_ids d2 tid' = stored_ids d1 tid').
  { intros tid'. unfold stored_ids. rewrite Hmsg. reflexivity. }
  split; [repeat split|].
  - intros tid' x Hw. rewrite Hst. destruct (Z.eq_dec tid' tid) as [->|Hn].
    + rewrite Hsame in Hw. injection Hw as <-.
      apply insert_all_stored. right. split; [reflexivity | assumption].
    + rewrite Hother in Hw by assumption. apply Hb1.
      unfold d1. rewrite insert_all_watermark. assumption.
  - unfold positive_ids. rewrite Hmsg. assumption.
  - intros tid'. destruct (Z.eq_dec tid' tid) as [->|Hn].
    + rewrite Hsame. eapply wm_le_trans; [|exact Hle].
      destruct Hx as (_ & _ & Hg). apply Hg.
    + rewrite Hother by assumption. destruct Hx as (_ & _ & Hg). apply Hg.
  - intros H0. specialize (Hs H0). intros tid'.
    unfold max_stored. rewrite Hst. destruct (Z.eq_dec tid' tid) as [->|Hn].
    + rewrite Hsame.
      assert (Hmem : In (Math_max (map zm_id batch)) (stored_ids d1 tid)).
      { apply insert_all_stored. right. split; [reflexivity | assumption]. }
      destruct (stored_ids d1 tid) as [|y l] eqn:El; [contradiction|].
      f_equal. symmetry. apply Math_max_unique; [assumption|].
      intros x Hxin. rewrite <- El in Hxin. apply insert_all_stored in Hxin.
      destruct Hxin as [Hold|[_ Hnew]].
      * pose proof (Hs tid) as Hsd. unfold max_stored in Hsd.
        destruct (stored_ids d tid) as [|z l'] eqn:El'; [contradiction|].
        rewrite Hsd in Hle. unfold wm_le in Hle.
        pose proof (Math_max_ge (z :: l') x Hold). lia.
      * apply Math_max_ge; assumption.
    + rewrite Hother by assumption. unfold d1.
      rewrite insert_all_stored_other by assumption. apply Hs.
Qed.

(** Storing a fetched batch keeps the invariants of the pass: at the end,
    all of them; if it throws, those of the exceptional exits. *)
Lemma storeBatch_sound d0 tid batch lastMessageId :
  batch <> [] -> batch_ok lastMessageId batch ->
  dhoare (fun d => pass_inv d0 d /\ has_topic d tid /\ lastMessageId = watermark d tid)
         (storeBatch convert tid batch) (fun _ => pass_inv d0) (pass_inv_x d0).
Proof.
  intros Hne Hok w (HJ & Hrow & HW). subst lastMessageId. unfold storeBatch.
  destruct (insertMessages_cases convert tid batch w) as [(e & w1 & H1 & Hd1)|(w1 & H1 & Hd1 & _)].
  - rewrite (bind_throw _ _ _ H1). rewrite Hd1. apply HJ.
  - rewrite (bind_ok _ _ _ H1). unfold updateTopicLastMessageId.
    destruct (run_cases (update_last_message_id (Math_max (map zm_id batch)) tid) w1)
      as [(e & w2 & H2 & Hd2)|(a & d & w2 & H2 & Hu & Hd2)].
    + rewrite (bind_throw _ _ _ H2). rewrite Hd2, Hd1.
      apply after_insert; [assumption | apply HJ].
    + rewrite (bind_ok _ _ _ H2). cbn. rewrite Hd2.
      rewrite Hd1 in Hu. eapply after_update; eassumption.
Qed.

Variable E : Env.
Hypothesis Hpos : server_positive E.

Lemma syncTopic_sound d0 fuel client name siteId total topic :
  dhoare (pass_inv d0) (syncTopic convert E fuel client name siteId total topic)
         (fun _ => pass_inv d0) (pass_inv_x d0).
Proof.
  destruct (pass_inv_stmts d0) as (_ & _ & _ & _ & H5 & H6 & H7).
  assert (Hx : forall d, pass_inv d0 d -> pass_inv_x d0 d) by (intros d [H _]; exact H).
  unfold syncTopic.
  eapply dh_bind with (Q1 := fun _ => pass_inv d0).
  { eapply dh_conseq; [eapply getOrCreateStream_keeps; [apply H5 | apply H6]
                      | auto | intros a d H; exact H | exact Hx]. }
  intros streamDbId.
  eapply dh_bind.
  { eapply dh_conseq; [eapply getOrCreateTopic_keeps, H7
                      | auto | intros a d H; exact H | exact Hx]. }
  intros topicDbId.
  eapply dh_bind.
  { eapply dh_conseq; [apply (dh_query (fun d => pass_inv d0 d /\ has_topic d topicDbId))
                      | auto | intros a d H; exact H | intros d [H _]; auto]. }
  intros lastMessageId.
  eapply dh_bind.
  { eapply dh_conseq;
      [apply (@dh_dbpure _
                (fun d => pass_inv d0 d /\ has_topic d topicDbId /\
                          lastMessageId = watermark d topicDbId)
                _ (batch_ok lastMessageId)
                (dbpure_getTopicMessages E fuel client _ _ _)
                (getTopicMessages_batch_ok E fuel client _ _ lastMessageId Hpos))
      | intros d [[H1 H2] H3]; auto | intros a d H; exact H | intros d (H & _); auto]. }
  intros messages.
  destruct (0 <? Z.of_nat (List.length messages)) eqn:Hlen; cycle 1.
  { apply dh_ret. intros d [[H _] _]; exact H. }
  assert (Hne : messages <> []).
  { intros ->. cbn in Hlen. discriminate. }
  apply dh_pre_fact. intros Hok.
  eapply dh_bind; [apply storeBatch_sound; assumption|]. intros inserted.
  eapply dh_bind with (Q1 := fun _ => pass_inv d0).
  { eapply dh_conseq; [apply (@dh_query_keeps (pass_inv d0)) | auto | intros a d H; exact H | exact Hx]. }
  intros stored.
  eapply dh_bind with (Q1 := fun _ => pass_inv d0).
  { eapply dh_conseq; [apply (@dh_dbpure_keeps (pass_inv d0)), dbpure_exportTopicToJson
                      | auto | intros a d H; exact H | exact Hx]. }
  intros ?. apply dh_ret; auto.
Qed.

Lemma syncSite_sound d0 fuel name :
  dhoare (pass_inv d0) (syncSite convert E fuel name) (fun _ => pass_inv d0) (pass_inv_x d0).
Proof.
  destruct (pass_inv_stmts d0) as (H1 & H2 & H3 & H4 & _).
  assert (Hx : forall d, pass_inv d0 d -> pass_inv_x d0 d) by (intros d [H _]; exact H).
  unfold syncSite.
  eapply dh_bind with (Q1 := fun _ => pass_inv d0).
  { eapply dh_conseq; [eapply refreshUnread_keeps; [intros; apply H1 | apply H2 | apply H3]
                      | auto | intros a d H; exact H | exact Hx]. }
  intros cs. cbv zeta.
  eapply dh_bind with (Q1 := fun _ => pass_inv d0).
  { eapply dh_conseq; [apply (@dh_query_keeps (pass_inv d0)) | auto | intros a d H; exact H | exact Hx]. }
  intros unreadTopics.
  assert (Hlast : dhoare (pass_inv d0) (updateSiteLastSync (snd cs))
                         (fun _ => pass_inv d0) (pass_inv_x d0)).
  { eapply dh_conseq; [eapply updateSiteLastSync_keeps; intros; apply H4
                      | auto | intros a d H; exact H | exact Hx]. }
  destruct (Z.of_nat (List.length unreadTopics) =? 0).
  - eapply dh_bind; [exact Hlast|]. intros ?. apply dh_ret; auto.
  - eapply dh_bind.
    + apply (@dh_forOf _ _ (fun _ => pass_inv d0) (pass_inv_x d0)).
      intros acc x _. apply syncTopic_sound.
    + intros total. eapply dh_bind; [exact Hlast|]. intros ?. apply dh_ret; auto.
Qed.

End Soundness.

(** C3, as amended.  For services that hand out positive identifiers and a
    store whose watermarks are backed by stored messages: after a sync
    pass, however it ends, every watermark is still the identifier of a
    stored message of its conversation (never a value beyond what is
    persisted) and no watermark has moved back; and after a pass that
    completes, if every watermark was the largest stored identifier of its
    conversation (none when nothing is stored) before the pass, it is so
    after it.  A pass that is cut short by a failure between the insertion
    of a batch and the statement that moves the watermark may leave the
    watermark behind the largest stored identifier. *)
Theorem watermark_soundness :
  forall convert E fuel name w,
    server_positive E ->
    watermark_backed (db w) -> positive_ids (db w) ->
    let r := syncSite convert E fuel name w in
    watermark_backed (db (snd r)) /\
    positive_ids (db (snd r)) /\
    watermarks_grow (db w) (db (snd r)) /\
    (watermark_sound (db w) -> is_ok (fst r) = true -> watermark_sound (db (snd r))).
Proof.
  intros convert E fuel name w Hpos Hb Hp r.
  assert (H0 : pass_inv (db w) (db w)).
  { split; [|auto]. repeat split; [assumption | assumption |].
    intros tid. apply wm_le_refl. }
  pose proof (syncSite_sound convert E Hpos (db w) fuel name w H0) as H.
  subst r. destruct (syncSite convert E fuel name w) as [[a|e] w']; cbn [fst snd is_ok].
  - destruct H as [(H1 & H2 & H3) H4]. auto.
  - destruct H as (H1 & H2 & H3). repeat split; auto. discriminate.
Qed.

(** C3, the counterexample.  A first pass over a conversation with the
    single remote message 1, from an empty store, in which the twelfth
    statement of the store, the one that moves the watermark, throws.  The
    message is stored and the conversation has no watermark: after this
    pass the watermark is not the largest stored identifier. *)
Lemma watermark_behind_after_failed_pass :
  let r := syncSite plain (welcomeEnv 1) 3 "alpha" (fused 11) in
  watermark_sound (db (fused 11)) /\
  fst r = Throw SqliteError /\
  max_stored (db (snd r)) 1 = Some 1 /\
  watermark (db (snd r)) 1 = None /\
  ~ watermark_sound (db (snd r)).
Proof.
  cbv zeta. split; [intros tid; reflexivity|].
  split; [vm_compute; reflexivity|].
  split; [vm_compute; reflexivity|].
  split; [vm_compute; reflexivity|].
  intros H. specialize (H 1). vm_compute in H. discriminate.
Qed.

Lemma In_firstn_list {A} (n : nat) : forall (l : list A) x, In x (firstn n l) -> In x l.
Proof.
  induction n as [|n IH]; intros l x H; [contradiction|].
  destruct l as [|y l]; [contradiction|]. cbn in H. destruct H as [H|H]; [left | right]; auto.
Qed.

Lemma page_positive L anchor n :
  Forall (fun m => 0 < zm_id m) L ->
  Forall (fun m => 0 < zm_id m) (gm_messages (page L anchor n)).
Proof.
  intros H. rewrite Forall_forall in H. apply Forall_forall. intros m Hm.
  apply H. destruct anchor as [|a]; cbn in Hm.
  - eapply In_firstn_list; eassumption.
  - apply in_app_iff in Hm. destruct Hm as [Hm|Hm].
    + apply filter_In in Hm. tauto.
    + apply In_firstn_list in Hm. apply filter_In in Hm. tauto.
Qed.

Lemma narrowed_increasing R narrow :
  well_formed_remote R -> increasing (narrowed R narrow).
Proof.
  intros H. unfold narrowed, find_conversation.
  assert (Hnil : increasing []) by (split; constructor).
  destruct (narrow_operand op_stream narrow) as [s|]; [|exact Hnil].
  destruct (narrow_operand op_topic narrow) as [t|]; [|exact Hnil].
  destruct (find _ (remote_conversations R)) as [c|] eqn:Hf; [|exact Hnil].
  apply find_some in Hf. apply H. tauto.
Qed.

(** The reference service of a well-formed remote hands out positive
    identifiers. *)
Lemma reference_positive E R :
  (forall url, internet E url = zulipServer R) -> well_formed_remote R -> server_positive E.
Proof.
  intros HE HR url req r Hj. rewrite HE in Hj. destruct req as [|narrow anchor nb na]; cbn in Hj.
  - discriminate.
  - injection Hj as <-. apply page_positive. apply narrowed_increasing; assumption.
Qed.

Lemma welcome_well_formed : well_formed_remote (welcomeRemote 5).
Proof.
  intros c [<-|[]]. split; cbn.
  - repeat constructor; lia.
  - repeat constructor; lia.
Qed.

Lemma watermark_soundness_witness :
  watermark_sound (db (snd (syncSite plain (welcomeEnv 5) 3 "alpha" initialWorld))).
Proof.
  apply (watermark_soundness plain (welcomeEnv 5) 3 "alpha" initialWorld).
  - apply (reference_positive _ (welcomeRemote 5)); [reflexivity | exact welcome_well_formed].
  - intros tid x H. discriminate.
  - constructor.
  - intros tid. reflexivity.
  - vm_compute. reflexivity.
Defined.

(* ===================================================================== *)
(** ** Pagination against the reference service *)
(* ===================================================================== *)

Lemma filter_filter_above (a x : Z) (l : list ZulipMessage) :
  a <= x ->
  filter (fun m => x <? zm_id m) (filter (fun m => a <? zm_id m) l)
  = filter (fun m => x <? zm_id m) l.
Proof.
  intros Hax. induction l as [|m l IH]; cbn [filter]; [reflexivity|].
  destruct (a <? zm_id m) eqn:Ea; cbn [filter].
  - rewrite IH. reflexivity.
  - rewrite IH. apply Z.ltb_ge in Ea.
    assert (Hx : (x <? zm_id m) = false) by (apply Z.ltb_ge; lia).
    rewrite Hx. reflexivity.
Qed.

Lemma sorted_filter (a : Z) (l : list ZulipMessage) :
  StronglySorted Z.lt (map zm_id l) ->
  StronglySorted Z.lt (map zm_id (filter (fun m => a <? zm_id m) l)).
Proof.
  induction l as [|m l IH]; cbn [map filter]; intros H; [constructor|].
  inversion H as [|x xs Hs Hall]; subst.
  destruct (a <? zm_id m); cbn [map]; [|apply IH; assumption].
  constructor; [apply IH; assumption|].
  rewrite Forall_forall in *. intros y Hy. apply Hall.
  apply in_map_iff in Hy. destruct Hy as (m' & <- & Hm'). apply filter_In in Hm'.
  apply in_map. tauto.
Qed.

(** In a list sorted by identifier, what lies after the last message of a
    non-empty prefix is the rest of the list. *)
Lemma sorted_after_prefix (l : list ZulipMessage) :
  StronglySorted Z.lt (map zm_id l) ->
  forall n, firstn n l <> [] ->
  filter (fun m => last_id (firstn n l) <? zm_id m) l = skipn n l.
Proof.
  induction l as [|x l IH]; intros Hs n Hne.
  - destruct n; cbn in Hne; congruence.
  - destruct n as [|n]; [cbn in Hne; congruence|].
    inversion Hs as [|y ys Hs' Hall]; subst. cbn [firstn skipn].
    assert (Hfresh : forall b, b <= zm_id x -> filter (fun m => b <? zm_id m) l = l).
    { intros b Hb. apply filter_all. intros m Hm. apply Z.ltb_lt.
      rewrite Forall_forall in Hall. specialize (Hall (zm_id m) (in_map zm_id l m Hm)). lia. }
    destruct (firstn n l) as [|z p] eqn:Ep.
    + (* the prefix is [x] *)
      unfold last_id. cbn [map last filter].
      rewrite Z.ltb_irrefl. rewrite Hfresh by lia.
      destruct n; [reflexivity|]. destruct l; [reflexivity | discriminate].
    + assert (Hlast : last_id (x :: z :: p) = last_id (z :: p)) by reflexivity.
      rewrite Hlast. cbn [filter].
      assert (Hin : exists m, In m l /\ last_id (z :: p) = zm_id m).
      { destruct (@last_id_In (z :: p)) as (m & Hm & E); [discriminate|].
        exists m. split; [|exact E]. apply (In_firstn_list n). rewrite Ep. exact Hm. }
      destruct Hin as (m & Hm & E).
      assert (Hx : (last_id (z :: p) <? zm_id x) = false).
      { apply Z.ltb_ge. rewrite E. rewrite Forall_forall in Hall.
        specialize (Hall (zm_id m) (in_map zm_id l m Hm)). lia. }
      rewrite Hx. rewrite <- Ep. apply IH; [assumption|]. rewrite Ep. discriminate.
Qed.

Lemma firstn_short {A} (n : nat) : forall (l : list A),
  (List.length (firstn n l) < n)%nat -> firstn n l = l.
Proof.
  induction n as [|n IH]; intros l H; [cbn in H; lia|].
  destruct l as [|x l]; [reflexivity|]. cbn in *. f_equal. apply IH. lia.
Qed.

Lemma request_calm E client r w :
  net w = [] ->
  response_ok (internet E (site (credentials client)) r) = true ->
  request E client r w
  = (Ok (json (internet E (site (credentials client)) r)),
     set_sent (sent w ++ [(site (credentials client), r)]) w).
Proof.
  intros Hn Hok. unfold request, bind, fetch. cbn [net set_sent]. rewrite Hn, Hok. reflexivity.
Qed.

(** The new messages of a page of the reference service: the first
    [num_after] of what is left from the anchor. *)
Lemma page_new_messages (l : list ZulipMessage) (anchor : Anchor) (n : Z) :
  match anchor with
  | anchorId a => filter (fun m => a <? zm_id m) (gm_messages (page l anchor n))
  | oldest => gm_messages (page l anchor n)
  end = firstn (Z.to_nat n) (rest_from anchor l).
Proof.
  destruct anchor as [|a]; cbn [page gm_messages rest_from]; [reflexivity|].
  rewrite filter_app. rewrite filter_none, filter_all; [reflexivity | |].
  - intros m Hm. apply In_firstn_list in Hm. apply filter_In in Hm. tauto.
  - intros m Hm. apply filter_In in Hm. destruct Hm as [_ Hm].
    apply Z.eqb_eq in Hm. apply Z.ltb_ge. lia.
Qed.

Lemma page_found_newest (l : list ZulipMessage) (anchor : Anchor) (n : Z) :
  gm_found_newest (page l anchor n)
  = (List.length (firstn (Z.to_nat n) (rest_from anchor l)) <? Z.to_nat n)%nat.
Proof. destruct anchor; reflexivity. Qed.

Section Pagination.

Variable E : Env.
Variable client : ZulipClient.
Variable R : Remote.
Variable narrow : list NarrowFilter.

Hypothesis Hserver : internet E (site (credentials client)) = zulipServer R.
Hypothesis Hsorted : StronglySorted Z.lt (map zm_id (narrowed R narrow)).

Lemma reference_ok r : response_ok (internet E (site (credentials client)) r) = true.
Proof. rewrite Hserver. destruct r; reflexivity. Qed.

(** When the loop of [getTopicMessages] returns, it has collected all that
    was left from its anchor. *)
Lemma getTopicMessages_loop_complete fuel :
  forall anchor acc w l w',
    net w = [] ->
    getTopicMessages_loop E fuel client narrow anchor acc w = (Ok l, w') ->
    l = acc ++ rest_from anchor (narrowed R narrow) /\ net w' = [].
Proof.
  induction fuel as [|fuel IH]; intros anchor acc w l w' Hn H; cbn [getTopicMessages_loop] in H.
  - discriminate.
  - rewrite (bind_ok _ _ _ (request_calm E client _ w Hn (reference_ok _))) in H.
    rewrite Hserver in H. cbn [zulipServer json] in H.
    cbn [page gm_result] in H.
    assert (Hres : gm_result (page (narrowed R narrow) anchor batchSize) = success)
      by (destruct anchor; reflexivity).
    rewrite Hres in H. cbv zeta in H.
    rewrite (page_new_messages (narrowed R narrow) anchor batchSize) in H.
    rewrite page_found_newest in H.
    set (S0 := rest_from anchor (narrowed R narrow)) in *.
    set (new := firstn (Z.to_nat batchSize) S0) in *.
    destruct (Z.of_nat (List.length new) =? 0) eqn:Hlen.
    + injection H as <- <-. split; [|exact Hn].
      apply Z.eqb_eq in Hlen. assert (Hnil : new = []) by (destruct new; [reflexivity | cbn in Hlen; lia]).
      assert (HS : S0 = []).
      { subst new. destruct S0; [reflexivity|]. cbn in Hnil. discriminate. }
      rewrite HS, app_nil_r. reflexivity.
    + destruct ((List.length new <? Z.to_nat batchSize)%nat
                || (Z.of_nat (List.length new) <? batchSize)) eqn:Hend.
      * injection H as <- <-. split; [|exact Hn]. f_equal.
        apply firstn_short. apply orb_true_iff in Hend. destruct Hend as [Hend|Hend].
        -- apply Nat.ltb_lt in Hend. exact Hend.
        -- apply Z.ltb_lt in Hend. unfold batchSize in *. subst new. lia.
      * assert (Hne : new <> []).
        { intros E0. rewrite E0 in Hlen. discriminate. }
        assert (Hs0 : StronglySorted Z.lt (map zm_id S0)).
        { subst S0. destruct anchor; [exact Hsorted | apply sorted_filter; exact Hsorted]. }
        pose proof (sorted_after_prefix S0 Hs0 (Z.to_nat batchSize) Hne) as Hsplit.
        fold new in Hsplit.
        assert (Hrest : rest_from (anchorId (last_id new)) (narrowed R narrow)
                        = skipn (Z.to_nat batchSize) S0).
        { rewrite <- Hsplit. subst S0. destruct anchor as [|a]; [reflexivity|].
          cbn [rest_from]. symmetry. apply filter_filter_above.
          destruct (@last_id_In new Hne) as (m & Hm & ->).
          apply In_firstn_list in Hm. apply filter_In in Hm. destruct Hm as [_ Hm].
          apply Z.ltb_lt in Hm. lia. }
        apply IH in H; [|exact Hn]. destruct H as [-> Hn']. split; [|exact Hn'].
        rewrite Hrest, <- app_assoc. f_equal. apply firstn_skipn.
Qed.

(** When nothing is left from the anchor, one request ends the loop. *)
Lemma getTopicMessages_loop_nothing fuel anchor acc w :
  net w = [] ->
  rest_from anchor (narrowed R narrow) = [] ->
  getTopicMessages_loop E (S fuel) client narrow anchor acc w
  = (Ok acc, set_sent (sent w ++ [(site (credentials client),
                                   GET_messages narrow anchor 0 batchSize)]) w).
Proof.
  intros Hn Hrest. cbn [getTopicMessages_loop].
  rewrite (bind_ok _ _ _ (request_calm E client _ w Hn (reference_ok _))).
  rewrite Hserver. cbn [zulipServer json].
  assert (Hres : gm_result (page (narrowed R narrow) anchor batchSize) = success)
    by (destruct anchor; reflexivity).
  rewrite Hres. cbv zeta.
  rewrite (page_new_messages (narrowed R narrow) anchor batchSize), Hrest.
  destruct (Z.to_nat batchSize); reflexivity.
Qed.

End Pagination.

(* ===================================================================== *)
(** ** A pass when nothing fails *)
(* ===================================================================== *)

Lemma getOrCreateStream_calm siteId sid name w :
  fuse w = None ->
  getOrCreateStream siteId sid name w
  = (Ok (fst (with_stream siteId sid name (db w))),
     set_db (snd (with_stream siteId sid name (db w))) w).
Proof.
  intros Hf. unfold getOrCreateStream, with_stream.
  rewrite (bind_ok _ _ _ (query_calm _ w Hf)).
  destruct (select_stream siteId sid (db w)) as [r|].
  - erewrite bind_ok; [|apply run_calm; [exact Hf | reflexivity]]. reflexivity.
  - erewrite run_calm; [reflexivity | exact Hf | reflexivity].
Qed.

Lemma getOrCreateTopic_calm streamDbId name w :
  fuse w = None ->
  getOrCreateTopic streamDbId name w
  = (Ok (fst (with_topic streamDbId name (db w))),
     set_db (snd (with_topic streamDbId name (db w))) w).
Proof.
  intros Hf. unfold getOrCreateTopic, with_topic.
  rewrite (bind_ok _ _ _ (query_calm _ w Hf)).
  destruct (select_topic streamDbId name (db w)) as [r|].
  - cbn. rewrite set_db_same. reflexivity.
  - erewrite run_calm; [reflexivity | exact Hf | reflexivity].
Qed.

Lemma storeBatch_calm convert tid batch w :
  fuse w = None ->
  storeBatch convert tid batch w
  = (Ok (added (db w) (insert_all convert tid batch (db w))),
     set_db (stored_batch convert tid batch (db w)) w).
Proof.
  intros Hf. unfold storeBatch.
  rewrite (bind_ok _ _ _ (insertMessages_calm convert tid batch w Hf)).
  unfold updateTopicLastMessageId.
  erewrite bind_ok; [|apply run_calm; [exact Hf | reflexivity]]. reflexivity.
Qed.

Lemma updateSiteLastSync_calm siteId w :
  fuse w = None ->
  updateSiteLastSync siteId w
  = (Ok tt, set_db (after (update_site_last_sync (clock w) siteId) (db w))
                   (set_clock (clock w + 1) w)).
Proof.
  intros Hf. unfold updateSiteLastSync, bind, now.
  erewrite run_calm; [reflexivity | exact Hf | reflexivity].
Qed.

Lemma narrowed_conversation R s t :
  narrowed R [ {| operator := op_stream; operand := s |}; {| operator := op_topic; operand := t |} ]
  = find_conversation s t (remote_conversations R).
Proof. reflexivity. Qed.

Section CalmTopic.

Variable convert : string -> string.
Variable E : Env.
Variable client : ZulipClient.
Variable R : Remote.
Hypothesis Hserver : internet E (site (credentials client)) = zulipServer R.
Hypothesis Hremote : well_formed_remote R.

(** The fetch of a conversation, when it returns. *)
Lemma getTopicMessages_calm fuel s t afterId w l w' :
  calm w ->
  getTopicMessages E fuel client s t afterId w = (Ok l, w') ->
  l = fetched afterId (find_conversation s t (remote_conversations R)) /\
  calm w' /\ db w' = db w /\ fuel <> O.
Proof.
  intros [Hf Hn] H.
  pose proof (dbpure_getTopicMessages E fuel client s t afterId w) as Hp.
  rewrite H in Hp. cbn [snd] in Hp. destruct Hp as [Hd Hf'].
  assert (Hfuel : fuel <> O) by (intros ->; discriminate).
  unfold getTopicMessages in H.
  eapply getTopicMessages_loop_complete in H; [|exact Hserver| |exact Hn].
  - destruct H as [-> Hn']. rewrite narrowed_conversation.
    repeat split; try assumption. congruence.
  - apply narrowed_increasing; assumption.
Qed.

(** The fetch of a conversation from which nothing is left. *)
Lemma getTopicMessages_nothing fuel s t afterId w :
  calm w -> fuel <> O ->
  fetched afterId (find_conversation s t (remote_conversations R)) = [] ->
  exists w', getTopicMessages E fuel client s t afterId w = (Ok [], w') /\
             calm w' /\ db w' = db w.
Proof.
  intros [Hf Hn] Hfuel Hnothing. destruct fuel as [|fuel]; [congruence|].
  unfold getTopicMessages.
  rewrite (getTopicMessages_loop_nothing E client R _ Hserver fuel _ [] w Hn)
    by (rewrite narrowed_conversation; exact Hnothing).
  eexists. split; [reflexivity|]. repeat split; assumption.
Qed.

(** The body of the loop for one conversation, when it returns. *)
Lemma syncTopic_calm fuel name siteId total topic w r w' :
  calm w ->
  syncTopic convert E fuel client name siteId total topic w = (Ok r, w') ->
  calm w' /\ db w' = synced_topic convert R siteId topic (db w) /\ fuel <> O.
Proof.
  intros [Hf Hn] H. unfold syncTopic in H.
  rewrite (bind_ok _ _ _ (getOrCreateStream_calm siteId _ _ w Hf)) in H.
  set (sdb := fst (with_stream siteId (streamId topic) (streamName topic) (db w))) in *.
  set (d1 := snd (with_stream siteId (streamId topic) (streamName topic) (db w))) in *.
  rewrite (bind_ok _ _ _ (getOrCreateTopic_calm sdb _ (set_db d1 w) Hf)) in H.
  cbn [db set_db] in H.
  set (tdb := fst (with_topic sdb (topicName topic) d1)) in *.
  set (d2 := snd (with_topic sdb (topicName topic) d1)) in *.
  unfold getTopicLastMessageId in H.
  rewrite (bind_ok _ _ _ (query_calm _ (set_db d2 w) Hf)) in H.
  cbn [db set_db] in H. fold (watermark d2 tdb) in H.
  apply bind_inv_ok in H. destruct H as (batch & w3 & Hfetch & H).
  apply getTopicMessages_calm in Hfetch; [|split; assumption].
  destruct Hfetch as (Hbatch & [Hf3 Hn3] & Hd3 & Hfuel). cbn [db set_db] in Hd3.
  unfold synced_topic. fold sdb d1 tdb d2. rewrite <- Hbatch.
  destruct batch as [|m batch'].
  - cbn in H. injection H as _ <-. repeat split; assumption.
  - set (batch := m :: batch') in *.
    replace (0 <? Z.of_nat (List.length batch)) with true in H
      by (symmetry; apply Z.ltb_lt; cbn; lia).
    rewrite (bind_ok _ _ _ (storeBatch_calm convert tdb batch w3 Hf3)) in H.
    unfold db_getTopicMessages in H.
    erewrite (bind_ok _ _ _ (query_calm _ _ _)) in H.
    unfold exportTopicToJson, bind, now, ret in H. cbn in H.
    injection H as _ <-. cbn. rewrite Hd3. repeat split; assumption.
  Unshelve. exact Hf3.
Qed.

(** The body of the loop for a settled conversation: it returns, nothing is
    inserted, and the store changes at most by the name of the stream. *)
Lemma syncTopic_settled fuel name siteId total topic w :
  calm w -> fuel <> O ->
  settled R siteId topic (db w) ->
  exists w', syncTopic convert E fuel client name siteId total topic w = (Ok total, w') /\
             calm w' /\
             db w' = snd (with_stream siteId (streamId topic) (streamName topic) (db w)).
Proof.
  intros [Hf Hn] Hfuel (srow & trow & Hs & Ht & Hnothing). unfold syncTopic.
  rewrite (bind_ok _ _ _ (getOrCreateStream_calm siteId _ _ w Hf)).
  unfold with_stream. rewrite Hs. cbn [fst snd].
  set (d1 := after (update_stream_name (streamName topic) (stream_row_id srow)) (db w)).
  assert (Htopics : tbl_topics d1 = tbl_topics (db w)) by reflexivity.
  rewrite (bind_ok _ _ _ (getOrCreateTopic_calm _ _ (set_db d1 w) Hf)).
  cbn [db set_db]. unfold with_topic.
  assert (Ht1 : select_topic (stream_row_id srow) (topicName topic) d1 = Some trow).
  { unfold select_topic. rewrite Htopics. exact Ht. }
  rewrite Ht1. cbn [fst snd].
  unfold getTopicLastMessageId.
  rewrite (bind_ok _ _ _ (query_calm _ (set_db d1 w) Hf)). cbn [db set_db].
  assert (Hw1 : select_last_message_id (topic_row_id trow) d1 = watermark (db w) (topic_row_id trow)).
  { unfold watermark, select_last_message_id. rewrite Htopics. reflexivity. }
  rewrite Hw1.
  destruct (getTopicMessages_nothing fuel (streamName topic) (topicName topic)
              (num_or_undefined (watermark (db w) (topic_row_id trow))) (set_db d1 w))
    as (w2 & Hfetch & Hcalm & Hd); [split; assumption | assumption | assumption |].
  rewrite (bind_ok _ _ _ Hfetch). cbn.
  exists w2. repeat split; try apply Hcalm. exact Hd.
Qed.

End CalmTopic.

(* ===================================================================== *)
(** ** The rows of streams and conversations through a pass *)
(* ===================================================================== *)

Lemma find_map_same {A} (p : A -> bool) (f : A -> A) (l : list A) :
  (forall x, p (f x) = p x) ->
  find p (map f l) = option_map f (find p l).
Proof.
  intros H. induction l as [|x l IH]; cbn [map find]; [reflexivity|].
  rewrite H. destruct (p x); [reflexivity | exact IH].
Qed.

Lemma NoDup_key_eq {A} (key : A -> Z) (l : list A) (a b : A) :
  NoDup (map key l) -> In a l -> In b l -> key a = key b -> a = b.
Proof.
  induction l as [|x l IH]; intros Hnd Ha Hb Hk; [contradiction|].
  cbn [map] in Hnd. inversion Hnd as [|k ks Hnotin Hnd']; subst.
  destruct Ha as [<-|Ha], Hb as [<-|Hb].
  - reflexivity.
  - exfalso. apply Hnotin. rewrite Hk. apply in_map; assumption.
  - exfalso. apply Hnotin. rewrite <- Hk. apply in_map; assumption.
  - apply IH; assumption.
Qed.

Lemma NoDup_append_fresh {A} (key : A -> Z) (l : list A) (x : A) :
  NoDup (map key l) -> key x = next_id key l -> NoDup (map key (l ++ [x])).
Proof.
  intros Hnd Hx. rewrite map_app. cbn [map].
  apply NoDup_app; [assumption | repeat constructor; intros [] |].
  intros k Hk [<-|[]]. apply in_map_iff in Hk. destruct Hk as (r & Hr & Hin).
  pose proof (next_id_fresh key l r Hin). lia.
Qed.

(** What [with_stream] does: the stream has a row, whose key is returned;
    the rows that were there keep their place and their key; the other
    tables are as before. *)
Lemma with_stream_spec siteId sid name d :
  let r := with_stream siteId sid name d in
  (exists srow, select_stream siteId sid (snd r) = Some srow /\
                In srow (tbl_streams (snd r)) /\
                stream_row_id srow = fst r /\ stream_zulip_id srow = sid) /\
  (forall siteId' sid' srow', select_stream siteId' sid' d = Some srow' ->
     exists srow'', select_stream siteId' sid' (snd r) = Some srow'' /\
                    stream_row_id srow'' = stream_row_id srow' /\
                    stream_zulip_id srow'' = stream_zulip_id srow') /\
  tbl_topics (snd r) = tbl_topics d /\ tbl_messages (snd r) = tbl_messages d /\
  tbl_sites (snd r) = tbl_sites d /\ tbl_unread (snd r) = tbl_unread d /\
  (NoDup (map stream_row_id (tbl_streams d)) -> NoDup (map stream_row_id (tbl_streams (snd r)))).
Proof.
  unfold with_stream. destruct (select_stream siteId sid d) as [r0|] eqn:Hs; cbn [fst snd].
  - unfold after, update_stream_name.
    set (f := fun r => if stream_row_id r =? stream_row_id r0
                       then {| stream_row_id := stream_row_id r; stream_site_id := stream_site_id r;
                               stream_zulip_id := stream_zulip_id r; stream_name := name |}
                       else r).
    assert (Hid : forall x, stream_row_id (f x) = stream_row_id x)
      by (intros x; unfold f; destruct (_ =? _); reflexivity).
    assert (Hz : forall x, stream_zulip_id (f x) = stream_zulip_id x)
      by (intros x; unfold f; destruct (_ =? _); reflexivity).
    assert (Hfind : forall siteId' sid',
              select_stream siteId' sid' (set_streams (map f (tbl_streams d)) d)
              = option_map f (select_stream siteId' sid' d)).
    { intros siteId' sid'. unfold select_stream. cbn [tbl_streams set_streams].
      apply find_map_same. intros x. unfold f.
      destruct (stream_row_id x =? stream_row_id r0); reflexivity. }
    repeat split.
    + exists (f r0). rewrite Hfind, Hs. cbn [option_map]. repeat split.
      * cbn [tbl_streams set_streams]. apply in_map. apply find_some in Hs. tauto.
      * apply Hid.
      * rewrite Hz. apply find_some in Hs. destruct Hs as [_ Hs].
        apply andb_true_iff in Hs. destruct Hs as [_ Hs]. apply Z.eqb_eq; assumption.
    + intros siteId' sid' srow' H'. exists (f srow'). rewrite Hfind, H'. auto.
    + cbn [tbl_streams set_streams]. rewrite map_map.
      rewrite (map_ext _ stream_row_id Hid). auto.
  - unfold after, insert_stream.
    set (new := {| stream_row_id := next_id stream_row_id (tbl_streams d);
                   stream_site_id := siteId; stream_zulip_id := sid; stream_name := name |}).
    repeat split.
    + exists new. unfold select_stream in *. cbn [tbl_streams set_streams].
      rewrite (find_app_none _ _ _ Hs). cbn. rewrite !Z.eqb_refl. cbn. repeat split.
      apply in_or_app. right. left. reflexivity.
    + intros siteId' sid' srow' H'. exists srow'. unfold select_stream in *.
      cbn [tbl_streams set_streams]. rewrite (find_app_some _ _ _ H'). auto.
    + intros Hnd. cbn [tbl_streams set_streams]. apply NoDup_append_fresh; [assumption | reflexivity].
Qed.

(** What [with_topic] does: the conversation has a row, whose key is
    returned; the rows that were there are as before, and so are all the
    watermarks and the other tables. *)
Lemma with_topic_spec streamDbId name d :
  let r := with_topic streamDbId name d in
  (exists trow, select_topic streamDbId name (snd r) = Some trow /\
                In trow (tbl_topics (snd r)) /\
                topic_row_id trow = fst r /\ topic_stream_id trow = streamDbId /\
                topic_name trow = name) /\
  (forall sdb' name' trow', select_topic sdb' name' d = Some trow' ->
     select_topic sdb' name' (snd r) = Some trow') /\
  (forall tid, watermark (snd r) tid = watermark d tid) /\
  tbl_streams (snd r) = tbl_streams d /\ tbl_messages (snd r) = tbl_messages d /\
  tbl_sites (snd r) = tbl_sites d /\ tbl_unread (snd r) = tbl_unread d /\
  (NoDup (map topic_row_id (tbl_topics d)) -> NoDup (map topic_row_id (tbl_topics (snd r)))).
Proof.
  unfold with_topic. destruct (select_topic streamDbId name d) as [r0|] eqn:Hs; cbn [fst snd].
  - repeat split; auto. exists r0. pose proof Hs as Hin. apply find_some in Hin.
    destruct Hin as [Hin Hb]. apply andb_true_iff in Hb. destruct Hb as [H1 H2].
    apply Z.eqb_eq in H1. apply String.eqb_eq in H2. auto.
  - unfold after. cbn [insert_topic].
    set (new := {| topic_row_id := next_id topic_row_id (tbl_topics d);
                   topic_stream_id := streamDbId; topic_name := name; last_message_id := None |}).
    repeat split.
    + exists new. unfold select_topic in *. cbn [tbl_topics set_topics].
      rewrite (find_app_none _ _ _ Hs). cbn. rewrite Z.eqb_refl, String.eqb_refl. cbn.
      repeat split. apply in_or_app. right. left. reflexivity.
    + intros sdb' name' trow' H'. unfold select_topic in *. cbn [tbl_topics set_topics].
      apply find_app_some; assumption.
    + intros tid. eapply watermark_insert_topic. reflexivity.
    + intros Hnd. cbn [tbl_topics set_topics]. apply NoDup_append_fresh; [assumption | reflexivity].
Qed.

(** What storing a batch does to the rows. *)
Lemma stored_batch_spec convert tid batch d :
  let d' := stored_batch convert tid batch d in
  tbl_streams d' = tbl_streams d /\ tbl_sites d' = tbl_sites d /\ tbl_unread d' = tbl_unread d /\
  (forall sdb name trow, select_topic sdb name d = Some trow ->
     exists trow', select_topic sdb name d' = Some trow' /\ topic_row_id trow' = topic_row_id trow) /\
  (has_topic d tid -> watermark d' tid = Some (Math_max (map zm_id batch))) /\
  (forall tid', tid' <> tid -> watermark d' tid' = watermark d tid') /\
  (NoDup (map topic_row_id (tbl_topics d)) -> NoDup (map topic_row_id (tbl_topics d'))).
Proof.
  unfold stored_batch, after.
  destruct (update_last_message_id (Math_max (map zm_id batch)) tid (insert_all convert tid batch d))
    as [[a d']|e] eqn:Hu; [|discriminate].
  destruct (insert_all_tables convert tid batch d) as (Hs1 & Hs2 & Hs3 & Hs4).
  pose proof (update_last_message_id_tables Hu) as (Ht1 & Ht2 & _ & Ht4).
  cbv zeta. split; [congruence|]. split; [congruence|]. split; [congruence|].
  assert (Htop : tbl_topics d' = map (fun r =>
            if topic_row_id r =? tid
            then {| topic_row_id := topic_row_id r; topic_stream_id := topic_stream_id r;
                    topic_name := topic_name r;
                    last_message_id := Some (Math_max (map zm_id batch)) |}
            else r) (tbl_topics d)).
  { injection Hu as _ <-. cbn [tbl_topics set_topics]. rewrite Hs3. reflexivity. }
  split; [|split; [|split]].
  - intros sdb name trow H. unfold select_topic in *. rewrite Htop.
    rewrite find_map_same by (intros x; destruct (topic_row_id x =? tid); reflexivity).
    rewrite H. cbn [option_map]. eexists. split; [reflexivity|].
    destruct (_ =? tid); reflexivity.
  - intros Hrow. eapply watermark_update_same; [|exact Hu].
    unfold has_topic. rewrite Hs3. exact Hrow.
  - intros tid' Hne. erewrite watermark_update_other; [|exact Hne|exact Hu].
    unfold watermark, select_last_message_id. rewrite Hs3. reflexivity.
  - intros Hnd. rewrite Htop, map_map.
    erewrite map_ext; [exact Hnd|]. intros x. cbn. destruct (_ =? tid); reflexivity.
Qed.

(* ===================================================================== *)
(** ** Settled conversations *)
(* ===================================================================== *)

(** After a batch was fetched and the watermark moved to its largest
    identifier, nothing is left to fetch. *)
Lemma fetched_after_max (l : list ZulipMessage) (afterId : option Z) :
  increasing l -> fetched afterId l <> [] ->
  fetched (num_or_undefined (Some (Math_max (map zm_id (fetched afterId l))))) l = [].
Proof.
  intros [_ Hpos] Hne.
  set (batch := fetched afterId l) in *.
  assert (Hin : In (Math_max (map zm_id batch)) (map zm_id batch)).
  { apply Math_max_In. destruct batch; [congruence | discriminate]. }
  apply in_map_iff in Hin. destruct Hin as (mm & Hmm & Hin).
  assert (Hsub : forall m, In m batch -> In m l).
  { intros m Hm. unfold batch, fetched, rest_from in Hm.
    destruct (first_anchor afterId); [assumption | apply filter_In in Hm; tauto]. }
  rewrite Forall_forall in Hpos.
  assert (Hmx : 0 < Math_max (map zm_id batch)).
  { rewrite <- Hmm. apply Hpos, Hsub, Hin. }
  assert (Hz : (Math_max (map zm_id batch) =? 0) = false) by (apply Z.eqb_neq; lia).
  unfold num_or_undefined. rewrite Hz. unfold fetched at 1, first_anchor. rewrite Hz.
  cbn [rest_from]. apply filter_none. intros m Hm. apply Z.ltb_ge.
  assert (Hle : zm_id m <= Math_max (map zm_id batch)); [|lia].
  unfold batch, fetched, rest_from in *.
  destruct (first_anchor afterId) as [|a].
  - apply Math_max_ge. apply in_map. assumption.
  - destruct (a <? zm_id m) eqn:Ea.
    + apply Math_max_ge. apply in_map. apply filter_In. split; assumption.
    + apply Z.ltb_ge in Ea. apply filter_In in Hin. destruct Hin as [_ Hin].
      apply Z.ltb_lt in Hin. lia.
Qed.

Section Settled.

Variable convert : string -> string.
Variable R : Remote.
Variable siteId : Z.
Hypothesis Hremote : well_formed_remote R.

Lemma conversation_increasing s t :
  increasing (find_conversation s t (remote_conversations R)).
Proof.
  unfold find_conversation.
  destruct (find _ (remote_conversations R)) as [c|] eqn:Hf.
  - apply find_some in Hf. apply Hremote. tauto.
  - split; constructor.
Qed.

(** The tables that the body of the loop does not touch. *)
Lemma synced_topic_tables topic d :
  tbl_sites (synced_topic convert R siteId topic d) = tbl_sites d /\
  tbl_unread (synced_topic convert R siteId topic d) = tbl_unread d.
Proof.
  unfold synced_topic. cbv zeta.
  pose proof (with_stream_spec siteId (streamId topic) (streamName topic) d) as Hs.
  cbv zeta in Hs. destruct Hs as (_ & _ & _ & _ & Hs1 & Hs2 & _).
  set (d1 := snd (with_stream siteId (streamId topic) (streamName topic) d)) in *.
  set (sdb := fst (with_stream siteId (streamId topic) (streamName topic) d)) in *.
  pose proof (with_topic_spec sdb (topicName topic) d1) as Ht.
  cbv zeta in Ht. destruct Ht as (_ & _ & _ & _ & _ & Ht1 & Ht2 & _).
  destruct (fetched _ _) as [|m batch]; [split; congruence|].
  pose proof (stored_batch_spec convert (fst (with_topic sdb (topicName topic) d1)) (m :: batch)
                (snd (with_topic sdb (topicName topic) d1))) as Hb.
  cbv zeta in Hb. destruct Hb as (_ & Hb1 & Hb2 & _). split; congruence.
Qed.

(** The body of the loop keeps the primary keys distinct. *)
Lemma synced_topic_wf topic d :
  wf_keys d -> wf_keys (synced_topic convert R siteId topic d).
Proof.
  intros [Hwt Hws]. unfold synced_topic. cbv zeta.
  pose proof (with_stream_spec siteId (streamId topic) (streamName topic) d) as Hs.
  cbv zeta in Hs. destruct Hs as (_ & _ & Hs1 & _ & _ & _ & Hs2).
  set (d1 := snd (with_stream siteId (streamId topic) (streamName topic) d)) in *.
  set (sdb := fst (with_stream siteId (streamId topic) (streamName topic) d)) in *.
  pose proof (with_topic_spec sdb (topicName topic) d1) as Ht.
  cbv zeta in Ht. destruct Ht as (_ & _ & _ & Ht1 & _ & _ & _ & Ht2).
  assert (Hwf2 : wf_keys (snd (with_topic sdb (topicName topic) d1))).
  { split; [apply Ht2; rewrite Hs1; exact Hwt | rewrite Ht1; apply Hs2; exact Hws]. }
  destruct (fetched _ _) as [|m batch]; [exact Hwf2|].
  pose proof (stored_batch_spec convert (fst (with_topic sdb (topicName topic) d1)) (m :: batch)
                (snd (with_topic sdb (topicName topic) d1))) as Hb.
  cbv zeta in Hb. destruct Hb as (Hb1 & _ & _ & _ & _ & _ & Hb2).
  destruct Hwf2 as [H1 H2]. split; [apply Hb2; exact H1 | rewrite Hb1; exact H2].
Qed.

(** After the body of the loop ran for a conversation, the conversation is
    settled. *)
Lemma synced_topic_settles topic d :
  settled R siteId topic (synced_topic convert R siteId topic d).
Proof.
  unfold synced_topic. cbv zeta.
  pose proof (with_stream_spec siteId (streamId topic) (streamName topic) d) as Hs.
  cbv zeta in Hs. destruct Hs as ((srow & Hsel & _ & Hsid & _) & _).
  set (d1 := snd (with_stream siteId (streamId topic) (streamName topic) d)) in *.
  set (sdb := fst (with_stream siteId (streamId topic) (streamName topic) d)) in *.
  pose proof (with_topic_spec sdb (topicName topic) d1) as Ht.
  cbv zeta in Ht. destruct Ht as ((trow & Htsel & Htin & Htid & _) & _ & _ & Ht1 & _).
  set (d2 := snd (with_topic sdb (topicName topic) d1)) in *.
  set (tdb := fst (with_topic sdb (topicName topic) d1)) in *.
  assert (Hsel2 : select_stream siteId (streamId topic) d2 = Some srow).
  { unfold select_stream in *. rewrite Ht1. exact Hsel. }
  set (L := find_conversation (streamName topic) (topicName topic) (remote_conversations R)).
  destruct (fetched (num_or_undefined (watermark d2 tdb)) L) as [|m batch] eqn:Hbatch.
  - exists srow, trow. repeat split; [exact Hsel2 | rewrite Hsid; exact Htsel|].
    rewrite Htid. exact Hbatch.
  - pose proof (stored_batch_spec convert tdb (m :: batch) d2) as Hb.
    cbv zeta in Hb. destruct Hb as (Hb1 & _ & _ & Hb2 & Hb3 & _).
    destruct (Hb2 sdb (topicName topic) trow Htsel) as (trow' & Htsel' & Htid').
    exists srow, trow'. repeat split.
    + unfold select_stream in *. rewrite Hb1. exact Hsel2.
    + rewrite Hsid. exact Htsel'.
    + rewrite Htid', Htid. rewrite Hb3.
      * rewrite <- Hbatch. apply fetched_after_max; [apply conversation_increasing|].
        fold L. rewrite Hbatch. discriminate.
      * unfold has_topic. rewrite <- Htid. apply in_map. exact Htin.
Qed.

(** The body of the loop for one conversation leaves the conversations
    with another key settled. *)
Lemma synced_topic_keeps_settled topic topic0 d :
  wf_keys d ->
  (streamId topic0 <> streamId topic \/ topicName topic0 <> topicName topic) ->
  settled R siteId topic0 d ->
  settled R siteId topic0 (synced_topic convert R siteId topic d).
Proof.
  intros [Hwt Hws] Hkey (srow0 & trow0 & Hs0 & Ht0 & Hnothing). unfold synced_topic. cbv zeta.
  pose proof (with_stream_spec siteId (streamId topic) (streamName topic) d) as Hs.
  cbv zeta in Hs. destruct Hs as ((srow & Hsel & Hsin & Hsid & Hszid) & Hsframe & Hs1 & _ & _ & _ & Hs2).
  set (d1 := snd (with_stream siteId (streamId topic) (streamName topic) d)) in *.
  set (sdb := fst (with_stream siteId (streamId topic) (streamName topic) d)) in *.
  pose proof (with_topic_spec sdb (topicName topic) d1) as Ht.
  cbv zeta in Ht.
  destruct Ht as ((trow & Htsel & Htin & Htid & Htsid & Htname) & Htframe & Htw & Ht1 & _ & _ & _ & Ht2).
  set (d2 := snd (with_topic sdb (topicName topic) d1)) in *.
  set (tdb := fst (with_topic sdb (topicName topic) d1)) in *.
  destruct (Hsframe _ _ _ Hs0) as (srow0' & Hs0' & Hid0' & Hz0').
  assert (Hs02 : select_stream siteId (streamId topic0) d2 = Some srow0').
  { unfold select_stream in *. rewrite Ht1. exact Hs0'. }
  assert (Ht02 : select_topic (stream_row_id srow0') (topicName topic0) d2 = Some trow0).
  { apply Htframe. rewrite Hid0'. unfold select_topic in *. rewrite Hs1. exact Ht0. }
  assert (Hw02 : watermark d2 (topic_row_id trow0) = watermark d (topic_row_id trow0)).
  { rewrite Htw. unfold watermark, select_last_message_id. rewrite Hs1. reflexivity. }
  destruct (fetched (num_or_undefined (watermark d2 tdb))
              (find_conversation (streamName topic) (topicName topic) (remote_conversations R)))
    as [|m batch] eqn:Hbatch.
  - exists srow0', trow0. repeat split; [exact Hs02 | exact Ht02 | rewrite Hw02; exact Hnothing].
  - pose proof (stored_batch_spec convert tdb (m :: batch) d2) as Hb.
    cbv zeta in Hb. destruct Hb as (Hb1 & _ & _ & Hb2 & _ & Hb4 & _).
    destruct (Hb2 _ _ _ Ht02) as (trow0' & Ht03 & Hid03).
    exists srow0', trow0'. repeat split.
    + unfold select_stream in *. rewrite Hb1. exact Hs02.
    + exact Ht03.
    + rewrite Hid03, Hb4, Hw02; [exact Hnothing|].
      (* the two conversations have different rows *)
      intros Heq.
      assert (Hin0 : In trow0 (tbl_topics d2)) by (apply find_some in Ht02; tauto).
      assert (Hrows : trow0 = trow).
      { apply (NoDup_key_eq topic_row_id (tbl_topics d2)); try assumption.
        - apply Ht2. rewrite Hs1. exact Hwt.
        - congruence. }
      assert (Hpred : (topic_stream_id trow0 =? stream_row_id srow0')
                      && String.eqb (topic_name trow0) (topicName topic0) = true).
      { apply find_some in Ht02. tauto. }
      apply andb_true_iff in Hpred. destruct Hpred as [Hp1 Hp2].
      apply Z.eqb_eq in Hp1. apply String.eqb_eq in Hp2.
      assert (Hname : topicName topic0 = topicName topic) by congruence.
      assert (Hsrows : srow0' = srow).
      { apply (NoDup_key_eq stream_row_id (tbl_streams d1)).
        - apply Hs2. exact Hws.
        - apply find_some in Hs0'. tauto.
        - exact Hsin.
        - congruence. }
      assert (Hzid : streamId topic0 = streamId topic).
      { apply find_some in Hs0. destruct Hs0 as [_ Hs0].
        apply andb_true_iff in Hs0. destruct Hs0 as [_ Hs0]. apply Z.eqb_eq in Hs0.
        congruence. }
      destruct Hkey; contradiction.
Qed.

(** [getOrCreateStream] alone unsettles nothing and changes neither the
    conversations nor the messages. *)
Lemma with_stream_keeps_settled sid name topic0 d :
  settled R siteId topic0 d ->
  settled R siteId topic0 (snd (with_stream siteId sid name d)).
Proof.
  intros (srow0 & trow0 & Hs0 & Ht0 & Hnothing).
  pose proof (with_stream_spec siteId sid name d) as Hs.
  cbv zeta in Hs. destruct Hs as (_ & Hsframe & Hs1 & _).
  destruct (Hsframe _ _ _ Hs0) as (srow0' & Hs0' & Hid0' & _).
  exists srow0', trow0. repeat split.
  - exact Hs0'.
  - rewrite Hid0'. unfold select_topic in *. rewrite Hs1. exact Ht0.
  - unfold watermark, select_last_message_id in *. rewrite Hs1. exact Hnothing.
Qed.

End Settled.

(* ===================================================================== *)
(** ** Idempotence *)
(* ===================================================================== *)

Lemma settled_ext R siteId topic d d' :
  tbl_streams d' = tbl_streams d -> tbl_topics d' = tbl_topics d ->
  settled R siteId topic d -> settled R siteId topic d'.
Proof.
  intros Hs Ht (srow & trow & H1 & H2 & H3). exists srow, trow.
  unfold select_stream, select_topic, watermark, select_last_message_id in *.
  rewrite Hs, Ht. auto.
Qed.

Lemma settled_same_key R siteId topic topic0 d :
  streamId topic0 = streamId topic -> topicName topic0 = topicName topic ->
  streamName topic0 = streamName topic ->
  settled R siteId topic d -> settled R siteId topic0 d.
Proof. unfold settled. intros -> -> ->. auto. Qed.

(** The planned conversations carry the stream names of the rows they are
    made from. *)
Lemma add_to_group_named streamMap r gs :
  ur_stream_name r = stream_name_of streamMap (ur_stream_id r) ->
  (forall g, In g gs -> named streamMap g) ->
  forall g, In g (add_to_group r gs) -> named streamMap g.
Proof.
  intros Hr. induction gs as [|g0 gs IH]; intros Hgs g Hg; cbn [add_to_group] in Hg.
  - destruct Hg as [<-|[]]. exact Hr.
  - destruct (_ && _).
    + destruct Hg as [<-|Hg]; [|apply Hgs; right; assumption].
      unfold named; cbn. apply (Hgs g0). left; reflexivity.
    + destruct Hg as [<-|Hg]; [apply Hgs; left; reflexivity|].
      apply IH; [|assumption]. intros; apply Hgs; right; assumption.
Qed.

Lemma grouped_named streamMap rows : forall gs,
  (forall r, In r rows -> ur_stream_name r = stream_name_of streamMap (ur_stream_id r)) ->
  (forall g, In g gs -> named streamMap g) ->
  forall g, In g (fold_left (fun gs r => add_to_group r gs) rows gs) -> named streamMap g.
Proof.
  induction rows as [|r rows IH]; intros gs Hrows Hgs g Hg; cbn [fold_left] in Hg.
  - apply Hgs; assumption.
  - eapply IH; [| |exact Hg].
    + intros; apply Hrows; right; assumption.
    + apply add_to_group_named; [apply Hrows; left; reflexivity | assumption].
Qed.

Lemma unread_rows_named siteId unreads streamMap r :
  In r (unread_rows siteId unreads streamMap) ->
  ur_stream_name r = stream_name_of streamMap (ur_stream_id r).
Proof.
  unfold unread_rows. rewrite in_flat_map. intros (item & _ & Hr).
  apply in_map_iff in Hr. destruct Hr as (i & <- & _). reflexivity.
Qed.

(** When the rows of a response are inserted, they are added after the
    rows that were there. *)
Lemma insert_unread_rows_result rows : forall u u',
  insert_unread_rows rows u = Some u' -> u' = u ++ rows.
Proof.
  unfold insert_unread_rows.
  induction rows as [|r rows IH]; intros u u' H; cbn [fold_left] in H.
  - injection H as <-. rewrite app_nil_r. reflexivity.
  - destruct (existsb _ u).
    + rewrite insert_unread_rows_none in H. discriminate.
    + apply IH in H. rewrite H, <- app_assoc. reflexivity.
Qed.

(** The unread rows of the site, once the opening of the pass has run. *)
Lemma refreshed_unread name url reg d d' :
  refreshed name url reg d = Some d' ->
  let siteId := fst (with_site name url d) in
  let rows := unread_rows siteId (um_streams (fst reg)) (build_streamMap (snd reg)) in
  tbl_unread d' = filter (fun r => negb (ur_site_id r =? siteId)) (tbl_unread d) ++ rows /\
  filter (fun r => ur_site_id r =? siteId) (tbl_unread d') = rows /\
  tbl_sites d' = tbl_sites (snd (with_site name url d)) /\
  tbl_streams d' = tbl_streams d /\ tbl_topics d' = tbl_topics d /\
  tbl_messages d' = tbl_messages d.
Proof.
  unfold refreshed. cbv zeta.
  destruct (with_site_tables name url d) as (Hm & Ht & Hs & Hu).
  destruct (insert_unread_rows _ _) as [u|] eqn:Hins; [|discriminate].
  intros H. injection H as <-. apply insert_unread_rows_result in Hins.
  cbn [tbl_unread set_unread tbl_sites tbl_streams tbl_topics tbl_messages].
  rewrite Hu in Hins. repeat split; try assumption.
  rewrite Hins, filter_app, filter_none, filter_all; [reflexivity | |].
  - intros r Hr. apply unread_rows_site in Hr. apply Z.eqb_eq; assumption.
  - intros r Hr. apply filter_In in Hr. destruct Hr as [_ Hr].
    apply negb_true_iff in Hr. exact Hr.
Qed.

(** Running the opening of the pass again, with the same response, on a
    store that has the site row and the unread rows it left, changes
    nothing. *)
Lemma refreshed_again name url reg d d' d2 srow :
  refreshed name url reg d = Some d' ->
  select_site name d2 = Some srow -> site_id srow = fst (with_site name url d) ->
  tbl_unread d2 = tbl_unread d' ->
  fst (with_site name url d2) = fst (with_site name url d) /\
  refreshed name url reg d2 = Some d2.
Proof.
  intros Hd' Hsel Hid Hu.
  pose proof (refreshed_unread name url reg d d' Hd') as Hr. cbv zeta in Hr.
  destruct Hr as (Hu' & _).
  assert (Hws : with_site name url d2 = (fst (with_site name url d), d2)).
  { unfold with_site at 1. rewrite Hsel. rewrite Hid. reflexivity. }
  split; [rewrite Hws; reflexivity|].
  unfold refreshed in *. cbv zeta in *. rewrite Hws. cbn [fst snd].
  destruct (with_site_tables name url d) as (_ & _ & _ & Hu0). rewrite Hu0 in Hd'.
  set (siteId := fst (with_site name url d)) in *.
  set (rows := unread_rows siteId (um_streams (fst reg)) (build_streamMap (snd reg))) in *.
  set (O := filter (fun r => negb (ur_site_id r =? siteId)) (tbl_unread d)) in *.
  assert (HO : filter (fun r => negb (ur_site_id r =? siteId)) (tbl_unread d2) = O).
  { rewrite Hu, Hu', filter_app. rewrite (filter_none _ rows), app_nil_r.
    - apply filter_all. intros r Hr. apply filter_In in Hr. tauto.
    - intros r Hr. apply unread_rows_site in Hr. apply negb_false_iff, Z.eqb_eq; assumption. }
  rewrite HO. destruct (insert_unread_rows rows O) as [u|] eqn:Hins; [|discriminate].
  injection Hd' as <-. cbn [tbl_unread set_unread] in Hu. rewrite <- Hu.
  f_equal. destruct d2; reflexivity.
Qed.

Lemma new_ZulipClient_pure E name w client w' :
  new_ZulipClient E name w = (Ok client, w') ->
  w' = w /\ forall w2, new_ZulipClient E name w2 = (Ok client, w2).
Proof.
  unfold new_ZulipClient, getSiteCredentials, loadCredentials, bind, ret, throw.
  destruct (credentialsFile E) as [c|]; [|discriminate].
  destruct (lookup_site _ c); [|discriminate].
  intros H. injection H as <- <-. auto.
Qed.

(** The register call against the reference service, when every request
    reaches it. *)
Lemma register_calm E client R w :
  internet E (site (credentials client)) = zulipServer R ->
  net w = [] ->
  register E client w
  = (match rr_result (remote_register R) with
     | success =>
         Ok (match rr_unread_msgs (remote_register R) with
             | Some u => u | None => {| um_streams := [] |} end,
             match rr_subscriptions (remote_register R) with Some s => s | None => [] end)
     | error => Throw (RegisterFailed (rr_msg (remote_register R)))
     end,
     set_sent (sent w ++ [(site (credentials client), POST_register)]) w).
Proof.
  intros Hserver Hn. unfold register.
  rewrite (bind_ok _ _ _ (request_calm E client POST_register w Hn
             (reference_ok E client R Hserver POST_register))).
  rewrite Hserver. cbn [zulipServer json].
  destruct (rr_result (remote_register R)); reflexivity.
Qed.

(** The opening of a pass, when nothing fails. *)
Lemma refreshUnread_calm E name w client reg w1 :
  new_ZulipClient E (Some name) w = (Ok client, w) ->
  register E client w = (Ok reg, w1) ->
  fuse w = None ->
  refreshUnread E name w =
  match refreshed name (siteUrl client) reg (db w) with
  | Some d' => (Ok (client, fst (with_site name (siteUrl client) (db w))), set_db d' w1)
  | None => (Throw SqliteError,
             set_db (set_unread (filter (fun r => negb (ur_site_id r
                                          =? fst (with_site name (siteUrl client) (db w))))
                                  (tbl_unread (snd (with_site name (siteUrl client) (db w)))))
                        (snd (with_site name (siteUrl client) (db w)))) w1)
  end.
Proof.
  intros Hclient Hreg Hf.
  assert (Hw1 : db w1 = db w /\ fuse w1 = None).
  { pose proof (dbpure_register E client w) as H. rewrite Hreg in H. cbn [snd] in H.
    destruct H. split; congruence. }
  destruct Hw1 as [Hd1 Hf1].
  unfold refreshUnread.
  rewrite (bind_ok _ _ _ Hclient), (bind_ok _ _ _ Hreg). cbv zeta.
  rewrite (bind_ok _ _ _ (getOrCreateSite_calm name (siteUrl client) w1 Hf1)).
  rewrite Hd1.
  set (siteId := fst (with_site name (siteUrl client) (db w))).
  set (d1 := snd (with_site name (siteUrl client) (db w))).
  rewrite (bind_ok _ _ _ (clearUnreadMessages_calm siteId (set_db d1 w1) Hf1)).
  cbn [db set_db].
  unfold bind at 1. rewrite insertUnreadMessages_calm by exact Hf1.
  cbn [db set_db tbl_unread set_unread].
  unfold refreshed. cbv zeta. fold siteId d1.
  destruct (insert_unread_rows _ _) as [u|]; reflexivity.
Qed.

Section TwoPasses.

Variable convert : string -> string.
Variable E : Env.
Variable client : ZulipClient.
Variable R : Remote.
Variable name : string.
Variable siteId : Z.
Variable fuel : nat.
Variable streamMap : NumMap.
Hypothesis Hserver : internet E (site (credentials client)) = zulipServer R.
Hypothesis Hremote : well_formed_remote R.

(** The loop of the first pass: every conversation it has gone through is
    settled. *)
Lemma first_pass_loop l : forall done total w r w',
  calm w -> wf_keys (db w) ->
  (forall t, In t (done ++ l) -> named streamMap t) ->
  (forall t, In t done -> settled R siteId t (db w)) ->
  forOf l (syncTopic convert E fuel client name siteId) total w = (Ok r, w') ->
  calm w' /\ wf_keys (db w') /\
  (forall t, In t (done ++ l) -> settled R siteId t (db w')) /\
  tbl_sites (db w') = tbl_sites (db w) /\ tbl_unread (db w') = tbl_unread (db w) /\
  (l <> [] -> fuel <> O).
Proof.
  induction l as [|t l IH]; intros done total w r w' Hcalm Hwf Hnamed Hdone H; cbn [forOf] in H.
  - injection H as _ <-. rewrite app_nil_r.
    split; [exact Hcalm|]. split; [exact Hwf|]. split; [exact Hdone|].
    split; [reflexivity|]. split; [reflexivity|]. congruence.
  - apply bind_inv_ok in H. destruct H as (a & w1 & Ht & H).
    destruct (syncTopic_calm convert E client R Hserver Hremote fuel name siteId total t w a w1
                Hcalm Ht) as (Hcalm1 & Hd1 & Hfuel).
    assert (Hdone1 : forall t0, In t0 (done ++ [t]) -> settled R siteId t0 (db w1)).
    { intros t0 Hin. rewrite Hd1. apply in_app_iff in Hin. destruct Hin as [Hin|[<-|[]]].
      - destruct (Z.eq_dec (streamId t0) (streamId t)) as [Es|Es].
        + destruct (string_dec (topicName t0) (topicName t)) as [En|En].
          * apply (settled_same_key R siteId t t0); [assumption | assumption | |].
            -- rewrite (Hnamed t0) by (apply in_or_app; left; assumption).
               rewrite (Hnamed t) by (apply in_or_app; right; left; reflexivity).
               rewrite Es. reflexivity.
            -- apply synced_topic_settles; assumption.
          * apply synced_topic_keeps_settled; auto.
        + apply synced_topic_keeps_settled; auto.
      - apply synced_topic_settles; assumption. }
    assert (Hwf1 : wf_keys (db w1)) by (rewrite Hd1; apply synced_topic_wf; assumption).
    assert (Hnamed1 : forall t0, In t0 ((done ++ [t]) ++ l) -> named streamMap t0).
    { intros t0 Hin. apply Hnamed. rewrite <- app_assoc in Hin. exact Hin. }
    destruct (IH (done ++ [t]) a w1 r w' Hcalm1 Hwf1 Hnamed1 Hdone1 H)
      as (Hc & Hw & Hs & Hsites & Hunread & _).
    destruct (synced_topic_tables convert R siteId t (db w)) as [Hts Htu].
    split; [exact Hc|]. split; [exact Hw|]. split; [|split; [|split]].
    + intros t0 Hin. apply Hs. rewrite <- app_assoc. exact Hin.
    + rewrite Hsites, Hd1. exact Hts.
    + rewrite Hunread, Hd1. exact Htu.
    + intros _. exact Hfuel.
Qed.

(** The loop of a pass over settled conversations: nothing is inserted and
    no watermark changes. *)
Lemma second_pass_loop l : forall total w,
  calm w -> fuel <> O ->
  (forall t, In t l -> settled R siteId t (db w)) ->
  exists w', forOf l (syncTopic convert E fuel client name siteId) total w = (Ok total, w') /\
             calm w' /\
             tbl_topics (db w') = tbl_topics (db w) /\
             tbl_messages (db w') = tbl_messages (db w) /\
             tbl_sites (db w') = tbl_sites (db w) /\
             tbl_unread (db w') = tbl_unread (db w).
Proof.
  induction l as [|t l IH]; intros total w Hcalm Hfuel Hall; cbn [forOf].
  - exists w. split; [reflexivity|]. split; [exact Hcalm|]. repeat split.
  - destruct (syncTopic_settled convert E client R Hserver fuel name siteId total t w Hcalm Hfuel
                (Hall t (or_introl eq_refl))) as (w1 & Ht & Hcalm1 & Hd1).
    rewrite (bind_ok _ _ _ Ht).
    pose proof (with_stream_spec siteId (streamId t) (streamName t) (db w)) as Hs.
    cbv zeta in Hs. destruct Hs as (_ & _ & Hs1 & Hs2 & Hs3 & Hs4 & _).
    destruct (IH total w1 Hcalm1 Hfuel) as (w' & Hloop & Hc & H1 & H2 & H3 & H4).
    { intros t0 Hin. rewrite Hd1. apply with_stream_keeps_settled. apply Hall. right; assumption. }
    exists w'. rewrite Hd1 in *. split; [exact Hloop|]. split; [exact Hc|].
    repeat split; congruence.
Qed.

End TwoPasses.

(** What the last statement of a pass does. *)
Lemma last_sync_spec t siteId d :
  let d' := after (update_site_last_sync t siteId) d in
  tbl_streams d' = tbl_streams d /\ tbl_topics d' = tbl_topics d /\
  tbl_messages d' = tbl_messages d /\ tbl_unread d' = tbl_unread d /\
  (forall name srow, select_site name d = Some srow ->
     exists srow', select_site name d' = Some srow' /\ site_id srow' = site_id srow).
Proof.
  unfold after, update_site_last_sync. cbv zeta. repeat split.
  intros name srow H. unfold select_site in *. cbn [tbl_sites set_sites].
  rewrite find_map_same by (intros x; destruct (site_id x =? siteId); reflexivity).
  rewrite H. cbn [option_map]. eexists. split; [reflexivity|].
  destruct (site_id srow =? siteId); reflexivity.
Qed.

Lemma finish_calm {A} siteId (a : A) w :
  fuse w = None ->
  (updateSiteLastSync siteId ;; ret a) w
  = (Ok a, set_db (after (update_site_last_sync (clock w) siteId) (db w))
                  (set_clock (clock w + 1) w)).
Proof.
  intros Hf. rewrite (bind_ok _ _ _ (updateSiteLastSync_calm siteId w Hf)). reflexivity.
Qed.

(** [syncSite] after its opening, when no statement fails. *)
Lemma syncSite_after_refresh convert E fuel name w client siteId wR :
  refreshUnread E name w = (Ok (client, siteId), wR) ->
  fuse wR = None ->
  syncSite convert E fuel name w =
  if Z.of_nat (List.length (select_unread_topics siteId (db wR))) =? 0
  then (updateSiteLastSync siteId ;; ret 0) wR
  else (totalNewMessages <- forOf (select_unread_topics siteId (db wR))
                              (syncTopic convert E fuel client name siteId) 0 ;;
        updateSiteLastSync siteId ;; ret totalNewMessages) wR.
Proof.
  intros Hr Hf. unfold syncSite. rewrite (bind_ok _ _ _ Hr). cbv zeta. cbn [fst snd].
  unfold getUnreadTopics. rewrite (bind_ok _ _ _ (query_calm _ wR Hf)).
  destruct (_ =? 0); reflexivity.
Qed.

(** What a completed pass leaves, when nothing fails and the services are
    reference services: the world of a store where every planned
    conversation is settled, and from which the opening of a pass finds
    again the same site, the same response and the same plan. *)
Lemma first_pass_summary convert E remote fuel name w r1 w1 :
  reference_env E remote -> calm w -> wf_keys (db w) ->
  syncSite convert E fuel name w = (Ok r1, w1) ->
  exists client reg dR,
    let R := remote (site (credentials client)) in
    let siteId := fst (with_site name (siteUrl client) (db w)) in
    let plan := select_unread_topics siteId dR in
    (forall w2, new_ZulipClient E (Some name) w2 = (Ok client, w2)) /\
    (forall w2, net w2 = [] ->
       register E client w2
       = (Ok reg, set_sent (sent w2 ++ [(site (credentials client), POST_register)]) w2)) /\
    refreshed name (siteUrl client) reg (db w) = Some dR /\
    calm w1 /\
    (forall t, In t plan -> settled R siteId t (db w1)) /\
    (exists srow, select_site name (db w1) = Some srow /\ site_id srow = siteId) /\
    tbl_unread (db w1) = tbl_unread dR /\
    (plan <> [] -> fuel <> O).
Proof.
  intros Henv [Hf Hn] Hwf Hpass.
  pose proof Hpass as Hdec. unfold syncSite in Hdec.
  apply bind_inv_ok in Hdec. destruct Hdec as (cs & wR & Hrefresh & _).
  pose proof Hrefresh as Hdec. unfold refreshUnread in Hdec.
  apply bind_inv_ok in Hdec. destruct Hdec as (client & w0 & Hclient & Hdec).
  apply new_ZulipClient_pure in Hclient. destruct Hclient as [-> Hclient].
  apply bind_inv_ok in Hdec. destruct Hdec as (reg & wr & Hreg & _).
  destruct (Henv (site (credentials client))) as [Hserver Hremote].
  set (R := remote (site (credentials client))) in *.
  assert (Hregister : forall w2, net w2 = [] ->
            register E client w2
            = (Ok reg, set_sent (sent w2 ++ [(site (credentials client), POST_register)]) w2)).
  { intros w2 Hn2. rewrite (register_calm E client R w Hserver Hn) in Hreg.
    rewrite (register_calm E client R w2 Hserver Hn2).
    destruct (rr_result (remote_register R)); [|discriminate].
    injection Hreg as <- _. reflexivity. }
  clear Hreg wr. pose proof (Hregister w Hn) as Hreg.
  set (wr := set_sent (sent w ++ [(site (credentials client), POST_register)]) w) in *.
  rewrite (refreshUnread_calm E name w client reg wr (Hclient w) Hreg Hf) in Hrefresh.
  destruct (refreshed name (siteUrl client) reg (db w)) as [dR|] eqn:HdR; [|discriminate].
  injection Hrefresh as <- <-.
  set (siteId := fst (with_site name (siteUrl client) (db w))) in *.
  assert (HfR : fuse (set_db dR wr) = None) by exact Hf.
  assert (HrefreshR : refreshUnread E name w = (Ok (client, siteId), set_db dR wr)).
  { rewrite (refreshUnread_calm E name w client reg wr (Hclient w) Hreg Hf), HdR. reflexivity. }
  rewrite (syncSite_after_refresh convert E fuel name w client siteId _ HrefreshR HfR) in Hpass.
  cbn [db set_db] in Hpass.
  pose proof (refreshed_unread name (siteUrl client) reg (db w) dR HdR) as HR.
  cbv zeta in HR. fold siteId in HR. destruct HR as (_ & Hrows & Hsites & Hstreams & Htopics & _).
  destruct (with_site_selected name (siteUrl client) (db w)) as (srow & Hsel & Hsid).
  assert (HselR : select_site name dR = Some srow).
  { unfold select_site in *. rewrite Hsites. exact Hsel. }
  assert (HwfR : wf_keys dR).
  { destruct Hwf as [H1 H2]. split; [rewrite Htopics | rewrite Hstreams]; assumption. }
  assert (Hnamed : forall t, In t ([] ++ select_unread_topics siteId dR) ->
                             named (build_streamMap (snd reg)) t).
  { intros t Ht. cbn [app] in Ht. unfold select_unread_topics in Ht. rewrite Hrows in Ht.
    eapply grouped_named; [| |exact Ht].
    - intros r Hr. eapply unread_rows_named; exact Hr.
    - intros g []. }
  exists client, reg, dR. cbv zeta. fold R siteId.
  split; [exact Hclient|]. split; [exact Hregister|]. split; [exact HdR|].
  destruct (Z.of_nat (List.length (select_unread_topics siteId dR)) =? 0) eqn:Hlen.
  - (* nothing planned *)
    rewrite (finish_calm siteId 0 _ HfR) in Hpass. injection Hpass as _ <-.
    cbn [db set_db].
    pose proof (last_sync_spec (clock wr) siteId dR) as HL. cbv zeta in HL.
    destruct HL as (_ & _ & _ & HLu & HLs).
    assert (Hnil : select_unread_topics siteId dR = []).
    { apply Z.eqb_eq in Hlen. destruct (select_unread_topics siteId dR); [reflexivity|].
      cbn in Hlen. lia. }
    split; [split; [exact Hf | exact Hn]|].
    split; [rewrite Hnil; intros t []|].
    split.
    { destruct (HLs name srow HselR) as (srow' & H1 & H2). exists srow'.
      split; [exact H1 | rewrite H2; exact Hsid]. }
    split; [exact HLu|]. rewrite Hnil. congruence.
  - apply bind_inv_ok in Hpass. destruct Hpass as (total & wL & Hloop & Hfin).
    destruct (first_pass_loop convert E client R name siteId fuel (build_streamMap (snd reg))
                Hserver Hremote (select_unread_topics siteId dR) [] 0 (set_db dR wr) total wL
                (conj Hf Hn) HwfR Hnamed ltac:(intros t []) Hloop)
      as ([HfL HnL] & _ & Hsettled & HsitesL & HunreadL & Hfuel).
    cbn [db set_db app] in *.
    rewrite (finish_calm siteId total wL HfL) in Hfin. injection Hfin as _ <-.
    cbn [db set_db].
    pose proof (last_sync_spec (clock wL) siteId (db wL)) as HL. cbv zeta in HL.
    destruct HL as (HLst & HLt & _ & HLu & HLs).
    split; [split; [exact HfL | exact HnL]|].
    split.
    { intros t Ht. eapply settled_ext; [exact HLst | exact HLt | apply Hsettled; exact Ht]. }
    split.
    { assert (HselL : select_site name (db wL) = Some srow).
      { unfold select_site in *. rewrite HsitesL. exact HselR. }
      destruct (HLs name srow HselL) as (srow' & H1 & H2). exists srow'.
      split; [exact H1 | rewrite H2; exact Hsid]. }
    split; [congruence | exact Hfuel].
Qed.

(** C8.  For reference services of well-formed remotes, a store with
    distinct primary keys and a run where nothing fails: when a pass of
    [syncSite] has completed, a second pass run right after it, with the
    remote data unchanged, completes too; it reports zero new messages,
    and the table of messages and the conversations with their watermarks
    are exactly as the first pass left them. *)
Theorem sync_idempotent :
  forall convert E remote fuel name w r1 w1,
    reference_env E remote -> calm w -> wf_keys (db w) ->
    syncSite convert E fuel name w = (Ok r1, w1) ->
    exists w2,
      syncSite convert E fuel name w1 = (Ok 0, w2) /\
      tbl_messages (db w2) = tbl_messages (db w1) /\
      tbl_topics (db w2) = tbl_topics (db w1) /\
      (forall topicId, watermark (db w2) topicId = watermark (db w1) topicId).
Proof.
  intros convert E remote fuel name w r1 w1 Henv Hcalm Hwf Hpass.
  destruct (first_pass_summary convert E remote fuel name w r1 w1 Henv Hcalm Hwf Hpass)
    as (client & reg & dR & Hsum). cbv zeta in Hsum.
  destruct Hsum as (Hclient & Hregister & HdR & [Hf1 Hn1] & Hsettled & (srow & Hsel & Hsid)
                    & Hunread & Hfuel).
  destruct (Henv (site (credentials client))) as [Hserver Hremote].
  set (R := remote (site (credentials client))) in *.
  set (siteId := fst (with_site name (siteUrl client) (db w))) in *.
  destruct (refreshed_again name (siteUrl client) reg (db w) dR (db w1) srow HdR Hsel Hsid Hunread)
    as [Hsame Hagain].
  set (w1r := set_sent (sent w1 ++ [(site (credentials client), POST_register)]) w1).
  assert (Hrefresh : refreshUnread E name w1 = (Ok (client, siteId), set_db (db w1) w1r)).
  { rewrite (refreshUnread_calm E name w1 client reg w1r (Hclient w1) (Hregister w1 Hn1) Hf1).
    rewrite Hagain, Hsame. reflexivity. }
  assert (Hfr : fuse (set_db (db w1) w1r) = None) by exact Hf1.
  rewrite (syncSite_after_refresh convert E fuel name w1 client siteId _ Hrefresh Hfr).
  cbn [db set_db].
  assert (Hplan : select_unread_topics siteId (db w1) = select_unread_topics siteId dR).
  { unfold select_unread_topics. rewrite Hunread. reflexivity. }
  rewrite Hplan.
  assert (Hwm : forall d', tbl_topics d' = tbl_topics (db w1) ->
                forall topicId, watermark d' topicId = watermark (db w1) topicId).
  { intros d' Ht tid. unfold watermark, select_last_message_id. rewrite Ht. reflexivity. }
  destruct (Z.of_nat (List.length (select_unread_topics siteId dR)) =? 0) eqn:Hlen.
  - rewrite (finish_calm siteId 0 _ Hfr). eexists. split; [reflexivity|].
    cbn [db set_db].
    pose proof (last_sync_spec (clock w1r) siteId (db w1)) as HL. cbv zeta in HL.
    destruct HL as (_ & HLt & HLm & _). split; [exact HLm|]. split; [exact HLt|].
    apply Hwm. exact HLt.
  - assert (Hne : select_unread_topics siteId dR <> []).
    { intros Hnil. rewrite Hnil in Hlen. discriminate. }
    destruct (second_pass_loop convert E client R name siteId fuel Hserver
                (select_unread_topics siteId dR) 0 (set_db (db w1) w1r)
                (conj Hf1 Hn1) (Hfuel Hne) Hsettled)
      as (wL & Hloop & [HfL HnL] & Ht & Hm & _).
    cbn [db set_db] in *.
    rewrite (bind_ok _ _ _ Hloop). rewrite (finish_calm siteId 0 wL HfL).
    eexists. split; [reflexivity|]. cbn [db set_db].
    pose proof (last_sync_spec (clock wL) siteId (db wL)) as HL. cbv zeta in HL.
    destruct HL as (_ & HLt & HLm & _).
    split; [congruence|]. split; [congruence|]. apply Hwm. congruence.
Qed.

Lemma sync_idempotent_witness :
  exists w2,
    syncSite plain (welcomeEnv 5) 3 "alpha" afterFirstSync = (Ok 0, w2) /\
    tbl_messages (db w2) = tbl_messages (db afterFirstSync) /\
    tbl_topics (db w2) = tbl_topics (db afterFirstSync) /\
    (forall topicId, watermark (db w2) topicId = watermark (db afterFirstSync) topicId).
Proof.
  apply (sync_idempotent plain (welcomeEnv 5) (fun _ => welcomeRemote 5) 3 "alpha"
           initialWorld 5 afterFirstSync).
  - intros url. split; [reflexivity | exact welcome_well_formed].
  - split; reflexivity.
  - split; constructor.
  - vm_compute. reflexivity.
Defined.

(** The scenario of the five messages: after a first pass stored the
    messages 1..5, the messages 1..3 are read elsewhere; the second pass
    stores nothing new, leaves the watermark at 5 and replaces the unread
    rows by those of 4 and 5. *)
Example second_pass_after_reading_elsewhere :
  let r := syncSite plain laterEnv 3 "alpha" afterFirstSync in
  stored_ids (db afterFirstSync) 1 = [1; 2; 3; 4; 5] /\
  map ur_message_id (tbl_unread (db afterFirstSync)) = [5] /\
  fst r = Ok 0 /\
  stored_ids (db (snd r)) 1 = [1; 2; 3; 4; 5] /\
  watermark (db (snd r)) 1 = Some 5 /\
  map ur_message_id (tbl_unread (db (snd r))) = [4; 5].
Proof. vm_compute. repeat split; reflexivity. Qed.

(** The stores that passes lead to have distinct primary keys, as the
    schema requires. *)
Lemma wf_keys_reachable convert d : reachable convert d -> wf_keys d.
Proof.
  assert (Hext : forall d d', tbl_topics d' = tbl_topics d -> tbl_streams d' = tbl_streams d ->
                              wf_keys d -> wf_keys d').
  { unfold wf_keys. intros ? ? -> ->. auto. }
  assert (H1 : forall name url, stmt_keeps wf_keys (insert_site name url)).
  { intros name url d0 a d' Hd Hu. inv_stmt Hu. eapply Hext; [| |exact Hd]; reflexivity. }
  assert (H2 : forall siteId, stmt_keeps wf_keys (delete_unread siteId)).
  { intros siteId d0 a d' Hd Hu. inv_stmt Hu. eapply Hext; [| |exact Hd]; reflexivity. }
  assert (H3 : forall siteId msgId sid sname topic,
             stmt_keeps wf_keys (insert_unread siteId msgId sid sname topic)).
  { intros siteId msgId sid sname topic d0 a d' Hd Hu. inv_stmt Hu.
    eapply Hext; [| |exact Hd]; reflexivity. }
  assert (H4 : forall t siteId, stmt_keeps wf_keys (update_site_last_sync t siteId)).
  { intros t siteId d0 a d' Hd Hu. inv_stmt Hu. eapply Hext; [| |exact Hd]; reflexivity. }
  assert (H5 : forall s rowId, stmt_keeps wf_keys (update_stream_name s rowId)).
  { intros s rowId d0 a d' [Ht Hs] Hu. inv_stmt Hu. split; [exact Ht|].
    cbn [tbl_streams set_streams]. rewrite map_map.
    erewrite map_ext; [exact Hs|]. intros x. cbn. destruct (_ =? rowId); reflexivity. }
  assert (H6 : forall siteId sid s, stmt_keeps wf_keys (insert_stream siteId sid s)).
  { intros siteId sid s d0 a d' [Ht Hs] Hu. inv_stmt Hu. split; [exact Ht|].
    cbn [tbl_streams set_streams]. apply NoDup_append_fresh; [assumption | reflexivity]. }
  assert (H7 : forall sid s, stmt_keeps wf_keys (insert_topic sid s)).
  { intros sid s d0 a d' [Ht Hs] Hu. inv_stmt Hu. split; [|exact Hs].
    cbn [tbl_topics set_topics]. apply NoDup_append_fresh; [assumption | reflexivity]. }
  assert (H8 : forall tid d0 msg, wf_keys d0 -> wf_keys (insert_row convert tid d0 msg)).
  { intros tid d0 msg Hd. destruct (insert_row_tables convert tid d0 msg) as (_ & Hs & Ht & _).
    eapply Hext; [exact Ht | exact Hs | exact Hd]. }
  assert (H9 : forall x tid, stmt_keeps wf_keys (update_last_message_id x tid)).
  { intros x tid d0 a d' [Ht Hs] Hu. inv_stmt Hu. split; [|exact Hs].
    cbn [tbl_topics set_topics]. rewrite map_map.
    erewrite map_ext; [exact Ht|]. intros r. cbn. destruct (_ =? tid); reflexivity. }
  induction 1 as [|E fuel name w _ IH|E name w _ IH].
  - split; constructor.
  - pose proof (@syncSite_keeps wf_keys convert E fuel name (H1 name) H2 H3 H4 H5 H6 H7 H8 H9 w IH)
      as H.
    destruct (syncSite convert E fuel name w) as [[a|e] w']; exact H.
  - pose proof (@showUnreadForSite_keeps wf_keys E name (H1 name) H2 H3 w IH) as H.
    destruct (showUnreadForSite E name w) as [[a|e] w']; exact H.
Qed.

(* ===================================================================== *)
(** * Further properties of the store ([src/storage/database.ts]) *)
(* ===================================================================== *)

(** ** What a statement that returned has done *)

Lemma query_ok {A} (q : DB -> A) w a w' :
  query q w = (Ok a, w') -> a = q (db w) /\ db w' = db w.
Proof.
  intros H. destruct (query_cases q w) as [(e & w1 & H1 & _)|(w1 & H1 & Hd)];
    rewrite H1 in H; [discriminate|].
  injection H as <- <-. auto.
Qed.

Lemma run_ok {A} (u : DB -> Result (A * DB)) w a w' :
  run u w = (Ok a, w') -> u (db w) = Ok (a, db w').
Proof.
  intros H. destruct (run_cases u w) as [(e & w1 & H1 & _)|(a1 & d & w1 & H1 & Hu & Hd)];
    rewrite H1 in H; [discriminate|].
  injection H as <- <-. rewrite Hd. exact Hu.
Qed.

(** The three [getOrCreate] functions, when they return, have done what
    [with_site], [with_stream] and [with_topic] say. *)
Lemma getOrCreateSite_ok name url w i w' :
  getOrCreateSite name url w = (Ok i, w') ->
  i = fst (with_site name url (db w)) /\ db w' = snd (with_site name url (db w)).
Proof.
  unfold getOrCreateSite, with_site. intros H.
  apply bind_inv_ok in H. destruct H as (existing & w1 & Hq & H).
  apply query_ok in Hq. destruct Hq as [-> Hd1].
  destruct (select_site name (db w)) as [r|].
  - injection H as <- <-. auto.
  - apply run_ok in H. rewrite Hd1 in H. injection H as <- <-. auto.
Qed.

Lemma getOrCreateStream_ok siteId sid name w i w' :
  getOrCreateStream siteId sid name w = (Ok i, w') ->
  i = fst (with_stream siteId sid name (db w)) /\
  db w' = snd (with_stream siteId sid name (db w)).
Proof.
  unfold getOrCreateStream, with_stream. intros H.
  apply bind_inv_ok in H. destruct H as (existing & w1 & Hq & H).
  apply query_ok in Hq. destruct Hq as [-> Hd1].
  destruct (select_stream siteId sid (db w)) as [r|].
  - apply bind_inv_ok in H. destruct H as ([] & w2 & Hr & H).
    injection H as <- <-. apply run_ok in Hr. rewrite Hd1 in Hr.
    unfold after. rewrite Hr. auto.
  - apply run_ok in H. rewrite Hd1 in H. unfold after. rewrite H.
    injection H as <- _. auto.
Qed.

Lemma getOrCreateTopic_ok streamDbId name w i w' :
  getOrCreateTopic streamDbId name w = (Ok i, w') ->
  i = fst (with_topic streamDbId name (db w)) /\
  db w' = snd (with_topic streamDbId name (db w)).
Proof.
  unfold getOrCreateTopic, with_topic. intros H.
  apply bind_inv_ok in H. destruct H as (existing & w1 & Hq & H).
  apply query_ok in Hq. destruct Hq as [-> Hd1].
  destruct (select_topic streamDbId name (db w)) as [r|].
  - injection H as <- <-. auto.
  - apply run_ok in H. rewrite Hd1 in H. unfold after. rewrite H.
    injection H as <- _. auto.
Qed.

Lemma with_site_id_url name url url' d :
  fst (with_site name url d) = fst (with_site name url' d).
Proof. unfold with_site. destruct (select_site name d); reflexivity. Qed.

(** ** Sites *)

(** X1.  [getOrCreateSite] gives a site one row for good.  When it returns
    the identifier [i]: the row of the site is found under its name, by
    [getSiteId] too; if the site had a row, that row is the one returned and
    the store is untouched, so the URL recorded for an existing site is never
    refreshed; if it had none, one row is added after the others, with the
    name, the URL, no last-sync time and an identifier above all the others;
    and every later call for this name, with whatever URL, returns [i] and
    changes nothing. *)
Theorem getOrCreateSite_round_trip :
  forall name url w i w',
    getOrCreateSite name url w = (Ok i, w') ->
    (exists r, select_site name (db w') = Some r /\ site_id r = i) /\
    (forall r0, select_site name (db w) = Some r0 -> i = site_id r0 /\ db w' = db w) /\
    (select_site name (db w) = None ->
       db w' = set_sites (tbl_sites (db w) ++
                 [{| site_id := i; site_name := name; site_url := url;
                     site_last_sync := None |}]) (db w) /\
       forall r, In r (tbl_sites (db w)) -> site_id r < i) /\
    (forall url' w2, db w2 = db w' -> fuse w2 = None ->
       getSiteId name w2 = (Ok (Some i), w2) /\
       getOrCreateSite name url' w2 = (Ok i, w2)).
Proof.
  intros name url w i w' H. apply getOrCreateSite_ok in H. destruct H as [Hi Hd].
  destruct (with_site_selected name url (db w)) as (r & Hsel & Hr).
  rewrite <- Hd in Hsel. rewrite <- Hi in Hr.
  split; [exists r; auto|]. split; [|split].
  - intros r0 H0. unfold with_site in Hi, Hd. rewrite H0 in Hi, Hd. auto.
  - intros H0. unfold with_site in Hi, Hd. rewrite H0 in Hi, Hd. cbn [fst snd] in Hi, Hd.
    rewrite Hd, Hi. split; [reflexivity|].
    intros r1 Hr1. apply next_id_fresh. exact Hr1.
  - intros url' w2 Hd2 Hf. split.
    + unfold getSiteId. rewrite (query_calm _ w2 Hf). rewrite Hd2, Hsel, Hr. reflexivity.
    + rewrite (getOrCreateSite_calm name url' w2 Hf). unfold with_site.
      rewrite Hd2, Hsel, Hr. cbn [fst snd]. rewrite <- Hd2, set_db_same. reflexivity.
Qed.

Lemma getOrCreateSite_round_trip_witness :
  (exists r, select_site "alpha" (db (snd (getOrCreateSite "alpha" "https://alpha.example" initialWorld)))
             = Some r /\ site_id r = 1) /\
  (forall r0, select_site "alpha" (db initialWorld) = Some r0 ->
     1 = site_id r0 /\
     db (snd (getOrCreateSite "alpha" "https://alpha.example" initialWorld)) = db initialWorld) /\
  (select_site "alpha" (db initialWorld) = None ->
     db (snd (getOrCreateSite "alpha" "https://alpha.example" initialWorld))
     = set_sites (tbl_sites (db initialWorld) ++
         [{| site_id := 1; site_name := "alpha"; site_url := "https://alpha.example";
             site_last_sync := None |}]) (db initialWorld) /\
     forall r, In r (tbl_sites (db initialWorld)) -> site_id r < 1) /\
  (forall url' w2,
     db w2 = db (snd (getOrCreateSite "alpha" "https://alpha.example" initialWorld)) ->
     fuse w2 = None ->
     getSiteId "alpha" w2 = (Ok (Some 1), w2) /\
     getOrCreateSite "alpha" url' w2 = (Ok 1, w2)).
Proof.
  apply (getOrCreateSite_round_trip "alpha" "https://alpha.example" initialWorld 1
           (snd (getOrCreateSite "alpha" "https://alpha.example" initialWorld))).
  reflexivity.
Defined.

(** ** Streams *)




(** ** Conversations and their watermarks *)



Lemma set_topics_same d : set_topics (tbl_topics d) d = d.
Proof. destruct d; reflexivity. Qed.

(** X4.  The watermark written is the watermark read.  When
    [updateTopicLastMessageId] returns: if the conversation has a row,
    [getTopicLastMessageId] then returns the identifier just written; if it
    has none, the statement updates no row, the store is as it was and there
    is still no watermark to read; the watermark of every other conversation
    and the other tables are untouched. *)
Theorem watermark_round_trip :
  forall topicId messageId w w',
    updateTopicLastMessageId topicId messageId w = (Ok tt, w') ->
    (has_topic (db w) topicId ->
       forall w2, db w2 = db w' -> fuse w2 = None ->
         getTopicLastMessageId topicId w2 = (Ok (Some messageId), w2)) /\
    (~ has_topic (db w) topicId ->
       db w' = db w /\
       forall w2, db w2 = db w' -> fuse w2 = None ->
         getTopicLastMessageId topicId w2 = (Ok None, w2)) /\
    (forall other, other <> topicId -> watermark (db w') other = watermark (db w) other) /\
    tbl_sites (db w') = tbl_sites (db w) /\ tbl_streams (db w') = tbl_streams (db w) /\
    tbl_messages (db w') = tbl_messages (db w) /\ tbl_unread (db w') = tbl_unread (db w).
Proof.
  intros topicId messageId w w' H. unfold updateTopicLastMessageId in H. apply run_ok in H.
  split; [|split; [|split]].
  - intros Hrow w2 Hd2 Hf. unfold getTopicLastMessageId. rewrite (query_calm _ w2 Hf).
    rewrite Hd2. fold (watermark (db w') topicId).
    rewrite (@watermark_update_same messageId topicId (db w) Hrow tt (db w') H). reflexivity.
  - intros Hrow.
    assert (Hsame : db w' = db w).
    { injection H as H. rewrite <- H.
      assert (Hmap : map (fun r => if topic_row_id r =? topicId
                          then {| topic_row_id := topic_row_id r;
                                  topic_stream_id := topic_stream_id r;
                                  topic_name := topic_name r;
                                  last_message_id := Some messageId |}
                          else r) (tbl_topics (db w)) = tbl_topics (db w)).
      { rewrite <- (map_id (tbl_topics (db w))) at 2. apply map_ext_in.
        intros r Hr. destruct (topic_row_id r =? topicId) eqn:Er; [|reflexivity].
        exfalso. apply Hrow. apply Z.eqb_eq in Er. rewrite <- Er.
        apply (in_map topic_row_id). exact Hr. }
      rewrite Hmap. apply set_topics_same. }
    split; [exact Hsame|]. intros w2 Hd2 Hf.
    unfold getTopicLastMessageId. rewrite (query_calm _ w2 Hf). rewrite Hd2, Hsame.
    unfold select_last_message_id.
    destruct (find (fun r => topic_row_id r =? topicId) (tbl_topics (db w))) as [r|] eqn:Hfind;
      [|reflexivity].
    exfalso. apply Hrow. apply find_some in Hfind. destruct Hfind as [Hin Hb].
    apply Z.eqb_eq in Hb. rewrite <- Hb. apply in_map. exact Hin.
  - intros other Hne. exact (@watermark_update_other messageId topicId (db w) other Hne tt (db w') H).
  - exact (@update_last_message_id_tables messageId topicId (db w) tt (db w') H).
Qed.

Lemma watermark_round_trip_witness :
  let w := set_db oneTopicDB initialWorld in
  let w' := snd (updateTopicLastMessageId 1 42 w) in
  (has_topic (db w) 1 ->
     forall w2, db w2 = db w' -> fuse w2 = None ->
       getTopicLastMessageId 1 w2 = (Ok (Some 42), w2)) /\
  (~ has_topic (db w) 1 ->
     db w' = db w /\
     forall w2, db w2 = db w' -> fuse w2 = None -> getTopicLastMessageId 1 w2 = (Ok None, w2)) /\
  (forall other, other <> 1 -> watermark (db w') other = watermark (db w) other) /\
  tbl_sites (db w') = tbl_sites (db w) /\ tbl_streams (db w') = tbl_streams (db w) /\
  tbl_messages (db w') = tbl_messages (db w) /\ tbl_unread (db w') = tbl_unread (db w).
Proof.
  cbv zeta.
  apply (watermark_round_trip 1 42 (set_db oneTopicDB initialWorld)
           (snd (updateTopicLastMessageId 1 42 (set_db oneTopicDB initialWorld)))).
  reflexivity.
Defined.

(* ===================================================================== *)
(** * Further properties of a pass ([src/cli/sync.ts]) *)
(* ===================================================================== *)

(** ** Stored messages are never altered *)

Lemma insert_row_appends convert tid d msg :
  exists extra, tbl_messages (insert_row convert tid d msg) = tbl_messages d ++ extra /\
                added d (insert_row convert tid d msg) = Z.of_nat (List.length extra).
Proof.
  destruct (insert_row_cases convert tid d msg) as [[_ ->]|[_ (r & _ & _ & ->)]].
  - exists []. rewrite app_nil_r. unfold added. cbn. split; [reflexivity | lia].
  - exists [r]. unfold added. cbn. rewrite length_app. cbn. split; [reflexivity | lia].
Qed.

Lemma syncSite_appends convert E fuel name w :
  exists extra,
    tbl_messages (db (snd (syncSite convert E fuel name w))) = tbl_messages (db w) ++ extra.
Proof.
  set (I := fun d => exists extra, tbl_messages d = tbl_messages (db w) ++ extra).
  assert (Hm : forall d d', tbl_messages d' = tbl_messages d -> I d -> I d').
  { unfold I. intros d d' ->. auto. }
  destruct (keeps_of_messages I Hm) as (H1 & H2 & H3 & H4 & H5 & H6 & H7 & H8).
  assert (H9 : forall tid d msg, I d -> I (insert_row convert tid d msg)).
  { intros tid d msg [extra Hd]. destruct (insert_row_appends convert tid d msg) as (e & He & _).
    exists (extra ++ e). rewrite He, Hd, app_assoc. reflexivity. }
  assert (H0 : I (db w)) by (exists []; rewrite app_nil_r; reflexivity).
  pose proof (@syncSite_keeps I convert E fuel name (H1 name) H2 H3 H4 H5 H6 H7 H9 H8 w H0) as H.
  destruct (syncSite convert E fuel name w) as [[a|e] w']; exact H.
Qed.

(** X5.  No command alters or deletes a stored message.  However a pass of
    [syncSite] ends, and whatever the service answered, the table of
    messages is the table it started from, followed by the rows it added:
    every stored row is still there, unchanged and in place, so a message
    edited or deleted on the server after it was stored keeps its stored
    copy.  A run of [showUnreadForSite] leaves the table as it was. *)
Theorem stored_messages_never_altered :
  forall convert E fuel name w,
    (exists extra,
       tbl_messages (db (snd (syncSite convert E fuel name w))) = tbl_messages (db w) ++ extra) /\
    (forall r, In r (tbl_messages (db w)) ->
       In r (tbl_messages (db (snd (syncSite convert E fuel name w))))) /\
    tbl_messages (db (snd (showUnreadForSite E name w))) = tbl_messages (db w).
Proof.
  intros convert E fuel name w.
  destruct (syncSite_appends convert E fuel name w) as [extra He].
  split; [exists extra; exact He|]. split.
  - intros r Hr. rewrite He. apply in_or_app. left. exact Hr.
  - set (I := fun d => tbl_messages d = tbl_messages (db w)).
    assert (Hm : forall d d', tbl_messages d' = tbl_messages d -> I d -> I d').
    { unfold I. intros d d' ->. auto. }
    destruct (keeps_of_messages I Hm) as (H1 & H2 & H3 & _).
    pose proof (@showUnreadForSite_keeps I E name (H1 name) H2 H3 w eq_refl) as H.
    destruct (showUnreadForSite E name w) as [[a|e] w']; exact H.
Qed.

(** ** The count a pass reports *)

Section Count.

Variable convert : string -> string.
Variable E : Env.
Variable d0 : DB.

Lemma counted_ext n d d' : tbl_messages d' = tbl_messages d -> counted d0 n d -> counted d0 n d'.
Proof. unfold counted, added. intros ->. auto. Qed.

Lemma storeBatch_counted n tid batch :
  dhoare (counted d0 n) (storeBatch convert tid batch)
         (fun inserted d => counted d0 (n + inserted) d) (fun _ => True).
Proof.
  intros w Hw. unfold storeBatch.
  destruct (insertMessages_cases convert tid batch w) as [(e & w1 & H1 & _)|(w1 & H1 & Hd1 & _)].
  - rewrite (bind_throw _ _ _ H1). exact I.
  - rewrite (bind_ok _ _ _ H1). unfold updateTopicLastMessageId.
    destruct (run_cases (update_last_message_id (Math_max (map zm_id batch)) tid) w1)
      as [(e & w2 & H2 & _)|(a & d & w2 & H2 & Hu & Hd2)].
    + rewrite (bind_throw _ _ _ H2). exact I.
    + rewrite (bind_ok _ _ _ H2). cbn.
      apply (counted_ext _ (db w1)).
      * rewrite Hd2. injection Hu as _ <-. reflexivity.
      * unfold counted in *. rewrite <- Hw, Hd1. symmetry. apply added_trans.
Qed.

Lemma syncTopic_counted fuel client name siteId total topic :
  dhoare (counted d0 total) (syncTopic convert E fuel client name siteId total topic)
         (fun r d => counted d0 r d) (fun _ => True).
Proof.
  destruct (keeps_of_messages (counted d0 total) (counted_ext total))
    as (H1 & H2 & H3 & H4 & H5 & H6 & H7 & H8).
  assert (Hweak : forall A (m : M A),
            dhoare (counted d0 total) m (fun _ => counted d0 total) (counted d0 total) ->
            dhoare (counted d0 total) m (fun _ => counted d0 total) (fun _ => True)).
  { intros A m H. eapply dh_conseq; [exact H | auto | auto | auto]. }
  unfold syncTopic.
  eapply dh_bind with (Q1 := fun _ => counted d0 total).
  { apply Hweak. apply (@getOrCreateStream_keeps (counted d0 total)); [apply H5 | apply H6]. }
  intros streamDbId.
  eapply dh_bind with (Q1 := fun _ => counted d0 total).
  { eapply dh_conseq; [apply (@getOrCreateTopic_keeps (counted d0 total)), H7 | auto | | auto].
    intros a d [Hd _]; exact Hd. }
  intros topicDbId.
  eapply dh_bind with (Q1 := fun _ => counted d0 total).
  { apply Hweak. apply (@dh_query_keeps (counted d0 total)). }
  intros lastMessageId.
  eapply dh_bind with (Q1 := fun _ => counted d0 total).
  { apply Hweak. apply (@dh_dbpure_keeps (counted d0 total)), dbpure_getTopicMessages. }
  intros messages.
  destruct (0 <? Z.of_nat (List.length messages)); [|apply dh_ret; auto].
  eapply dh_bind; [apply storeBatch_counted|]. intros inserted.
  eapply dh_bind with (Q1 := fun _ => counted d0 (total + inserted)).
  { eapply dh_conseq; [apply (@dh_query_keeps (counted d0 (total + inserted))) | auto | auto | auto]. }
  intros stored.
  eapply dh_bind with (Q1 := fun _ => counted d0 (total + inserted)).
  { eapply dh_conseq; [apply (@dh_dbpure_keeps (counted d0 (total + inserted))),
                         dbpure_exportTopicToJson | auto | auto | auto]. }
  intros ?. apply dh_ret; auto.
Qed.

Lemma syncSite_counted fuel name :
  dhoare (counted d0 0) (syncSite convert E fuel name) (fun r d => counted d0 r d) (fun _ => True).
Proof.
  destruct (keeps_of_messages (counted d0 0) (counted_ext 0))
    as (H1 & H2 & H3 & H4 & H5 & H6 & H7 & H8).
  assert (Hweak : forall n A (m : M A),
            dhoare (counted d0 n) m (fun _ => counted d0 n) (counted d0 n) ->
            dhoare (counted d0 n) m (fun _ => counted d0 n) (fun _ => True)).
  { intros n A m H. eapply dh_conseq; [exact H | auto | auto | auto]. }
  unfold syncSite.
  eapply dh_bind with (Q1 := fun _ => counted d0 0).
  { apply Hweak. apply (@refreshUnread_keeps (counted d0 0)); [intros; apply H1 | apply H2 | apply H3]. }
  intros cs. cbv zeta.
  eapply dh_bind with (Q1 := fun _ => counted d0 0).
  { apply Hweak. apply (@dh_query_keeps (counted d0 0)). }
  intros unreadTopics.
  destruct (Z.of_nat (List.length unreadTopics) =? 0).
  - eapply dh_bind with (Q1 := fun _ => counted d0 0).
    { apply Hweak. apply (@updateSiteLastSync_keeps (counted d0 0)); intros; apply H4. }
    intros ?. apply dh_ret; auto.
  - eapply dh_bind with (Q1 := fun r => counted d0 r).
    + apply (@dh_forOf _ _ (fun r => counted d0 r) (fun _ => True)).
      intros acc x _. apply syncTopic_counted.
    + intros total.
      destruct (keeps_of_messages (counted d0 total) (counted_ext total))
        as (_ & _ & _ & H4' & _).
      eapply dh_bind with (Q1 := fun _ => counted d0 total).
      { apply Hweak. apply (@updateSiteLastSync_keeps (counted d0 total)); intros; apply H4'. }
      intros ?. apply dh_ret; auto.
Qed.

End Count.

(** X6.  The count a pass reports is the number of rows it added.  When
    [syncSite] returns [n] (the number of its last line, ["Sync complete. n
    new messages stored."]), the table of messages has exactly [n] rows more
    than before the pass: messages that were fetched again and ignored by the
    insertion are not counted. *)
Theorem sync_reports_rows_added :
  forall convert E fuel name w n w',
    syncSite convert E fuel name w = (Ok n, w') ->
    n = added (db w) (db w') /\
    exists extra, tbl_messages (db w') = tbl_messages (db w) ++ extra /\
                  n = Z.of_nat (List.length extra).
Proof.
  intros convert E fuel name w n w' H.
  assert (Hn : n = added (db w) (db w')).
  { pose proof (syncSite_counted convert E (db w) fuel name w) as Hc. rewrite H in Hc.
    symmetry. apply Hc. unfold counted, added. lia. }
  split; [exact Hn|].
  destruct (syncSite_appends convert E fuel name w) as [extra He].
  rewrite H in He. cbn [snd] in He. exists extra. split; [exact He|].
  rewrite Hn. unfold added. rewrite He, length_app. lia.
Qed.

Lemma sync_reports_rows_added_witness :
  5 = added (db initialWorld) (db afterFirstSync) /\
  exists extra, tbl_messages (db afterFirstSync) = tbl_messages (db initialWorld) ++ extra /\
                5 = Z.of_nat (List.length extra).
Proof.
  apply (sync_reports_rows_added plain (welcomeEnv 5) 3 "alpha" initialWorld 5 afterFirstSync).
  vm_compute. reflexivity.
Defined.

(* ===================================================================== *)
(** * What the commands do to the world outside the store *)
(* ===================================================================== *)

Section Steps.

Variable R : World -> World -> Prop.
Variable allowed : string -> Prop.

Hypothesis R_refl : forall w, R w w.
Hypothesis R_trans : forall a b c, R a b -> R b c -> R a c.
Hypothesis R_db : forall w d, R w (set_db d w).
Hypothesis R_fuse : forall w f, R w (set_fuse f w).
Hypothesis R_clock : forall w, R w (set_clock (clock w + 1) w).
Hypothesis R_sent : forall w url r, allowed url -> R w (set_sent (sent w ++ [(url, r)]) w).
Hypothesis R_net : forall w rest, R w (set_net rest w).
Hypothesis R_exported : forall w f, R w (set_exported (exported w ++ [f]) w).

Lemma makes_ret {A} (a : A) : makes R (ret a).
Proof. intros w. apply R_refl. Qed.

Lemma makes_throw {A} e : makes R (@throw A e).
Proof. intros w. apply R_refl. Qed.

Lemma makes_bind {A B} (m : M A) (f : A -> M B) :
  makes R m -> (forall a, makes R (f a)) -> makes R (bind m f).
Proof.
  intros Hm Hf w. specialize (Hm w). unfold bind.
  destruct (m w) as [[a|e] w1]; cbn [snd] in *; [|exact Hm].
  eapply R_trans; [exact Hm | apply Hf].
Qed.

(** The same, when the rest needs to know what [m] returns. *)
Lemma makes_bind_returns {A B} (m : M A) (f : A -> M B) (phi : A -> Prop) :
  makes R m -> returns m phi -> (forall a, phi a -> makes R (f a)) -> makes R (bind m f).
Proof.
  intros Hm Hr Hf w. specialize (Hm w). specialize (Hr w). unfold bind.
  destruct (m w) as [[a|e] w1]; cbn [snd] in *; [|exact Hm].
  eapply R_trans; [exact Hm | apply Hf]. eapply Hr. reflexivity.
Qed.

Lemma makes_forOf {X A} (xs : list X) (body : A -> X -> M A) :
  (forall acc x, makes R (body acc x)) -> forall acc, makes R (forOf xs body acc).
Proof.
  intros Hb. induction xs as [|x xs IH]; intros acc; cbn [forOf].
  - apply makes_ret.
  - apply makes_bind; [apply Hb | exact IH].
Qed.

Lemma makes_tick : makes R tick.
Proof. intros w. unfold tick. destruct (fuse w) as [[|k]|]; cbn [snd]; auto. Qed.

Lemma makes_query {A} (q : DB -> A) : makes R (query q).
Proof. unfold query. apply makes_bind; [apply makes_tick|]. intros _ w. apply R_refl. Qed.

Lemma makes_run {A} (u : DB -> Result (A * DB)) : makes R (run u).
Proof.
  unfold run. apply makes_bind; [apply makes_tick|]. intros _ w.
  destruct (u (db w)) as [[a d]|e]; cbn [snd]; auto.
Qed.

Lemma makes_transaction {A} (m : M A) : makes R m -> makes R (transaction m).
Proof.
  intros Hm w. specialize (Hm w). unfold transaction.
  destruct (m w) as [[a|e] w1]; cbn [snd] in *; [exact Hm|].
  eapply R_trans; [exact Hm | apply R_db].
Qed.

Lemma makes_now : makes R now.
Proof. intros w. apply R_clock. Qed.

Variable E : Env.

Lemma makes_fetch url r : allowed url -> makes R (fetch E url r).
Proof.
  intros Hu w. unfold fetch. cbn [net set_sent].
  destruct (net w) as [|[[|st tx]|] rest]; cbn [snd];
    try (eapply R_trans; [apply R_sent; exact Hu | apply R_net]).
  apply R_sent; exact Hu.
Qed.

Lemma makes_request client r : allowed (site (credentials client)) -> makes R (request E client r).
Proof.
  intros Hu. unfold request. apply makes_bind; [apply makes_fetch; exact Hu|].
  intros resp. destruct (negb (response_ok resp)); [apply makes_throw | apply makes_ret].
Qed.

Lemma makes_register client : allowed (site (credentials client)) -> makes R (register E client).
Proof.
  intros Hu. unfold register. apply makes_bind; [apply makes_request; exact Hu|].
  intros [r|r]; [|apply makes_throw].
  destruct (rr_result r); [apply makes_ret | apply makes_throw].
Qed.

Lemma makes_getTopicMessages fuel client s t afterId :
  allowed (site (credentials client)) -> makes R (getTopicMessages E fuel client s t afterId).
Proof.
  intros Hu. unfold getTopicMessages.
  generalize (first_anchor afterId) as anchor. generalize (@nil ZulipMessage) as acc.
  induction fuel as [|fuel IH]; intros acc anchor; cbn [getTopicMessages_loop].
  - apply makes_throw.
  - apply makes_bind; [apply makes_request; exact Hu|].
    intros [r|r]; [apply makes_throw|].
    destruct (gm_result r); [|apply makes_throw]. cbv zeta.
    destruct (_ =? 0); [apply makes_ret|].
    destruct (_ || _); [apply makes_ret | apply IH].
Qed.

Lemma makes_new_ZulipClient name : makes R (new_ZulipClient E name).
Proof.
  unfold new_ZulipClient, getSiteCredentials, loadCredentials.
  apply makes_bind; [|intros; apply makes_ret].
  apply makes_bind; [destruct (credentialsFile E); [apply makes_ret | apply makes_throw]|].
  intros c. destruct (lookup_site _ c); [apply makes_ret | apply makes_throw].
Qed.

Lemma makes_getOrCreateSite name url : makes R (getOrCreateSite name url).
Proof.
  unfold getOrCreateSite. apply makes_bind; [apply makes_query|].
  intros [r|]; [apply makes_ret | apply makes_run].
Qed.

Lemma makes_getOrCreateStream siteId sid name : makes R (getOrCreateStream siteId sid name).
Proof.
  unfold getOrCreateStream. apply makes_bind; [apply makes_query|].
  intros [r|]; [|apply makes_run].
  apply makes_bind; [apply makes_run | intros; apply makes_ret].
Qed.

Lemma makes_getOrCreateTopic sdb name : makes R (getOrCreateTopic sdb name).
Proof.
  unfold getOrCreateTopic. apply makes_bind; [apply makes_query|].
  intros [r|]; [apply makes_ret | apply makes_run].
Qed.

Lemma makes_insertMessages convert tid batch : makes R (insertMessages convert tid batch).
Proof.
  unfold insertMessages. apply makes_transaction. apply makes_forOf.
  intros acc msg. unfold insertMany_body. cbv zeta.
  apply makes_bind; [apply makes_run|].
  intros changes. destruct (0 <? changes); apply makes_ret.
Qed.

Lemma makes_insertUnreadMessages siteId unreads streamMap :
  makes R (insertUnreadMessages siteId unreads streamMap).
Proof.
  unfold insertUnreadMessages. apply makes_transaction. apply makes_forOf.
  intros [] item. cbv zeta. apply makes_forOf. intros [] msgId. apply makes_run.
Qed.

Lemma makes_updateSiteLastSync siteId : makes R (updateSiteLastSync siteId).
Proof.
  unfold updateSiteLastSync. apply makes_bind; [apply makes_now | intros; apply makes_run].
Qed.

Lemma makes_exportTopicToJson a b c l u : makes R (exportTopicToJson a b c l u).
Proof.
  unfold exportTopicToJson. apply makes_bind; [apply makes_now|].
  intros t w. cbn [snd]. apply R_exported.
Qed.

Lemma makes_storeBatch convert tid batch : makes R (storeBatch convert tid batch).
Proof.
  unfold storeBatch. apply makes_bind; [apply makes_insertMessages|]. intros inserted.
  cbv zeta. apply makes_bind; [apply makes_run | intros; apply makes_ret].
Qed.

Lemma makes_syncTopic convert fuel client name siteId total topic :
  allowed (site (credentials client)) ->
  makes R (syncTopic convert E fuel client name siteId total topic).
Proof.
  intros Hu. unfold syncTopic.
  apply makes_bind; [apply makes_getOrCreateStream|]. intros sdb.
  apply makes_bind; [apply makes_getOrCreateTopic|]. intros tdb.
  apply makes_bind; [apply makes_query|]. intros lastMessageId.
  apply makes_bind; [apply makes_getTopicMessages; exact Hu|]. intros messages.
  destruct (0 <? Z.of_nat (List.length messages)); [|apply makes_ret].
  apply makes_bind; [apply makes_storeBatch|]. intros inserted.
  apply makes_bind; [apply makes_query|]. intros stored.
  apply makes_bind; [apply makes_exportTopicToJson | intros; apply makes_ret].
Qed.

Variable name : string.
Hypothesis Hclient :
  returns (new_ZulipClient E (Some name)) (fun client => allowed (site (credentials client))).

Lemma makes_refreshUnread : makes R (refreshUnread E name).
Proof.
  unfold refreshUnread.
  eapply makes_bind_returns; [apply makes_new_ZulipClient | exact Hclient|].
  intros client Hu.
  apply makes_bind; [apply makes_register; exact Hu|]. intros reg. cbv zeta.
  apply makes_bind; [apply makes_getOrCreateSite|]. intros siteId.
  apply makes_bind; [apply makes_run|]. intros ?.
  apply makes_bind; [apply makes_insertUnreadMessages | intros; apply makes_ret].
Qed.

Lemma refreshUnread_client :
  returns (refreshUnread E name) (fun cs => allowed (site (credentials (fst cs)))).
Proof.
  intros w cs w' H. unfold refreshUnread in H.
  apply bind_inv_ok in H. destruct H as (client & w1 & Hnew & H).
  apply bind_inv_ok in H. destruct H as (reg & w2 & _ & H). cbv zeta in H.
  apply bind_inv_ok in H. destruct H as (siteId & w3 & _ & H).
  apply bind_inv_ok in H. destruct H as (? & w4 & _ & H).
  apply bind_inv_ok in H. destruct H as (? & w5 & _ & H).
  injection H as <- _. cbn [fst]. exact (Hclient _ _ _ Hnew).
Qed.

Lemma makes_syncSite convert fuel : makes R (syncSite convert E fuel name).
Proof.
  unfold syncSite.
  eapply makes_bind_returns; [apply makes_refreshUnread | apply refreshUnread_client|].
  intros cs Hu. cbv zeta.
  apply makes_bind; [apply makes_query|]. intros unreadTopics.
  destruct (Z.of_nat (List.length unreadTopics) =? 0).
  - apply makes_bind; [apply makes_updateSiteLastSync | intros; apply makes_ret].
  - apply makes_bind; [apply makes_forOf; intros; apply makes_syncTopic; exact Hu|].
    intros total.
    apply makes_bind; [apply makes_updateSiteLastSync | intros; apply makes_ret].
Qed.

Lemma makes_showUnreadForSite : makes R (showUnreadForSite E name).
Proof.
  unfold showUnreadForSite.
  apply makes_bind; [apply makes_refreshUnread|]. intros cs. cbv zeta.
  apply makes_bind; [apply makes_query|]. intros total.
  apply makes_bind; [|intros; apply makes_ret].
  unfold getUnreadSummary. apply makes_bind; [apply makes_query | intros; apply makes_ret].
Qed.

End Steps.

(** ** Where the requests go *)

Lemma sent_only_to_same allowed w w' : sent w' = sent w -> sent_only_to allowed w w'.
Proof. intros H. exists []. rewrite app_nil_r. split; [exact H | constructor]. Qed.

Lemma sent_only_to_trans allowed a b c :
  sent_only_to allowed a b -> sent_only_to allowed b c -> sent_only_to allowed a c.
Proof.
  intros (l1 & H1 & F1) (l2 & H2 & F2). exists (l1 ++ l2).
  rewrite H2, H1, app_assoc. split; [reflexivity | apply Forall_app; split; assumption].
Qed.

Lemma new_ZulipClient_url E name :
  returns (new_ZulipClient E (Some name))
          (fun client => url_of_site E name (site (credentials client))).
Proof.
  intros w client w' H. unfold new_ZulipClient, getSiteCredentials, loadCredentials in H.
  unfold url_of_site. destruct (credentialsFile E) as [c|]; [|discriminate].
  exists c. unfold bind, ret in H. cbn [fst snd] in H.
  destruct (lookup_site (str_or (Some name) (default c)) c) as [k|] eqn:Hk; [|discriminate].
  exists k. injection H as <- _. cbn [credentials]. auto.
Qed.

(** X7.  A pass over a site talks to the server of that site only.  Every
    request that [syncSite] or [showUnreadForSite] sends for the site [name]
    goes to the base URL that the credentials file gives for [name] (for the
    default site when [name] is empty); requests are only added to what was
    sent before; and when the credentials file is missing or has no such site,
    no request is sent at all. *)
Theorem requests_go_to_the_site :
  forall convert E fuel name w,
    sent_only_to (url_of_site E name) w (snd (syncSite convert E fuel name w)) /\
    sent_only_to (url_of_site E name) w (snd (showUnreadForSite E name w)) /\
    ((forall url, ~ url_of_site E name url) ->
       sent (snd (syncSite convert E fuel name w)) = sent w /\
       sent (snd (showUnreadForSite E name w)) = sent w).
Proof.
  intros convert E fuel name w.
  pose (U := url_of_site E name).
  assert (Hrefl : forall w0, sent_only_to U w0 w0) by (intros; apply sent_only_to_same; reflexivity).
  assert (Htrans := sent_only_to_trans U).
  assert (Hone : forall w0 url r, U url ->
                   sent_only_to U w0 (set_sent (sent w0 ++ [(url, r)]) w0)).
  { intros w0 url r Hu. exists [(url, r)]. split; [reflexivity|]. repeat constructor. exact Hu. }
  assert (Hsync : sent_only_to U w (snd (syncSite convert E fuel name w))).
  { apply (makes_syncSite (sent_only_to U) U); try (intros; apply sent_only_to_same; reflexivity);
      [exact Htrans | exact Hone | apply new_ZulipClient_url]. }
  assert (Hshow : sent_only_to U w (snd (showUnreadForSite E name w))).
  { apply (makes_showUnreadForSite (sent_only_to U) U); try (intros; apply sent_only_to_same; reflexivity);
      [exact Htrans | exact Hone | apply new_ZulipClient_url]. }
  split; [exact Hsync|]. split; [exact Hshow|].
  intros Hnone.
  assert (Hnil : forall w', sent_only_to U w w' -> sent w' = sent w).
  { intros w' (l & Hl & Fl). destruct l as [|p l]; [rewrite Hl; apply app_nil_r|].
    inversion Fl as [|? ? Hp _]; subst. exfalso. exact (Hnone _ Hp). }
  split; apply Hnil; assumption.
Qed.

(** ** The last-sync time *)

Lemma sites_kept_ext d0 d d' : tbl_sites d' = tbl_sites d -> sites_kept d0 d -> sites_kept d0 d'.
Proof. unfold sites_kept. intros ->. auto. Qed.

Lemma sites_kept_insert d0 name url : stmt_keeps (sites_kept d0) (insert_site name url).
Proof.
  intros d a d' (extra & H & F) Hu. inv_stmt Hu. cbn [tbl_sites set_sites].
  eexists (extra ++ [_]). rewrite H, <- app_assoc. split; [reflexivity|].
  apply Forall_app. split; [exact F|]. repeat constructor.
Qed.

(** A pass, up to its last statement, keeps the rows of [sites]. *)
Lemma syncSite_sites_kept convert E fuel name d0 :
  dhoare (sites_kept d0) (syncSite convert E fuel name) (fun _ _ => True) (sites_kept d0).
Proof.
  set (I := sites_kept d0).
  assert (Hext : forall d d', tbl_sites d' = tbl_sites d -> I d -> I d')
    by (intros d d'; apply sites_kept_ext).
  assert (H2 : forall siteId, stmt_keeps I (delete_unread siteId)).
  { intros siteId d a d' Hd Hu. inv_stmt Hu. eapply Hext; [|exact Hd]. reflexivity. }
  assert (H3 : forall siteId msgId sid sname topic,
             stmt_keeps I (insert_unread siteId msgId sid sname topic)).
  { intros siteId msgId sid sname topic d a d' Hd Hu. inv_stmt Hu.
    eapply Hext; [|exact Hd]. reflexivity. }
  assert (H5 : forall s rowId, stmt_keeps I (update_stream_name s rowId)).
  { intros s rowId d a d' Hd Hu. inv_stmt Hu. eapply Hext; [|exact Hd]. reflexivity. }
  assert (H6 : forall siteId sid s, stmt_keeps I (insert_stream siteId sid s)).
  { intros siteId sid s d a d' Hd Hu. inv_stmt Hu. eapply Hext; [|exact Hd]. reflexivity. }
  assert (H7 : forall sid s, stmt_keeps I (insert_topic sid s)).
  { intros sid s d a d' Hd Hu. inv_stmt Hu. eapply Hext; [|exact Hd]. reflexivity. }
  assert (H8 : forall tid d msg, I d -> I (insert_row convert tid d msg)).
  { intros tid d msg Hd. destruct (insert_row_tables convert tid d msg) as (Hs & _).
    eapply Hext; [exact Hs | exact Hd]. }
  assert (H9 : forall x tid, stmt_keeps I (update_last_message_id x tid)).
  { intros x tid d a d' Hd Hu. inv_stmt Hu. eapply Hext; [|exact Hd]. reflexivity. }
  assert (Hlast : forall A siteId (a : A),
            dhoare I (updateSiteLastSync siteId ;; ret a) (fun _ _ => True) I).
  { intros A siteId a. eapply dh_bind with (Q1 := fun _ _ => True); [|intros; apply dh_ret; auto].
    unfold updateSiteLastSync.
    eapply dh_bind; [apply (@dh_dbpure_keeps I), dbpure_now|]. intros t.
    apply dh_run. auto. }
  unfold syncSite.
  eapply dh_bind;
    [apply (@refreshUnread_keeps I); [intros; apply sites_kept_insert | apply H2 | apply H3]|].
  intros cs. cbv zeta.
  eapply dh_bind; [apply (@dh_query_keeps I)|]. intros unreadTopics.
  destruct (Z.of_nat (List.length unreadTopics) =? 0); [apply Hlast|].
  eapply dh_bind; [|intros total; apply Hlast].
  apply (@dh_forOf _ _ (fun _ => I) I). intros acc x _.
  apply (@syncTopic_keeps I); assumption.
Qed.

(** What [updateSiteLastSync] does when it returns. *)
Lemma updateSiteLastSync_ok siteId w w' :
  updateSiteLastSync siteId w = (Ok tt, w') ->
  db w' = after (update_site_last_sync (clock w) siteId) (db w) /\ clock w' = clock w + 1.
Proof.
  intros H. unfold updateSiteLastSync in H.
  apply bind_inv_ok in H. destruct H as (t & w1 & Hnow & Hrun).
  unfold now in Hnow. injection Hnow as <- <-.
  pose proof (makes_run (fun a b => clock b = clock a) (fun a => eq_refl)
                (fun a b c (H1 : clock b = clock a) (H2 : clock c = clock b) => eq_trans H2 H1)
                (fun a d => eq_refl) (fun a f => eq_refl)
                (update_site_last_sync (clock w) siteId) (set_clock (clock w + 1) w)) as Hc.
  rewrite Hrun in Hc. cbn [snd clock set_clock] in Hc.
  apply run_ok in Hrun. cbn [db set_clock] in Hrun.
  unfold after. rewrite Hrun. auto.
Qed.

(** The opening of a pass, when it returns: the site has its row. *)
Lemma refreshUnread_ok E name w client siteId w1 :
  refreshUnread E name w = (Ok (client, siteId), w1) ->
  exists r, select_site name (db w1) = Some r /\ site_id r = siteId.
Proof.
  intros H. unfold refreshUnread in H.
  apply bind_inv_ok in H. destruct H as (client0 & wa & _ & H).
  apply bind_inv_ok in H. destruct H as (reg & wb & Hreg & H). cbv zeta in H.
  apply bind_inv_ok in H. destruct H as (siteId0 & wc & Hsite & H).
  apply bind_inv_ok in H. destruct H as (? & wd & Hclear & H).
  apply bind_inv_ok in H. destruct H as (? & we & Hins & H).
  injection H as <- <- <-.
  apply getOrCreateSite_ok in Hsite. destruct Hsite as [Hi Hd].
  destruct (with_site_selected name (siteUrl client0) (db wb)) as (r & Hsel & Hr).
  rewrite <- Hd in Hsel. rewrite <- Hi in Hr.
  exists r. split; [|exact Hr].
  set (I := fun d => tbl_sites d = tbl_sites (db wc)).
  assert (Hc : I (db wd)).
  { pose proof (@clearUnreadMessages_keeps I siteId0) as Hk.
    assert (Hs : stmt_keeps I (delete_unread siteId0)).
    { intros d a d' Hd0 Hu. inv_stmt Hu. exact Hd0. }
    specialize (Hk Hs wc eq_refl). rewrite Hclear in Hk. exact Hk. }
  assert (Hi2 : I (db we)).
  { pose proof (@insertUnreadMessages_keeps I siteId0 (um_streams (fst reg))
                  (build_streamMap (snd reg))) as Hk.
    assert (Hs : forall msgId sid sname topic,
               stmt_keeps I (insert_unread siteId0 msgId sid sname topic)).
    { intros msgId sid sname topic d a d' Hd0 Hu. inv_stmt Hu. exact Hd0. }
    specialize (Hk Hs wd Hc). rewrite Hins in Hk. exact Hk. }
  unfold select_site in *. rewrite Hi2. exact Hsel.
Qed.

(** The loop over the conversations leaves the rows of [sites] alone. *)
Lemma syncTopics_sites convert E fuel client name siteId topics acc w :
  tbl_sites (db (snd (forOf topics (syncTopic convert E fuel client name siteId) acc w)))
  = tbl_sites (db w).
Proof.
  set (I := fun d => tbl_sites d = tbl_sites (db w)).
  assert (Hext : forall d d', tbl_sites d' = tbl_sites d -> I d -> I d').
  { unfold I. intros d d' ->. auto. }
  assert (H : dhoare I (forOf topics (syncTopic convert E fuel client name siteId) acc)
                (fun _ => I) I).
  { apply (@dh_forOf _ _ (fun _ => I) I). intros a x _. apply (@syncTopic_keeps I).
    - intros s rowId d a0 d' Hd Hu. inv_stmt Hu. eapply Hext; [|exact Hd]. reflexivity.
    - intros sid0 sid s d a0 d' Hd Hu. inv_stmt Hu. eapply Hext; [|exact Hd]. reflexivity.
    - intros sid s d a0 d' Hd Hu. inv_stmt Hu. eapply Hext; [|exact Hd]. reflexivity.
    - intros tid d msg Hd. destruct (insert_row_tables convert tid d msg) as (Hs & _).
      eapply Hext; [exact Hs | exact Hd].
    - intros x0 tid d a0 d' Hd Hu. inv_stmt Hu. eapply Hext; [|exact Hd]. reflexivity. }
  specialize (H w eq_refl).
  destruct (forOf topics (syncTopic convert E fuel client name siteId) acc w) as [[a|e] w'];
    exact H.
Qed.

(** A pass that returns: its opening, its plan, its loop and its last
    statement. *)
Lemma syncSite_ok_inv convert E fuel name w n w' :
  syncSite convert E fuel name w = (Ok n, w') ->
  exists client siteId w1 topics w2 w3,
    refreshUnread E name w = (Ok (client, siteId), w1) /\
    getUnreadTopics siteId w1 = (Ok topics, w2) /\
    forOf topics (syncTopic convert E fuel client name siteId) 0 w2 = (Ok n, w3) /\
    updateSiteLastSync siteId w3 = (Ok tt, w').
Proof.
  intros H. unfold syncSite in H.
  apply bind_inv_ok in H. destruct H as ([client siteId] & w1 & Hr & H). cbv zeta in H.
  cbn [fst snd] in H.
  apply bind_inv_ok in H. destruct H as (topics & w2 & Hq & H).
  exists client, siteId, w1, topics, w2.
  destruct (Z.of_nat (List.length topics) =? 0) eqn:Hlen.
  - apply bind_inv_ok in H. destruct H as ([] & w3 & Hu & H). injection H as <- <-.
    exists w2. repeat split; try assumption.
    destruct topics; [reflexivity | cbn in Hlen; discriminate Hlen].
  - apply bind_inv_ok in H. destruct H as (total & w3 & Hloop & H).
    apply bind_inv_ok in H. destruct H as ([] & w4 & Hu & H). injection H as <- <-.
    exists w3. repeat split; assumption.
Qed.

(** X8.  The last-sync time of a site marks its completed passes, and only
    those.  When a pass of [syncSite] returns, the row of the site carries a
    last-sync time read from the clock during this pass.  When the pass ends
    by an exception, wherever it fails, every row of [sites] is as it was
    before the pass, its last-sync time included (a row with no last-sync time
    may have been added for a site seen for the first time). *)
Theorem last_sync_marks_completed_passes :
  forall convert E fuel name w,
    match syncSite convert E fuel name w with
    | (Ok _, w') =>
        exists r t, select_site name (db w') = Some r /\ site_last_sync r = Some t /\
                    clock w <= t < clock w'
    | (Throw _, w') => sites_kept (db w) (db w')
    end.
Proof.
  intros convert E fuel name w.
  destruct (syncSite convert E fuel name w) as [[n|e] w'] eqn:H.
  - destruct (syncSite_ok_inv convert E fuel name w n w' H)
      as (client & siteId & w1 & topics & w2 & w3 & Hr & Hq & Hloop & Hu).
    destruct (refreshUnread_ok E name w client siteId w1 Hr) as (r & Hsel & Hid).
    apply updateSiteLastSync_ok in Hu. destruct Hu as [Hd' Hc'].
    (* the rows of sites from the opening to the last statement *)
    assert (Hs3 : tbl_sites (db w3) = tbl_sites (db w1)).
    { pose proof (syncTopics_sites convert E fuel client name siteId topics 0 w2) as Hs.
      rewrite Hloop in Hs. cbn [snd] in Hs. rewrite Hs.
      unfold getUnreadTopics in Hq. apply query_ok in Hq. destruct Hq as [_ Hq]. rewrite Hq.
      reflexivity. }
    (* time has not gone back *)
    assert (Hlater : clock w <= clock w3).
    { assert (L1 : later w w1).
      { pose proof (makes_refreshUnread later (fun _ => True)) as Hm.
        specialize (Hm (fun w0 => Z.le_refl _)
                       (fun a b c (H1 : later a b) (H2 : later b c) => Z.le_trans _ _ _ H1 H2)
                       (fun w0 d => Z.le_refl _) (fun w0 f => Z.le_refl _)
                       (fun w0 url r _ => Z.le_refl _) (fun w0 rest => Z.le_refl _)
                       E name (fun _ _ _ _ => I) w).
        rewrite Hr in Hm. exact Hm. }
      assert (L2 : later w1 w2).
      { pose proof (makes_query later (fun w0 => Z.le_refl _)
                      (fun a b c (H1 : later a b) (H2 : later b c) => Z.le_trans _ _ _ H1 H2)
                      (fun w0 f => Z.le_refl _) (select_unread_topics siteId) w1) as Hm.
        unfold getUnreadTopics in Hq. rewrite Hq in Hm. exact Hm. }
      assert (L3 : later w2 w3).
      { pose proof (makes_forOf later (fun w0 => Z.le_refl _)
                      (fun a b c (H1 : later a b) (H2 : later b c) => Z.le_trans _ _ _ H1 H2)
                      topics (syncTopic convert E fuel client name siteId)) as Hm.
        assert (Hb : forall acc x,
                   makes later (syncTopic convert E fuel client name siteId acc x)).
        { intros acc x.
          apply (makes_syncTopic later (fun _ => True)); unfold later; cbn; intros; lia. }
        specialize (Hm Hb 0 w2). rewrite Hloop in Hm. exact Hm. }
      unfold later in *. lia. }
    unfold select_site in *. rewrite Hd'. unfold after, update_site_last_sync.
    cbn [tbl_sites set_sites]. rewrite find_map_same
      by (intros x; destruct (site_id x =? siteId); reflexivity).
    rewrite Hs3, Hsel. cbn [option_map]. rewrite Hid, Z.eqb_refl.
    eexists _, (clock w3). split; [reflexivity|]. cbn [site_last_sync].
    split; [reflexivity | lia].
  - pose proof (syncSite_sites_kept convert E fuel name (db w) w) as Hk. rewrite H in Hk.
    apply Hk. exists []. rewrite app_nil_r. split; [reflexivity | constructor].
Qed.

(* ===================================================================== *)
(** * A pass touches the data of one site *)
(* ===================================================================== *)

Lemma others_kept_refl S d : others_kept S d d.
Proof. unfold others_kept. repeat split; auto. Qed.

Lemma others_kept_trans S d0 d1 d2 :
  others_kept S d0 d1 -> others_kept S d1 d2 -> others_kept S d0 d2.
Proof.
  intros (U1 & O1 & T1 & S1 & R1) (U2 & O2 & T2 & S2 & R2).
  split; [congruence|]. split; [auto|]. split; [|split; auto].
  intros other t Ho Hne.
  destruct (T1 other t Ho Hne) as (M1 & W1 & K1).
  destruct (T2 other t (O1 _ _ Ho) Hne) as (M2 & W2 & K2).
  split; [congruence|]. split; [congruence|]. auto.
Qed.

(** With distinct primary keys, a conversation belongs to one site. *)
Lemma owns_unique d a b t : wf_keys d -> owns d a t -> owns d b t -> a = b.
Proof.
  intros [Ht Hs] (t1 & s1 & Ht1 & Hi1 & Hs1 & Hk1 & <-) (t2 & s2 & Ht2 & Hi2 & Hs2 & Hk2 & <-).
  assert (t1 = t2) by (apply (NoDup_key_eq topic_row_id (tbl_topics d)); congruence).
  subst t2.
  assert (s1 = s2) by (apply (NoDup_key_eq stream_row_id (tbl_streams d)); congruence).
  congruence.
Qed.

(** A change of the store that keeps, for every row of [topics] and of
    [streams], a row with the same keys, keeps what belongs to what. *)
Lemma owns_mono d d' :
  (forall t, In t (tbl_topics d) ->
     exists t', In t' (tbl_topics d') /\ topic_row_id t' = topic_row_id t /\
                topic_stream_id t' = topic_stream_id t) ->
  (forall s, In s (tbl_streams d) ->
     exists s', In s' (tbl_streams d') /\ stream_row_id s' = stream_row_id s /\
                stream_site_id s' = stream_site_id s) ->
  forall site t, owns d site t -> owns d' site t.
Proof.
  intros HT HS site t (t1 & s1 & Ht1 & Hi1 & Hs1 & Hk1 & Hsite).
  destruct (HT t1 Ht1) as (t1' & Ht1' & Hid & Hsid).
  destruct (HS s1 Hs1) as (s1' & Hs1' & Hid' & Hsite').
  exists t1', s1'. repeat split; congruence.
Qed.

Lemma owns_same_tables d d' :
  tbl_topics d' = tbl_topics d -> tbl_streams d' = tbl_streams d ->
  forall site t, owns d site t -> owns d' site t.
Proof. unfold owns. intros -> ->. auto. Qed.

Section OneSite.

Variable convert : string -> string.
Variable S : Z.

(** Statements that touch one table. *)
Lemma others_kept_unread d d' :
  tbl_sites d' = tbl_sites d -> tbl_streams d' = tbl_streams d ->
  tbl_topics d' = tbl_topics d -> tbl_messages d' = tbl_messages d ->
  filter (fun r => negb (ur_site_id r =? S)) (tbl_unread d')
  = filter (fun r => negb (ur_site_id r =? S)) (tbl_unread d) ->
  others_kept S d d'.
Proof.
  intros Hs Hst Ht Hm Hu. unfold others_kept, watermark, select_last_message_id.
  rewrite Hs, Hst, Ht, Hm. repeat split; auto.
  apply owns_same_tables; assumption.
Qed.

Lemma others_kept_sites d d' :
  tbl_unread d' = tbl_unread d -> tbl_streams d' = tbl_streams d ->
  tbl_topics d' = tbl_topics d -> tbl_messages d' = tbl_messages d ->
  (forall r, In r (tbl_sites d) -> site_id r <> S -> In r (tbl_sites d')) ->
  others_kept S d d'.
Proof.
  intros Hu Hst Ht Hm Hs. unfold others_kept, watermark, select_last_message_id.
  rewrite Hu, Hst, Ht, Hm. repeat split; auto.
  apply owns_same_tables; assumption.
Qed.

Lemma others_kept_messages d d' :
  tbl_unread d' = tbl_unread d -> tbl_streams d' = tbl_streams d ->
  tbl_topics d' = tbl_topics d -> tbl_sites d' = tbl_sites d ->
  (forall other t, owns d other t -> other <> S ->
     filter (fun r => sm_topic_id r =? t) (tbl_messages d')
     = filter (fun r => sm_topic_id r =? t) (tbl_messages d)) ->
  others_kept S d d'.
Proof.
  intros Hu Hst Ht Hs Hm. unfold others_kept, watermark, select_last_message_id.
  rewrite Hu, Hst, Ht, Hs. repeat split; eauto.
  apply owns_same_tables; assumption.
Qed.

Lemma others_kept_insert_site name url d a d' :
  insert_site name url d = Ok (a, d') -> others_kept S d d'.
Proof.
  intros H. inv_stmt H. apply others_kept_sites; try reflexivity.
  intros r Hr _. cbn [tbl_sites set_sites]. apply in_or_app. left. exact Hr.
Qed.

Lemma filter_twice {A} (f : A -> bool) (l : list A) : filter f (filter f l) = filter f l.
Proof. apply filter_all. intros x Hx. apply filter_In in Hx. tauto. Qed.

Lemma others_kept_delete_unread d a d' :
  delete_unread S d = Ok (a, d') -> others_kept S d d'.
Proof.
  intros H. inv_stmt H. apply others_kept_unread; try reflexivity.
  cbn [tbl_unread set_unread]. apply filter_twice.
Qed.

Lemma others_kept_insert_unread msgId sid sname topic d a d' :
  insert_unread S msgId sid sname topic d = Ok (a, d') -> others_kept S d d'.
Proof.
  intros H. inv_stmt H. apply others_kept_unread; try reflexivity.
  cbn [tbl_unread set_unread]. rewrite filter_app. cbn. rewrite Z.eqb_refl. cbn.
  apply app_nil_r.
Qed.

Lemma others_kept_last_sync t d a d' :
  update_site_last_sync t S d = Ok (a, d') -> others_kept S d d'.
Proof.
  intros H. inv_stmt H. apply others_kept_sites; try reflexivity.
  intros r Hr Hne. cbn [tbl_sites set_sites]. apply in_map_iff. exists r.
  apply Z.eqb_neq in Hne. rewrite Hne. auto.
Qed.

Lemma others_kept_insert_stream siteId sid s d a d' :
  insert_stream siteId sid s d = Ok (a, d') -> others_kept S d d'.
Proof.
  intros H. inv_stmt H. unfold others_kept, watermark, select_last_message_id.
  cbn [tbl_unread tbl_topics tbl_messages tbl_sites tbl_streams set_streams].
  repeat split; auto.
  - apply owns_mono.
    + intros t Ht. exists t. auto.
    + intros s0 Hs0. exists s0. cbn [tbl_streams set_streams]. split; [|auto].
      apply in_or_app. left. exact Hs0.
  - intros r Hr _. apply in_or_app. left. exact Hr.
Qed.

Lemma others_kept_insert_topic sdb s d a d' :
  insert_topic sdb s d = Ok (a, d') -> others_kept S d d'.
Proof.
  intros H. pose proof (fun tid => watermark_insert_topic sdb s d a d' tid H) as Hw.
  inv_stmt H. unfold others_kept.
  cbn [tbl_unread tbl_topics tbl_messages tbl_sites tbl_streams set_topics].
  repeat split; auto.
  - apply owns_mono.
    + intros t Ht. exists t. cbn [tbl_topics set_topics]. split; [|auto].
      apply in_or_app. left. exact Ht.
    + intros s0 Hs0. exists s0. auto.
  - intros t Ht _. apply in_or_app. left. exact Ht.
Qed.

(** The name of a stream of the site [S] is updated. *)
Lemma others_kept_update_stream name r0 d a d' :
  wf_keys d -> In r0 (tbl_streams d) -> stream_site_id r0 = S ->
  update_stream_name name (stream_row_id r0) d = Ok (a, d') -> others_kept S d d'.
Proof.
  intros [_ Hnd] Hr0 Hsite H. inv_stmt H. unfold others_kept, watermark, select_last_message_id.
  cbn [tbl_unread tbl_topics tbl_messages tbl_sites tbl_streams set_streams].
  repeat split; auto.
  - apply owns_mono.
    + intros t Ht. exists t. auto.
    + intros s0 Hs0. eexists. cbn [tbl_streams set_streams].
      split; [apply in_map; exact Hs0|].
      destruct (stream_row_id s0 =? stream_row_id r0); auto.
  - intros r Hr Hne. apply in_map_iff. exists r. split; [|exact Hr].
    destruct (stream_row_id r =? stream_row_id r0) eqn:Er; [|reflexivity].
    exfalso. apply Z.eqb_eq in Er.
    assert (r = r0) by (apply (NoDup_key_eq stream_row_id (tbl_streams d)); assumption).
    congruence.
Qed.

(** A message is stored for a conversation of the site [S]. *)
Lemma others_kept_insert_row tid d msg :
  wf_keys d -> owns d S tid -> others_kept S d (insert_row convert tid d msg).
Proof.
  intros Hwf Hown.
  destruct (insert_row_tables convert tid d msg) as (Hs & Hst & Ht & Hu).
  apply others_kept_messages; try assumption.
  intros other t Ho Hne.
  assert (Htid : t <> tid).
  { intros ->. apply Hne. exact (owns_unique d other S tid Hwf Ho Hown). }
  destruct (insert_row_cases convert tid d msg) as [[_ ->]|[_ (r & Hr & _ & ->)]]; [reflexivity|].
  cbn [tbl_messages set_messages]. rewrite filter_app. cbn [filter].
  assert (Hb : (sm_topic_id r =? t) = false) by (apply Z.eqb_neq; congruence).
  rewrite Hb. apply app_nil_r.
Qed.

(** The watermark of a conversation of the site [S] is moved. *)
Lemma others_kept_update_watermark x tid d a d' :
  wf_keys d -> owns d S tid ->
  update_last_message_id x tid d = Ok (a, d') -> others_kept S d d'.
Proof.
  intros Hwf Hown H.
  assert (Hother : forall other t, owns d other t -> other <> S -> t <> tid).
  { intros other t Ho Hne ->. apply Hne. exact (owns_unique d other S tid Hwf Ho Hown). }
  assert (Hw : forall t, t <> tid -> watermark d' t = watermark d t).
  { intros t Hne. exact (@watermark_update_other x tid d t Hne a d' H). }
  inv_stmt H. unfold others_kept.
  cbn [tbl_unread tbl_topics tbl_messages tbl_sites tbl_streams set_topics].
  repeat split; auto.
  - apply owns_mono.
    + intros t Ht. eexists. cbn [tbl_topics set_topics]. split; [apply in_map; exact Ht|].
      destruct (topic_row_id t =? tid); auto.
    + intros s0 Hs0. exists s0. auto.
  - apply Hw. eapply Hother; eassumption.
  - intros t Ht Hid. apply in_map_iff. exists t. split; [|exact Ht].
    destruct (topic_row_id t =? tid) eqn:Et; [|reflexivity].
    exfalso. apply Z.eqb_eq in Et. eapply Hother; [eassumption | eassumption | congruence].
Qed.

End OneSite.

(** Every statement keeps the primary keys distinct. *)
Lemma wf_keys_ext d d' :
  tbl_topics d' = tbl_topics d -> tbl_streams d' = tbl_streams d -> wf_keys d -> wf_keys d'.
Proof. unfold wf_keys. intros -> ->. auto. Qed.

Lemma wf_keys_stmts :
  (forall name url, stmt_keeps wf_keys (insert_site name url)) /\
  (forall siteId, stmt_keeps wf_keys (delete_unread siteId)) /\
  (forall siteId msgId sid sname topic,
      stmt_keeps wf_keys (insert_unread siteId msgId sid sname topic)) /\
  (forall t siteId, stmt_keeps wf_keys (update_site_last_sync t siteId)) /\
  (forall s rowId, stmt_keeps wf_keys (update_stream_name s rowId)) /\
  (forall siteId sid s, stmt_keeps wf_keys (insert_stream siteId sid s)) /\
  (forall sid s, stmt_keeps wf_keys (insert_topic sid s)) /\
  (forall x tid, stmt_keeps wf_keys (update_last_message_id x tid)).
Proof.
  repeat match goal with |- _ /\ _ => split end; unfold stmt_keeps; intros until d'; intros Hd Hu.
  1-4: inv_stmt Hu; (eapply wf_keys_ext; [| |exact Hd]); reflexivity.
  - destruct Hd as [Ht Hs]. inv_stmt Hu. split; [exact Ht|].
    cbn [tbl_streams set_streams]. rewrite map_map.
    erewrite map_ext; [exact Hs|]. intros x. cbn. destruct (_ =? rowId); reflexivity.
  - destruct Hd as [Ht Hs]. inv_stmt Hu. split; [exact Ht|].
    cbn [tbl_streams set_streams]. apply NoDup_append_fresh; [assumption | reflexivity].
  - destruct Hd as [Ht Hs]. inv_stmt Hu. split; [|exact Hs].
    cbn [tbl_topics set_topics]. apply NoDup_append_fresh; [assumption | reflexivity].
  - destruct Hd as [Ht Hs]. inv_stmt Hu. split; [|exact Hs].
    cbn [tbl_topics set_topics]. rewrite map_map.
    erewrite map_ext; [exact Ht|]. intros r. cbn. destruct (_ =? tid); reflexivity.
Qed.

Lemma wf_keys_insert_row convert tid d msg : wf_keys d -> wf_keys (insert_row convert tid d msg).
Proof.
  intros Hd. destruct (insert_row_tables convert tid d msg) as (_ & Hs & Ht & _).
  eapply wf_keys_ext; [exact Ht | exact Hs | exact Hd].
Qed.

Section OnePass.

Variable convert : string -> string.
Variable E : Env.
Variable S : Z.
Variable d0 : DB.

Lemma site_inv_step d d' :
  site_inv S d0 d -> wf_keys d' -> others_kept S d d' -> site_inv S d0 d'.
Proof.
  intros [_ Hk] Hwf Hstep. split; [exact Hwf|].
  eapply others_kept_trans; eassumption.
Qed.

(** The stream that [getOrCreateStream] returns is a stream of the site. *)
Lemma getOrCreateStream_site sid name :
  dhoare (site_inv S d0) (getOrCreateStream S sid name)
    (fun sdb d => site_inv S d0 d /\
                  exists r, In r (tbl_streams d) /\ stream_row_id r = sdb /\ stream_site_id r = S)
    (site_inv S d0).
Proof.
  destruct wf_keys_stmts as (_ & _ & _ & _ & W5 & W6 & _).
  unfold getOrCreateStream.
  eapply dh_bind; [apply (dh_query (site_inv S d0))|].
  intros [r|].
  - eapply dh_bind with
      (Q1 := fun _ d => site_inv S d0 d /\
               exists r', In r' (tbl_streams d) /\ stream_row_id r' = stream_row_id r /\
                          stream_site_id r' = S).
    + eapply dh_conseq with (P' := fun d => site_inv S d0 d /\ Some r = select_stream S sid d);
        [apply dh_run | auto | intros a d H; exact H | intros d [H _]; exact H].
      intros d a d' [HK Hsel] Hu.
      symmetry in Hsel. apply find_some in Hsel. destruct Hsel as [Hin Hb].
      apply andb_true_iff in Hb. destruct Hb as [Hb _]. apply Z.eqb_eq in Hb.
      split.
      * apply (site_inv_step d); [exact HK | eapply W5; [apply HK | exact Hu] |].
        eapply others_kept_update_stream; [apply HK | exact Hin | exact Hb | exact Hu].
      * inv_stmt Hu. eexists. cbn [tbl_streams set_streams].
        split; [apply in_map; exact Hin|]. rewrite Z.eqb_refl. cbn. auto.
    + intros ?. apply dh_ret. auto.
  - eapply dh_conseq with (P' := fun d => site_inv S d0 d /\ None = select_stream S sid d);
      [apply dh_run | auto | intros a d H; exact H | intros d [H _]; exact H].
    intros d a d' [HK _] Hu. split.
    + apply (site_inv_step d); [exact HK | eapply W6; [apply HK | exact Hu] |].
      eapply others_kept_insert_stream; exact Hu.
    + inv_stmt Hu. eexists. cbn [tbl_streams set_streams].
      split; [apply in_or_app; right; left; reflexivity|]. cbn. auto.
Qed.

(** The conversation that [getOrCreateTopic] returns, for a stream of the
    site, is a conversation of the site. *)
Lemma getOrCreateTopic_site sdb name :
  dhoare (fun d => site_inv S d0 d /\
                   exists r, In r (tbl_streams d) /\ stream_row_id r = sdb /\ stream_site_id r = S)
    (getOrCreateTopic sdb name)
    (fun tdb d => site_inv S d0 d /\ owns d S tdb)
    (site_inv S d0).
Proof.
  destruct wf_keys_stmts as (_ & _ & _ & _ & _ & _ & W7 & _).
  unfold getOrCreateTopic.
  set (P := fun d => site_inv S d0 d /\
              exists r, In r (tbl_streams d) /\ stream_row_id r = sdb /\ stream_site_id r = S).
  eapply dh_bind with (Q1 := fun existing d => P d /\ existing = select_topic sdb name d).
  { eapply dh_conseq with (P' := P); [apply dh_query | auto | auto | intros d [H _]; exact H]. }
  intros [r|].
  - apply dh_ret. intros d [[HK (s & Hs & Hid & Hsite)] Hsel].
    split; [exact HK|].
    symmetry in Hsel. apply find_some in Hsel. destruct Hsel as [Hin Hb].
    apply andb_true_iff in Hb. destruct Hb as [Hb _]. apply Z.eqb_eq in Hb.
    exists r, s. repeat split; congruence.
  - eapply dh_conseq with (P' := fun d => P d /\ None = select_topic sdb name d);
      [apply dh_run | auto | intros a d H; exact H | intros d [[H _] _]; exact H].
    intros d a d' [[HK (s & Hs & Hid & Hsite)] _] Hu. split.
    + apply (site_inv_step d); [exact HK | eapply W7; [apply HK | exact Hu] |].
      eapply others_kept_insert_topic; exact Hu.
    + inv_stmt Hu. eexists _, s. cbn [tbl_topics set_topics tbl_streams].
      split; [apply in_or_app; right; left; reflexivity|]. cbn. auto.
Qed.

Lemma storeBatch_site tid batch :
  dhoare (fun d => site_inv S d0 d /\ owns d S tid) (storeBatch convert tid batch)
         (fun _ => site_inv S d0) (site_inv S d0).
Proof.
  destruct wf_keys_stmts as (_ & _ & _ & _ & _ & _ & _ & W8).
  unfold storeBatch.
  eapply dh_bind with (Q1 := fun _ d => site_inv S d0 d /\ owns d S tid).
  - eapply dh_conseq with (X' := fun d => site_inv S d0 d /\ owns d S tid);
      [apply (@insertMessages_keeps (fun d => site_inv S d0 d /\ owns d S tid))
      | auto | auto | intros d [H _]; exact H].
    intros d msg [HK Ho]. split.
    + apply (site_inv_step d); [exact HK | apply wf_keys_insert_row; apply HK |].
      apply others_kept_insert_row; [apply HK | exact Ho].
    + destruct (insert_row_tables convert tid d msg) as (_ & Hs & Ht & _).
      eapply owns_same_tables; eassumption.
  - intros inserted. cbv zeta.
    eapply dh_bind with (Q1 := fun _ => site_inv S d0); [|intros; apply dh_ret; auto].
    unfold updateTopicLastMessageId.
    eapply dh_conseq with (P' := fun d => site_inv S d0 d /\ owns d S tid);
      [apply dh_run | auto | intros a d H; exact H | intros d [H _]; exact H].
    intros d a d' [HK Ho] Hu.
    apply (site_inv_step d); [exact HK | eapply W8; [apply HK | exact Hu] |].
    eapply others_kept_update_watermark; [apply HK | exact Ho | exact Hu].
Qed.

Lemma syncTopic_site fuel client name total topic :
  dhoare (site_inv S d0) (syncTopic convert E fuel client name S total topic)
         (fun _ => site_inv S d0) (site_inv S d0).
Proof.
  unfold syncTopic.
  eapply dh_bind; [apply getOrCreateStream_site|]. intros sdb.
  eapply dh_bind; [apply getOrCreateTopic_site|]. intros tdb.
  set (I := fun d => site_inv S d0 d /\ owns d S tdb).
  assert (Hweak : forall A (m : M A), dhoare I m (fun _ => I) I ->
                                      dhoare I m (fun _ => I) (site_inv S d0)).
  { intros A m H. eapply dh_conseq; [exact H | auto | auto | intros d [Hd _]; exact Hd]. }
  eapply dh_bind with (Q1 := fun _ => I); [apply Hweak, (@dh_query_keeps I)|].
  intros lastMessageId.
  eapply dh_bind with (Q1 := fun _ => I);
    [apply Hweak, (@dh_dbpure_keeps I), dbpure_getTopicMessages|].
  intros messages.
  destruct (0 <? Z.of_nat (List.length messages));
    [|apply dh_ret; intros d [Hd _]; exact Hd].
  eapply dh_bind; [apply storeBatch_site|]. intros inserted.
  eapply dh_bind; [apply (@dh_query_keeps (site_inv S d0))|]. intros stored.
  eapply dh_bind; [apply (@dh_dbpure_keeps (site_inv S d0)), dbpure_exportTopicToJson|].
  intros ?. apply dh_ret. auto.
Qed.

Variable name : string.
Hypothesis Hwf : wf_keys d0.
Hypothesis HS : S = fst (with_site name "" d0).

(** The opening of the pass yields the identifier of the site. *)
Lemma refreshUnread_site :
  dhoare (fun d => d = d0) (refreshUnread E name)
         (fun cs d => site_inv S d0 d /\ snd cs = S) (site_inv S d0).
Proof.
  destruct wf_keys_stmts as (W1 & W2 & W3 & _).
  assert (H0 : site_inv S d0 d0) by (split; [exact Hwf | apply others_kept_refl]).
  unfold refreshUnread.
  eapply dh_bind with (Q1 := fun _ d => d = d0).
  { eapply dh_conseq; [apply (@dh_dbpure_keeps (fun d => d = d0)), dbpure_new_ZulipClient
                      | auto | auto | intros d ->; exact H0]. }
  intros client.
  eapply dh_bind with (Q1 := fun _ d => d = d0).
  { eapply dh_conseq; [apply (@dh_dbpure_keeps (fun d => d = d0)), dbpure_register
                      | auto | auto | intros d ->; exact H0]. }
  intros reg. cbv zeta.
  eapply dh_bind with (Q1 := fun siteId d => site_inv S d0 d /\ siteId = S).
  { unfold getOrCreateSite.
    eapply dh_bind with (Q1 := fun existing d => d = d0 /\ existing = select_site name d).
    - eapply dh_conseq with (P' := fun d => d = d0);
        [apply dh_query | auto | auto | intros d ->; exact H0].
    - intros [r|].
      + apply dh_ret. intros d [-> Hsel]. split; [exact H0|].
        rewrite HS. unfold with_site. rewrite <- Hsel. reflexivity.
      + eapply dh_conseq with (P' := fun d => d = d0 /\ None = select_site name d);
          [apply dh_run | auto | intros a d H; exact H | intros d [-> _]; exact H0].
        intros d a d' [-> Hsel] Hu. split.
        * apply (site_inv_step d0); [exact H0 | eapply W1; [exact Hwf | exact Hu] |].
          eapply others_kept_insert_site; exact Hu.
        * rewrite HS. unfold with_site. rewrite <- Hsel. inv_stmt Hu. reflexivity. }
  intros siteId. apply dh_pre_fact. intros ->.
  eapply dh_bind with (Q1 := fun _ => site_inv S d0).
  { unfold clearUnreadMessages. apply (@dh_run_keeps (site_inv S d0)).
    intros d a d' HK Hu.
    apply (site_inv_step d); [exact HK | eapply W2; [apply HK | exact Hu] |].
    eapply others_kept_delete_unread; exact Hu. }
  intros ?.
  eapply dh_bind with (Q1 := fun _ => site_inv S d0).
  { apply (@insertUnreadMessages_keeps (site_inv S d0)).
    intros msgId sid sname topic d x d' HK Hu.
    apply (site_inv_step d); [exact HK | eapply W3; [apply HK | exact Hu] |].
    eapply others_kept_insert_unread; exact Hu. }
  intros ?. apply dh_ret. auto.
Qed.

Lemma syncSite_site fuel :
  dhoare (fun d => d = d0) (syncSite convert E fuel name)
         (fun _ => site_inv S d0) (site_inv S d0).
Proof.
  destruct wf_keys_stmts as (_ & _ & _ & W4 & _).
  assert (Hlast : forall A (a : A),
            dhoare (site_inv S d0) (updateSiteLastSync S ;; ret a)
                   (fun _ => site_inv S d0) (site_inv S d0)).
  { intros A a. eapply dh_bind with (Q1 := fun _ => site_inv S d0); [|intros; apply dh_ret; auto].
    apply (@updateSiteLastSync_keeps (site_inv S d0)).
    intros t d x d' HK Hu.
    apply (site_inv_step d); [exact HK | eapply W4; [apply HK | exact Hu] |].
    eapply others_kept_last_sync; exact Hu. }
  unfold syncSite.
  eapply dh_bind; [apply refreshUnread_site|].
  intros [client siteId]. cbv zeta. cbn [fst snd]. apply dh_pre_fact. intros ->.
  eapply dh_bind; [apply (@dh_query_keeps (site_inv S d0))|]. intros unreadTopics.
  destruct (Z.of_nat (List.length unreadTopics) =? 0); [apply Hlast|].
  eapply dh_bind; [|intros total; apply Hlast].
  apply (@dh_forOf _ _ (fun _ => site_inv S d0) (site_inv S d0)).
  intros acc x _. apply syncTopic_site.
Qed.

End OnePass.

(** X9.  A pass over one site leaves the data of the other sites alone.
    In a store with distinct primary keys, however a pass of [syncSite] over
    the site [name] ends and whatever its server answers: the unread rows of
    every other site are as they were; every conversation still belongs to the
    site it belonged to; each conversation of another site has the same
    stored messages, the same watermark and the same row; and the rows of
    [sites] (last-sync time included) and of [streams] of the other sites are
    as they were. *)
Theorem sync_touches_one_site :
  forall convert E fuel name w,
    wf_keys (db w) ->
    others_kept (fst (with_site name "" (db w))) (db w)
                (db (snd (syncSite convert E fuel name w))).
Proof.
  intros convert E fuel name w Hwf.
  pose proof (syncSite_site convert E (fst (with_site name "" (db w))) (db w) name Hwf eq_refl
                fuel w eq_refl) as H.
  destruct (syncSite convert E fuel name w) as [[n|e] w']; apply H.
Qed.

(** After a pass over alpha stored five messages, a pass over beta. *)
Lemma sync_touches_one_site_witness :
  wf_keys (db afterFirstSync) /\
  others_kept 2 (db afterFirstSync)
              (db (snd (syncSite plain (welcomeEnv 5) 3 "beta" afterFirstSync))).
Proof.
  assert (Hwf : wf_keys (db afterFirstSync)).
  { split; vm_compute; (constructor; [intros [] | constructor]). }
  split; [exact Hwf|].
  exact (sync_touches_one_site plain (welcomeEnv 5) 3 "beta" afterFirstSync Hwf).
Defined.

(* ===================================================================== *)
(** * The queries on the unread rows ([src/storage/database.ts]) *)
(* ===================================================================== *)

(** ** [getUnreadTopics]: the plan of a pass *)

Lemma add_to_group_ids r gs :
  Permutation (flat_map messageIds (add_to_group r gs))
              (ur_message_id r :: flat_map messageIds gs).
Proof.
  induction gs as [|g gs IH]; cbn [add_to_group flat_map].
  - cbn. reflexivity.
  - destruct (_ && _); cbn [flat_map messageIds].
    + rewrite <- app_assoc. cbn [app].
      rewrite <- Permutation_middle. reflexivity.
    + rewrite IH. rewrite Permutation_middle. reflexivity.
Qed.

Lemma add_to_group_keys r gs :
  map group_key (add_to_group r gs)
  = if existsb (fun g => (streamId g =? ur_stream_id r)
                         && String.eqb (streamName g) (ur_stream_name r)
                         && String.eqb (topicName g) (ur_topic_name r)) gs
    then map group_key gs
    else map group_key gs ++ [row_group_key r].
Proof.
  induction gs as [|g gs IH]; cbn [add_to_group existsb map]; [reflexivity|].
  destruct (_ && _); cbn [orb map]; [reflexivity|].
  rewrite IH. destruct (existsb _ gs); reflexivity.
Qed.

Lemma group_key_matches g r :
  (streamId g =? ur_stream_id r) && String.eqb (streamName g) (ur_stream_name r)
  && String.eqb (topicName g) (ur_topic_name r) = true
  <-> group_key g = row_group_key r.
Proof.
  unfold group_key, row_group_key. rewrite !andb_true_iff, Z.eqb_eq, !String.eqb_eq.
  split; [intros [[-> ->] ->]; reflexivity | intros H; injection H; auto].
Qed.

Lemma add_to_group_nodup r gs :
  NoDup (map group_key gs) -> NoDup (map group_key (add_to_group r gs)).
Proof.
  intros Hnd. rewrite add_to_group_keys.
  destruct (existsb _ gs) eqn:Hex; [exact Hnd|].
  apply NoDup_app; [exact Hnd | repeat constructor; intros [] |].
  intros k Hk [<-|[]]. apply in_map_iff in Hk. destruct Hk as (g & Hg & Hin).
  assert (Ht : existsb (fun g => (streamId g =? ur_stream_id r)
                          && String.eqb (streamName g) (ur_stream_name r)
                          && String.eqb (topicName g) (ur_topic_name r)) gs = true).
  { apply existsb_exists. exists g. split; [exact Hin|]. apply group_key_matches. exact Hg. }
  congruence.
Qed.

Lemma add_to_group_nonempty r gs :
  Forall (fun g => messageIds g <> []) gs ->
  Forall (fun g => messageIds g <> []) (add_to_group r gs).
Proof.
  induction gs as [|g gs IH]; intros H; cbn [add_to_group].
  - repeat constructor. cbn. discriminate.
  - inversion H as [|? ? Hg Hgs]; subst. destruct (_ && _).
    + constructor; [|exact Hgs]. cbn. destruct (messageIds g); discriminate.
    + constructor; [exact Hg | apply IH; exact Hgs].
Qed.

(** The group of a row holds its message. *)
Lemma add_to_group_here r gs :
  exists g, In g (add_to_group r gs) /\ group_key g = row_group_key r /\
            In (ur_message_id r) (messageIds g).
Proof.
  induction gs as [|g gs IH]; cbn [add_to_group].
  - eexists. split; [left; reflexivity|]. split; [reflexivity | left; reflexivity].
  - destruct (_ && _) eqn:Hb.
    + eexists. split; [left; reflexivity|]. cbn [messageIds]. split.
      * apply group_key_matches in Hb. exact Hb.
      * apply in_or_app. right. left. reflexivity.
    + destruct IH as (g' & Hin & Hk & Hid). exists g'. split; [right; exact Hin | auto].
Qed.

(** A message that a group holds is still held, by a group with the same
    key, when a row is added. *)
Lemma add_to_group_keeps r gs g x :
  In g gs -> In x (messageIds g) ->
  exists g', In g' (add_to_group r gs) /\ group_key g' = group_key g /\ In x (messageIds g').
Proof.
  induction gs as [|g0 gs IH]; intros Hin Hx; [contradiction|]. cbn [add_to_group].
  destruct (_ && _).
  - destruct Hin as [<-|Hin].
    + eexists. split; [left; reflexivity|]. split; [reflexivity|].
      cbn [messageIds]. apply in_or_app. left. exact Hx.
    + exists g. split; [right; exact Hin | auto].
  - destruct Hin as [<-|Hin].
    + exists g0. split; [left; reflexivity | auto].
    + destruct (IH Hin Hx) as (g' & Hin' & Hk & Hx'). exists g'. split; [right; exact Hin' | auto].
Qed.

Lemma grouped_spec rows : forall gs,
  NoDup (map group_key gs) -> Forall (fun g => messageIds g <> []) gs ->
  let gs' := fold_left (fun gs r => add_to_group r gs) rows gs in
  Permutation (flat_map messageIds gs') (flat_map messageIds gs ++ map ur_message_id rows) /\
  NoDup (map group_key gs') /\
  Forall (fun g => messageIds g <> []) gs' /\
  (forall r, In r rows ->
     exists g, In g gs' /\ group_key g = row_group_key r /\ In (ur_message_id r) (messageIds g)).
Proof.
  induction rows as [|r rows IH]; intros gs Hnd Hne; cbn [fold_left map].
  - rewrite app_nil_r. repeat split; auto. intros r [].
  - destruct (IH (add_to_group r gs) (add_to_group_nodup r gs Hnd) (add_to_group_nonempty r gs Hne))
      as (Hp & Hnd' & Hne' & Hin').
    cbv zeta in *. split; [|split; [|split]]; try assumption.
    + rewrite Hp, add_to_group_ids. cbn [app]. apply Permutation_middle.
    + intros r0 [<-|Hr0]; [|apply Hin'; exact Hr0].
      destruct (add_to_group_here r gs) as (g & Hg & Hk & Hid).
      clear IH Hp Hnd' Hne' Hin'. revert g Hg Hk Hid.
      generalize (add_to_group r gs) as acc.
      induction rows as [|r1 rows IHr]; intros acc g Hg Hk Hid; cbn [fold_left].
      * exists g. auto.
      * destruct (add_to_group_keeps r1 acc g (ur_message_id r) Hg Hid) as (g' & Hg' & Hk' & Hid').
        apply (IHr _ g'); [exact Hg' | congruence | exact Hid'].
Qed.

Lemma unread_topics_ids siteId d :
  Permutation (flat_map messageIds (select_unread_topics siteId d))
              (map ur_message_id (unread_of siteId d)).
Proof.
  unfold select_unread_topics. fold (unread_of siteId d).
  destruct (grouped_spec (unread_of siteId d) [] (NoDup_nil _) (Forall_nil _)) as (Hp & _).
  exact Hp.
Qed.

(** X10.  [getUnreadTopics] plans every conversation with unread messages
    once.  The groups it returns for a site have pairwise distinct keys
    (stream identifier, stream name, conversation name); none is empty; every
    unread row of the site has its message in the group of its key; and the
    messages of the groups, taken together, are exactly the messages of the
    unread rows of the site, each as often as it has rows. *)
Theorem getUnreadTopics_partitions :
  forall siteId d,
    let gs := select_unread_topics siteId d in
    NoDup (map group_key gs) /\
    Forall (fun g => messageIds g <> []) gs /\
    (forall r, In r (unread_of siteId d) ->
       exists g, In g gs /\ group_key g = row_group_key r /\
                 In (ur_message_id r) (messageIds g)) /\
    Permutation (flat_map messageIds gs) (map ur_message_id (unread_of siteId d)) /\
    (forall w, fuse w = None -> getUnreadTopics siteId w = (Ok (select_unread_topics siteId (db w)), w)).
Proof.
  intros siteId d. cbv zeta. unfold select_unread_topics. fold (unread_of siteId d).
  destruct (grouped_spec (unread_of siteId d) [] (NoDup_nil _) (Forall_nil _))
    as (Hp & Hnd & Hne & Hin).
  cbv zeta in *. repeat split; try assumption.
  intros w Hf. unfold getUnreadTopics. apply query_calm. exact Hf.
Qed.

(** ** [getUnreadSummary] and [getTotalUnreadCount]: what the unread command prints *)

Lemma sumZ_app l1 l2 : sumZ (l1 ++ l2) = sumZ l1 + sumZ l2.
Proof. unfold sumZ. induction l1 as [|x l1 IH]; cbn; [reflexivity | rewrite IH; lia]. Qed.

Lemma sumZ_perm l1 l2 : Permutation l1 l2 -> sumZ l1 = sumZ l2.
Proof. unfold sumZ. induction 1; cbn; lia. Qed.

Lemma group_count_sum gs :
  sumZ (map group_count gs) = Z.of_nat (List.length (flat_map messageIds gs)).
Proof.
  induction gs as [|g gs IH]; cbn [map flat_map]; [reflexivity|].
  rewrite length_app, Nat2Z.inj_add, <- IH. reflexivity.
Qed.

Lemma insert_by_name_perm g l : Permutation (insert_by_name g l) (g :: l).
Proof.
  induction l as [|x l IH]; cbn [insert_by_name]; [reflexivity|].
  destruct (summary_before g x); [reflexivity|].
  rewrite IH. apply perm_swap.
Qed.

Lemma sorted_rows_perm gs : forall acc,
  Permutation (fold_left (fun acc g => insert_by_name g acc) gs acc) (acc ++ gs).
Proof.
  induction gs as [|g gs IH]; intros acc; cbn [fold_left].
  - rewrite app_nil_r. reflexivity.
  - rewrite IH, insert_by_name_perm. apply Permutation_middle.
Qed.

(** The rows of the summary are the groups of the plan, in another order. *)
Lemma summary_rows_perm siteId d :
  Permutation (select_unread_summary_rows siteId d) (select_unread_topics siteId d).
Proof. unfold select_unread_summary_rows. apply (sorted_rows_perm _ []). Qed.

Lemma add_to_summary_total g l :
  sumZ (map sum_totalCount (add_to_summary g l)) = sumZ (map sum_totalCount l) + group_count g.
Proof.
  unfold group_count.
  induction l as [|s l IH]; cbn [add_to_summary map]; cbv zeta.
  - cbn. lia.
  - destruct (String.eqb (sum_streamName s) (streamName g)); cbn [map sumZ fold_right sum_totalCount].
    + fold (sumZ (map sum_totalCount l)). lia.
    + fold (sumZ (map sum_totalCount (add_to_summary g l))).
      fold (sumZ (map sum_totalCount l)). unfold sumZ in *. lia.
Qed.

Lemma add_to_summary_adds_up g l :
  Forall (fun s => sum_totalCount s = sumZ (map st_count (sum_topics s))) l ->
  Forall (fun s => sum_totalCount s = sumZ (map st_count (sum_topics s))) (add_to_summary g l).
Proof.
  induction l as [|s l IH]; intros H; cbn [add_to_summary]; cbv zeta.
  - repeat constructor. cbn. lia.
  - inversion H as [|? ? Hs Hl]; subst.
    destruct (String.eqb (sum_streamName s) (streamName g)).
    + constructor; [|exact Hl]. cbn [sum_totalCount sum_topics].
      rewrite map_app, sumZ_app, Hs. cbn. lia.
    + constructor; [exact Hs | apply IH; exact Hl].
Qed.

Lemma summary_fold_total rows : forall acc,
  Forall (fun s => sum_totalCount s = sumZ (map st_count (sum_topics s))) acc ->
  let r := fold_left (fun acc g => add_to_summary g acc) rows acc in
  sumZ (map sum_totalCount r) = sumZ (map sum_totalCount acc) + sumZ (map group_count rows) /\
  Forall (fun s => sum_totalCount s = sumZ (map st_count (sum_topics s))) r.
Proof.
  induction rows as [|g rows IH]; intros acc Hacc; cbn [fold_left map].
  - cbn. split; [lia | exact Hacc].
  - destruct (IH (add_to_summary g acc) (add_to_summary_adds_up g acc Hacc)) as [H1 H2].
    cbv zeta in *. split; [|exact H2].
    rewrite H1, add_to_summary_total. cbn [sumZ fold_right].
    fold (sumZ (map group_count rows)). lia.
Qed.

(** The total of a store is the sum of the totals of its summary. *)
Lemma unread_summary_total siteId d :
  sumZ (map sum_totalCount (unread_summary siteId d))
  = Z.of_nat (List.length (unread_of siteId d)) /\
  Forall (fun s => sum_totalCount s = sumZ (map st_count (sum_topics s))) (unread_summary siteId d).
Proof.
  unfold unread_summary.
  destruct (summary_fold_total (select_unread_summary_rows siteId d) [] (Forall_nil _)) as [H1 H2].
  cbv zeta in *. split; [|exact H2]. rewrite H1. cbn [map sumZ fold_right].
  rewrite (sumZ_perm _ _ (Permutation_map group_count (summary_rows_perm siteId d))).
  rewrite group_count_sum.
  rewrite (Permutation_length (unread_topics_ids siteId d)), length_map. reflexivity.
Qed.

(** A run of [showUnreadForSite] that returns: its opening, then the two
    queries on the store the opening left. *)
Lemma showUnreadForSite_ok E name w total summary w' :
  showUnreadForSite E name w = (Ok (total, summary), w') ->
  exists client siteId w1,
    refreshUnread E name w = (Ok (client, siteId), w1) /\ db w' = db w1 /\
    total = Z.of_nat (List.length (unread_of siteId (db w1))) /\
    summary = unread_summary siteId (db w1).
Proof.
  intros H. unfold showUnreadForSite in H.
  apply bind_inv_ok in H. destruct H as ([client siteId] & w1 & Hr & H). cbv zeta in H.
  cbn [snd] in H.
  apply bind_inv_ok in H. destruct H as (t & w2 & Ht & H).
  apply bind_inv_ok in H. destruct H as (s & w3 & Hs & H).
  injection H as <- <- <-.
  unfold getTotalUnreadCount in Ht. apply query_ok in Ht. destruct Ht as [-> Hd2].
  unfold getUnreadSummary in Hs.
  apply bind_inv_ok in Hs. destruct Hs as (rows & w4 & Hq & Hs).
  apply query_ok in Hq. destruct Hq as [-> Hd4]. injection Hs as <- <-.
  exists client, siteId, w1. rewrite Hd4, Hd2. repeat split; try assumption.
Qed.

(** X11.  The figures of the unread command add up.  When
    [showUnreadForSite] returns, the total it prints in its heading is the
    number of unread rows the store holds for the site; it is the sum of the
    totals printed for the streams; and the total of each stream is the sum of
    the counts of its conversations. *)
Theorem unread_summary_adds_up :
  forall E name w total summary w',
    showUnreadForSite E name w = (Ok (total, summary), w') ->
    total = sumZ (map sum_totalCount summary) /\
    Forall (fun s => sum_totalCount s = sumZ (map st_count (sum_topics s))) summary /\
    exists r, select_site name (db w') = Some r /\
              total = Z.of_nat (List.length (unread_of (site_id r) (db w'))).
Proof.
  intros E name w total summary w' H.
  destruct (showUnreadForSite_ok E name w total summary w' H)
    as (client & siteId & w1 & Hr & Hd & -> & ->).
  destruct (unread_summary_total siteId (db w1)) as [H1 H2].
  split; [symmetry; exact H1|]. split; [exact H2|].
  destruct (refreshUnread_ok E name w client siteId w1 Hr) as (r & Hsel & Hid).
  exists r. rewrite Hd, Hid. auto.
Qed.

Lemma unread_summary_adds_up_witness :
  let r := showUnreadForSite (welcomeEnv 5) "alpha" initialWorld in
  1 = sumZ (map sum_totalCount
              [{| sum_streamName := "general"; sum_streamId := 7;
                  sum_topics := [{| st_topicName := "welcome"; st_count := 1 |}];
                  sum_totalCount := 1 |}]) /\
  Forall (fun s => sum_totalCount s = sumZ (map st_count (sum_topics s)))
         [{| sum_streamName := "general"; sum_streamId := 7;
             sum_topics := [{| st_topicName := "welcome"; st_count := 1 |}];
             sum_totalCount := 1 |}] /\
  exists r0, select_site "alpha" (db (snd r)) = Some r0 /\
             1 = Z.of_nat (List.length (unread_of (site_id r0) (db (snd r)))).
Proof.
  cbv zeta.
  apply (unread_summary_adds_up (welcomeEnv 5) "alpha" initialWorld 1
           [{| sum_streamName := "general"; sum_streamId := 7;
               sum_topics := [{| st_topicName := "welcome"; st_count := 1 |}];
               sum_totalCount := 1 |}]
           (snd (showUnreadForSite (welcomeEnv 5) "alpha" initialWorld))).
  vm_compute. reflexivity.
Defined.

(** ** The order of the summary *)

Lemma compare_refl s : String.compare s s = Eq.
Proof. apply OrderedTypeEx.String_as_OT.cmp_eq. reflexivity. Qed.

Lemma compare_gt_lt a b : String.compare a b = Gt <-> String.compare b a = Lt.
Proof.
  pose proof (OrderedTypeEx.String_as_OT.cmp_antisym a b) as H.
  unfold OrderedTypeEx.String_as_OT.cmp in H. rewrite H.
  destruct (String.compare b a); cbn; split; congruence.
Qed.

Lemma str_lt_trans a b c : str_lt a b -> str_lt b c -> str_lt a c.
Proof.
  unfold str_lt. intros H1 H2.
  apply OrderedTypeEx.String_as_OT.cmp_lt in H1, H2.
  apply OrderedTypeEx.String_as_OT.cmp_lt.
  eapply OrderedTypeEx.String_as_OT.lt_trans; eassumption.
Qed.

Lemma str_lt_irrefl a : ~ str_lt a a.
Proof. unfold str_lt. rewrite compare_refl. discriminate. Qed.

Lemma str_le_cases a b : str_le a b <-> str_lt a b \/ a = b.
Proof.
  unfold str_le, str_lt. destruct (String.compare a b) eqn:Hc.
  - apply OrderedTypeEx.String_as_OT.cmp_eq in Hc. split; [auto | discriminate].
  - split; [auto | discriminate].
  - split; [congruence|]. intros [H|H]; [discriminate|].
    subst. rewrite compare_refl in Hc. discriminate.
Qed.

Lemma str_le_trans a b c : str_le a b -> str_le b c -> str_le a c.
Proof.
  rewrite !str_le_cases. intros [H1| ->] [H2| ->]; auto.
  left. eapply str_lt_trans; eassumption.
Qed.

Lemma str_lt_le_trans a b c : str_lt a b -> str_le b c -> str_lt a c.
Proof. rewrite str_le_cases. intros H1 [H2| <-]; [eapply str_lt_trans; eassumption | exact H1]. Qed.

Lemma str_le_total a b : str_le a b \/ str_lt b a.
Proof.
  unfold str_le, str_lt. destruct (String.compare a b) eqn:Hc.
  - left; discriminate.
  - left; discriminate.
  - right. apply compare_gt_lt. exact Hc.
Qed.

(** [key_le a b]: by stream name, then by conversation name. *)
Lemma key_le_spec a b :
  key_le a b <->
  str_lt (streamName a) (streamName b) \/
  (streamName a = streamName b /\ str_le (topicName a) (topicName b)).
Proof.
  unfold key_le, summary_before, str_lt, str_le.
  destruct (String.compare (streamName b) (streamName a)) eqn:Hs.
  - apply OrderedTypeEx.String_as_OT.cmp_eq in Hs. rewrite Hs, compare_refl.
    destruct (String.compare (topicName b) (topicName a)) eqn:Ht.
    + apply OrderedTypeEx.String_as_OT.cmp_eq in Ht. rewrite Ht, compare_refl.
      split; [intros _; right; split; [reflexivity | discriminate] | reflexivity].
    + apply compare_gt_lt in Ht. rewrite Ht. split; [discriminate|].
      intros [H|[_ H]]; [discriminate | congruence].
    + split; [|reflexivity]. intros _. right. split; [reflexivity|].
      intros Hc. apply compare_gt_lt in Hc. congruence.
  - apply compare_gt_lt in Hs. rewrite Hs. split; [discriminate|].
    intros [H|[H _]]; [discriminate|]. rewrite H, compare_refl in Hs. discriminate.
  - split; [|reflexivity]. intros _. left.
    destruct (String.compare (streamName a) (streamName b)) eqn:Hc; [|reflexivity|].
    + apply OrderedTypeEx.String_as_OT.cmp_eq in Hc. rewrite Hc, compare_refl in Hs. discriminate.
    + apply compare_gt_lt in Hc. congruence.
Qed.

Lemma key_le_trans a b c : key_le a b -> key_le b c -> key_le a c.
Proof.
  rewrite !key_le_spec. intros [H1|[H1 T1]] [H2|[H2 T2]].
  - left. eapply str_lt_trans; eassumption.
  - left. rewrite <- H2. exact H1.
  - left. rewrite H1. exact H2.
  - right. split; [congruence | eapply str_le_trans; eassumption].
Qed.

Lemma key_le_total a b : key_le a b \/ summary_before a b = false.
Proof.
  destruct (summary_before a b) eqn:Hb; [left | right; reflexivity].
  apply key_le_spec. unfold summary_before in Hb.
  destruct (String.compare (streamName a) (streamName b)) eqn:Hs; [|left; exact Hs|discriminate].
  right. apply OrderedTypeEx.String_as_OT.cmp_eq in Hs. split; [exact Hs|].
  unfold str_le. destruct (String.compare (topicName a) (topicName b)); discriminate.
Qed.

Lemma insert_by_name_sorted g l :
  StronglySorted key_le l -> StronglySorted key_le (insert_by_name g l).
Proof.
  induction l as [|x l IH]; intros Hs; cbn [insert_by_name].
  - repeat constructor.
  - inversion Hs as [|? ? Hl Hx]; subst.
    destruct (summary_before g x) eqn:Hb.
    + assert (Hgx : key_le g x) by (destruct (key_le_total g x); [assumption | congruence]).
      constructor; [exact Hs|]. constructor; [exact Hgx|].
      eapply Forall_impl; [|exact Hx]. intros y Hy. eapply key_le_trans; eassumption.
    + constructor; [apply IH; exact Hl|].
      apply Forall_forall. intros y Hy.
      apply (Permutation_in _ (insert_by_name_perm g l)) in Hy.
      destruct Hy as [<-|Hy]; [exact Hb|].
      rewrite Forall_forall in Hx. apply Hx. exact Hy.
Qed.

Lemma summary_rows_sorted siteId d : StronglySorted key_le (select_unread_summary_rows siteId d).
Proof.
  unfold select_unread_summary_rows.
  assert (H : forall gs acc, StronglySorted key_le acc ->
            StronglySorted key_le (fold_left (fun acc g => insert_by_name g acc) gs acc)).
  { induction gs as [|g gs IH]; intros acc Hacc; cbn [fold_left]; [exact Hacc|].
    apply IH. apply insert_by_name_sorted. exact Hacc. }
  apply H. constructor.
Qed.

Lemma sorted_snoc {A} (R : A -> A -> Prop) (l : list A) (y : A) :
  StronglySorted R l -> Forall (fun x => R x y) l -> StronglySorted R (l ++ [y]).
Proof.
  induction l as [|x l IH]; intros Hs Hy; cbn [app].
  - repeat constructor.
  - inversion Hs as [|? ? Hl Hx]; subst. inversion Hy as [|? ? Hxy Hly]; subst.
    constructor; [apply IH; assumption|].
    apply Forall_app. split; [exact Hx | repeat constructor; exact Hxy].
Qed.

Lemma add_to_summary_names g l :
  map sum_streamName (add_to_summary g l)
  = if existsb (fun s => String.eqb (sum_streamName s) (streamName g)) l
    then map sum_streamName l
    else map sum_streamName l ++ [streamName g].
Proof.
  induction l as [|s l IH]; cbn [add_to_summary existsb map]; cbv zeta; [reflexivity|].
  destruct (String.eqb (sum_streamName s) (streamName g)); cbn [orb map]; [reflexivity|].
  rewrite IH. destruct (existsb _ l); reflexivity.
Qed.

Lemma add_to_summary_names_sorted g acc :
  StronglySorted str_lt (map sum_streamName acc) -> bounded g acc ->
  StronglySorted str_lt (map sum_streamName (add_to_summary g acc)).
Proof.
  intros Hn Hb. rewrite add_to_summary_names.
  destruct (existsb _ acc) eqn:Hex; [exact Hn|].
  apply sorted_snoc; [exact Hn|].
  apply Forall_forall. intros n Hin. apply in_map_iff in Hin. destruct Hin as (s & <- & Hs).
  destruct (Hb s Hs) as [Hne Ht].
  destruct (sum_topics s) as [|t ts]; [congruence|].
  inversion Ht as [|? ? [Hlt|[Heq _]] _]; subst; [exact Hlt|].
  exfalso. assert (Htrue : existsb (fun s0 => String.eqb (sum_streamName s0) (streamName g)) acc = true).
  { apply existsb_exists. exists s. split; [exact Hs | apply String.eqb_eq; exact Heq]. }
  congruence.
Qed.

Lemma add_to_summary_topics g acc :
  topics_sorted acc -> bounded g acc ->
  topics_sorted (add_to_summary g acc) /\
  forall g2, key_le g g2 -> bounded g2 acc -> bounded g2 (add_to_summary g acc).
Proof.
  unfold topics_sorted, bounded.
  induction acc as [|s acc IH]; intros Ht Hb; cbn [add_to_summary]; cbv zeta.
  - split; [repeat constructor|].
    intros g2 Hle _ s [<-|[]]. cbn [sum_topics sum_streamName]. split; [discriminate|].
    constructor; [|constructor]. cbn [st_topicName]. exact (proj1 (key_le_spec g g2) Hle).
  - inversion Ht as [|? ? Hs Hacc]; subst.
    destruct (String.eqb (sum_streamName s) (streamName g)) eqn:Heq.
    + apply String.eqb_eq in Heq. destruct (Hb s (or_introl eq_refl)) as [Hne Hts].
      split.
      * constructor; [|exact Hacc]. cbn [sum_topics]. rewrite map_app. cbn [map st_topicName].
        apply sorted_snoc; [exact Hs|].
        apply Forall_forall. intros n Hin. apply in_map_iff in Hin. destruct Hin as (t & <- & Hin).
        rewrite Forall_forall in Hts. destruct (Hts t Hin) as [Hlt|[_ Hle]]; [|exact Hle].
        exfalso. rewrite Heq in Hlt. exact (str_lt_irrefl _ Hlt).
      * intros g2 Hle Hb2 s' [<-|Hin]; [|apply Hb2; right; exact Hin].
        cbn [sum_topics sum_streamName]. destruct (Hb2 s (or_introl eq_refl)) as [_ Hts2].
        split; [destruct (sum_topics s); discriminate|].
        apply Forall_app. split; [exact Hts2|]. constructor; [|constructor]. cbn [st_topicName].
        rewrite Heq. exact (proj1 (key_le_spec g g2) Hle).
    + destruct (IH Hacc (fun s0 H0 => Hb s0 (or_intror H0))) as [IH1 IH2].
      split; [constructor; assumption|].
      intros g2 Hle Hb2 s' [<-|Hin]; [apply Hb2; left; reflexivity|].
      apply (IH2 g2 Hle (fun s0 H0 => Hb2 s0 (or_intror H0))). exact Hin.
Qed.

Lemma summary_fold_sorted rows : forall acc,
  StronglySorted key_le rows ->
  StronglySorted str_lt (map sum_streamName acc) -> topics_sorted acc ->
  (forall g, In g rows -> bounded g acc) ->
  (forall s, In s acc -> sum_topics s <> []) ->
  let r := fold_left (fun acc g => add_to_summary g acc) rows acc in
  StronglySorted str_lt (map sum_streamName r) /\ topics_sorted r /\
  (forall s, In s r -> sum_topics s <> []).
Proof.
  induction rows as [|g rows IH]; intros acc Hrows Hn Ht Hb Hne; cbn [fold_left].
  - auto.
  - inversion Hrows as [|? ? Hrest Hg]; subst.
    destruct (add_to_summary_topics g acc Ht (Hb g (or_introl eq_refl))) as [Ht' Hb'].
    apply IH.
    + exact Hrest.
    + apply add_to_summary_names_sorted; [exact Hn | apply Hb; left; reflexivity].
    + exact Ht'.
    + intros g2 Hin. apply Hb'; [|apply Hb; right; exact Hin].
      rewrite Forall_forall in Hg. apply Hg. exact Hin.
    + assert (Hself : bounded g (add_to_summary g acc)).
      { apply Hb'; [|apply Hb; left; reflexivity].
        apply (proj2 (key_le_spec g g)). right. split; [reflexivity|].
        apply str_le_cases. right. reflexivity. }
      intros s Hs. apply (Hself s Hs).
Qed.

Lemma sorted_lt_nodup l : StronglySorted str_lt l -> NoDup l.
Proof.
  induction 1 as [|x l _ IH Hx]; constructor; [|exact IH].
  intros Hin. rewrite Forall_forall in Hx. exact (str_lt_irrefl x (Hx x Hin)).
Qed.

(** X12.  The summary of the unread command lists every stream once, in
    the order of the stream names, and under each stream its conversations in
    the order of their names.  When [getUnreadSummary] returns: the stream
    names of its entries are strictly increasing (so no stream name comes
    twice, although the rows are grouped by stream identifier too); every
    entry has at least one conversation; and the conversation names of an
    entry never decrease. *)
Theorem unread_summary_ordered :
  forall siteId w summary w',
    getUnreadSummary siteId w = (Ok summary, w') ->
    StronglySorted str_lt (map sum_streamName summary) /\
    NoDup (map sum_streamName summary) /\
    Forall (fun s => sum_topics s <> [] /\
                     StronglySorted str_le (map st_topicName (sum_topics s))) summary.
Proof.
  intros siteId w summary w' H. unfold getUnreadSummary in H.
  apply bind_inv_ok in H. destruct H as (rows & w1 & Hq & H).
  apply query_ok in Hq. destruct Hq as [-> _]. injection H as <- _.
  assert (H0 : forall g, In g (select_unread_summary_rows siteId (db w)) -> bounded g [])
    by (intros g _ s []).
  destruct (summary_fold_sorted (select_unread_summary_rows siteId (db w)) []
              (summary_rows_sorted siteId (db w)) (SSorted_nil _) (Forall_nil _) H0
              (fun s (Hs : In s []) => match Hs with end))
    as (Hn & Ht & Hne).
  cbv zeta in *. split; [exact Hn|]. split; [apply sorted_lt_nodup; exact Hn|].
  apply Forall_forall. intros s Hs. split; [apply Hne; exact Hs|].
  unfold topics_sorted in Ht. rewrite Forall_forall in Ht. apply Ht. exact Hs.
Qed.

Lemma unread_summary_ordered_witness :
  let summary := unread_summary 1 (db twoStreamsUnread) in
  map sum_streamName summary = ["alpha"; "zeta"] /\
  StronglySorted str_lt (map sum_streamName summary) /\
  NoDup (map sum_streamName summary) /\
  Forall (fun s => sum_topics s <> [] /\
                   StronglySorted str_le (map st_topicName (sum_topics s))) summary.
Proof.
  cbv zeta. split; [reflexivity|].
  apply (unread_summary_ordered 1 twoStreamsUnread (unread_summary 1 (db twoStreamsUnread))
           twoStreamsUnread).
  reflexivity.
Defined.

(* ===================================================================== *)
(** * Reading a conversation back ([getTopicMessages] of the store) *)
(* ===================================================================== *)

Lemma insert_by_timestamp_perm m l : Permutation (insert_by_timestamp m l) (m :: l).
Proof.
  induction l as [|x l IH]; cbn [insert_by_timestamp]; [reflexivity|].
  destruct (sm_timestamp m <? sm_timestamp x); [reflexivity|].
  rewrite IH. apply perm_swap.
Qed.

Lemma insert_by_timestamp_sorted m l :
  StronglySorted by_timestamp l -> StronglySorted by_timestamp (insert_by_timestamp m l).
Proof.
  unfold by_timestamp.
  induction l as [|x l IH]; intros Hs; cbn [insert_by_timestamp].
  - repeat constructor.
  - inversion Hs as [|? ? Hl Hx]; subst.
    destruct (sm_timestamp m <? sm_timestamp x) eqn:Hb.
    + apply Z.ltb_lt in Hb. constructor; [exact Hs|]. constructor; [lia|].
      eapply Forall_impl; [|exact Hx]. cbn. intros y Hy. lia.
    + apply Z.ltb_ge in Hb. constructor; [apply IH; exact Hl|].
      apply Forall_forall. intros y Hy.
      apply (Permutation_in _ (insert_by_timestamp_perm m l)) in Hy.
      destruct Hy as [<-|Hy]; [exact Hb|].
      rewrite Forall_forall in Hx. apply Hx. exact Hy.
Qed.

Lemma sort_by_timestamp l : forall acc,
  StronglySorted by_timestamp acc ->
  StronglySorted by_timestamp (fold_left (fun acc m => insert_by_timestamp m acc) l acc) /\
  Permutation (fold_left (fun acc m => insert_by_timestamp m acc) l acc) (acc ++ l).
Proof.
  induction l as [|m l IH]; intros acc Hacc; cbn [fold_left].
  - rewrite app_nil_r. split; [exact Hacc | reflexivity].
  - destruct (IH _ (insert_by_timestamp_sorted m acc Hacc)) as [H1 H2].
    split; [exact H1|]. rewrite H2, insert_by_timestamp_perm. apply Permutation_middle.
Qed.

(** A join that can match one row at most. *)
Lemma flat_map_unique {A B} (p : A -> bool) (y : B) (l : list A) :
  NoDup l ->
  (forall a b, In a l -> In b l -> p a = true -> p b = true -> a = b) ->
  flat_map (fun x => if p x then [y] else []) l = if existsb p l then [y] else [].
Proof.
  induction l as [|x l IH]; intros Hnd Hu; cbn [flat_map existsb]; [reflexivity|].
  inversion Hnd as [|? ? Hx Hl]; subst.
  rewrite IH; [|exact Hl | intros a b Ha Hb; apply Hu; right; assumption].
  destruct (p x) eqn:Hp; cbn [orb app]; [|reflexivity].
  destruct (existsb p l) eqn:Hex; [|reflexivity].
  exfalso. apply existsb_exists in Hex. destruct Hex as (b & Hb & Hpb).
  apply Hx. rewrite (Hu x b (or_introl eq_refl) (or_intror Hb) Hp Hpb). exact Hb.
Qed.

Lemma NoDup_of_keys {A} (key : A -> Z) (l : list A) : NoDup (map key l) -> NoDup l.
Proof.
  induction l as [|x l IH]; intros H; [constructor|].
  cbn [map] in H. inversion H as [|? ? Hx Hl]; subst.
  constructor; [|apply IH; exact Hl]. intros Hin. apply Hx. apply in_map. exact Hin.
Qed.

(** With distinct primary keys, the join of [getTopicMessages] yields every
    message of the conversation once. *)
Lemma joined_filter siteId streamName topicName d :
  wf_keys d ->
  flat_map (fun m =>
    flat_map (fun t =>
      flat_map (fun s =>
        if (sm_topic_id m =? topic_row_id t) && (topic_stream_id t =? stream_row_id s)
           && (stream_site_id s =? siteId) && String.eqb (stream_name s) streamName
           && String.eqb (topic_name t) topicName
        then [m] else [])
      (tbl_streams d))
    (tbl_topics d))
  (tbl_messages d)
  = filter (in_conversation siteId streamName topicName d) (tbl_messages d).
Proof.
  intros [Ht Hs]. unfold in_conversation.
  induction (tbl_messages d) as [|m ms IH]; cbn [flat_map filter]; [reflexivity|].
  rewrite IH. clear IH.
  assert (Hinner : forall t,
    flat_map (fun s =>
        if (sm_topic_id m =? topic_row_id t) && (topic_stream_id t =? stream_row_id s)
           && (stream_site_id s =? siteId) && String.eqb (stream_name s) streamName
           && String.eqb (topic_name t) topicName
        then [m] else []) (tbl_streams d)
    = if existsb (fun s =>
           (sm_topic_id m =? topic_row_id t) && (topic_stream_id t =? stream_row_id s)
           && (stream_site_id s =? siteId) && String.eqb (stream_name s) streamName
           && String.eqb (topic_name t) topicName) (tbl_streams d)
      then [m] else []).
  { intros t. apply flat_map_unique; [apply (NoDup_of_keys stream_row_id); exact Hs|].
    intros a b Ha Hb Hpa Hpb. rewrite !andb_true_iff in Hpa, Hpb.
    destruct Hpa as [[[[_ Hpa] _] _] _]. destruct Hpb as [[[[_ Hpb] _] _] _].
    apply Z.eqb_eq in Hpa, Hpb.
    apply (NoDup_key_eq stream_row_id (tbl_streams d)); congruence. }
  rewrite (flat_map_ext _ _ Hinner).
  rewrite flat_map_unique; [destruct (existsb _ (tbl_topics d)); reflexivity | |].
  - apply (NoDup_of_keys topic_row_id). exact Ht.
  - intros a b Ha Hb Hpa Hpb. apply existsb_exists in Hpa, Hpb.
    destruct Hpa as (sa & _ & Hpa). destruct Hpb as (sb & _ & Hpb).
    rewrite !andb_true_iff in Hpa, Hpb.
    destruct Hpa as [[[[Hpa _] _] _] _]. destruct Hpb as [[[[Hpb _] _] _] _].
    apply Z.eqb_eq in Hpa, Hpb.
    apply (NoDup_key_eq topic_row_id (tbl_topics d)); congruence.
Qed.

(** X13.  Reading a conversation back gives its stored messages, oldest
    first.  The rows that the store's [getTopicMessages] returns for a site, a
    stream name and a conversation name are in the order of their time stamps;
    each is a stored message whose conversation row has that name and belongs
    to a stream row of that site with that name, and every such message is
    returned; and in a store with distinct primary keys every such message is
    returned exactly once. *)
Theorem getTopicMessages_sorted_and_exact :
  forall siteId streamName topicName d,
    let l := select_topic_messages siteId streamName topicName d in
    StronglySorted by_timestamp l /\
    (forall m, In m l <->
       In m (tbl_messages d) /\ in_conversation siteId streamName topicName d m = true) /\
    (wf_keys d ->
       Permutation l (filter (in_conversation siteId streamName topicName d) (tbl_messages d))) /\
    (forall w, fuse w = None ->
       db_getTopicMessages siteId streamName topicName w
       = (Ok (select_topic_messages siteId streamName topicName (db w)), w)).
Proof.
  intros siteId streamName topicName d. cbv zeta. unfold select_topic_messages.
  match goal with
  | |- StronglySorted _ (fold_left _ ?j _) /\ _ => set (joined := j)
  end.
  destruct (sort_by_timestamp joined [] (SSorted_nil _)) as [Hsorted Hperm].
  cbn [app] in Hperm.
  split; [exact Hsorted|]. split; [|split].
  - intros m. split.
    + intros Hin. apply (Permutation_in _ Hperm) in Hin. unfold joined in Hin.
      apply in_flat_map in Hin. destruct Hin as (m0 & Hm0 & Hin).
      apply in_flat_map in Hin. destruct Hin as (t & Ht & Hin).
      apply in_flat_map in Hin. destruct Hin as (s & Hs & Hin).
      destruct (_ && _) eqn:Hb in Hin; [|contradiction].
      destruct Hin as [<-|[]]. split; [exact Hm0|].
      unfold in_conversation. apply existsb_exists. exists t. split; [exact Ht|].
      apply existsb_exists. exists s. split; [exact Hs | exact Hb].
    + intros [Hm Hc]. apply (Permutation_in _ (Permutation_sym Hperm)). unfold joined.
      unfold in_conversation in Hc. apply existsb_exists in Hc. destruct Hc as (t & Ht & Hc).
      apply existsb_exists in Hc. destruct Hc as (s & Hs & Hc).
      apply in_flat_map. exists m. split; [exact Hm|].
      apply in_flat_map. exists t. split; [exact Ht|].
      apply in_flat_map. exists s. split; [exact Hs|]. rewrite Hc. left. reflexivity.
  - intros Hwf. rewrite Hperm. unfold joined. rewrite (joined_filter _ _ _ _ Hwf). reflexivity.
  - intros w Hf. unfold db_getTopicMessages. rewrite (query_calm _ w Hf). reflexivity.
Qed.

(* ===================================================================== *)
(** * The client: a fetch with enough requests ([src/api/client.ts]) *)
(* ===================================================================== *)

Section Pages.

Variable E : Env.
Variable client : ZulipClient.
Variable R : Remote.
Variable narrow : list NarrowFilter.

Hypothesis Hserver : internet E (site (credentials client)) = zulipServer R.
Hypothesis Hsorted : StronglySorted Z.lt (map zm_id (narrowed R narrow)).

(** With a request to spare for every thousand messages left, the loop of
    [getTopicMessages] returns all that was left from its anchor; it sends
    one request for every full page and one more. *)
Lemma getTopicMessages_loop_returns fuel :
  forall anchor acc w,
    net w = [] ->
    (List.length (rest_from anchor (narrowed R narrow)) < 1000 * fuel)%nat ->
    exists w' k,
      getTopicMessages_loop E fuel client narrow anchor acc w
      = (Ok (acc ++ rest_from anchor (narrowed R narrow)), w') /\
      (List.length (sent w') = List.length (sent w) + k)%nat /\
      (1000 * (k - 1) <= List.length (rest_from anchor (narrowed R narrow)) < 1000 * k)%nat /\
      (0 < k)%nat.
Proof.
  induction fuel as [|fuel IH]; intros anchor acc w Hn Hlen; [lia|].
  cbn [getTopicMessages_loop].
  rewrite (bind_ok _ _ _ (request_calm E client _ w Hn (reference_ok E client R Hserver _))).
  rewrite Hserver. cbn [zulipServer json].
  assert (Hres : gm_result (page (narrowed R narrow) anchor batchSize) = success)
    by (destruct anchor; reflexivity).
  rewrite Hres. cbv zeta.
  rewrite (page_new_messages (narrowed R narrow) anchor batchSize).
  rewrite page_found_newest.
  set (S0 := rest_from anchor (narrowed R narrow)) in *.
  set (new := firstn (Z.to_nat batchSize) S0) in *.
  assert (Hbatch : Z.to_nat batchSize = 1000%nat) by reflexivity.
  assert (Hnewlen : List.length new = Nat.min 1000 (List.length S0)).
  { subst new. rewrite Hbatch. apply length_firstn. }
  set (w1 := set_sent (sent w ++ [(site (credentials client),
                                   GET_messages narrow anchor 0 batchSize)]) w).
  assert (Hsent1 : List.length (sent w1) = (List.length (sent w) + 1)%nat).
  { subst w1. cbn [sent set_sent]. rewrite length_app. reflexivity. }
  destruct (Z.of_nat (List.length new) =? 0) eqn:Hzero.
  - apply Z.eqb_eq in Hzero.
    assert (HS : S0 = []).
    { destruct S0 as [|m S0']; [reflexivity|]. cbn [List.length] in Hnewlen. lia. }
    exists w1, 1%nat. rewrite HS, app_nil_r. cbn [List.length].
    repeat split; [exact Hsent1 | lia | lia | lia].
  - destruct ((List.length new <? Z.to_nat batchSize)%nat
              || (Z.of_nat (List.length new) <? batchSize)) eqn:Hend.
    + assert (Hshort : (List.length S0 < 1000)%nat).
      { apply orb_true_iff in Hend. destruct Hend as [Hend|Hend].
        - apply Nat.ltb_lt in Hend. lia.
        - apply Z.ltb_lt in Hend. unfold batchSize in Hend. lia. }
      assert (Hall : new = S0).
      { subst new. apply firstn_all2. lia. }
      exists w1, 1%nat. rewrite Hall. repeat split; [exact Hsent1 | lia | lia | lia].
    + apply orb_false_iff in Hend. destruct Hend as [Hend _]. apply Nat.ltb_ge in Hend.
      assert (Hfull : (1000 <= List.length S0)%nat) by lia.
      assert (Hne : new <> []).
      { intros E0. rewrite E0 in Hnewlen. cbn [List.length] in Hnewlen. lia. }
      assert (Hs0 : StronglySorted Z.lt (map zm_id S0)).
      { subst S0. destruct anchor; [exact Hsorted | apply sorted_filter; exact Hsorted]. }
      pose proof (sorted_after_prefix S0 Hs0 (Z.to_nat batchSize) Hne) as Hsplit.
      fold new in Hsplit.
      assert (Hrest : rest_from (anchorId (last_id new)) (narrowed R narrow)
                      = skipn (Z.to_nat batchSize) S0).
      { rewrite <- Hsplit. subst S0. destruct anchor as [|a]; [reflexivity|].
        cbn [rest_from]. symmetry. apply filter_filter_above.
        destruct (@last_id_In new Hne) as (m & Hm & ->).
        apply In_firstn_list in Hm. apply filter_In in Hm. destruct Hm as [_ Hm].
        apply Z.ltb_lt in Hm. lia. }
      assert (Hskip : List.length (skipn (Z.to_nat batchSize) S0) = (List.length S0 - 1000)%nat).
      { rewrite length_skipn, Hbatch. reflexivity. }
      destruct (IH (anchorId (last_id new)) (acc ++ new) w1) as (w' & k & Hrun & Hk1 & Hk2 & Hk3).
      * exact Hn.
      * rewrite Hrest, Hskip. lia.
      * exists w', (S k). rewrite Hrun, Hrest, <- app_assoc.
        unfold new. rewrite firstn_skipn.
        rewrite Hrest, Hskip in Hk2.
        repeat split; [lia | lia | lia | lia].
Qed.

End Pages.

(** X14.  [getTopicMessages] pages through a conversation of any length.
    Against the reference service, when no request fails, a fetch returns,
    in order, all the messages of the conversation that lie after its first
    anchor: the whole conversation when there is no watermark (or the
    watermark 0), the messages with an identifier above [W + 1] for the
    watermark [W].  It does so with one request for every full page of a
    thousand messages and one more, and leaves the store alone.  (The bound on
    the number of requests of the model only has to allow for these.) *)
Theorem getTopicMessages_pages_through :
  forall E client R streamName topicName afterMessageId fuel w,
    internet E (site (credentials client)) = zulipServer R ->
    well_formed_remote R ->
    net w = [] ->
    let rest := fetched afterMessageId
                  (find_conversation streamName topicName (remote_conversations R)) in
    (List.length rest < 1000 * fuel)%nat ->
    exists w' k,
      getTopicMessages E fuel client streamName topicName afterMessageId w = (Ok rest, w') /\
      db w' = db w /\
      (List.length (sent w') = List.length (sent w) + k)%nat /\
      (1000 * (k - 1) <= List.length rest < 1000 * k)%nat /\ (0 < k)%nat.
Proof.
  intros E client R streamName topicName afterMessageId fuel w Hserver Hremote Hn rest Hlen.
  set (narrow := [ {| operator := op_stream; operand := streamName |};
                   {| operator := op_topic; operand := topicName |} ]).
  assert (Hsorted : StronglySorted Z.lt (map zm_id (narrowed R narrow)))
    by (apply narrowed_increasing; exact Hremote).
  destruct (getTopicMessages_loop_returns E client R narrow Hserver Hsorted fuel
              (first_anchor afterMessageId) [] w Hn) as (w' & k & Hrun & Hk).
  - unfold narrow. rewrite narrowed_conversation. exact Hlen.
  - exists w', k. unfold getTopicMessages. fold narrow. rewrite Hrun.
    unfold narrow in *. rewrite narrowed_conversation in *. cbn [app].
    split; [reflexivity|]. split; [|exact Hk].
    pose proof (dbpure_getTopicMessages E fuel client streamName topicName afterMessageId w) as Hp.
    unfold getTopicMessages in Hp. rewrite Hrun in Hp. apply Hp.
Qed.

(** The five messages of general/welcome, from the watermark 2. *)
Lemma getTopicMessages_pages_through_witness :
  exists w' k,
    getTopicMessages (welcomeEnv 5) 1 alphaClient "general" "welcome" (Some 2) initialWorld
    = (Ok [message 4; message 5], w') /\
    db w' = db initialWorld /\
    (List.length (sent w') = List.length (sent initialWorld) + k)%nat /\
    (1000 * (k - 1) <= List.length [message 4; message 5] < 1000 * k)%nat /\ (0 < k)%nat.
Proof.
  apply (getTopicMessages_pages_through (welcomeEnv 5) alphaClient (welcomeRemote 5)
           "general" "welcome" (Some 2) 1 initialWorld).
  - reflexivity.
  - exact welcome_well_formed.
  - reflexivity.
  - vm_compute. lia.
Defined.

(* ===================================================================== *)
(** * Credentials ([src/config/credentials.ts]) *)
(* ===================================================================== *)




(* ===================================================================== *)
(** * The names of the streams ([streamMap]) *)
(* ===================================================================== *)

Lemma build_streamMap_rev subs : forall m,
  fold_left (fun m sub => map_set (si_stream_id sub) (si_name sub) m) subs m
  = map (fun sub => (si_stream_id sub, si_name sub)) (rev subs) ++ m.
Proof.
  induction subs as [|s subs IH]; intros m; cbn [fold_left rev map]; [reflexivity|].
  rewrite IH. unfold map_set. rewrite map_app, <- app_assoc. reflexivity.
Qed.

Lemma find_map_pair (k : Z) (l : list StreamInfo) :
  find (fun kv => fst kv =? k) (map (fun sub => (si_stream_id sub, si_name sub)) l)
  = option_map (fun sub => (si_stream_id sub, si_name sub))
               (find (fun sub => si_stream_id sub =? k) l).
Proof.
  induction l as [|s l IH]; cbn [map find option_map]; [reflexivity|].
  cbn [fst]. destruct (si_stream_id s =? k); [reflexivity | exact IH].
Qed.

(** X16.  The name recorded for the stream of an unread message is the name
    of the last subscription with its identifier; when no subscription has the
    identifier, or the name is empty, it is ["stream_"] followed by the
    identifier. *)
Theorem stream_name_lookup :
  forall subs streamId,
    stream_name_of (build_streamMap subs) streamId =
    match find (fun sub => si_stream_id sub =? streamId) (rev subs) with
    | Some sub => if String.eqb (si_name sub) "" then ("stream_" ++ string_of_Z streamId)%string
                  else si_name sub
    | None => ("stream_" ++ string_of_Z streamId)%string
    end.
Proof.
  intros subs streamId. unfold stream_name_of, build_streamMap, map_get.
  rewrite build_streamMap_rev, app_nil_r, find_map_pair.
  destruct (find _ (rev subs)) as [sub|]; reflexivity.
Qed.

(* ===================================================================== *)
(** * A register response that lists a message twice *)
(* ===================================================================== *)

Lemma insert_unread_rows_some rows : forall u u',
  insert_unread_rows rows u = Some u' ->
  NoDup (map unread_key rows) /\
  forall r' r, In r' u -> In r rows -> unread_key r' <> unread_key r.
Proof.
  unfold insert_unread_rows.
  induction rows as [|r rows IH]; intros u u' H; cbn [fold_left map] in *.
  - split; [constructor | intros ? ? _ []].
  - destruct (existsb _ u) eqn:Hex; [rewrite insert_unread_rows_none in H; discriminate|].
    destruct (IH _ _ H) as [Hnd Hfresh].
    assert (Hu : forall r', In r' u -> unread_key r' <> unread_key r).
    { intros r' Hin Heq. unfold unread_key in Heq. injection Heq as H1 H2.
      assert (Ht : existsb (fun r0 => (ur_site_id r0 =? ur_site_id r)
                               && (ur_message_id r0 =? ur_message_id r)) u = true).
      { apply existsb_exists. exists r'. split; [exact Hin|].
        rewrite H1, H2, !Z.eqb_refl. reflexivity. }
      congruence. }
    split.
    + constructor; [|exact Hnd]. intros Hin. apply in_map_iff in Hin.
      destruct Hin as (r2 & Hk & Hin2).
      apply (Hfresh r r2); [apply in_or_app; right; left; reflexivity | exact Hin2 | auto].
    + intros r' r2 Hin' [<-|Hin2]; [apply Hu; exact Hin'|].
      apply Hfresh; [apply in_or_app; left; exact Hin' | exact Hin2].
Qed.

Lemma NoDup_map_pair (siteId : Z) (l : list Z) :
  NoDup (map (fun i => (siteId, i)) l) -> NoDup l.
Proof.
  induction l as [|x l IH]; intros H; [constructor|].
  cbn [map] in H. inversion H as [|? ? Hx Hl]; subst.
  constructor; [|apply IH; exact Hl]. intros Hin. apply Hx.
  apply (in_map (fun i => (siteId, i))). exact Hin.
Qed.

(** X17.  A register response that lists a message twice wipes the unread
    rows of the site.  When the client is made, the register call answers and
    no statement of the store fails, but the response lists the same message
    identifier twice among the unread messages of the streams: the opening of
    the pass throws on the constraint of [unread_messages], so that both
    [showUnreadForSite] and [syncSite] end by that exception; the rows just
    inserted are rolled back, but the rows deleted before are not restored:
    the site is left with no unread row; the unread rows of the other sites are
    as they were. *)
Theorem duplicate_unread_ids_wipe_the_site :
  forall E name w client unreadMsgs subs w1,
    new_ZulipClient E (Some name) w = (Ok client, w) ->
    register E client w = (Ok (unreadMsgs, subs), w1) ->
    fuse w = None ->
    ~ NoDup (flat_map us_unread_message_ids (um_streams unreadMsgs)) ->
    let siteId := fst (with_site name (siteUrl client) (db w)) in
    exists w',
      showUnreadForSite E name w = (Throw SqliteError, w') /\
      (forall convert fuel, syncSite convert E fuel name w = (Throw SqliteError, w')) /\
      unread_of siteId (db w') = [] /\
      filter (fun r => negb (ur_site_id r =? siteId)) (tbl_unread (db w'))
      = filter (fun r => negb (ur_site_id r =? siteId)) (tbl_unread (db w)).
Proof.
  intros E name w client unreadMsgs subs w1 Hclient Hreg Hf Hdup siteId.
  pose proof (refreshUnread_calm E name w client (unreadMsgs, subs) w1 Hclient Hreg Hf) as Hr.
  assert (Hnone : refreshed name (siteUrl client) (unreadMsgs, subs) (db w) = None).
  { unfold refreshed. cbv zeta. cbn [fst snd]. fold siteId.
    destruct (insert_unread_rows _ _) as [u|] eqn:Hins; [|reflexivity].
    exfalso. apply Hdup. apply insert_unread_rows_some in Hins. destruct Hins as [Hnd _].
    rewrite unread_rows_keys in Hnd. exact (NoDup_map_pair siteId _ Hnd). }
  rewrite Hnone in Hr. fold siteId in Hr.
  eexists. split; [|split; [|split]].
  - unfold showUnreadForSite. rewrite (bind_throw _ _ _ Hr). reflexivity.
  - intros convert fuel. unfold syncSite. rewrite (bind_throw _ _ _ Hr). reflexivity.
  - unfold unread_of. cbn [db set_db tbl_unread set_unread].
    apply filter_none. intros r Hin. apply filter_In in Hin. destruct Hin as [_ Hb].
    apply negb_true_iff in Hb. exact Hb.
  - cbn [db set_db tbl_unread set_unread].
    destruct (with_site_tables name (siteUrl client) (db w)) as (_ & _ & _ & Hu).
    rewrite Hu. apply filter_twice.
Qed.

(** After a pass over alpha left the message 5 unread, the service answers
    the register call with the message 5 under two conversations. *)
Lemma duplicate_unread_ids_wipe_the_site_witness :
  map ur_message_id (unread_of 1 (db afterFirstSync)) = [5] /\
  exists w',
    showUnreadForSite duplicateEnv "alpha" afterFirstSync = (Throw SqliteError, w') /\
    (forall convert fuel,
       syncSite convert duplicateEnv fuel "alpha" afterFirstSync = (Throw SqliteError, w')) /\
    unread_of 1 (db w') = [] /\
    filter (fun r => negb (ur_site_id r =? 1)) (tbl_unread (db w'))
    = filter (fun r => negb (ur_site_id r =? 1)) (tbl_unread (db afterFirstSync)).
Proof.
  split; [reflexivity|].
  apply (duplicate_unread_ids_wipe_the_site duplicateEnv "alpha" afterFirstSync alphaClient
           {| um_streams := [unread_in "welcome" [5]; unread_in "other" [5]] |} [general]
           (snd (register duplicateEnv alphaClient afterFirstSync))).
  - vm_compute. reflexivity.
  - vm_compute. reflexivity.
  - reflexivity.
  - cbn. intros H. inversion H as [|x l Hx _]. apply Hx. left. reflexivity.
Defined.

(* ===================================================================== *)
(** * What a pass exports ([src/cli/sync.ts], [src/storage/json-export.ts]) *)
(* ===================================================================== *)

(** The stream row that [with_stream] leaves carries the name given. *)
Lemma with_stream_named siteId sid name d :
  exists r, select_stream siteId sid (snd (with_stream siteId sid name d)) = Some r /\
            stream_row_id r = fst (with_stream siteId sid name d) /\
            stream_name r = name /\ stream_site_id r = siteId.
Proof.
  unfold with_stream.
  destruct (select_stream siteId sid d) as [r0|] eqn:Hs; cbn [fst snd].
  - unfold after, update_stream_name, select_stream. cbn [tbl_streams set_streams].
    rewrite find_map_same
      by (intros x; destruct (stream_row_id x =? stream_row_id r0); reflexivity).
    fold (select_stream siteId sid d). rewrite Hs. cbn [option_map].
    rewrite Z.eqb_refl. eexists. split; [reflexivity|]. cbn.
    apply find_some in Hs. destruct Hs as [_ Hb]. apply andb_true_iff in Hb.
    destruct Hb as [Hb _]. apply Z.eqb_eq in Hb. auto.
  - unfold after, insert_stream, select_stream in *. cbn [tbl_streams set_streams].
    rewrite (find_app_none _ _ _ Hs). cbn. rewrite !Z.eqb_refl. cbn.
    eexists. split; [reflexivity|]. cbn. auto.
Qed.

Lemma storeBatch_ok convert tid batch w n w' :
  storeBatch convert tid batch w = (Ok n, w') ->
  db w' = stored_batch convert tid batch (db w).
Proof.
  intros H. unfold storeBatch in H.
  apply bind_inv_ok in H. destruct H as (inserted & w1 & Hins & H). cbv zeta in H.
  apply bind_inv_ok in H. destruct H as ([] & w2 & Hup & H). injection H as _ <-.
  destruct (insertMessages_cases convert tid batch w) as [(e & wx & Hx & _)|(wx & Hx & Hd & _)];
    rewrite Hx in Hins; [discriminate|].
  injection Hins as _ <-. unfold updateTopicLastMessageId in Hup. apply run_ok in Hup.
  unfold stored_batch, after. rewrite <- Hd, Hup. reflexivity.
Qed.

(** The rows that the store's [getTopicMessages] returns. *)
Lemma select_topic_messages_In siteId streamName topicName d m :
  In m (select_topic_messages siteId streamName topicName d) <->
  In m (tbl_messages d) /\ in_conversation siteId streamName topicName d m = true.
Proof.
  unfold select_topic_messages.
  match goal with
  | |- In _ (fold_left _ ?j _) <-> _ => set (joined := j)
  end.
  destruct (sort_by_timestamp joined [] (SSorted_nil _)) as [_ Hperm]. cbn [app] in Hperm.
  split.
  - intros Hin. apply (Permutation_in _ Hperm) in Hin. unfold joined in Hin.
    apply in_flat_map in Hin. destruct Hin as (m0 & Hm0 & Hin).
    apply in_flat_map in Hin. destruct Hin as (t & Ht & Hin).
    apply in_flat_map in Hin. destruct Hin as (s & Hs & Hin).
    destruct (_ && _) eqn:Hb in Hin; [|contradiction].
    destruct Hin as [<-|[]]. split; [exact Hm0|].
    unfold in_conversation. apply existsb_exists. exists t. split; [exact Ht|].
    apply existsb_exists. exists s. split; [exact Hs | exact Hb].
  - intros [Hm Hc]. apply (Permutation_in _ (Permutation_sym Hperm)). unfold joined.
    unfold in_conversation in Hc. apply existsb_exists in Hc. destruct Hc as (t & Ht & Hc).
    apply existsb_exists in Hc. destruct Hc as (s & Hs & Hc).
    apply in_flat_map. exists m. split; [exact Hm|].
    apply in_flat_map. exists t. split; [exact Ht|].
    apply in_flat_map. exists s. split; [exact Hs|]. rewrite Hc. left. reflexivity.
Qed.

(** The statements of the store and the requests write no file. *)
Lemma exported_kept {A} (m : M A) :
  makes (fun a b => exported b = exported a) m -> forall w, exported (snd (m w)) = exported w.
Proof. intros H w. exact (H w). Qed.

Lemma syncTopic_ok_inv convert E fuel client name siteId total topic w r w' :
  syncTopic convert E fuel client name siteId total topic w = (Ok r, w') ->
  exists sdb w1 tdb w2 w3 batch w4,
    getOrCreateStream siteId (streamId topic) (streamName topic) w = (Ok sdb, w1) /\
    getOrCreateTopic sdb (topicName topic) w1 = (Ok tdb, w2) /\
    getTopicLastMessageId tdb w2 = (Ok (watermark (db w2) tdb), w3) /\
    getTopicMessages E fuel client (streamName topic) (topicName topic)
      (num_or_undefined (watermark (db w2) tdb)) w3 = (Ok batch, w4) /\
    ((batch = [] /\ r = total /\ w' = w4) \/
     (batch <> [] /\ exists inserted w5 w6,
        storeBatch convert tdb batch w4 = (Ok inserted, w5) /\
        db_getTopicMessages siteId (streamName topic) (topicName topic) w5
        = (Ok (select_topic_messages siteId (streamName topic) (topicName topic) (db w5)), w6) /\
        exportTopicToJson name (streamName topic) (topicName topic)
          (select_topic_messages siteId (streamName topic) (topicName topic) (db w5))
          (messageIds topic) w6 = (Ok tt, w') /\
        r = total + inserted)).
Proof.
  intros H. unfold syncTopic in H.
  apply bind_inv_ok in H. destruct H as (sdb & w1 & H1 & H).
  apply bind_inv_ok in H. destruct H as (tdb & w2 & H2 & H).
  apply bind_inv_ok in H. destruct H as (last & w3 & H3 & H).
  apply bind_inv_ok in H. destruct H as (batch & w4 & H4 & H).
  pose proof H3 as H3'. unfold getTopicLastMessageId in H3'. apply query_ok in H3'.
  destruct H3' as [-> _]. fold (watermark (db w2) tdb) in *.
  exists sdb, w1, tdb, w2, w3, batch, w4. repeat split; try assumption.
  destruct batch as [|m batch'].
  - cbn in H. injection H as <- <-. left. auto.
  - right. split; [discriminate|].
    replace (0 <? Z.of_nat (List.length (m :: batch'))) with true in H
      by (symmetry; apply Z.ltb_lt; cbn; lia).
    apply bind_inv_ok in H. destruct H as (inserted & w5 & H5 & H).
    apply bind_inv_ok in H. destruct H as (stored & w6 & H6 & H).
    apply bind_inv_ok in H. destruct H as ([] & w7 & H7 & H). injection H as <- <-.
    pose proof H6 as H6'. unfold db_getTopicMessages in H6'. apply query_ok in H6'.
    destruct H6' as [-> _].
    exists inserted, w5, w6. auto.
Qed.

Lemma update_marks_rows x tid d a d' t :
  update_last_message_id x tid d = Ok (a, d') ->
  In t (tbl_topics d') -> topic_row_id t = tid -> last_message_id t = Some x.
Proof.
  intros H Hin Hid. injection H as _ <-. cbn [tbl_topics set_topics] in Hin.
  apply in_map_iff in Hin. destruct Hin as (t0 & <- & _).
  destruct (topic_row_id t0 =? tid) eqn:Heq; [reflexivity|].
  apply Z.eqb_neq in Heq. contradiction.
Qed.

(** X18.  What a pass stores for a conversation, it exports.  When the body
    of the loop of [syncSite] returns for a conversation: either nothing was
    fetched, and then no file is written and the count is as before; or
    exactly one file is written, for this site, stream and conversation, with
    the planned unread identifiers; the file holds what the store's
    [getTopicMessages] returns at the end; and that is every message stored
    under the row of the conversation, old or new, the message at the new
    watermark among them. *)
Theorem synced_conversation_is_exported :
  forall convert E fuel client name siteId total topic w r w',
    syncTopic convert E fuel client name siteId total topic w = (Ok r, w') ->
    (r = total /\ exported w' = exported w) \/
    (exists f trow x,
       exported w' = exported w ++ [f] /\
       ex_site f = name /\ ex_stream f = streamName topic /\ ex_topic f = topicName topic /\
       ex_unreadMessageIds f = messageIds topic /\
       ex_messages f
       = select_topic_messages siteId (streamName topic) (topicName topic) (db w') /\
       In trow (tbl_topics (db w')) /\ topic_name trow = topicName topic /\
       (forall m, In m (tbl_messages (db w')) -> sm_topic_id m = topic_row_id trow ->
          In m (ex_messages f)) /\
       last_message_id trow = Some x /\ In x (map sm_message_id (ex_messages f))).
Proof.
  intros convert E fuel client name siteId total topic w r w' H.
  destruct (syncTopic_ok_inv convert E fuel client name siteId total topic w r w' H)
    as (sdb & w1 & tdb & w2 & w3 & batch & w4 & H1 & H2 & H3 & H4 & Hcase).
  (* no file is written before the export *)
  set (K := fun a b : World => exported b = exported a).
  assert (Krefl : forall a, K a a) by reflexivity.
  assert (Ktrans : forall a b c, K a b -> K b c -> K a c) by (unfold K; congruence).
  assert (Kdb : forall a d, K a (set_db d a)) by reflexivity.
  assert (Kfuse : forall a f, K a (set_fuse f a)) by reflexivity.
  assert (Ksent : forall a url q, True -> K a (set_sent (sent a ++ [(url, q)]) a)) by reflexivity.
  assert (Knet : forall a rest, K a (set_net rest a)) by reflexivity.
  assert (E1 : exported w1 = exported w).
  { pose proof (makes_getOrCreateStream K Krefl Ktrans Kdb Kfuse siteId (streamId topic)
                  (streamName topic) w) as Hm. rewrite H1 in Hm. exact Hm. }
  assert (E2 : exported w2 = exported w1).
  { pose proof (makes_getOrCreateTopic K Krefl Ktrans Kdb Kfuse sdb (topicName topic) w1) as Hm.
    rewrite H2 in Hm. exact Hm. }
  assert (E3 : exported w3 = exported w2).
  { pose proof (makes_query K Krefl Ktrans Kfuse (select_last_message_id tdb) w2) as Hm.
    unfold getTopicLastMessageId in H3. rewrite H3 in Hm. exact Hm. }
  assert (E4 : exported w4 = exported w3).
  { pose proof (makes_getTopicMessages K (fun _ => True) Krefl Ktrans Ksent Knet E fuel client
                  (streamName topic) (topicName topic)
                  (num_or_undefined (watermark (db w2) tdb)) I w3) as Hm.
    rewrite H4 in Hm. exact Hm. }
  destruct Hcase as [(-> & -> & ->)|(Hne & inserted & w5 & w6 & H5 & H6 & H7 & ->)].
  { left. split; [reflexivity | congruence]. }
  right.
  assert (E5 : exported w5 = exported w4).
  { pose proof (makes_storeBatch K Krefl Ktrans Kdb Kfuse convert tdb batch w4) as Hm.
    rewrite H5 in Hm. exact Hm. }
  assert (E6 : exported w6 = exported w5 /\ db w6 = db w5).
  { pose proof (makes_query K Krefl Ktrans Kfuse
                  (select_topic_messages siteId (streamName topic) (topicName topic)) w5) as Hm.
    unfold db_getTopicMessages in H6. rewrite H6 in Hm. split; [exact Hm|].
    apply query_ok in H6. apply H6. }
  destruct E6 as [E6 D6].
  (* the store, step by step *)
  apply getOrCreateStream_ok in H1. destruct H1 as [Hsdb D1].
  apply getOrCreateTopic_ok in H2. destruct H2 as [Htdb D2].
  assert (D3 : db w3 = db w2).
  { unfold getTopicLastMessageId in H3. apply query_ok in H3. apply H3. }
  assert (D4 : db w4 = db w3).
  { pose proof (dbpure_getTopicMessages E fuel client (streamName topic) (topicName topic)
                  (num_or_undefined (watermark (db w2) tdb)) w3) as Hp.
    rewrite H4 in Hp. apply Hp. }
  apply storeBatch_ok in H5.
  assert (D7 : db w' = db w6 /\
               exists t, exported w' = exported w6 ++
                 [{| ex_site := name; ex_stream := streamName topic; ex_topic := topicName topic;
                     ex_messages := select_topic_messages siteId (streamName topic)
                                      (topicName topic) (db w5);
                     ex_unreadMessageIds := messageIds topic; ex_exportedAt := t |}]).
  { unfold exportTopicToJson, bind, now in H7. injection H7 as <-. cbn. eauto. }
  destruct D7 as [D7 (t & E7)].
  (* the rows of the stream and of the conversation *)
  destruct (with_stream_named siteId (streamId topic) (streamName topic) (db w))
    as (srow & Hsel & Hsid & Hsname & Hssite).
  rewrite <- D1, <- Hsdb in *.
  pose proof (find_some _ _ Hsel) as [Hsin _].
  destruct (with_topic_spec sdb (topicName topic) (db w1))
    as ((trow & Htsel & Htin & Htid & Htstream & Htname) & _ & _ & Hstreams2 & _).
  rewrite <- D2, <- Htdb in *.
  assert (Hd5 : db w5 = stored_batch convert tdb batch (db w2)) by congruence.
  destruct (stored_batch_spec convert tdb batch (db w2))
    as (Hstreams5 & _ & _ & Htopic5 & _).
  rewrite <- Hd5 in *.
  destruct (Htopic5 sdb (topicName topic) trow Htsel) as (trow' & Htsel' & Htid').
  pose proof (find_some _ _ Htsel') as [Htin' Htb'].
  apply andb_true_iff in Htb'. destruct Htb' as [Hb1 Hb2].
  apply Z.eqb_eq in Hb1. apply String.eqb_eq in Hb2.
  assert (Hd' : db w' = db w5) by congruence.
  (* every message of the row is read back *)
  assert (Hread : forall m, In m (tbl_messages (db w5)) -> sm_topic_id m = topic_row_id trow' ->
            In m (select_topic_messages siteId (streamName topic) (topicName topic) (db w5))).
  { intros m Hm Hmt. apply select_topic_messages_In. split; [exact Hm|].
    unfold in_conversation. apply existsb_exists. exists trow'. split; [exact Htin'|].
    apply existsb_exists. exists srow. split; [rewrite Hstreams5, Hstreams2; exact Hsin|].
    rewrite Hmt, Hb1, Hsid, Hssite, Hsname, Hb2, !Z.eqb_refl, !String.eqb_refl. reflexivity. }
  (* the watermark *)
  set (x := Math_max (map zm_id batch)).
  assert (Hu : update_last_message_id x tdb (insert_all convert tdb batch (db w2))
               = Ok (tt, db w5)).
  { rewrite Hd5. reflexivity. }
  assert (Hmark : last_message_id trow' = Some x).
  { eapply update_marks_rows; [exact Hu | exact Htin' | congruence]. }
  assert (Hstored : In x (map sm_message_id
            (select_topic_messages siteId (streamName topic) (topicName topic) (db w5)))).
  { assert (Hx : In x (map zm_id batch)) by (apply Math_max_In; destruct batch; [congruence | discriminate]).
    apply in_map_iff in Hx. destruct Hx as (m0 & Hm0 & Hin0).
    pose proof (insert_all_batch_stored convert tdb batch (db w2) m0 Hin0) as Hs.
    unfold stored_ids in Hs. apply in_map_iff in Hs. destruct Hs as (row & Hrow & Hrin).
    apply filter_In in Hrin. destruct Hrin as [Hrin Hrt]. apply Z.eqb_eq in Hrt.
    apply in_map_iff. exists row. split; [congruence|]. apply Hread; [|congruence].
    destruct (@update_last_message_id_tables x tdb _ tt (db w5) Hu) as (_ & _ & Hm5 & _).
    rewrite Hm5. exact Hrin. }
  eexists _, trow', x. rewrite E7, E6, E5, E4, E3, E2, E1, Hd'. cbn [ex_site ex_stream ex_topic
    ex_unreadMessageIds ex_messages].
  repeat split; try reflexivity; try assumption.
Qed.

(** The first pass over alpha, at general/welcome: five messages fetched. *)
Lemma synced_conversation_is_exported_witness :
  let r := syncTopic plain (welcomeEnv 5) 3 alphaClient "alpha" 1 0 welcomeTopic afterOpening in
  (5 = 0 /\ exported (snd r) = exported afterOpening) \/
  (exists f trow x,
     exported (snd r) = exported afterOpening ++ [f] /\
     ex_site f = "alpha" /\ ex_stream f = "general" /\ ex_topic f = "welcome" /\
     ex_unreadMessageIds f = [5] /\
     ex_messages f = select_topic_messages 1 "general" "welcome" (db (snd r)) /\
     In trow (tbl_topics (db (snd r))) /\ topic_name trow = "welcome" /\
     (forall m, In m (tbl_messages (db (snd r))) -> sm_topic_id m = topic_row_id trow ->
        In m (ex_messages f)) /\
     last_message_id trow = Some x /\ In x (map sm_message_id (ex_messages f))).
Proof.
  cbv zeta.
  apply (synced_conversation_is_exported plain (welcomeEnv 5) 3 alphaClient "alpha" 1 0
           welcomeTopic afterOpening 5
           (snd (syncTopic plain (welcomeEnv 5) 3 alphaClient "alpha" 1 0 welcomeTopic
                   afterOpening))).
  vm_compute. reflexivity.
Defined.

(* ===================================================================== *)
(** * File names ([sanitizeFilename] of [src/storage/json-export.ts]) *)
(* ===================================================================== *)

(** Facts on single characters, by cases on the eight bits. *)
Ltac by_bits c := destruct c as [[] [] [] [] [] [] [] []]; reflexivity.

Lemma lower_idem c : lower (lower c) = lower c.
Proof. by_bits c. Qed.

Lemma special_lower c : is_special (lower c) = is_special c.
Proof. by_bits c. Qed.

Lemma space_lower c : is_space (lower c) = is_space c.
Proof. by_bits c. Qed.

Lemma hyphen_lower c : is_hyphen (lower c) = is_hyphen c.
Proof. by_bits c. Qed.

Lemma ascii_lower c :
  (nat_of_ascii (lower c) <? 128)%nat = (nat_of_ascii c <? 128)%nat.
Proof. by_bits c. Qed.

Lemma hyphen_is c : is_hyphen c = true -> c = "-"%char.
Proof. unfold is_hyphen. apply Ascii.eqb_eq. Qed.

(** The characters of a string all satisfy [p]. *)
Lemma all_String (p : ascii -> bool) c s :
  forallb p (list_ascii_of_string (String c s)) = p c && forallb p (list_ascii_of_string s).
Proof. reflexivity. Qed.

(** What the two replacements put out is a hyphen or a character of the
    input. *)
Lemma replace_each_all (p q : ascii -> bool) s :
  q "-"%char = true -> forallb q (list_ascii_of_string s) = true ->
  forallb q (list_ascii_of_string (replace_each p s)) = true.
Proof.
  intros Hq. induction s as [|c s IH]; cbn [replace_each]; [reflexivity|].
  rewrite !all_String. intros H. apply andb_true_iff in H. destruct H as [Hc Hs].
  rewrite (IH Hs). destruct (p c); [rewrite Hq | rewrite Hc]; reflexivity.
Qed.

Lemma replace_runs_all (p q : ascii -> bool) s : forall b,
  q "-"%char = true -> forallb q (list_ascii_of_string s) = true ->
  forallb q (list_ascii_of_string (replace_runs p b s)) = true.
Proof.
  induction s as [|c s IH]; intros b Hq; cbn [replace_runs]; [reflexivity|].
  rewrite all_String. intros H. apply andb_true_iff in H. destruct H as [Hc Hs].
  destruct (p c); [destruct b|]; rewrite ?all_String, ?Hq, ?Hc; cbn [andb]; apply IH; assumption.
Qed.

Lemma toLowerCase_all (q : ascii -> bool) s :
  (forall c, q (lower c) = q c) -> forallb q (list_ascii_of_string s) = true ->
  forallb q (list_ascii_of_string (toLowerCase s)) = true.
Proof.
  intros Hq. induction s as [|c s IH]; cbn [toLowerCase]; [reflexivity|].
  rewrite !all_String, Hq. intros H. apply andb_true_iff in H. destruct H as [Hc Hs].
  rewrite Hc, (IH Hs). reflexivity.
Qed.

(** What each step of [sanitizeFilename] achieves. *)
Lemma replace_each_none p s :
  p "-"%char = false ->
  forallb (fun c => negb (p c)) (list_ascii_of_string (replace_each p s)) = true.
Proof.
  intros Hp. induction s as [|c s IH]; cbn [replace_each]; [reflexivity|].
  rewrite all_String, IH. destruct (p c) eqn:Hc; [rewrite Hp | rewrite Hc]; reflexivity.
Qed.

Lemma replace_runs_none p s : forall b,
  p "-"%char = false ->
  forallb (fun c => negb (p c)) (list_ascii_of_string (replace_runs p b s)) = true.
Proof.
  induction s as [|c s IH]; intros b Hp; cbn [replace_runs]; [reflexivity|].
  destruct (p c) eqn:Hc; [destruct b|]; rewrite ?all_String, ?Hp, ?Hc; cbn [negb andb];
    apply IH; exact Hp.
Qed.

Lemma replace_runs_no_pairs s : forall b,
  hyphen_pairs b (replace_runs is_hyphen b s) = false.
Proof.
  induction s as [|c s IH]; intros b; cbn [replace_runs]; [reflexivity|].
  destruct (is_hyphen c) eqn:Hc.
  - destruct b; [apply IH|]. cbn [hyphen_pairs andb orb]. apply IH.
  - cbn [hyphen_pairs]. rewrite Hc, andb_false_r. cbn [orb]. apply IH.
Qed.

Lemma toLowerCase_pairs s : forall b, hyphen_pairs b (toLowerCase s) = hyphen_pairs b s.
Proof.
  induction s as [|c s IH]; intros b; cbn [toLowerCase hyphen_pairs]; [reflexivity|].
  rewrite hyphen_lower, IH. reflexivity.
Qed.

Lemma toLowerCase_fixed s :
  forallb (fun c => Ascii.eqb (lower c) c) (list_ascii_of_string (toLowerCase s)) = true.
Proof.
  induction s as [|c s IH]; cbn [toLowerCase]; [reflexivity|].
  rewrite all_String, IH, lower_idem, Ascii.eqb_refl. reflexivity.
Qed.

(** The steps have nothing to do on a name that is clean. *)
Lemma replace_each_id p s :
  forallb (fun c => negb (p c)) (list_ascii_of_string s) = true -> replace_each p s = s.
Proof.
  induction s as [|c s IH]; cbn [replace_each]; [reflexivity|].
  rewrite all_String. intros H. apply andb_true_iff in H. destruct H as [Hc Hs].
  apply negb_true_iff in Hc. rewrite Hc, (IH Hs). reflexivity.
Qed.

Lemma replace_runs_id p s : forall b,
  forallb (fun c => negb (p c)) (list_ascii_of_string s) = true -> replace_runs p b s = s.
Proof.
  induction s as [|c s IH]; intros b; cbn [replace_runs]; [reflexivity|].
  rewrite all_String. intros H. apply andb_true_iff in H. destruct H as [Hc Hs].
  apply negb_true_iff in Hc. rewrite Hc, (IH false Hs). reflexivity.
Qed.

Lemma replace_hyphens_id s : forall b,
  hyphen_pairs b s = false -> replace_runs is_hyphen b s = s.
Proof.
  induction s as [|c s IH]; intros b; cbn [replace_runs hyphen_pairs]; [reflexivity|].
  intros H. apply orb_false_iff in H. destruct H as [Hb Hs].
  destruct (is_hyphen c) eqn:Hc.
  - rewrite andb_true_r in Hb. subst b. rewrite (IH true Hs).
    rewrite (hyphen_is c Hc). reflexivity.
  - rewrite (IH false Hs). reflexivity.
Qed.

Lemma toLowerCase_id s :
  forallb (fun c => Ascii.eqb (lower c) c) (list_ascii_of_string s) = true -> toLowerCase s = s.
Proof.
  induction s as [|c s IH]; cbn [toLowerCase]; [reflexivity|].
  rewrite all_String. intros H. apply andb_true_iff in H. destruct H as [Hc Hs].
  apply Ascii.eqb_eq in Hc. rewrite Hc, (IH Hs). reflexivity.
Qed.

Lemma forallb_and3 (p q r : ascii -> bool) l :
  forallb p l = true -> forallb q l = true -> forallb r l = true ->
  forallb (fun c => p c && q c && r c) l = true.
Proof.
  induction l as [|c l IH]; cbn [forallb]; [reflexivity|].
  intros Hp Hq Hr. apply andb_true_iff in Hp, Hq, Hr.
  destruct Hp as [-> Hp], Hq as [-> Hq], Hr as [-> Hr]. cbn. apply IH; assumption.
Qed.

Lemma forallb_and3_inv (p q r : ascii -> bool) l :
  forallb (fun c => p c && q c && r c) l = true ->
  forallb p l = true /\ forallb q l = true /\ forallb r l = true.
Proof.
  induction l as [|c l IH]; cbn [forallb]; [auto|].
  intros H. apply andb_true_iff in H. destruct H as [Hc Hl].
  apply andb_true_iff in Hc. destruct Hc as [Hc Hr]. apply andb_true_iff in Hc.
  destruct Hc as [Hp Hq]. destruct (IH Hl) as (H1 & H2 & H3).
  rewrite Hp, Hq, Hr, H1, H2, H3. auto.
Qed.

Lemma replace_runs_length p s : forall b,
  (String.length (replace_runs p b s) <= String.length s)%nat.
Proof.
  induction s as [|c s IH]; intros b; cbn [replace_runs String.length]; [lia|].
  destruct (p c); [destruct b|]; cbn [String.length];
    [specialize (IH true) | specialize (IH true) | specialize (IH false)]; lia.
Qed.

Lemma replace_each_length p s : String.length (replace_each p s) = String.length s.
Proof. induction s as [|c s IH]; cbn [replace_each String.length]; congruence. Qed.

Lemma toLowerCase_length s : String.length (toLowerCase s) = String.length s.
Proof. induction s as [|c s IH]; cbn [toLowerCase String.length]; congruence. Qed.

Lemma sanitizeFilename_is_clean name : clean_name (sanitizeFilename name).
Proof.
  unfold clean_name, sanitizeFilename. split.
  - apply forallb_and3.
    + apply toLowerCase_all; [intros c; rewrite special_lower; reflexivity|].
      apply replace_runs_all; [reflexivity|]. apply replace_runs_all; [reflexivity|].
      apply replace_each_none. reflexivity.
    + apply toLowerCase_all; [intros c; rewrite space_lower; reflexivity|].
      apply replace_runs_all; [reflexivity|]. apply replace_runs_none. reflexivity.
    + apply toLowerCase_fixed.
  - rewrite toLowerCase_pairs. apply replace_runs_no_pairs.
Qed.

Lemma sanitizeFilename_fixes_clean s : clean_name s -> sanitizeFilename s = s.
Proof.
  intros [Hall Hpairs]. apply forallb_and3_inv in Hall. destruct Hall as (H1 & H2 & H3).
  unfold sanitizeFilename.
  rewrite (replace_each_id is_special s H1), (replace_runs_id is_space s false H2),
          (replace_hyphens_id s false Hpairs).
  apply toLowerCase_id. exact H3.
Qed.

(** X19.  [sanitizeFilename] yields a name that is safe as a file name.
    For a name of ASCII characters, the result has none of the characters
    less-than, greater-than, colon, double quote, slash, backslash, bar,
    question mark and asterisk, no white space, no capital letter and no two
    hyphens in a row; it is made of ASCII characters and is no longer than the
    name. *)
Theorem sanitizeFilename_clean :
  forall name,
    ascii_name name ->
    clean_name (sanitizeFilename name) /\
    ascii_name (sanitizeFilename name) /\
    (String.length (sanitizeFilename name) <= String.length name)%nat.
Proof.
  intros name Hascii. split; [apply sanitizeFilename_is_clean|]. split.
  - unfold ascii_name, sanitizeFilename in *.
    apply toLowerCase_all; [apply ascii_lower|].
    apply replace_runs_all; [reflexivity|]. apply replace_runs_all; [reflexivity|].
    apply replace_each_all; [reflexivity | exact Hascii].
  - unfold sanitizeFilename. rewrite toLowerCase_length.
    eapply Nat.le_trans; [apply replace_runs_length|].
    eapply Nat.le_trans; [apply replace_runs_length|].
    rewrite replace_each_length. lia.
Qed.

Lemma sanitizeFilename_clean_witness :
  sanitizeFilename "Lean 4:  What is New?" = "lean-4-what-is-new-" /\
  clean_name (sanitizeFilename "Lean 4:  What is New?") /\
  ascii_name (sanitizeFilename "Lean 4:  What is New?") /\
  (String.length (sanitizeFilename "Lean 4:  What is New?")
   <= String.length "Lean 4:  What is New?")%nat.
Proof.
  split; [reflexivity|].
  apply (sanitizeFilename_clean "Lean 4:  What is New?"). reflexivity.
Defined.

(** X20.  [sanitizeFilename] is idempotent, and the names it leaves alone
    are the clean ones.  For a name of ASCII characters, sanitizing the
    result again changes nothing; and the name is its own result exactly when
    it is clean: none of the characters that are replaced, no white space,
    no capital letter, no two hyphens in a row. *)
Theorem sanitizeFilename_idempotent :
  forall name,
    ascii_name name ->
    sanitizeFilename (sanitizeFilename name) = sanitizeFilename name /\
    (clean_name name <-> sanitizeFilename name = name).
Proof.
  intros name _. split.
  - apply sanitizeFilename_fixes_clean. apply sanitizeFilename_is_clean.
  - split; [apply sanitizeFilename_fixes_clean|].
    intros H. rewrite <- H. apply sanitizeFilename_is_clean.
Qed.

Lemma sanitizeFilename_idempotent_witness :
  sanitizeFilename (sanitizeFilename "Lean 4:  What is New?")
  = sanitizeFilename "Lean 4:  What is New?" /\
  (clean_name "Lean 4:  What is New?" <->
   sanitizeFilename "Lean 4:  What is New?" = "Lean 4:  What is New?").
Proof.
  apply (sanitizeFilename_idempotent "Lean 4:  What is New?"). reflexivity.
Defined.

(* ===================================================================== *)
(** * The export command ([src/cli/export.ts]) *)
(* ===================================================================== *)

Lemma wrote_trans P a b c : wrote P a b -> wrote P b c -> wrote P a c.
Proof.
  intros (Hd1 & Hs1 & (l1 & He1 & Hl1) & (m1 & Hm1 & Hn1))
         (Hd2 & Hs2 & (l2 & He2 & Hl2) & (m2 & Hm2 & Hn2)).
  split; [congruence|]. split; [congruence|]. split.
  - exists (l1 ++ l2). rewrite He2, He1, app_assoc. split; [reflexivity|].
    apply Forall_app; split; assumption.
  - exists (m1 ++ m2). rewrite Hm2, Hm1, app_assoc. split; [reflexivity|].
    apply Forall_app; split; assumption.
Qed.

(** Nothing was written when the store, the requests and the files are the
    same. *)
Lemma wrote_nothing P x x' :
  db (world x') = db (world x) -> sent (world x') = sent (world x) ->
  exported (world x') = exported (world x) -> markdown x' = markdown x ->
  wrote P x x'.
Proof.
  intros Hd Hs He Hm. split; [exact Hd|]. split; [exact Hs|].
  split; exists []; rewrite app_nil_r; split; auto.
Qed.

Section Safe.

Variable d0 : DB.
Variable P : bool -> TopicExportJson -> Prop.

Lemma safe_ret {A} (a : A) (phi : A -> Prop) : phi a -> safe d0 P (xret a) phi.
Proof.
  intros Ha x _. split; [apply wrote_nothing; reflexivity|].
  cbn. intros b [= <-]. exact Ha.
Qed.

Lemma safe_exit {A} code (phi : A -> Prop) : safe d0 P (process_exit code) phi.
Proof. intros x _. split; [apply wrote_nothing; reflexivity|]. cbn. discriminate. Qed.

Lemma safe_type_error {A} (phi : A -> Prop) : safe d0 P type_error phi.
Proof. intros x _. split; [apply wrote_nothing; reflexivity|]. cbn. discriminate. Qed.

Lemma safe_bind {A B} (m : MX A) (f : A -> MX B) (phi : A -> Prop) (psi : B -> Prop) :
  safe d0 P m phi -> (forall a, phi a -> safe d0 P (f a) psi) -> safe d0 P (xbind m f) psi.
Proof.
  intros Hm Hf x Hx. destruct (Hm x Hx) as [Hw Hr]. unfold xbind.
  destruct (m x) as [[a|e| |code] x1]; cbn [fst snd] in *;
    try (split; [exact Hw | discriminate]).
  assert (Hx1 : db (world x1) = d0) by (destruct Hw as [Hd _]; congruence).
  destruct (Hf a (Hr a eq_refl) x1 Hx1) as [Hw' Hr'].
  split; [eapply wrote_trans; eassumption | exact Hr'].
Qed.

Lemma safe_weaken {A} (m : MX A) (phi psi : A -> Prop) :
  safe d0 P m phi -> (forall a, phi a -> psi a) -> safe d0 P m psi.
Proof. intros Hm H x Hx. destruct (Hm x Hx) as [Hw Hr]. split; auto. Qed.

Lemma safe_forOf {X A} (xs : list X) (body : A -> X -> MX A) :
  (forall acc x, safe d0 P (body acc x) (fun _ => True)) ->
  forall acc, safe d0 P (xforOf xs body acc) (fun _ => True).
Proof.
  intros Hb. induction xs as [|x xs IH]; intros acc; cbn [xforOf].
  - apply safe_ret. exact I.
  - eapply safe_bind; [apply Hb|]. intros a _. apply IH.
Qed.

Lemma safe_query {A} (q : DB -> A) : safe d0 P (lift (query q)) (fun a => a = q d0).
Proof.
  intros x Hx. unfold lift, query, bind, tick.
  destruct (fuse (world x)) as [[|k]|]; cbn [fst snd]; split;
    try (apply wrote_nothing; reflexivity); try discriminate;
    intros a [= <-]; cbn; rewrite Hx; reflexivity.
Qed.

Lemma safe_getDefaultSite E :
  safe d0 P (lift (getDefaultSite E))
       (fun a => exists c, credentialsFile E = Some c /\ a = default c).
Proof.
  intros x Hx. unfold lift, getDefaultSite, loadCredentials, bind.
  destruct (credentialsFile E) as [c|]; cbn [fst snd throw ret]; split;
    try (apply wrote_nothing; reflexivity); try discriminate.
  intros a [= <-]. exists c. auto.
Qed.

Lemma safe_exportTopicToJson siteName streamName topicName messages unreadIds :
  (forall t, P false {| ex_site := siteName; ex_stream := streamName; ex_topic := topicName;
                        ex_messages := messages; ex_unreadMessageIds := unreadIds;
                        ex_exportedAt := t |}) ->
  safe d0 P (lift (exportTopicToJson siteName streamName topicName messages unreadIds))
       (fun _ => True).
Proof.
  intros Hf x Hx. unfold lift, exportTopicToJson, bind, now. cbn. split; [|auto].
  split; [reflexivity|]. split; [reflexivity|]. split.
  - eexists. split; [reflexivity|]. constructor; [apply Hf | constructor].
  - exists []. rewrite app_nil_r. split; auto.
Qed.

Lemma safe_exportTopicToMarkdown siteName streamName topicName messages unreadIds :
  (forall t, P true {| ex_site := siteName; ex_stream := streamName; ex_topic := topicName;
                       ex_messages := messages; ex_unreadMessageIds := unreadIds;
                       ex_exportedAt := t |}) ->
  safe d0 P (exportTopicToMarkdown siteName streamName topicName messages unreadIds)
       (fun _ => True).
Proof.
  intros Hf x Hx. unfold exportTopicToMarkdown, xbind, lift, now. cbn. split; [|auto].
  split; [reflexivity|]. split; [reflexivity|]. split.
  - exists []. rewrite app_nil_r. split; auto.
  - eexists. split; [reflexivity|]. constructor; [apply Hf | constructor].
Qed.

Lemma safe_exportSingleTopic siteName siteId streamName topicName format unreadByTopic :
  (forall t, select_topic_messages siteId streamName topicName d0 <> [] ->
     P (String.eqb format "markdown")
       {| ex_site := siteName; ex_stream := streamName; ex_topic := topicName;
          ex_messages := select_topic_messages siteId streamName topicName d0;
          ex_unreadMessageIds := unread_ids_for streamName topicName unreadByTopic;
          ex_exportedAt := t |}) ->
  safe d0 P (exportSingleTopic siteName siteId streamName topicName format unreadByTopic)
       (fun _ => True).
Proof.
  intros Hf. unfold exportSingleTopic, db_getTopicMessages.
  eapply safe_bind; [apply safe_query|]. intros messages ->. cbv beta.
  destruct (select_topic_messages siteId streamName topicName d0) as [|m l] eqn:Hm.
  - cbn. apply safe_ret. exact I.
  - replace (Z.of_nat (List.length (m :: l)) =? 0) with false
      by (symmetry; apply Z.eqb_neq; cbn [List.length]; lia).
    cbv zeta. destruct (String.eqb format "markdown").
    + apply safe_exportTopicToMarkdown. intros t. apply Hf. discriminate.
    + apply safe_exportTopicToJson. intros t. apply Hf. discriminate.
Qed.

End Safe.

(** The command writes snapshots only. *)
Lemma safe_exportCommand E options d0 :
  safe d0 (snapshot E options d0) (exportCommand E options) (fun _ => True).
Proof.
  unfold exportCommand.
  eapply safe_bind with (phi := fun a => export_site E options = Some a).
  { unfold export_site. destruct (truthy (eo_site options)) as [s|].
    - apply safe_ret. reflexivity.
    - eapply safe_weaken; [apply safe_getDefaultSite|].
      intros a (c & -> & ->). reflexivity. }
  intros siteName Hsite. cbv zeta. unfold getSiteId, getUnreadTopics, getAllStreams, getTopicsForStream.
  eapply safe_bind; [apply safe_query|]. intros siteId ->. cbv beta.
  destruct (select_site siteName d0) as [r|] eqn:Hr; [|apply safe_exit].
  destruct (site_id r =? 0) eqn:Hz; [apply safe_exit|]. apply Z.eqb_neq in Hz.
  eapply safe_bind; [apply safe_query|]. intros unreadTopics ->.
  assert (Hone : forall s t,
    (forall s', truthy (eo_stream options) = Some s' -> s = s') ->
    (forall s' t', truthy (eo_stream options) = Some s' -> truthy (eo_topic options) = Some t' ->
       t = t') ->
    safe d0 (snapshot E options d0)
      (exportSingleTopic siteName (site_id r) s t (str_or (eo_format options) "json")
         (unread_by_topic (select_unread_topics (site_id r) d0))) (fun _ => True)).
  { intros s t Hs Ht. apply safe_exportSingleTopic. intros time Hne.
    unfold snapshot. cbn [ex_site ex_stream ex_topic ex_messages ex_unreadMessageIds].
    split; [reflexivity|]. split; [exact Hsite|]. split; [exact Hs|]. split; [exact Ht|].
    exists r. auto. }
  destruct (truthy (eo_stream options)) as [stream|] eqn:Hstream.
  - destruct (truthy (eo_topic options)) as [topic|] eqn:Htopic.
    + apply Hone; [intros s' [= <-]; reflexivity | intros s' t' _ [= <-]; reflexivity].
    + eapply safe_bind; [apply safe_query|]. intros row ->.
      destruct (select_stream_by_name (site_id r) stream d0) as [srow|].
      * eapply safe_bind; [apply safe_query|]. intros topics ->.
        apply safe_forOf. intros _ topic.
        apply Hone; [intros s' [= <-]; reflexivity | intros s' t' _ [=]].
      * eapply safe_bind; [apply safe_query|]. intros _ _. apply safe_exit.
  - eapply safe_bind; [apply safe_query|]. intros streams ->.
    destruct (Z.of_nat (List.length (select_all_streams (site_id r) d0)) =? 0); [apply safe_exit|].
    eapply safe_bind with (phi := fun _ => True); [|intros _ _; apply safe_ret; exact I].
    apply safe_forOf. intros total stream.
    eapply safe_bind; [apply safe_query|]. intros row ->.
    destruct (select_stream (site_id r) (se_streamId stream) d0) as [srow|]; [|apply safe_type_error].
    eapply safe_bind; [apply safe_query|]. intros topics ->.
    eapply safe_bind with (phi := fun _ => True); [|intros _ _; apply safe_ret; exact I].
    apply safe_forOf. intros _ topic. apply Hone; intros s'; [intros [=] | intros t' [=]].
Qed.

(** The same for the action of the entry point. *)
Lemma export_action_wrote E options x :
  wrote (snapshot E options (db (world x))) x (snd (export_action E options x)).
Proof.
  unfold export_action. cbv zeta.
  match goal with |- context [match ?m x with _ => _ end] =>
    assert (Hs : safe (db (world x)) (snapshot E options (db (world x))) m (fun _ => True))
  end.
  { eapply safe_bind with (phi := fun _ => True).
    { destruct (truthy (eo_topic options)), (truthy (eo_stream options));
        first [apply safe_exit | apply safe_ret; exact I]. }
    intros _ _. eapply safe_bind with (phi := fun _ => True).
    { destruct (truthy (eo_format options)) as [f|]; [|apply safe_ret; exact I].
      destruct (_ || _); [apply safe_ret; exact I | apply safe_exit]. }
    intros _ _. apply safe_exportCommand. }
  destruct (Hs x eq_refl) as [Hw _].
  match goal with |- context [match ?m x with _ => _ end] => destruct (m x) as [[a|e| |c] x'] end;
    exact Hw.
Qed.

Lemma skipn_length_app {A} (l l' : list A) : skipn (List.length l) (l ++ l') = l'.
Proof. induction l as [|a l IH]; [reflexivity | exact IH]. Qed.


(** X22.  Every file that the export writes is a snapshot of a stored
    conversation.  The file is of the requested site ([options.site], or the
    default of the credentials file), which has a row in [sites]; it is in
    the stream and the conversation that the options name, if they do; its
    messages are the stored messages of its conversation under that site,
    as [getTopicMessages] selects them from the store the command started
    on, and there is at least one; its unread identifiers are those that
    [unreadByTopic] holds under the key of the conversation. *)
Theorem exported_files_are_snapshots :
  forall E options x f,
    In f (new_files x (snd (export_action E options x))) ->
    let d := db (world x) in
    export_site E options = Some (ex_site f) /\
    (forall s, truthy (eo_stream options) = Some s -> ex_stream f = s) /\
    (forall s t, truthy (eo_stream options) = Some s -> truthy (eo_topic options) = Some t ->
       ex_topic f = t) /\
    exists r, select_site (ex_site f) d = Some r /\
      ex_messages f = select_topic_messages (site_id r) (ex_stream f) (ex_topic f) d /\
      ex_messages f <> [] /\
      ex_unreadMessageIds f
      = unread_ids_for (ex_stream f) (ex_topic f)
          (unread_by_topic (select_unread_topics (site_id r) d)).
Proof.
  intros E options x f Hin. cbv zeta.
  destruct (export_action_wrote E options x) as (_ & _ & (l & He & Hl) & (m & Hm & Hn)).
  unfold new_files in Hin. rewrite He, Hm, !skipn_length_app in Hin.
  assert (Hf : exists md, snapshot E options (db (world x)) md f).
  { apply in_app_or in Hin. rewrite Forall_forall in Hl, Hn.
    destruct Hin as [Hin|Hin]; eauto. }
  destruct Hf as (md & _ & Hsite & Hs & Ht & r & Hr & _ & Hmsgs & Hne & Hu).
  split; [exact Hsite|]. split; [exact Hs|]. split; [exact Ht|].
  exists r. auto.
Qed.

Lemma exported_files_are_snapshots_witness :
  new_files readyToExport (snd (export_action (welcomeEnv 5) (everything "markdown") readyToExport))
  = [{| ex_site := "alpha"; ex_stream := "general"; ex_topic := "welcome";
        ex_messages := select_topic_messages 1 "general" "welcome" (db afterFirstSync);
        ex_unreadMessageIds := [5]; ex_exportedAt := clock afterFirstSync |}] /\
  export_site (welcomeEnv 5) (everything "markdown") = Some "alpha" /\
  List.length (select_topic_messages 1 "general" "welcome" (db afterFirstSync)) = 5%nat.
Proof.
  assert (Hnew : new_files readyToExport
                   (snd (export_action (welcomeEnv 5) (everything "markdown") readyToExport))
                 = [{| ex_site := "alpha"; ex_stream := "general"; ex_topic := "welcome";
                       ex_messages := select_topic_messages 1 "general" "welcome" (db afterFirstSync);
                       ex_unreadMessageIds := [5]; ex_exportedAt := clock afterFirstSync |}])
    by (vm_compute; reflexivity).
  split; [exact Hnew|].
  destruct (exported_files_are_snapshots (welcomeEnv 5) (everything "markdown") readyToExport
              {| ex_site := "alpha"; ex_stream := "general"; ex_topic := "welcome";
                 ex_messages := select_topic_messages 1 "general" "welcome" (db afterFirstSync);
                 ex_unreadMessageIds := [5]; ex_exportedAt := clock afterFirstSync |})
    as (Hsite & _).
  - rewrite Hnew. left. reflexivity.
  - split; [exact Hsite | vm_compute; reflexivity].
Defined.

(* ===================================================================== *)
(** ** The unread identifiers of an exported conversation *)
(* ===================================================================== *)

(** The row [r] belongs to the group with the key [(i, s, t)]. *)
Lemma group_key_row g r :
  group_key g = row_group_key r <->
  (ur_stream_id r =? streamId g) && String.eqb (ur_stream_name r) (streamName g)
  && String.eqb (ur_topic_name r) (topicName g) = true.
Proof.
  unfold group_key, row_group_key. rewrite !andb_true_iff, Z.eqb_eq, !String.eqb_eq.
  split; [intros [= -> -> ->]; auto | intros [[<- <-] <-]; reflexivity].
Qed.

(** What a group holds after one more row. *)
Lemma add_to_group_cases r gs g' :
  NoDup (map group_key gs) -> In g' (add_to_group r gs) ->
  (group_key g' = row_group_key r /\
   ((exists g, In g gs /\ group_key g = group_key g' /\
               messageIds g' = messageIds g ++ [ur_message_id r]) \/
    ((forall g, In g gs -> group_key g <> row_group_key r) /\
     messageIds g' = [ur_message_id r]))) \/
  (group_key g' <> row_group_key r /\ In g' gs).
Proof.
  induction gs as [|g gs IH]; cbn [add_to_group map]; intros Hnd Hin.
  - destruct Hin as [<-|[]]. left. split; [reflexivity|]. right. split; [intros g []|reflexivity].
  - inversion Hnd as [|? ? Hfresh Hnd']; subst.
    destruct (_ && _) eqn:Hb.
    + apply group_key_matches in Hb. destruct Hin as [<-|Hin].
      * left. split; [exact Hb|]. left. exists g. split; [left; reflexivity|]. split; reflexivity.
      * right. split; [|right; exact Hin]. intros Hk. apply Hfresh.
        rewrite Hb, <- Hk. apply in_map. exact Hin.
    + assert (Hg : group_key g <> row_group_key r).
      { intros Hk. apply group_key_matches in Hk. congruence. }
      destruct Hin as [<-|Hin]; [right; split; [exact Hg | left; reflexivity]|].
      destruct (IH Hnd' Hin) as [[Hk [(g0 & Hg0 & Hk0 & Hids)|[Hnone Hids]]]|[Hk Hin']].
      * left. split; [exact Hk|]. left. exists g0. split; [right; exact Hg0 | auto].
      * left. split; [exact Hk|]. right. split; [|exact Hids].
        intros g1 [<-|Hg1]; [exact Hg | apply Hnone; exact Hg1].
      * right. split; [exact Hk | right; exact Hin'].
Qed.

Lemma add_to_group_key_kept r gs g :
  In g gs -> exists g', In g' (add_to_group r gs) /\ group_key g' = group_key g.
Proof.
  induction gs as [|g0 gs IH]; intros Hin; [contradiction|]. cbn [add_to_group].
  destruct (_ && _).
  - destruct Hin as [<-|Hin].
    + eexists. split; [left; reflexivity | reflexivity].
    + exists g. split; [right; exact Hin | reflexivity].
  - destruct Hin as [<-|Hin].
    + exists g0. split; [left; reflexivity | reflexivity].
    + destruct (IH Hin) as (g' & Hin' & Hk). exists g'. split; [right; exact Hin' | exact Hk].
Qed.

Lemma fold_left_snoc {A B} (f : A -> B -> A) l x a :
  fold_left f (l ++ [x]) a = f (fold_left f l a) x.
Proof. rewrite fold_left_app. reflexivity. Qed.

(** The groups of [getUnreadTopics], one by one: a group holds the messages
    of the rows of its key, in the order of the rows. *)
Lemma groups_hold_their_rows rows :
  let gs := fold_left (fun gs r => add_to_group r gs) rows [] in
  NoDup (map group_key gs) /\
  (forall r, In r rows -> exists g, In g gs /\ group_key g = row_group_key r) /\
  (forall g, In g gs ->
     messageIds g
     = map ur_message_id
         (filter (fun r => (ur_stream_id r =? streamId g)
                           && String.eqb (ur_stream_name r) (streamName g)
                           && String.eqb (ur_topic_name r) (topicName g)) rows) /\
     exists r, In r rows /\ group_key g = row_group_key r).
Proof.
  cbv zeta. induction rows as [|r rows IH] using rev_ind.
  - cbn. split; [constructor|]. split; [intros r []| intros g []].
  - rewrite fold_left_snoc.
    set (gs := fold_left (fun gs r => add_to_group r gs) rows []) in *.
    destruct IH as (Hnd & Hrows & Hgs).
    split; [apply add_to_group_nodup; exact Hnd|]. split.
    + intros r0 Hr0. apply in_app_or in Hr0. destruct Hr0 as [Hr0|[<-|[]]].
      * destruct (Hrows r0 Hr0) as (g & Hg & Hk).
        destruct (add_to_group_key_kept r gs g Hg) as (g' & Hg' & Hk').
        exists g'. split; [exact Hg' | congruence].
      * destruct (add_to_group_here r gs) as (g & Hg & Hk & _). exists g. auto.
    + intros g' Hg'. rewrite filter_app, map_app. cbn [filter].
      destruct (add_to_group_cases r gs g' Hnd Hg')
        as [[Hk [(g0 & Hg0 & Hk0 & Hids)|[Hnone Hids]]]|[Hk Hin']].
      * rewrite (proj1 (group_key_row g' r) Hk). cbn [map]. split.
        -- rewrite Hids. f_equal. destruct (Hgs g0 Hg0) as [-> _].
           unfold group_key in Hk0. injection Hk0 as -> -> ->. reflexivity.
        -- exists r. split; [apply in_or_app; right; left; reflexivity | exact Hk].
      * rewrite (proj1 (group_key_row g' r) Hk). cbn [map]. split.
        -- rewrite Hids.
           replace (filter _ rows) with (@nil UnreadRow); [reflexivity|].
           symmetry. apply filter_none. intros r0 Hr0.
           destruct (Hrows r0 Hr0) as (g & Hg & Hkg).
           destruct (_ && _) eqn:Hb; [|reflexivity]. exfalso.
           apply group_key_row in Hb. apply (Hnone g Hg). congruence.
        -- exists r. split; [apply in_or_app; right; left; reflexivity | exact Hk].
      * assert (Hb : (ur_stream_id r =? streamId g') && String.eqb (ur_stream_name r) (streamName g')
                     && String.eqb (ur_topic_name r) (topicName g') = false).
        { destruct (_ && _) eqn:Hb; [|reflexivity]. apply group_key_row in Hb. contradiction. }
        rewrite Hb. cbn [map]. rewrite app_nil_r.
        destruct (Hgs g' Hin') as [Hids (r0 & Hr0 & Hk0)]. split; [exact Hids|].
        exists r0. split; [apply in_or_app; left; exact Hr0 | exact Hk0].
Qed.

(** [Map.get] after [Map.set]. *)
Lemma Map_get_set k k' v m :
  Map_get k (Map_set k' v m) = if String.eqb k' k then Some v else Map_get k m.
Proof.
  unfold Map_get. induction m as [|[k0 v0] m IH]; cbn [Map_set find fst snd].
  - destruct (String.eqb k' k); reflexivity.
  - destruct (String.eqb k0 k') eqn:E0; cbn [find fst snd].
    + apply String.eqb_eq in E0. subst k0. destruct (String.eqb k' k); reflexivity.
    + destruct (String.eqb k0 k) eqn:E1.
      * apply String.eqb_eq in E1. subst k0. rewrite String.eqb_sym, E0. reflexivity.
      * exact IH.
Qed.

(** What [unreadByTopic] holds under a key: the messages of a group with
    that key, or nothing when no group has it. *)
Lemma unread_by_topic_get k gs : forall m,
  (exists g, In g gs /\ topic_key (streamName g) (topicName g) = k /\
     Map_get k (fold_left (fun m t => Map_set (topic_key (streamName t) (topicName t))
                                              (messageIds t) m) gs m)
     = Some (messageIds g)) \/
  ((forall g, In g gs -> topic_key (streamName g) (topicName g) <> k) /\
   Map_get k (fold_left (fun m t => Map_set (topic_key (streamName t) (topicName t))
                                            (messageIds t) m) gs m)
   = Map_get k m).
Proof.
  induction gs as [|g gs IH]; intros m; cbn [fold_left].
  - right. split; [intros g []|reflexivity].
  - destruct (IH (Map_set (topic_key (streamName g) (topicName g)) (messageIds g) m))
      as [(g' & Hg' & Hk & Hget)|[Hnone Hget]].
    + left. exists g'. split; [right; exact Hg' | auto].
    + rewrite Map_get_set in Hget.
      destruct (String.eqb (topic_key (streamName g) (topicName g)) k) eqn:Ek.
      * apply String.eqb_eq in Ek. left. exists g. split; [left; reflexivity | auto].
      * apply String.eqb_neq in Ek. right. split; [|exact Hget].
        intros g1 [<-|Hg1]; [exact Ek | apply Hnone; exact Hg1].
Qed.

(** The key of a conversation tells the conversation, when the names of the
    streams have no colon. *)
Lemma topic_key_inj s t s' t' :
  no_colon s -> no_colon s' -> topic_key s t = topic_key s' t' -> s = s' /\ t = t'.
Proof.
  unfold no_colon, topic_key. revert s'.
  induction s as [|c s IH]; intros [|c' s'] Hs Hs' Hk; cbn in Hk, Hs, Hs'.
  - injection Hk as ->. auto.
  - injection Hk as <- _. cbn in Hs'. discriminate.
  - injection Hk as -> _. cbn in Hs. discriminate.
  - injection Hk as -> Hk. apply andb_true_iff in Hs, Hs'.
    destruct (IH s' (proj2 Hs) (proj2 Hs') Hk) as [-> ->]. auto.
Qed.

Lemma filter_filter {A} (p q : A -> bool) l :
  filter q (filter p l) = filter (fun x => p x && q x) l.
Proof.
  induction l as [|x l IH]; cbn [filter]; [reflexivity|].
  destruct (p x); cbn [filter andb]; [destruct (q x)|]; rewrite IH; reflexivity.
Qed.

(** X23.  The unread identifiers that the export attaches to a conversation
    are those of the conversation, when stream names are plain.  If no
    stream name among the unread rows of the site has a colon, a name goes
    with one stream identifier there, and the name of the exported stream
    has no colon, then the identifiers found under the key of the
    conversation in [unreadByTopic] are the message identifiers of the
    unread rows of that site with that stream name and conversation name,
    in the order of the rows. *)
Theorem export_unread_ids_exact :
  forall siteId s t d,
    no_colon s -> plain_stream_names siteId d ->
    unread_ids_for s t (unread_by_topic (select_unread_topics siteId d))
    = map ur_message_id
        (filter (fun r => (ur_site_id r =? siteId) && String.eqb (ur_stream_name r) s
                          && String.eqb (ur_topic_name r) t) (tbl_unread d)).
Proof.
  intros siteId s t d Hs [Hplain Hone].
  assert (Hrows : forall r, In r (unread_of siteId d) ->
                    In r (tbl_unread d) /\ ur_site_id r = siteId).
  { intros r Hr. apply filter_In in Hr. destruct Hr as [Hr Hb]. apply Z.eqb_eq in Hb. auto. }
  assert (Hf : filter (fun r => (ur_site_id r =? siteId) && String.eqb (ur_stream_name r) s
                                && String.eqb (ur_topic_name r) t) (tbl_unread d)
               = filter (fun r => String.eqb (ur_stream_name r) s && String.eqb (ur_topic_name r) t)
                        (unread_of siteId d)).
  { unfold unread_of. rewrite filter_filter. apply filter_ext. intros r.
    rewrite andb_assoc. reflexivity. }
  rewrite Hf. clear Hf.
  unfold unread_ids_for, unread_by_topic, select_unread_topics. fold (unread_of siteId d).
  destruct (groups_hold_their_rows (unread_of siteId d)) as (Hnd & Hhave & Hgs).
  cbv zeta in *.
  set (gs := fold_left (fun gs r => add_to_group r gs) (unread_of siteId d) []) in *.
  destruct (unread_by_topic_get (topic_key s t) gs []) as [(g & Hg & Hk & ->)|[Hnone ->]].
  - destruct (Hgs g Hg) as [-> (r0 & Hr0 & Hk0)].
    unfold group_key, row_group_key in Hk0. injection Hk0 as Hid Hsn Htn.
    destruct (Hrows r0 Hr0) as [Hin0 Hsite0].
    assert (Hcol : no_colon (streamName g)) by (rewrite Hsn; apply Hplain; assumption).
    destruct (topic_key_inj (streamName g) (topicName g) s t Hcol Hs Hk) as [Hs' Ht'].
    f_equal. apply filter_ext_in. intros r Hr. destruct (Hrows r Hr) as [Hin Hsite].
    rewrite Hs', Ht'.
    destruct (String.eqb (ur_stream_name r) s) eqn:Es; [|rewrite andb_false_r; reflexivity].
    apply String.eqb_eq in Es.
    assert (Hsame : ur_stream_id r = streamId g).
    { rewrite Hid. apply Hone; try assumption. congruence. }
    rewrite Hsame, Z.eqb_refl. reflexivity.
  - cbn. replace (filter _ (unread_of siteId d)) with (@nil UnreadRow); [reflexivity|].
    symmetry. apply filter_none. intros r Hr.
    destruct (_ && _) eqn:Hb; [|reflexivity]. exfalso.
    apply andb_true_iff in Hb. destruct Hb as [Es Et].
    apply String.eqb_eq in Es, Et.
    destruct (Hhave r Hr) as (g & Hg & Hkg).
    unfold group_key, row_group_key in Hkg. injection Hkg as _ Hsn Htn.
    apply (Hnone g Hg). congruence.
Qed.

Lemma export_unread_ids_exact_witness :
  unread_ids_for "alpha" "c" (unread_by_topic (select_unread_topics 1 (db twoStreamsUnread)))
  = [12; 14].
Proof.
  rewrite (export_unread_ids_exact 1 "alpha" "c" (db twoStreamsUnread)).
  - reflexivity.
  - reflexivity.
  - split.
    + intros r Hr _. cbn in Hr. decompose [or] Hr; subst; try contradiction; reflexivity.
    + intros r1 r2 H1 H2 _ _. cbn in H1, H2.
      decompose [or] H1; decompose [or] H2; subst; try contradiction;
        cbn; intros E; try reflexivity; discriminate E.
Defined.

(* ===================================================================== *)
(** ** An export of everything, when nothing fails *)
(* ===================================================================== *)










